(* ===== verification/_CoqProject ===== *)
-Q . S2P
Prelude.v
Ffi.v
Lifetimes.v
Api.v
ArgConv.v
Types.v
DataType.v
Uuid.v
UuidText.v
DateTime.v
Inet.v
IpText.v
ConfigValue.v
Errors.v
LoadBalancing.v
ConfigSetters.v
ExecProfile.v
Cluster.v
Value.v
Serialize.v
Containers.v
Arc.v
Prepared.v
Statement.v
Batch.v
Future.v
FutureApi.v
Results.v
Metadata.v
Iterators.v
RetryPolicy.v
Runtime.v
Logging.v
Requests.v
Session.v
Ssl.v
Tls.v
EndToEnd.v
Testing.v
