(* ===== verification/Prelude.v ===== *)
(** * Verification of the ScyllaDB CPP RS driver

    The driver (src/scylla-rust-wrapper/src) implements the C API of the C/C++ driver,
    declared in src/include/cassandra.h, on top of the Rust driver.  Its functions take
    raw pointers and C strings, keep their objects behind [Box] and [Arc], and hand the
    work to the Rust driver, asynchronously where the network is involved.  This library
    is a shallow embedding of that layer: each object of the API is a record or an
    inductive type, each function a Rocq function, and code that runs concurrently a
    transition system.

    ** The program and its models

    Data crossing the API
    - Prelude: outcomes of a call (a panic is a result, since the crate aborts on one),
      Rust's [Result], machine integers, bytes, record update, lemmas on lists.
    - Ffi: the pointers of argconv.rs ([BoxFFI], [ArcFFI], [RefFFI]) over a memory of
      allocations with reference counts, in which using freed memory is undefined.
      Lifetimes: the driver and a client exchanging such pointers, with the contract the
      client has to keep.  Api: api.rs, the signature of every exported function.
    - Types: the enumerations of cassandra.h.  ArgConv: argconv.rs, strings read from and
      written to pointers, UTF-8 validation.  ConfigValue: config_value.rs.
    - Errors: cass_error.rs and the strings of cql_types/mod.rs.

    Data types and values
    - DataType: cql_types/data_type.rs.  Data types are shared and mutable, so they live in
      a heap; [dtree] is the tree a reference denotes.
    - Uuid, UuidText, DateTime, Inet, IpText: cql_types/uuid.rs, date_time.rs, inet.rs and
      host_listener.rs.
    - Value, Serialize: cql_types/value.rs, type checks when binding, and the bytes sent.
    - Containers: cql_types/collection.rs, tuple.rs, user_type.rs, vector.rs and the
      functions the macros of binding.rs generate.

    Configuration
    - LoadBalancing, ConfigSetters, ExecProfile, Cluster: load_balancing.rs,
      exec_profile.rs, cluster.rs and timestamp_generator.rs.  RetryPolicy: retry_policy.rs.
      Ssl: ssl.rs.  Tls: the TLS context that SSL objects, clusters and sessions share.
      Runtime: runtime.rs.  Logging: logging.rs.

    Statements and their execution
    - Arc: reference counting with [make_mut].  Prepared, Statement, Batch: the files of
      statements/.  The class [PreparedStore] of Statement is the interface to the shared
      prepared statements, with one instance that counts references and one in which each
      statement owns its copy.
    - Requests: what the futures of session.rs compute.  Session: connecting, closing and
      the lock of the session.  Future: future.rs, the task, waiting and callbacks of a
      future.  FutureApi: the functions of the C API on it.  EndToEnd: a session and the
      futures of its requests running together.

    What comes back
    - Results: query_result.rs.  Iterators: iterator.rs.  Metadata: metadata.rs and
      [cass_session_get_schema_meta].

    Tests
    - Testing: testing/integration.rs, what the integration tests see of a cluster, of the
      host that answered and of the hosts a request was tried on.

    A request goes through the models as it goes through the code: a statement is bound
    (Containers, Value, Statement), a session connected from a cluster (Cluster, Session)
    serves it (Requests, Serialize), the future reports it (Future, Errors) and the result
    is read (Results, Iterators).

    ** What is shown

    - Concurrency.  Future: no lost wake-up, no deadlock, one result, one callback.
      Once the result is there, waits end within a bounded number of steps.
      FutureApi: to its clients a future is a promise, and every call on it returns.
      EndToEnd: what clients read from the future of a request is the answer that the
      session open at that time gives to exactly this request ([expected]), and within a
      bounded number of steps everything is at rest and every call has returned.
      Session: for every interleaving of calls and tasks the session refines an
      open-or-closed contract, requests keep their connection, everything finishes.
      Prepared: the metadata cache is never stale.  Uuid: timestamps are unique.
      Runtime: runtimes are shared while they live.
    - Memory.  Lifetimes: a client that keeps the contract never meets freed memory, counts
      are exact, what is reachable is live and nothing is leaked unless references form a
      cycle ([cycle_leaks]).  Api: every exported function respects the ownership of the
      types it mentions, so the same holds for programs made of its calls.  Tls: a context
      lives as long as its last user.
    - Sharing.  Statement, Batch: copy-on-write refines owned copies.  DataType: on the
      heap the type check and the fully-typed test return and decide declarative relations
      ([compatible], [fully_typed]) on the trees, and the heap stays well formed.
    - Values.  Serialize and Iterators: a bound value is written and read back through the
      rows, getters and iterators; iterators and getters never panic on any bytes and give
      values of the right type.  Containers, Statement: bound values have the types of
      their places.  UuidText, IpText: the text of a UUID or an address reads back, and
      the texts read as a UUID are the four documented forms.  Metadata: the schema shown
      is that of the cluster.
    - Configuration.  Cluster, ExecProfile: no sequence of setters panics or leaves the
      configuration invalid, and a profile is what the last valid calls made it, by a
      contract written on settings ([spec_call], [spec_build]).  Session: a session is
      connected with the nodes, user, profiles, host filter and keyspace that the fields
      of its cluster say.  LoadBalancing: the host filter never rejects a host a policy
      accepts.  Ssl: no value of the flags weakens verification.
    - Errors.  Errors, Requests: no failure is reported as success, and the details of an
      error match its code.
    - Deviations.  Some theorems state behaviour the documentation contradicts, such as
      [ssl_chain_not_loaded], [tuple_iterator_out_of_step], [batch_ignores_names],
      [stale_dc_restriction] and [view_attached_to_every_table].

    ** Parameters

    The Rust driver, tokio, OpenSSL, the tracing and uuid crates are not part of the
    sources.  What is used of them are arguments: [Writers] (Value), [NativeReaders]
    (Results), [Driver] (Iterators), [DriverSession] (Requests), [LeafPolicies]
    (RetryPolicy), [OpenSSL] and [DocumentedVerification] (Ssl), [UuidCrate] with [UuidFormat] (UuidText),
    iteration orders of hash maps ([HashOrder]), the answers of the driver's session at
    any moment ([driver_at] of Session), and the failures that steps of the transition
    systems choose freely.  What is relied on of them is a hypothesis with an instance
    for which it holds.

    ** Fuel

    Functions that recurse over the heap of data types take fuel and return [Diverge] when
    it runs out; as many levels as there are cells are enough on an acyclic heap, as
    [data_type_heap_refines_tree] shows, and on a cyclic one no amount is.
    [drain] of Iterators and [fetch_pages] of Requests are the
    loops of a client and get as many steps as there are items, plus the last call that
    returns false.  [read_chain] of Ssl gets the length of its text, and [drop_all] of
    Ffi one step more than there are references held by objects.  The wait loops of
    Future, the retry loop of Uuid and the tasks of Session are step relations with a
    measure, not functions with fuel.

    ** Not modelled

    - Data races and overlapping exclusive references: memory is safe here if no freed or
      foreign object is used; the components model concurrent access where it is allowed.
    - Which objects each exported function links to which: Api gives its signature, and the
      links the driver makes are arbitrary steps of Lifetimes.
    - The texts of error messages, and what tracing does with an event.
    - Custom authenticators: the driver does not implement these functions.
    - Wake-ups of a task by tokio beyond "it may run", and time other than "the deadline
      has passed".
    - lib.rs (generated bindings and module declarations) and the unit tests.  Of the
      support for integration tests, Testing leaves out the setters of the sleeping
      listener, the variant of the retry policy that ignores errors, and stubs that return
      constants; the C++ helpers in src/src are only linked with those tests.
    - Variants of functions that only measure a nul-terminated string and call the variant
      with a length are definitions here, but are not listed one by one. *)

From Stdlib Require Import ZArith Lia.
From stdpp Require Import base list gmap strings.

Open Scope Z_scope.

(** ** Outcomes of a call

    The crate is compiled with [panic = "abort"] in every profile, so a panic
    is an observable result of a call.  [Diverge] is only produced by the
    functions that recurse over a heap of shared data types, when the fuel they
    are given is too small for the heap. *)

Inductive outcome (A : Type) : Type :=
| Ret (a : A)
| Panic
| Diverge.

Arguments Ret {A} a.
Arguments Panic {A}.
Arguments Diverge {A}.

(** Rust's [Result]. *)
Inductive result (E A : Type) : Type :=
| Ok (a : A)
| Err (e : E).

Arguments Ok {E A} a.
Arguments Err {E A} e.

#[global] Instance outcome_ret : MRet outcome := fun A a => Ret a.
#[global] Instance outcome_bind : MBind outcome := fun A B f m =>
  match m with Ret a => f a | Panic => Panic | Diverge => Diverge end.
#[global] Instance outcome_fmap : FMap outcome := fun A B f m =>
  match m with Ret a => Ret (f a) | Panic => Panic | Diverge => Diverge end.

#[global] Instance result_ret {E} : MRet (result E) := fun A a => Ok a.
#[global] Instance result_bind {E} : MBind (result E) := fun A B f m =>
  match m with Ok a => f a | Err e => Err e end.

#[global] Instance outcome_eq_dec `{EqDecision A} : EqDecision (outcome A).
Proof. solve_decision. Defined.
#[global] Instance result_eq_dec `{EqDecision E} `{EqDecision A} :
  EqDecision (result E A).
Proof. solve_decision. Defined.

(** Rust's short-circuiting [&&] and [Iterator::all] on calls that may panic. *)
Definition and_then (a b : outcome bool) : outcome bool :=
  x ← a; if (x : bool) then b else Ret false.

Section AllOutcome.
Context {A B : Type} (f : A -> outcome bool) (g : A -> B -> outcome bool).

Fixpoint all_outcome (l : list A) : outcome bool :=
  match l with
  | [] => Ret true
  | x :: l => and_then (f x) (all_outcome l)
  end.

(** [Iterator::zip] stops at the shorter list. *)
Fixpoint zip_all (l : list A) (k : list B) : outcome bool :=
  match l, k with
  | x :: l, y :: k => and_then (g x y) (zip_all l k)
  | _, _ => Ret true
  end.

End AllOutcome.

(** ** Machine integers

    A w-bit integer is a [Z]; [u w] and [i w] are the ranges and [wrap_u],
    [wrap_i] the two's complement truncations of Rust's [as] casts and
    [wrapping_*] methods. *)

Definition in_u (w z : Z) : Prop := 0 <= z < 2 ^ w.
Definition in_i (w z : Z) : Prop := - 2 ^ (w - 1) <= z < 2 ^ (w - 1).

Definition wrap_u (w z : Z) : Z := z mod 2 ^ w.
Definition wrap_i (w z : Z) : Z :=
  let m := z mod 2 ^ w in if m <? 2 ^ (w - 1) then m else m - 2 ^ w.

#[global] Instance in_u_dec w z : Decision (in_u w z).
Proof. unfold in_u; apply _. Defined.
#[global] Instance in_i_dec w z : Decision (in_i w z).
Proof. unfold in_i; apply _. Defined.

(** Rust's [u16::try_from], [i32::try_from] and the like. *)
Definition try_u (w z : Z) : option Z :=
  if (0 <=? z) && (z <? 2 ^ w) then Some z else None.
Definition try_i (w z : Z) : option Z :=
  if (- 2 ^ (w - 1) <=? z) && (z <? 2 ^ (w - 1)) then Some z else None.

(** Arithmetic on a w-bit unsigned integer: it wraps around in a build without
    overflow checks and panics in a build with them. *)
Definition arith_u (checks : bool) (w z : Z) : outcome Z :=
  if (0 <=? z) && (z <? 2 ^ w) then Ret z
  else if checks then Panic else Ret (wrap_u w z).

(** ** Bytes *)

(** A byte is an unsigned 8-bit [Z]. *)
Definition is_byte (b : Z) : Prop := 0 <= b < 256.

(** Big-endian bytes, as [to_be_bytes] writes and [from_be_bytes] reads them. *)
Fixpoint be_bytes (n : nat) (z : Z) : list Z :=
  match n with
  | O => []
  | S n => be_bytes n (z / 256) ++ [z mod 256]
  end.

Fixpoint be_value_acc (acc : Z) (bs : list Z) : Z :=
  match bs with
  | [] => acc
  | b :: bs => be_value_acc (acc * 256 + b) bs
  end.

Definition be_value (bs : list Z) : Z := be_value_acc 0 bs.

(** ** Records

    [r <| field := v |>] is the Rust assignment [r.field = v]; the setter of a
    field is derived from the eta expansion of its record. *)

Class Eta (R : Type) := eta : R -> R.
Class Update {R T : Type} (proj : R -> T) := update : T -> R -> R.
Arguments update {R T} proj {_} _ _.

Ltac derive_update proj :=
  match goal with
  | |- @Update ?R ?T _ =>
      let inst := constr:(_ : Eta R) in
      let inst := eval hnf in inst in
      let v := fresh "v" in
      let r := fresh "r" in
      intros v r;
      let e := eval cbv beta in (inst r) in
      let p := eval pattern (proj r) in e in
      match p with ?f _ => let t := eval cbv beta in (f v) in exact t end
  end.

#[export] Hint Extern 1 (Update ?proj) => derive_update proj : typeclass_instances.

Notation "r <| proj := v |>" := (update proj v r)
  (at level 1, left associativity, proj at level 9, v at level 200).
Notation "r <| proj ::= f |>" := (update proj (f (proj r)) r)
  (at level 1, left associativity, proj at level 9, f at level 200).

(** ** Object pointers

    [None] is the null pointer.  A function of the C API first rejects a null
    object, then works on the object behind the pointer. *)
Definition with_mut {A R} (null : R) (f : A -> R * A) (p : option A) : R * option A :=
  match p with
  | None => (null, None)
  | Some a => let '(r, a') := f a in (r, Some a')
  end.

(** ** Automation *)

Create HintDb cass.

(** Case analysis on the scrutinee of the innermost [match] or [if]. *)
Ltac case_match_in H :=
  match type of H with
  | context [match ?x with _ => _ end] =>
      let E := fresh "Heq" in destruct x eqn:E; try discriminate H
  end.

(** Inverts every equation between constructors of [outcome], [result] and
    [option] in the context. *)
Ltac inv_outcome :=
  repeat match goal with
  | H : Ret _ = Ret _ |- _ => injection H as H; subst
  | H : Ok _ = Ok _ |- _ => injection H as H; subst
  | H : Err _ = Err _ |- _ => injection H as H; subst
  | H : Ret _ = Panic |- _ => discriminate H
  | H : Panic = Ret _ |- _ => discriminate H
  | H : Diverge = Ret _ |- _ => discriminate H
  | H : Ok _ = Err _ |- _ => discriminate H
  | H : Err _ = Ok _ |- _ => discriminate H
  end.

(** Arithmetic with division and modulo by literals. *)
Ltac dm_lia := Z.div_mod_to_equations; lia.

(** ** Lemmas on outcomes *)

Lemma and_then_true a b : and_then a b = Ret true <-> a = Ret true /\ b = Ret true.
Proof.
  unfold and_then; destruct a as [[]| |]; simpl; split; intros; naive_solver.
Qed.

Lemma all_outcome_true {A} (f : A -> outcome bool) l :
  all_outcome f l = Ret true <-> Forall (fun x => f x = Ret true) l.
Proof.
  induction l as [|x l IH]; simpl; [split; [constructor|done]|].
  rewrite and_then_true, Forall_cons, IH. done.
Qed.

Lemma zip_all_true {A B} (f : A -> B -> outcome bool) l k :
  zip_all f l k = Ret true <->
  Forall (fun p => f p.1 p.2 = Ret true) (zip l k).
Proof.
  revert k; induction l as [|x l IH]; intros [|y k]; simpl;
    try (split; [constructor|done]).
  rewrite and_then_true, Forall_cons, IH. done.
Qed.

Lemma all_outcome_ext {A} (f g : A -> outcome bool) l :
  Forall (fun x => f x = g x) l -> all_outcome f l = all_outcome g l.
Proof. induction 1 as [|x l E _ IH]; simpl; congruence. Qed.

Lemma all_outcome_map {A B} (g : A -> B) (f : B -> outcome bool) l :
  all_outcome f (map g l) = all_outcome (fun x => f (g x)) l.
Proof. induction l as [|x l IH]; simpl; [done|]. by rewrite IH. Qed.

Lemma all_outcome_forallb {A} (f : A -> outcome bool) (g : A -> bool) l :
  Forall (fun x => f x = Ret (g x)) l -> all_outcome f l = Ret (forallb g l).
Proof.
  induction 1 as [|x l Hx _ IH]; simpl; [done|]. rewrite Hx, IH. by destruct (g x).
Qed.

Create Rewrite HintDb cass_rw.
#[export] Hint Rewrite @and_then_true @all_outcome_true @zip_all_true : cass_rw.

(** ** Lemmas on machine integers *)

Lemma wrap_u_range w z : 0 <= w -> in_u w (wrap_u w z).
Proof. intros; unfold in_u, wrap_u. apply Z.mod_pos_bound; lia. Qed.

Lemma wrap_u_id w z : in_u w z -> wrap_u w z = z.
Proof. intros; apply Z.mod_small; done. Qed.

Lemma wrap_i_id w z : 0 < w -> in_i w z -> wrap_i w z = z.
Proof.
  unfold in_i, wrap_i; intros Hw Hz.
  assert (E : 2 ^ w = 2 * 2 ^ (w - 1)).
  { rewrite <- Z.pow_succ_r by lia. f_equal; lia. }
  destruct (Z.leb_spec 0 z).
  - rewrite Z.mod_small by lia. destruct (Z.ltb_spec z (2 ^ (w - 1))); lia.
  - rewrite <- (Z.mod_add z 1 (2 ^ w)), Z.mod_small by lia.
    destruct (Z.ltb_spec (z + 1 * 2 ^ w) (2 ^ (w - 1))); lia.
Qed.

Lemma try_u_Some w z x : try_u w z = Some x <-> x = z /\ in_u w z.
Proof.
  unfold try_u, in_u.
  destruct (Z.leb_spec 0 z), (Z.ltb_spec z (2 ^ w)); simpl; naive_solver lia.
Qed.

Lemma try_u_None w z : try_u w z = None <-> ~ in_u w z.
Proof.
  unfold try_u, in_u.
  destruct (Z.leb_spec 0 z), (Z.ltb_spec z (2 ^ w)); simpl; naive_solver lia.
Qed.

Lemma arith_u_in checks w z : in_u w z -> arith_u checks w z = Ret z.
Proof.
  unfold arith_u, in_u. intros. destruct (Z.leb_spec 0 z), (Z.ltb_spec z (2 ^ w)); simpl; lia || done.
Qed.

Lemma arith_u_wraps w z : 0 <= w -> arith_u false w z = Ret (wrap_u w z).
Proof.
  intros Hw. unfold arith_u. destruct (Z.leb_spec 0 z), (Z.ltb_spec z (2 ^ w)); simpl; try done.
  by rewrite wrap_u_id.
Qed.

Lemma arith_u_out w z : ~ in_u w z -> arith_u true w z = Panic.
Proof.
  unfold arith_u, in_u. intros. destruct (Z.leb_spec 0 z), (Z.ltb_spec z (2 ^ w)); simpl; lia || done.
Qed.

#[export] Hint Resolve wrap_u_range : cass.

(** Joining bit fields that do not overlap is addition. *)
Lemma lor_add_pow2 k a b : 0 <= k -> 0 <= b < 2 ^ k -> Z.lor (a * 2 ^ k) b = a * 2 ^ k + b.
Proof.
  intros Hk Hb. rewrite <- Z.lxor_lor, <- Z.add_nocarry_lxor; [done|..];
  apply Z.bits_inj'; intros n Hn; rewrite Z.land_spec, Z.bits_0;
  rewrite <- (Z.mod_small b (2 ^ k)), <- Z.shiftl_mul_pow2 by done;
  (destruct (Z.lt_ge_cases n k);
    [by rewrite Z.shiftl_spec_low|by rewrite Z.mod_pow2_bits_high, andb_false_r]).
Qed.

Lemma lor_add_pow2' k a b : 0 <= k -> 0 <= a < 2 ^ k -> Z.lor a (b * 2 ^ k) = a + b * 2 ^ k.
Proof. intros. rewrite Z.lor_comm, lor_add_pow2 by done. lia. Qed.

Lemma lor_range k a b : 0 <= k -> 0 <= a < 2 ^ k -> 0 <= b < 2 ^ k -> 0 <= Z.lor a b < 2 ^ k.
Proof.
  intros Hk Ha Hb. rewrite <- (Z.mod_small a (2 ^ k)), <- (Z.mod_small b (2 ^ k)) by done.
  rewrite <- !Z.land_ones, <- Z.land_lor_distr_l, Z.land_ones by done.
  apply Z.mod_pos_bound. lia.
Qed.

(** Masking with a run of ones is a modulo, wherever the run starts. *)
Lemma land_ones_shifted x k m :
  0 <= k -> 0 <= m -> Z.land x (Z.ones m * 2 ^ k) = (x / 2 ^ k) mod 2 ^ m * 2 ^ k.
Proof.
  intros Hk Hm. rewrite <- !Z.shiftl_mul_pow2, <- Z.shiftr_div_pow2, <- Z.land_ones by done.
  apply Z.bits_inj'. intros n Hn. rewrite Z.land_spec.
  destruct (Z.lt_ge_cases n k).
  - by rewrite !Z.shiftl_spec_low, andb_false_r by done.
  - rewrite !Z.shiftl_spec_high, Z.land_spec, Z.shiftr_spec by lia. do 2 f_equal. lia.
Qed.

(** ** Lemmas on big-endian bytes *)

Lemma length_be_bytes n z : length (be_bytes n z) = n.
Proof.
  revert z; induction n as [|n IH]; intros; simpl; [done|].
  rewrite length_app, IH; simpl; lia.
Qed.

Lemma be_bytes_is_byte n z : Forall is_byte (be_bytes n z).
Proof.
  revert z; induction n as [|n IH]; intros z; simpl; [constructor|].
  apply Forall_app; split; [apply IH|].
  repeat constructor; pose proof (Z.mod_pos_bound z 256); lia.
Qed.

Lemma be_value_acc_app acc l k :
  be_value_acc acc (l ++ k) = be_value_acc (be_value_acc acc l) k.
Proof. revert acc; induction l; simpl; auto. Qed.

Lemma be_value_snoc l b : be_value (l ++ [b]) = be_value l * 256 + b.
Proof. unfold be_value. rewrite be_value_acc_app. done. Qed.

Lemma be_value_bytes n z : be_value (be_bytes n z) = z mod 256 ^ Z.of_nat n.
Proof.
  revert z; induction n as [|n IH]; intros z.
  - simpl. rewrite Z.mod_1_r. done.
  - cbn [be_bytes]. rewrite be_value_snoc, IH, Nat2Z.inj_succ, Z.pow_succ_r by lia.
    rewrite Z.rem_mul_r by lia. lia.
Qed.

Lemma be_value_bytes_id n z :
  0 <= z < 256 ^ Z.of_nat n -> be_value (be_bytes n z) = z.
Proof. intros. rewrite be_value_bytes. apply Z.mod_small; done. Qed.

Lemma be_bytes_value bs :
  Forall is_byte bs -> be_bytes (length bs) (be_value bs) = bs.
Proof.
  induction bs as [|b bs IH] using rev_ind; intros HF; [done|].
  apply Forall_app in HF as [HF Hb]. inversion Hb as [|? ? Hbb _]; subst.
  rewrite length_app, be_value_snoc; simpl. rewrite Nat.add_comm; simpl.
  unfold is_byte in Hbb.
  replace ((be_value bs * 256 + b) / 256) with (be_value bs) by dm_lia.
  replace ((be_value bs * 256 + b) mod 256) with b by dm_lia.
  rewrite IH; done.
Qed.

Lemma be_value_bound bs :
  Forall is_byte bs -> 0 <= be_value bs < 256 ^ Z.of_nat (length bs).
Proof.
  induction bs as [|b bs IH] using rev_ind; intros HF.
  - unfold be_value; simpl; lia.
  - apply Forall_app in HF as [HF Hb]. inversion Hb as [|? ? Hbb _]; subst.
    specialize (IH HF). unfold is_byte in Hbb.
    rewrite be_value_snoc, length_app; simpl length.
    rewrite Nat2Z.inj_add, Z.pow_add_r by lia. change (256 ^ Z.of_nat 1) with 256. nia.
Qed.

#[export] Hint Rewrite length_be_bytes : cass_rw.
#[export] Hint Resolve be_bytes_is_byte : cass.

(** ** Lemmas on lists *)

Lemma zip_lookup {A B} (l : list A) (k : list B) i a b :
  zip l k !! i = Some (a, b) <-> l !! i = Some a /\ k !! i = Some b.
Proof.
  revert k i; induction l as [|x l IH]; intros [|y k] [|i]; simpl; try naive_solver.
Qed.
