(* ===== verification/Ffi.v ===== *)
(** * Pointers handed to C (argconv.rs)

    An object that crosses the C API is a [Box], an [Arc], or a part of such an object; the
    traits [BoxFFI], [ArcFFI] and [RefFFI] turn them into raw pointers and back.  The memory
    is a map from addresses to objects with their strong counts and the references they
    hold, and every use of an address that is not allocated, or not allocated the way it is
    released, is [Undefined].  [Protocol] is what a client of the API may do with its
    pointers, and the theorems say that a client that keeps to it never meets [Undefined],
    whatever the bodies of the API do within the rules of Rust's type system. *)

From Stdlib Require Import Lia.
From stdpp Require Import base list gmap gmultiset relations.
From S2P Require Import Prelude.

Open Scope nat_scope.

Create Rewrite HintDb counting.
#[export] Hint Rewrite @list_to_set_disj_nil @list_to_set_disj_cons @list_to_set_disj_app
  @multiplicity_disj_union @multiplicity_empty @multiplicity_singleton
  @multiplicity_difference : counting.

(** Arithmetic on multiplicities of references. *)
Ltac count := autorewrite with counting in *; repeat case_decide; subst; try done; try lia.

Lemma tc_flip {A} (R : relation A) x y : tc (flip R) x y -> tc R y x.
Proof. induction 1 as [x y Hxy|x y z Hxy _ IH]; [by apply tc_once|by eapply tc_r]. Qed.

(** ** Undefined behaviour *)

Inductive safe (A : Type) : Type :=
| Done (a : A)
| Undefined.

Arguments Done {A} a.
Arguments Undefined {A}.

#[global] Instance safe_ret : MRet safe := fun A a => Done a.
#[global] Instance safe_bind : MBind safe := fun A B f m =>
  match m with Done a => f a | Undefined => Undefined end.

(** ** Kinds of types and of pointers *)

(** The associated type [Origin] of the trait [FFI]. *)
Inductive Origin := FromBox | FromArc | FromRef.

#[global] Instance Origin_eq_dec : EqDecision Origin.
Proof. solve_decision. Defined.

(** The types that implement [FFI], as the elements of [T]. *)
Class FFI (T : Type) := origin : T -> Origin.

(** The properties of [CassPtr]; a ['static] pointer owns what it points to. *)
Inductive Ownership := Shared | Exclusive.
Inductive CMutability := CConst | CMut.
Inductive Lifetime := Static | Borrow.

#[global] Instance Ownership_eq_dec : EqDecision Ownership.
Proof. solve_decision. Defined.
#[global] Instance CMutability_eq_dec : EqDecision CMutability.
Proof. solve_decision. Defined.
#[global] Instance Lifetime_eq_dec : EqDecision Lifetime.
Proof. solve_decision. Defined.

(** A raw pointer: [None] is null. *)
Notation raw := (option nat).

Record CassPtr (life : Lifetime) (o : Ownership) (cm : CMutability) := mkPtr { ptr : raw }.
Arguments mkPtr {life o cm} ptr.
Arguments ptr {life o cm} _.

Notation CassOwnedSharedPtr := (CassPtr Static Shared).
Notation CassBorrowedSharedPtr := (CassPtr Borrow Shared).
Notation CassOwnedExclusivePtr := (CassPtr Static Exclusive).
Notation CassBorrowedExclusivePtr := (CassPtr Borrow Exclusive).

Section Pointers.
Context {life : Lifetime} {o : Ownership} {cm : CMutability}.

Definition into_c_const (p : CassPtr life o cm) : CassPtr life o CConst := mkPtr (ptr p).
Definition null : CassPtr life o cm := mkPtr None.
Definition is_null (p : CassPtr life o cm) : bool := bool_decide (ptr p = None).
Definition from_raw (r : raw) : CassPtr life o cm := mkPtr r.
Definition to_raw (p : CassPtr life o cm) : raw := ptr p.
Definition borrow (p : CassPtr life o cm) : CassBorrowedSharedPtr cm := mkPtr (ptr p).

End Pointers.

Definition borrow_mut {life} (p : CassPtr life Exclusive CMut) : CassBorrowedExclusivePtr CMut :=
  mkPtr (ptr p).

(** ** The memory *)

Section Memory.
Context {T : Type} `{FFI T}.

(** An object: its type, its strong count (1 for what is not an [Arc]), and the boxes,
    [Arc]s and parts it consists of. *)
Record cell := mkCell { ty : T; strong : nat; holds : list nat }.

(** Addresses are not reused: a dangling pointer stays dangling. *)
Record mem := mkMem { cells : gmap nat cell; next : nat }.

(** [Box::new] and [Arc::new], and the construction of a part. *)
Definition alloc (t : T) (parts : list nat) (m : mem) : nat * mem :=
  (next m, mkMem (<[next m := mkCell t 1 parts]> (cells m)) (S (next m))).

Definition deref (l : nat) (m : mem) : safe cell :=
  match cells m !! l with Some c => Done c | None => Undefined end.

(** The object at [l], if it was allocated as [o] says. *)
Definition deref_as (o : Origin) (l : nat) (m : mem) : safe cell :=
  c ← deref l m; if decide (origin (ty c) = o) then Done c else Undefined.

Definition set_strong (n : nat) (c : cell) : cell := mkCell (ty c) n (holds c).
Definition set_holds (ls : list nat) (c : cell) : cell := mkCell (ty c) (strong c) ls.
Definition store (l : nat) (c : cell) (m : mem) : mem := mkMem (<[l := c]> (cells m)) (next m).

(** [Box::from_raw] and [Arc::from_raw]; a [Box] or [Arc] is its address. *)
Definition box_from_raw (l : nat) (m : mem) : safe nat := _ ← deref_as FromBox l m; Done l.
Definition arc_from_raw (l : nat) (m : mem) : safe nat := _ ← deref_as FromArc l m; Done l.

(** [Arc::clone] of an [Arc] the driver has; types that the client only borrows may be kept
    in an [Arc] as well. *)
Definition arc_clone (l : nat) (m : mem) : safe mem :=
  c ← deref l m; Done (store l (set_strong (S (strong c)) c) m).

Definition increment_strong_count (l : nat) (m : mem) : safe mem :=
  _ ← deref_as FromArc l m; arc_clone l m.

(** Dropping a list of references, depth first: the last reference to an object drops
    what the object holds. *)
Fixpoint drop_all (fuel : nat) (work : list nat) (m : mem) : safe mem :=
  match work with
  | [] => Done m
  | l :: work =>
      match fuel with
      | O => Undefined
      | S fuel =>
          c ← deref l m;
          if decide (strong c = 1) then
            drop_all fuel (holds c ++ work) (mkMem (delete l (cells m)) (next m))
          else drop_all fuel work (store l (set_strong (pred (strong c)) c) m)
      end
  end.

(** All references held by objects. *)
Definition held (cs : gmap nat cell) : gmultiset nat :=
  map_fold (fun _ c acc => list_to_set_disj (holds c) ⊎ acc) ∅ cs.

(** [mem::drop]: every reference is dropped at most once. *)
Definition drop (l : nat) (m : mem) : safe mem := drop_all (S (size (held (cells m)))) [l] m.

(** ** The conversions *)

Definition into_ref {life o cm} (p : CassPtr life o cm) (m : mem) : safe (option cell) :=
  match ptr p with None => Done None | Some l => c ← deref l m; Done (Some c) end.

Definition into_mut_ref {life cm} (p : CassPtr life Exclusive cm) (m : mem) : safe (option cell) :=
  match ptr p with None => Done None | Some l => c ← deref l m; Done (Some c) end.

Definition BoxFFI_into_ptr {cm} (b : nat) : CassOwnedExclusivePtr cm := from_raw (Some b).

Definition BoxFFI_from_ptr {cm} (p : CassOwnedExclusivePtr cm) (m : mem) : safe (option nat) :=
  match to_raw p with None => Done None | Some l => b ← box_from_raw l m; Done (Some b) end.

Definition BoxFFI_as_ref {life o cm} (p : CassPtr life o cm) (m : mem) : safe (option cell) :=
  into_ref p m.

Definition BoxFFI_as_mut_ref {life cm} (p : CassPtr life Exclusive cm) (m : mem) : safe (option cell) :=
  into_mut_ref p m.

Definition BoxFFI_free {cm} (p : CassOwnedExclusivePtr cm) (m : mem) : safe mem :=
  b ← BoxFFI_from_ptr p m; match b with None => Done m | Some b => drop b m end.

Definition ArcFFI_as_ptr {cm} (a : nat) : CassBorrowedSharedPtr cm := from_raw (Some a).

Definition ArcFFI_into_ptr {cm} (a : nat) : CassOwnedSharedPtr cm := from_raw (Some a).

Definition ArcFFI_from_ptr {cm} (p : CassOwnedSharedPtr cm) (m : mem) : safe (option nat) :=
  match to_raw p with None => Done None | Some l => a ← arc_from_raw l m; Done (Some a) end.

Definition ArcFFI_cloned_from_ptr {life cm} (p : CassPtr life Shared cm) (m : mem)
  : safe (option nat * mem) :=
  match to_raw p with
  | None => Done (None, m)
  | Some l => m ← increment_strong_count l m; a ← arc_from_raw l m; Done (Some a, m)
  end.

Definition ArcFFI_as_ref {life cm} (p : CassPtr life Shared cm) (m : mem) : safe (option cell) :=
  into_ref p m.

Definition ArcFFI_free {cm} (p : CassOwnedSharedPtr cm) (m : mem) : safe mem :=
  a ← ArcFFI_from_ptr p m; match a with None => Done m | Some a => drop a m end.

Definition RefFFI_as_ptr {cm} (r : nat) : CassBorrowedSharedPtr cm := from_raw (Some r).

(** [Weak::upgrade] gives an [Arc] while there is one; it is dropped at the end of the
    function. *)
Definition RefFFI_weak_as_ptr {cm} (w : nat) (m : mem) : safe (CassBorrowedSharedPtr cm * mem) :=
  match cells m !! w with
  | Some _ =>
      m ← arc_clone w m;
      m ← drop w m;
      Done (from_raw (Some w), m)
  | None => Done (null, m)
  end.

Definition RefFFI_as_ref {life cm} (p : CassPtr life Shared cm) (m : mem) : safe (option cell) :=
  into_ref p m.

(** ** Counting references *)

Notation refs ls := (list_to_set_disj ls : gmultiset nat).

(** The strong count of an object is the number of references to it, from [roots] and
    from other objects; a [Box] has only one, and nothing refers to an address that is not
    allocated. *)
Definition mem_ok (roots : gmultiset nat) (m : mem) : Prop :=
  (forall l c, cells m !! l = Some c ->
     l < next m /\ strong c = multiplicity l (roots ⊎ held (cells m)) /\ strong c <> 0 /\
     (origin (ty c) = FromBox -> strong c = 1)) /\
  (forall l, cells m !! l = None -> multiplicity l (roots ⊎ held (cells m)) = 0).

(** [a] refers to [b]. *)
Definition edge (m : mem) (a b : nat) : Prop := exists c, cells m !! a = Some c /\ b ∈ holds c.
Notation reach m := (rtc (edge m)).

Definition live (m : mem) (l : nat) : Prop := is_Some (cells m !! l).

(** What is left after dropping: fewer objects, holding what they held. *)
Definition shrinks (m m' : mem) : Prop :=
  forall l c', cells m' !! l = Some c' ->
    exists c, cells m !! l = Some c /\ ty c = ty c' /\ holds c = holds c'.

Lemma held_insert cs l c :
  cs !! l = None -> held (<[l := c]> cs) = refs (holds c) ⊎ held cs.
Proof.
  intros Hl. unfold held. rewrite map_fold_insert_L; [done| |done].
  intros. multiset_solver.
Qed.

Lemma held_delete cs l c :
  cs !! l = Some c -> held cs = refs (holds c) ⊎ held (delete l cs).
Proof.
  intros Hl. rewrite <- (insert_delete_id cs l c) at 1 by done.
  apply held_insert, lookup_delete_eq.
Qed.

Lemma held_update cs l c c' :
  cs !! l = Some c -> held (<[l := c']> cs) ⊎ refs (holds c) = held cs ⊎ refs (holds c').
Proof.
  intros Hl. rewrite <- insert_delete_eq, held_insert by apply lookup_delete_eq.
  rewrite (held_delete cs l c) by done. multiset_solver.
Qed.

Lemma held_keep cs l c c' :
  cs !! l = Some c -> holds c' = holds c -> held (<[l := c']> cs) = held cs.
Proof. intros Hl Hh. pose proof (held_update _ _ _ c' Hl) as E. rewrite Hh in E. multiset_solver. Qed.

Lemma elem_of_held cs l : l ∈ held cs <-> exists a c, cs !! a = Some c /\ l ∈ holds c.
Proof.
  induction cs as [|a c cs Ha IH] using map_ind.
  { split; [|intros (?&?&?&_); simplify_map_eq]. unfold held. rewrite map_fold_empty. multiset_solver. }
  rewrite held_insert, gmultiset_elem_of_disj_union, elem_of_list_to_set_disj, IH by done. split.
  - intros [Hl|(b&d&Hb&Hl)]; [exists a, c; by simplify_map_eq|].
    exists b, d. split; [|done]. rewrite lookup_insert_ne; [done|]. intros ->. congruence.
  - intros (b&d&Hb&Hl). destruct (decide (b = a)) as [->|Hne]; simplify_map_eq; eauto.
Qed.

Lemma mem_ok_live roots m l : mem_ok roots m -> l ∈ roots ⊎ held (cells m) -> live m l.
Proof.
  intros [_ Hnone] Hl. unfold live. destruct (cells m !! l) eqn:E; [eauto|].
  specialize (Hnone l E). rewrite elem_of_multiplicity in Hl. lia.
Qed.

Lemma mem_ok_edge roots m a b : mem_ok roots m -> edge m a b -> live m b.
Proof.
  intros Hok (c&Ha&Hb). eapply mem_ok_live; [done|]. apply gmultiset_elem_of_disj_union. right.
  apply elem_of_held. eauto.
Qed.

Lemma mem_ok_reach roots m a b : mem_ok roots m -> live m a -> reach m a b -> live m b.
Proof. intros Hok Ha Hr. induction Hr as [|a b d Hab _ IH]; [done|]. eauto using mem_ok_edge. Qed.

(** *** Dropping *)

Lemma size_refs ls : size (refs ls) = length ls.
Proof.
  induction ls as [|l ls IH]; [done|].
  rewrite list_to_set_disj_cons, gmultiset_size_disj_union, gmultiset_size_singleton, IH. done.
Qed.

Lemma drop_last_ok work roots m l c :
  mem_ok (refs (l :: work) ⊎ roots) m -> cells m !! l = Some c -> strong c = 1 ->
  mem_ok (refs (holds c ++ work) ⊎ roots) (mkMem (delete l (cells m)) (next m)).
Proof.
  intros [Hsome Hnone] Hl Hc. pose proof (held_delete _ _ _ Hl) as E.
  destruct (Hsome l c Hl) as (_&H1&_). rewrite Hc, E in H1. split; cbn.
  - intros l' c' Hl'. apply lookup_delete_Some in Hl' as [Hne Hl'].
    destruct (Hsome l' c' Hl') as (Hn&Hs&H0&Ho). split_and!; [done| |done|done].
    rewrite Hs, E. count.
  - intros l' Hl'. rewrite lookup_delete_None in Hl'.
    assert (multiplicity l' (refs work ⊎ roots ⊎ (refs (holds c) ⊎ held (delete l (cells m)))) = 0).
    { destruct Hl' as [<-|Hl']; [count|].
      specialize (Hnone l' Hl'). rewrite E in Hnone. count. }
    count.
Qed.

Lemma drop_shared_ok work roots m l c :
  mem_ok (refs (l :: work) ⊎ roots) m -> cells m !! l = Some c -> strong c <> 1 ->
  mem_ok (refs work ⊎ roots) (store l (set_strong (pred (strong c)) c) m).
Proof.
  intros [Hsome Hnone] Hl Hc. unfold store.
  assert (E : held (<[l := set_strong (pred (strong c)) c]> (cells m)) = held (cells m))
    by by apply (held_keep _ _ c).
  split; cbn; rewrite E.
  - intros l' c' Hl'. destruct (decide (l' = l)) as [->|Hne]; simplify_map_eq.
    + destruct (Hsome l c Hl) as (Hn&Hs&H0&Ho). cbn.
      split_and!; [done|count|lia|intros Hno; specialize (Ho Hno); lia].
    + destruct (Hsome l' c' Hl') as (Hn&Hs&H0&Ho). split_and!; [done| |done|done].
      count.
  - intros l' Hl'. apply lookup_insert_None in Hl' as [Hl' Hne]. specialize (Hnone l' Hl'). count.
Qed.

(** Dropping references that are accounted for is defined, whatever it sets off. *)
Lemma drop_all_ok fuel : forall work roots m,
  mem_ok (refs work ⊎ roots) m -> size (held (cells m)) + length work <= fuel ->
  exists m', drop_all fuel work m = Done m' /\ mem_ok roots m' /\ shrinks m m' /\ next m' = next m.
Proof.
  induction fuel as [|fuel IH]; intros [|l work] roots m Hok Hf; cbn [length] in Hf; try lia.
  1-2: exists m; split; [done|]; split; [|split; [|done]];
    [by rewrite list_to_set_disj_nil, (left_id_L ∅ (⊎)) in Hok|intros l c' Hl; eauto].
  assert (Hl : live m l).
  { eapply mem_ok_live; [done|]. rewrite list_to_set_disj_cons. multiset_solver. }
  destruct Hl as [c Hl]. cbn [drop_all]. unfold deref. rewrite Hl. cbn [mbind safe_bind].
  destruct (decide (strong c = 1)) as [H1|H1].
  - pose proof (held_delete _ _ _ Hl) as E.
    destruct (IH (holds c ++ work) roots (mkMem (delete l (cells m)) (next m))) as (m'&Hd&Hok'&Hs&Hn).
    + by eapply drop_last_ok.
    + cbn. rewrite E, gmultiset_size_disj_union, size_refs in Hf.
      rewrite length_app. lia.
    + exists m'. split; [done|]. split; [done|]. split; [|done]. intros l' c' Hl'.
      destruct (Hs l' c' Hl') as (d&Hd'&?). cbn in Hd'. apply lookup_delete_Some in Hd' as [_ Hd']. eauto.
  - destruct (IH work roots (store l (set_strong (pred (strong c)) c) m)) as (m'&Hd&Hok'&Hs&Hn).
    + by eapply drop_shared_ok.
    + cbn. rewrite (held_keep _ _ c) by done. lia.
    + exists m'. split; [done|]. split; [done|]. split; [|done]. intros l' c' Hl'.
      destruct (Hs l' c' Hl') as (d&Hd'&Ht&Hh). cbn in Hd'.
      destruct (decide (l' = l)) as [->|Hne]; simplify_map_eq; eauto.
Qed.

Lemma drop_ok roots m l :
  mem_ok ({[+ l +]} ⊎ roots) m ->
  exists m', drop l m = Done m' /\ mem_ok roots m' /\ shrinks m m' /\ next m' = next m.
Proof.
  intros Hok. apply drop_all_ok; [|cbn; lia].
  by rewrite list_to_set_disj_cons, list_to_set_disj_nil, (right_id_L ∅ (⊎)).
Qed.

(** *** The other changes to the memory *)

Lemma mem_ok_next roots m : mem_ok roots m -> cells m !! next m = None.
Proof.
  intros [Hsome _]. destruct (cells m !! next m) as [c|] eqn:E; [|done].
  destruct (Hsome _ _ E). lia.
Qed.

Lemma alloc_ok t parts roots m :
  mem_ok (refs parts ⊎ roots) m -> mem_ok ({[+ next m +]} ⊎ roots) (alloc t parts m).2.
Proof.
  intros Hok. pose proof (mem_ok_next _ _ Hok) as Hfresh. destruct Hok as [Hsome Hnone].
  pose proof (Hnone _ Hfresh) as H0. unfold alloc. cbn [snd].
  split; cbn [cells next]; rewrite held_insert by done; cbn [holds].
  - intros l c Hl. destruct (decide (l = next m)) as [->|Hne]; simplify_map_eq.
    + cbn [strong ty]. split_and!; [lia|count|done|done].
    + destruct (Hsome l c Hl) as (Hn&Hs&?&?). split_and!; [lia|count|done|done].
  - intros l Hl. apply lookup_insert_None in Hl as [Hl Hne]. specialize (Hnone l Hl). count.
Qed.

Lemma increment_ok roots m l c :
  mem_ok roots m -> cells m !! l = Some c -> origin (ty c) <> FromBox ->
  mem_ok ({[+ l +]} ⊎ roots) (store l (set_strong (S (strong c)) c) m).
Proof.
  intros [Hsome Hnone] Hl Hc. split; cbn [cells next store]; rewrite (held_keep _ _ c) by done.
  - intros l' c' Hl'. destruct (decide (l' = l)) as [->|Hne]; simplify_map_eq.
    + destruct (Hsome l c Hl) as (Hn&Hs&?&?). split_and!; [done|cbn [strong set_strong]; count|done|done].
    + destruct (Hsome l' c' Hl') as (Hn&Hs&?&?). split_and!; [done|count|done|done].
  - intros l' Hl'. apply lookup_insert_None in Hl' as [Hl' Hne]. specialize (Hnone l' Hl'). count.
Qed.

(** Moving references between the roots and an object. *)
Lemma set_holds_ok roots roots' m p c ls :
  mem_ok roots m -> cells m !! p = Some c ->
  roots ⊎ refs (holds c) = roots' ⊎ refs ls ->
  mem_ok roots' (store p (set_holds ls c) m).
Proof.
  intros [Hsome Hnone] Hp E. pose proof (held_update _ _ _ (set_holds ls c) Hp) as E'. cbn in E'.
  assert (Hr : forall l, multiplicity l (roots' ⊎ held (<[p := set_holds ls c]> (cells m))) =
                    multiplicity l (roots ⊎ held (cells m))).
  { intros l. apply (f_equal (multiplicity l)) in E, E'. count. }
  split; cbn [cells next store].
  - intros l c' Hl. rewrite Hr. destruct (decide (l = p)) as [->|Hne]; simplify_map_eq.
    + by destruct (Hsome p c Hp) as (?&?&?&?).
    + by destruct (Hsome l c' Hl) as (?&?&?&?).
  - intros l Hl. apply lookup_insert_None in Hl as [Hl Hne]. rewrite Hr. by apply Hnone.
Qed.

(** *** Weak references *)

(** [weak_as_ptr] is null exactly when the object is gone, and leaves the memory as it is. *)
Lemma weak_as_ptr_spec cm roots m w :
  mem_ok roots m ->
  RefFFI_weak_as_ptr (cm := cm) w m =
  Done (mkPtr (if decide (is_Some (cells m !! w)) then Some w else None), m).
Proof.
  intros [Hsome _]. unfold RefFFI_weak_as_ptr, arc_clone, deref.
  destruct (cells m !! w) as [c|] eqn:Hw; [|by rewrite decide_False by apply is_Some_None].
  rewrite decide_True by eauto. cbn [mbind safe_bind]. unfold drop.
  destruct (Hsome w c Hw) as (_&_&H0&_). cbn [drop_all]. unfold deref. cbn [cells store].
  rewrite lookup_insert_eq. cbn [mbind safe_bind strong set_strong].
  rewrite decide_False by lia. destruct (size _); cbn [drop_all mbind safe_bind pred];
    unfold store; cbn [cells next]; rewrite insert_insert_eq, (insert_id _ _ _);
    try done; destruct m, c; done.
Qed.

(** *** Reachability across a change *)

(** Objects in [A] that survive keep what they refer to. *)
Definition keeps (A : nat -> Prop) (m m' : mem) : Prop :=
  forall l c c', A l -> cells m !! l = Some c -> cells m' !! l = Some c' ->
    forall x, x ∈ holds c -> x ∈ holds c'.

Lemma reach_keeps (A : nat -> Prop) roots m m' a b :
  keeps A m m' -> mem_ok roots m' -> (forall x, reach m a x -> A x) -> live m' a ->
  reach m a b -> reach m' a b.
Proof.
  intros Hk Hok HA Ha Hr. induction Hr as [|a b d Hab Hr IH]; [done|].
  destruct Ha as [c' Ha']. pose proof Hab as (c&Ha&Hb).
  assert (He : edge m' a b).
  { exists c'. split; [done|]. eapply Hk; [|done..]. by apply HA. }
  eapply rtc_l; [exact He|]. apply IH; [|by eapply mem_ok_edge].
  intros x Hx. apply HA. by eapply rtc_l.
Qed.

Lemma shrinks_keeps A m m' : shrinks m m' -> keeps A m m'.
Proof. intros Hs l c c' _ Hl Hl' x Hx. destruct (Hs l c' Hl') as (d&Hd&_&E). simplify_eq. congruence. Qed.

(** *** Objects that nothing refers to *)

Definition acyclic (m : mem) : Prop := forall l, ~ tc (edge m) l l.

(** Without cycles an object is alive exactly while a root reaches it. *)
Lemma live_reachable roots m l :
  mem_ok roots m -> acyclic m -> live m l <-> exists r, r ∈ roots /\ reach m r l.
Proof.
  intros Hok Hac. split.
  - intros Hl. assert (Hsn : sn (flip (edge m)) l).
    { apply tc_finite_sn; [intros x Hx%tc_flip; by apply (Hac x)|].
      exists (elements (dom (cells m))). intros x Hx%tc_flip.
      apply elem_of_elements, elem_of_dom. inversion Hx as [? ? (c&Hc&_)|? ? ? (c&Hc&_)]; eauto. }
    induction Hsn as [l _ IH].
    destruct (decide (l ∈ roots)) as [Hr|Hr]; [by exists l|].
    assert (Hheld : l ∈ held (cells m)).
    { destruct Hl as [c Hc], Hok as [Hsome _]. destruct (Hsome l c Hc) as (_&Hs&H0&_).
      rewrite elem_of_multiplicity in *. count. }
    apply elem_of_held in Hheld as (a&c&Ha&Hla).
    assert (He : edge m a l) by (exists c; done).
    destruct (IH a He) as (r&Hr'&Hra); [by eexists|]. exists r. split; [done|]. by eapply rtc_r.
  - intros (r&Hr&Hrl). eapply mem_ok_reach; [done| |done]. eapply mem_ok_live; [done|multiset_solver].
Qed.

End Memory.

Arguments cell T : clear implicits.
Arguments mem T : clear implicits.

Notation reach m := (rtc (edge m)).
