(* ===== verification/Lifetimes.v ===== *)
(** * What a client may do with its pointers (argconv.rs)

    The pointers of a client are handles: an owned handle is a reference the client must
    give back, a borrowed one is valid while its lender is.  [op] lists what happens to
    the objects of the API: what code of the driver does with references it has, the
    conversions of argconv.rs at the boundary, and a client that stops using a pointer.
    [legal] is the contract: the rules of Rust's type system for the driver, and for the
    client the comments of argconv.rs. *)

From Stdlib Require Import Lia.
From stdpp Require Import base list gmap gmultiset relations.
From S2P Require Import Prelude Ffi.

Open Scope nat_scope.

Section Protocol.
Context {T : Type} `{FFI T}.

(** ** States *)

(** An owned object that borrows from another one, such as an iterator over a result, is
    an owned handle with a lender. *)
Record handle := mkHandle {
  h_ty : T;
  h_ptr : nat;
  h_owned : bool;
  h_lender : option nat;
  h_const : CMutability
}.

(** The memory, the references the driver has (local variables and tasks), the client's
    handles, and the number of the next handle. *)
Record sys := mkSys {
  memory : mem T;
  rust : gmultiset nat;
  client : gmap nat handle;
  next_handle : nat
}.

Definition init : sys := mkSys (mkMem ∅ 0) ∅ ∅ 0.

(** The references the client owns. *)
Definition owned_refs (cl : gmap nat handle) : gmultiset nat :=
  map_fold (fun _ h acc => (if h_owned h then {[+ h_ptr h +]} else ∅) ⊎ acc) ∅ cl.

Definition roots (s : sys) : gmultiset nat := rust s ⊎ owned_refs (client s).

(** ** Operations *)

Inductive op :=
(* code of the driver *)
| RustNew (t : T) (parts : list nat)
| RustClone (l : nat)
| RustDrop (l : nat)
| RustAttach (p l : nat)
| RustDetach (p l : nat)
(* pointers given to the client *)
| GiveBox (b : nat) (lender : option nat) (cm : CMutability)
| GiveArc (a : nat) (cm : CMutability)
| Lend (i : nat) (l : nat) (cm : CMutability)
(* pointers received from the client *)
| TakeBox (i : nat)
| TakeArc (i : nat)
| CloneArc (i : nat)
| AsRef (i : nat)
| AsMut (i : nat)
| FreeBox (i : nat)
| FreeArc (i : nat)
(* the client forgets a borrowed pointer *)
| Forget (i : nat).

(** The list without one occurrence of [l]. *)
Fixpoint list_remove (l : nat) (ls : list nat) : option (list nat) :=
  match ls with
  | [] => None
  | x :: ls => if decide (l = x) then Some ls else cons x <$> list_remove l ls
  end.

Definition set_memory (m : mem T) (s : sys) : sys := mkSys m (rust s) (client s) (next_handle s).

Definition move_rust (f : gmultiset nat -> gmultiset nat) (s : sys) : sys :=
  mkSys (memory s) (f (rust s)) (client s) (next_handle s).

Definition add_handle (h : handle) (s : sys) : sys :=
  mkSys (memory s) (rust s) (<[next_handle s := h]> (client s)) (S (next_handle s)).

Definition remove_handle (i : nat) (s : sys) : sys :=
  mkSys (memory s) (rust s) (delete i (client s)) (next_handle s).

(** The handle a pointer of the API is to the client. *)
Definition handle_of {life o cm} (p : CassPtr life o cm) (lender : option nat) (s : sys) : safe sys :=
  match ptr p with
  | None => Done s
  | Some l =>
      c ← deref l (memory s);
      Done (add_handle (mkHandle (ty c) l (bool_decide (life = Static)) lender cm) s)
  end.

(** The pointer the client passes, with the properties of the parameter. *)
Definition pointer_of {life o cm} (i : nat) (s : sys) : CassPtr life o cm :=
  from_raw (h_ptr <$> client s !! i).

Definition exec (o : op) (s : sys) : safe sys :=
  match o with
  | RustNew t parts =>
      let '(l, m) := alloc t parts (memory s) in
      Done (set_memory m (move_rust (fun r => {[+ l +]} ⊎ (r ∖ list_to_set_disj parts)) s))
  | RustClone l =>
      m ← arc_clone l (memory s);
      Done (set_memory m (move_rust (fun r => {[+ l +]} ⊎ r) s))
  | RustDrop l =>
      m ← drop l (memory s); Done (set_memory m (move_rust (fun r => r ∖ {[+ l +]}) s))
  | RustAttach p l =>
      c ← deref p (memory s);
      Done (set_memory (store p (set_holds (l :: holds c) c) (memory s))
              (move_rust (fun r => r ∖ {[+ l +]}) s))
  | RustDetach p l =>
      c ← deref p (memory s);
      match list_remove l (holds c) with
      | Some ls => Done (set_memory (store p (set_holds ls c) (memory s)) (move_rust (fun r => {[+ l +]} ⊎ r) s))
      | None => Undefined
      end
  | GiveBox b lender cm =>
      handle_of (BoxFFI_into_ptr (cm := cm) b) lender (move_rust (fun r => r ∖ {[+ b +]}) s)
  | GiveArc a cm =>
      handle_of (ArcFFI_into_ptr (cm := cm) a) None (move_rust (fun r => r ∖ {[+ a +]}) s)
  | Lend i l cm =>
      c ← deref l (memory s);
      if decide (origin (ty c) = FromArc)
      then handle_of (ArcFFI_as_ptr (cm := cm) l) (Some i) s
      else handle_of (RefFFI_as_ptr (cm := cm) l) (Some i) s
  | TakeBox i =>
      b ← BoxFFI_from_ptr (cm := CMut) (pointer_of i s) (memory s);
      Done (remove_handle i (move_rust (fun r => from_option (fun b => {[+ b +]}) ∅ b ⊎ r) s))
  | TakeArc i =>
      a ← ArcFFI_from_ptr (cm := CMut) (pointer_of i s) (memory s);
      Done (remove_handle i (move_rust (fun r => from_option (fun a => {[+ a +]}) ∅ a ⊎ r) s))
  | CloneArc i =>
      '(a, m) ← ArcFFI_cloned_from_ptr (life := Borrow) (cm := CMut) (pointer_of i s) (memory s);
      Done (set_memory m (move_rust (fun r => from_option (fun a => {[+ a +]}) ∅ a ⊎ r) s))
  | AsRef i =>
      _ ← into_ref (life := Borrow) (o := Shared) (cm := CMut) (pointer_of i s) (memory s);
      match client s !! i ≫= h_lender with
      | Some j => _ ← into_ref (life := Borrow) (o := Shared) (cm := CMut) (pointer_of j s) (memory s); Done s
      | None => Done s
      end
  | AsMut i => _ ← BoxFFI_as_mut_ref (life := Borrow) (cm := CMut) (pointer_of i s) (memory s); Done s
  | FreeBox i => m ← BoxFFI_free (cm := CMut) (pointer_of i s) (memory s); Done (remove_handle i (set_memory m s))
  | FreeArc i => m ← ArcFFI_free (cm := CMut) (pointer_of i s) (memory s); Done (remove_handle i (set_memory m s))
  | Forget i => Done (remove_handle i s)
  end.

Fixpoint run (ops : list op) (s : sys) : safe sys :=
  match ops with [] => Done s | o :: ops => s ← exec o s; run ops s end.

(** ** The contract *)

(** Code that runs has a reference that leads to [l]. *)
Definition visible (s : sys) (l : nat) : Prop := exists r, r ∈ roots s /\ reach (memory s) r l.

Definition type_at (s : sys) (l : nat) : option T := ty <$> cells (memory s) !! l.

(** No handle borrows from [i]. *)
Definition no_loans (s : sys) (i : nat) : Prop :=
  map_Forall (fun _ h => h_lender h <> Some i) (client s).

(** Where the objects lent by a handle may be found: at its object, or at the objects of the
    handles it borrows from. *)
Inductive source (cl : gmap nat handle) : handle -> nat -> Prop :=
| source_here g : source cl g (h_ptr g)
| source_up g k g' a :
    h_lender g = Some k -> cl !! k = Some g' -> source cl g' a -> source cl g a.

(** Nothing is lent from an object that leads to [p]. *)
Definition unlent (s : sys) (p : nat) : Prop :=
  forall i h j g a, client s !! i = Some h -> h_owned h = false -> h_lender h = Some j ->
    client s !! j = Some g -> source (client s) g a -> ~ reach (memory s) a p.

Definition legal (s : sys) (o : op) : Prop :=
  match o with
  | RustNew t parts => list_to_set_disj parts ⊆ rust s
  | RustClone l => visible s l /\ origin <$> type_at s l <> Some FromBox
  | RustDrop l => l ∈ rust s
  | RustAttach p l => visible s p /\ l ∈ rust s
  | RustDetach p l => visible s p /\ unlent s p /\ edge (memory s) p l
  | GiveBox b lender _ =>
      b ∈ rust s /\ origin <$> type_at s b = Some FromBox /\
      match lender with Some j => is_Some (client s !! j) | None => True end
  | GiveArc a _ => a ∈ rust s /\ origin <$> type_at s a = Some FromArc
  | Lend i l _ =>
      origin <$> type_at s l <> Some FromBox /\
      exists g a, client s !! i = Some g /\ source (client s) g a /\ reach (memory s) a l
  | TakeBox i | FreeBox i =>
      exists h, client s !! i = Some h /\ h_owned h = true /\ origin (h_ty h) = FromBox /\ no_loans s i
  | TakeArc i | FreeArc i =>
      exists h, client s !! i = Some h /\ h_owned h = true /\ origin (h_ty h) = FromArc /\ no_loans s i
  | CloneArc i => exists h, client s !! i = Some h /\ origin (h_ty h) = FromArc
  | AsRef i => is_Some (client s !! i)
  | AsMut i => exists h, client s !! i = Some h /\ origin (h_ty h) = FromBox /\ no_loans s i
  | Forget i => exists h, client s !! i = Some h /\ h_owned h = false /\ no_loans s i
  end.

Fixpoint legal_trace (s : sys) (ops : list op) : Prop :=
  match ops with
  | [] => True
  | o :: ops => legal s o /\ forall s', exec o s = Done s' -> legal_trace s' ops
  end.

(** ** The invariant *)

(** The handle [i]: it points to an object of its type, and a borrowed one to something
    its lender leads to; lenders are older. *)
Definition handle_ok (m : mem T) (cl : gmap nat handle) (i : nat) (h : handle) : Prop :=
  (exists c, cells m !! h_ptr h = Some c /\ ty c = h_ty h) /\
  (if h_owned h then origin (h_ty h) <> FromRef else origin (h_ty h) <> FromBox /\ is_Some (h_lender h)) /\
  (forall j, h_lender h = Some j ->
     exists g, cl !! j = Some g /\ j < i /\
       (h_owned h = false -> exists a, source cl g a /\ reach m a (h_ptr h))).

Definition sys_ok (s : sys) : Prop :=
  mem_ok (roots s) (memory s) /\
  map_Forall (fun i h => i < next_handle s /\ handle_ok (memory s) (client s) i h) (client s).

(** ** Handles across a change *)

Lemma owned_refs_insert cl i h :
  cl !! i = None ->
  owned_refs (<[i := h]> cl) = (if h_owned h then {[+ h_ptr h +]} else ∅) ⊎ owned_refs cl.
Proof.
  intros Hi. unfold owned_refs. rewrite map_fold_insert_L; [done| |done]. intros. multiset_solver.
Qed.

Lemma owned_refs_delete cl i h :
  cl !! i = Some h ->
  owned_refs cl = (if h_owned h then {[+ h_ptr h +]} else ∅) ⊎ owned_refs (delete i cl).
Proof.
  intros Hi. rewrite <- (insert_delete_id cl i h) at 1 by done.
  apply owned_refs_insert, lookup_delete_eq.
Qed.

Lemma owned_refs_elem cl i h : cl !! i = Some h -> h_owned h = true -> h_ptr h ∈ owned_refs cl.
Proof. intros Hi Ho. rewrite (owned_refs_delete _ _ _ Hi), Ho. multiset_solver. Qed.

Lemma source_mono cl cl' g a : cl ⊆ cl' -> source cl g a -> source cl' g a.
Proof.
  intros Hsub. induction 1 as [g|g k g' a Hk Hg' _ IH]; [constructor|].
  eapply source_up; [done| |done]. by eapply lookup_weaken.
Qed.

Notation handles_ok m cl n := (map_Forall (fun i h => i < n /\ handle_ok m cl i h) cl).

(** A source is the object of a handle that is as old. *)
Lemma source_handle m cl n j g a :
  handles_ok m cl n -> cl !! j = Some g -> source cl g a ->
  exists k p, cl !! k = Some p /\ k <= j /\ a = h_ptr p.
Proof.
  intros Hok Hj Hs. revert j Hj. induction Hs as [g|g k g' a Hk Hg' _ IH]; intros j Hj; [by exists j, g|].
  destruct (Hok j g Hj) as [_ (_&_&Hl)]. destruct (Hl k Hk) as (_&_&Hlt&_).
  destruct (IH k Hg') as (k'&p&?&?&?). exists k', p. split_and!; [done|lia|done].
Qed.

(** The objects of handles survive a change of the memory that keeps what leads to the
    borrowed ones. *)
Section Change.
Context (A : nat -> Prop) (R : gmultiset nat) (m m' : mem T) (cl : gmap nat handle) (n : nat).
Hypothesis Hok : handles_ok m cl n.
Hypothesis Hm' : mem_ok (R ⊎ owned_refs cl) m'.
Hypothesis Hkeeps : keeps A m m'.
Hypothesis Htypes : forall l c c', cells m !! l = Some c -> cells m' !! l = Some c' -> ty c = ty c'.
Hypothesis HA : forall i h j g a x, cl !! i = Some h -> h_owned h = false -> h_lender h = Some j ->
  cl !! j = Some g -> source cl g a -> reach m a x -> A x.

Lemma handle_survives i : forall h, cl !! i = Some h ->
  live m' (h_ptr h) /\
  (h_owned h = false -> forall j g, h_lender h = Some j -> cl !! j = Some g ->
     exists a, source cl g a /\ reach m' a (h_ptr h)).
Proof.
  induction (lt_wf i) as [i _ IH]. intros h Hi. destruct (Hok i h Hi) as [_ (_&Hkind&Hlend)].
  destruct (h_owned h) eqn:Ho.
  { split; [|done]. eapply mem_ok_live; [exact Hm'|]. pose proof (owned_refs_elem _ _ _ Hi Ho).
    multiset_solver. }
  destruct Hkind as [_ [j Hj]]. destruct (Hlend j Hj) as (g&Hg&Hji&Hreach).
  destruct (Hreach eq_refl) as (a&Ha&Har).
  assert (Hla : live m' a).
  { destruct (source_handle _ _ _ _ _ _ Hok Hg Ha) as (k&p&Hk&Hkj&->). eapply (IH k); [lia|done]. }
  assert (Hr : reach m' a (h_ptr h)) by (eapply reach_keeps; eauto).
  split; [by eapply mem_ok_reach|]. intros _ j' g' Hj' Hg'. simplify_eq. eauto.
Qed.

Lemma handles_survive : handles_ok m' cl n.
Proof.
  intros i h Hi. destruct (Hok i h Hi) as [Hn ((c&Hc&Hty)&Hkind&Hlend)].
  destruct (handle_survives i h Hi) as [[c' Hc'] Hr]. split; [done|]. split_and!; [|done|].
  - exists c'. split; [done|]. rewrite <- Hty. symmetry. eauto.
  - intros j Hj. destruct (Hlend j Hj) as (g&Hg&Hji&_). exists g. eauto.
Qed.

End Change.

Lemma handles_delete m cl n i :
  handles_ok m cl n -> map_Forall (fun _ h => h_lender h <> Some i) cl -> handles_ok m (delete i cl) n.
Proof.
  intros Hok Hno k h Hk. apply lookup_delete_Some in Hk as [Hne Hk].
  destruct (Hok k h Hk) as [Hn (Hc&Hkind&Hlend)]. split; [done|]. split_and!; [done|done|].
  intros j Hj. destruct (Hlend j Hj) as (g&Hg&Hlt&Hr). exists g.
  assert (i <> j) by (intros ->; by apply (Hno k h Hk)).
  split; [by rewrite lookup_delete_ne|]. split; [done|]. intros Ho.
  destruct (Hr Ho) as (a&Ha&Har). exists a. split; [|done].
  clear Hr Har Hlt Hj H0 Hlend Hkind Hc. revert j Hg. induction Ha as [g|g k' g' a Hk' Hg' _ IH]; intros j Hg; [constructor|].
  eapply source_up; [exact Hk'| |by eapply IH]. rewrite lookup_delete_ne; [done|].
  intros ->. by apply (Hno j g Hg).
Qed.

Lemma handles_insert m cl n h :
  handles_ok m cl n -> handle_ok m cl n h -> handles_ok m (<[n := h]> cl) (S n).
Proof.
  intros Hok Hh.
  assert (Hn : cl !! n = None).
  { destruct (cl !! n) as [h'|] eqn:E; [|done]. destruct (Hok n h' E). lia. }
  assert (Hsub : cl ⊆ <[n := h]> cl) by by apply insert_subseteq.
  assert (Hext : forall i k, handle_ok m cl i k -> handle_ok m (<[n := h]> cl) i k).
  { intros i k (Hc&Hkind&Hlend). split_and!; [done|done|]. intros j Hj.
    destruct (Hlend j Hj) as (g&Hg&Hlt&Hr). exists g. split; [by eapply lookup_weaken|].
    split; [done|]. intros Ho. destruct (Hr Ho) as (a&Ha&Har). exists a.
    split; [by eapply source_mono|done]. }
  intros i k Hk. destruct (decide (i = n)) as [->|Hne].
  - rewrite lookup_insert_eq in Hk. simplify_eq. split; [lia|auto].
  - rewrite lookup_insert_ne in Hk by done. destruct (Hok i k Hk). split; [lia|auto].
Qed.

(** ** Every legal operation is defined *)

Notation outcome_ok P r := (exists s', r = Done s' /\ P s').

(** A change of the memory and of the driver's references only. *)
Lemma sys_ok_change A s m' R :
  sys_ok s -> mem_ok (R ⊎ owned_refs (client s)) m' -> keeps A (memory s) m' ->
  (forall l c c', cells (memory s) !! l = Some c -> cells m' !! l = Some c' -> ty c = ty c') ->
  (forall i h j g a x, client s !! i = Some h -> h_owned h = false -> h_lender h = Some j ->
     client s !! j = Some g -> source (client s) g a -> reach (memory s) a x -> A x) ->
  sys_ok (mkSys m' R (client s) (next_handle s)).
Proof. intros [_ Hh] Hm' Hk Ht HA. split; [done|]. by eapply handles_survive. Qed.

Lemma store_types p c c' m :
  cells m !! p = Some c -> ty c' = ty c ->
  forall l d d', cells m !! l = Some d -> cells (store (T := T) p c' m) !! l = Some d' -> ty d = ty d'.
Proof.
  intros Hp Ht l d d' Hl Hl'. cbn in Hl'. destruct (decide (l = p)) as [->|Hne]; simplify_map_eq; congruence.
Qed.

Lemma store_keeps (A : nat -> Prop) p c c' m :
  cells m !! p = Some c -> (A p -> forall x, x ∈ holds c -> x ∈ holds c') ->
  keeps A m (store (T := T) p c' m).
Proof.
  intros Hp Hh l d d' HA Hl Hl' x Hx. cbn in Hl'.
  destruct (decide (l = p)) as [->|Hne]; simplify_map_eq; eauto.
Qed.

Lemma live_root s l : sys_ok s -> l ∈ roots s -> live (memory s) l.
Proof. intros [Hm _] Hl. eapply mem_ok_live; [exact Hm|multiset_solver]. Qed.

Lemma visible_live s l : sys_ok s -> visible s l -> exists c, cells (memory s) !! l = Some c.
Proof.
  intros Hok (r&Hr&Hrl). pose proof (live_root s r Hok Hr) as Hlr.
  destruct Hok as [Hm _]. by eapply mem_ok_reach in Hrl as [c Hc]; eauto.
Qed.

Lemma handle_live s i h :
  sys_ok s -> client s !! i = Some h ->
  exists c, cells (memory s) !! h_ptr h = Some c /\ ty c = h_ty h.
Proof. intros [_ Hh] Hi. destruct (Hh i h Hi) as [_ [Hc _]]. exact Hc. Qed.

Lemma rust_new_ok t parts s :
  sys_ok s -> legal s (RustNew t parts) -> outcome_ok sys_ok (exec (RustNew t parts) s).
Proof.
  intros Hok Hleg. cbn in Hleg. eexists. split; [reflexivity|].
  pose proof Hok as [Hm _]. pose proof (mem_ok_next _ _ Hm) as Hfresh.
  eapply (sys_ok_change (fun _ => True) s); [done|..].
  - unfold move_rust; cbn [rust].
    replace ({[+ next (memory s) +]} ⊎ rust s ∖ list_to_set_disj parts ⊎ owned_refs (client s))
      with ({[+ next (memory s) +]} ⊎ (rust s ∖ list_to_set_disj parts ⊎ owned_refs (client s)))
      by multiset_solver.
    apply alloc_ok. unfold roots in Hm.
    by rewrite (assoc_L (⊎)), <- gmultiset_disj_union_difference.
  - intros l c c' _ Hl Hl' x Hx. cbn in Hl'. rewrite lookup_insert_ne in Hl' by congruence. congruence.
  - intros l c c' Hl Hl'. cbn in Hl'. rewrite lookup_insert_ne in Hl' by congruence. congruence.
  - done.
Qed.

Lemma increment_sys_ok s l c :
  sys_ok s -> cells (memory s) !! l = Some c -> origin (ty c) <> FromBox ->
  arc_clone l (memory s) = Done (store l (set_strong (S (strong c)) c) (memory s)) /\
  sys_ok (mkSys (store l (set_strong (S (strong c)) c) (memory s)) ({[+ l +]} ⊎ rust s) (client s) (next_handle s)).
Proof.
  intros Hok Hl Hc. split.
  { unfold arc_clone, deref. by rewrite Hl. }
  pose proof Hok as [Hm _]. eapply (sys_ok_change (fun _ => True) s); [done|..].
  - rewrite <- (assoc_L (⊎)). by apply increment_ok.
  - eapply store_keeps; [exact Hl|done].
  - by apply (store_types l c).
  - done.
Qed.

Lemma drop_sys_ok s l :
  sys_ok s -> l ∈ rust s ->
  exists m', drop l (memory s) = Done m' /\ shrinks (memory s) m' /\
    sys_ok (mkSys m' (rust s ∖ {[+ l +]}) (client s) (next_handle s)).
Proof.
  intros Hok Hl. pose proof Hok as [Hm _]. unfold roots in Hm.
  destruct (drop_ok (rust s ∖ {[+ l +]} ⊎ owned_refs (client s)) (memory s) l) as (m'&Hd&Hok'&Hs&Hn).
  { by rewrite (assoc_L (⊎)), <- gmultiset_disj_union_difference by multiset_solver. }
  exists m'. split; [done|]. split; [done|]. eapply (sys_ok_change (fun _ => True) s); [done|done|..].
  - by apply shrinks_keeps.
  - intros x c c' Hx Hx'. destruct (Hs x c' Hx') as (d&Hd'&Ht&_). congruence.
  - done.
Qed.

Lemma attach_ok p l s :
  sys_ok s -> legal s (RustAttach p l) -> outcome_ok sys_ok (exec (RustAttach p l) s).
Proof.
  intros Hok [Hv Hl]. destruct (visible_live s p Hok Hv) as [c Hc].
  cbn [exec]. unfold deref. rewrite Hc. cbn [mbind safe_bind]. eexists. split; [reflexivity|].
  pose proof Hok as [Hm _]. eapply (sys_ok_change (fun _ => True) s); [done|..].
  - eapply set_holds_ok; [exact Hm|done|]. unfold roots.
    unfold move_rust; cbn [rust holds set_holds]. apply gmultiset_eq. intros x.
    rewrite elem_of_multiplicity in Hl. count.
  - eapply store_keeps; [done|]. cbn. set_solver.
  - by apply (store_types p c).
  - done.
Qed.

Lemma list_remove_perm l ls : l ∈ ls -> exists ks, list_remove l ls = Some ks /\ ls ≡ₚ l :: ks.
Proof.
  induction ls as [|x ls IH]; intros Hl; [by apply not_elem_of_nil in Hl|]. cbn.
  destruct (decide (l = x)) as [->|Hne]; [by exists ls|].
  apply elem_of_cons in Hl as [?|Hl]; [done|]. destruct (IH Hl) as (ks&->&Hp).
  exists (x :: ks). split; [done|]. rewrite Hp. constructor.
Qed.

Lemma detach_ok p l s :
  sys_ok s -> legal s (RustDetach p l) -> outcome_ok sys_ok (exec (RustDetach p l) s).
Proof.
  intros Hok (Hv&Hun&(c&Hc&Hlc)). cbn [exec]. unfold deref. rewrite Hc. cbn [mbind safe_bind].
  destruct (list_remove_perm _ _ Hlc) as (ks&->&Hp). eexists. split; [reflexivity|].
  pose proof Hok as [Hm _]. eapply (sys_ok_change (fun x => x <> p) s); [done|..].
  - eapply set_holds_ok; [exact Hm|done|]. unfold roots, move_rust; cbn [rust].
    rewrite Hp. apply gmultiset_eq. intros x. count.
  - eapply store_keeps; [exact Hc|intros Hpp; by destruct Hpp].
  - by apply (store_types p c).
  - intros i h j g a x Hi Ho Hj Hg Ha Hr ->. exact (Hun i h j g a Hi Ho Hj Hg Ha Hr).
Qed.

(** A new handle, when the references are accounted for. *)
Lemma handle_of_ok {life o cm} (p : CassPtr life o cm) l c lender s :
  ptr p = Some l -> cells (memory s) !! l = Some c ->
  map_Forall (fun i h => i < next_handle s /\ handle_ok (memory s) (client s) i h) (client s) ->
  let h := mkHandle (ty c) l (bool_decide (life = Static)) lender cm in
  mem_ok ((if h_owned h then {[+ l +]} else ∅) ⊎ roots s) (memory s) ->
  handle_ok (memory s) (client s) (next_handle s) h ->
  outcome_ok sys_ok (handle_of p lender s).
Proof.
  intros Hp Hl Hh h Hm Hok. unfold handle_of, deref. rewrite Hp, Hl. cbn [mbind safe_bind].
  eexists. split; [reflexivity|]. fold h. split.
  - unfold roots, add_handle in *. cbn [memory rust client]. rewrite owned_refs_insert.
    + rewrite (assoc_L (⊎)), (comm_L (⊎) (rust s)), <- (assoc_L (⊎)). done.
    + destruct (client s !! next_handle s) eqn:E; [|done]. destruct (Hh _ _ E). lia.
  - by apply handles_insert.
Qed.

Lemma give_ok {life o cm} (p : CassPtr life o cm) l lender s :
  ptr p = Some l -> life = Static -> sys_ok s -> l ∈ rust s ->
  origin <$> type_at s l <> Some FromRef ->
  match lender with Some j => is_Some (client s !! j) | None => True end ->
  outcome_ok sys_ok (handle_of p lender (move_rust (fun r => r ∖ {[+ l +]}) s)).
Proof.
  intros Hp -> [Hm Hh] Hl Ho Hj.
  destruct (live_root s l) as [c Hc]; [done|unfold roots; multiset_solver|].
  eapply handle_of_ok; [done|exact Hc|exact Hh| |].
  - cbn [h_owned]. rewrite bool_decide_true by done. unfold roots, move_rust in *. cbn [rust client memory].
    by rewrite (assoc_L (⊎)), <- gmultiset_disj_union_difference by multiset_solver.
  - split_and!; cbn [h_ptr h_owned h_ty h_lender]; [by exists c| |].
    + rewrite bool_decide_true by done. intros E. apply Ho. unfold type_at. rewrite Hc. cbn. by rewrite E.
    + intros j ->. destruct Hj as [g Hg]. exists g. split; [done|].
      split; [by destruct (Hh j g Hg)|]. by rewrite bool_decide_true.
Qed.

Lemma lend_ok {o cm} (p : CassPtr Borrow o cm) i l g a s :
  ptr p = Some l -> sys_ok s -> origin <$> type_at s l <> Some FromBox ->
  client s !! i = Some g -> source (client s) g a -> reach (memory s) a l -> outcome_ok sys_ok (handle_of p (Some i) s).
Proof.
  intros Hp Hok Ho Hi Ha Har.
  assert (Hla : live (memory s) a).
  { pose proof Hok as [_ Hh]. destruct (source_handle _ _ _ _ _ _ Hh Hi Ha) as (k&p'&Hk&_&->).
    destruct (handle_live s k p' Hok Hk) as (c&Hc&_). by exists c. }
  destruct Hok as [Hm Hh]. eapply mem_ok_reach in Har as Hl; [|done..]. destruct Hl as [c Hc].
  eapply handle_of_ok; [done|exact Hc|exact Hh| |].
  - cbn [h_owned]. by rewrite bool_decide_false, (left_id_L ∅ (⊎)).
  - split_and!; cbn [h_ptr h_owned h_ty h_lender]; [by exists c| |].
    { rewrite bool_decide_false by done. split; [|done]. intros E. apply Ho. unfold type_at.
      rewrite Hc. cbn. by rewrite E. }
    intros j [= <-]. exists g. split; [done|]. split; [by destruct (Hh i g Hi)|]. eauto.
Qed.

(** Taking back an owned handle. *)
Lemma take_ok s i h :
  sys_ok s -> client s !! i = Some h -> h_owned h = true -> no_loans s i ->
  sys_ok (remove_handle i (move_rust (fun r => {[+ h_ptr h +]} ⊎ r) s)).
Proof.
  intros [Hm Hh] Hi Ho Hno. split; [|by apply handles_delete].
  unfold roots, remove_handle, move_rust in *. cbn [memory rust client].
  rewrite (owned_refs_delete _ _ _ Hi), Ho in Hm.
  by rewrite (comm_L (⊎) {[+ _ +]} (rust s)), <- (assoc_L (⊎)).
Qed.

Lemma pointer_of_Some {life o cm} i h s :
  client s !! i = Some h -> pointer_of i s = mkPtr (life := life) (o := o) (cm := cm) (Some (h_ptr h)).
Proof. intros Hi. unfold pointer_of. by rewrite Hi. Qed.

Lemma deref_as_handle s i h o :
  sys_ok s -> client s !! i = Some h -> origin (h_ty h) = o ->
  exists c, deref_as o (h_ptr h) (memory s) = Done c.
Proof.
  intros Hok Hi Ho. destruct (handle_live s i h Hok Hi) as (c&Hc&Ht). exists c.
  unfold deref_as, deref. rewrite Hc. cbn [mbind safe_bind]. rewrite decide_True by congruence. done.
Qed.

Lemma box_from_ptr_ok cm s i h :
  sys_ok s -> client s !! i = Some h -> origin (h_ty h) = FromBox ->
  BoxFFI_from_ptr (cm := cm) (pointer_of i s) (memory s) = Done (Some (h_ptr h)).
Proof.
  intros Hok Hi Ho. rewrite (pointer_of_Some _ _ _ Hi). destruct (deref_as_handle _ _ _ _ Hok Hi Ho) as [c Hc].
  unfold BoxFFI_from_ptr, box_from_raw. cbn [to_raw ptr]. by rewrite Hc.
Qed.

Lemma arc_from_ptr_ok cm s i h :
  sys_ok s -> client s !! i = Some h -> origin (h_ty h) = FromArc ->
  ArcFFI_from_ptr (cm := cm) (pointer_of i s) (memory s) = Done (Some (h_ptr h)).
Proof.
  intros Hok Hi Ho. rewrite (pointer_of_Some _ _ _ Hi). destruct (deref_as_handle _ _ _ _ Hok Hi Ho) as [c Hc].
  unfold ArcFFI_from_ptr, arc_from_raw. cbn [to_raw ptr]. by rewrite Hc.
Qed.

(** Freeing is taking back and dropping. *)
Lemma free_ok s i h :
  sys_ok s -> client s !! i = Some h -> h_owned h = true -> no_loans s i ->
  exists m', drop (h_ptr h) (memory s) = Done m' /\ shrinks (memory s) m' /\
    sys_ok (remove_handle i (set_memory m' s)).
Proof.
  intros Hok Hi Ho Hno. pose proof (take_ok _ _ _ Hok Hi Ho Hno) as Ht.
  destruct (drop_sys_ok _ (h_ptr h) Ht) as (m'&Hd&Hsh&Hok').
  { unfold remove_handle, move_rust. cbn [rust]. multiset_solver. }
  exists m'. split; [done|]. split; [done|]. unfold remove_handle, move_rust, set_memory in *.
  cbn [rust client next_handle memory] in *.
  by replace (({[+ h_ptr h +]} ⊎ rust s) ∖ {[+ h_ptr h +]}) with (rust s) in Hok' by multiset_solver.
Qed.

Lemma clone_arc_ok i s :
  sys_ok s -> legal s (CloneArc i) -> outcome_ok sys_ok (exec (CloneArc i) s).
Proof.
  intros Hok (h&Hi&Ho). destruct (handle_live s i h Hok Hi) as (c&Hc&Ht).
  destruct (increment_sys_ok s (h_ptr h) c Hok Hc) as [Hinc Hok']; [congruence|].
  destruct (deref_as_handle _ _ _ _ Hok Hi Ho) as [d Hd].
  cbn [exec]. rewrite (pointer_of_Some _ _ _ Hi). unfold ArcFFI_cloned_from_ptr, increment_strong_count.
  cbn [to_raw ptr]. rewrite Hd. cbn [mbind safe_bind]. rewrite Hinc. cbn [mbind safe_bind]. unfold arc_from_raw, deref_as, deref. cbn [cells store].
  rewrite lookup_insert_eq. cbn [mbind safe_bind set_strong ty]. rewrite decide_True by congruence.
  eexists. split; [reflexivity|]. exact Hok'.
Qed.

Lemma as_ref_defined s i h life o cm :
  sys_ok s -> client s !! i = Some h ->
  exists c, into_ref (life := life) (o := o) (cm := cm) (pointer_of i s) (memory s) = Done (Some c).
Proof.
  intros Hok Hi. destruct (handle_live s i h Hok Hi) as (c&Hc&_). exists c.
  rewrite (pointer_of_Some _ _ _ Hi). unfold into_ref, deref. cbn [ptr]. by rewrite Hc.
Qed.

(** A legal operation in a good state is defined and leads to a good state. *)
Lemma exec_ok o s : sys_ok s -> legal s o -> outcome_ok sys_ok (exec o s).
Proof.
  intros Hok Hleg. destruct o as [t parts|l|l|p l|p l|b lender cm|a cm|i l cm|i|i|i|i|i|i|i|i].
  - by apply rust_new_ok.
  - destruct Hleg as [[c Hc]%visible_live Ho]; [|done]. unfold type_at in Ho. rewrite Hc in Ho. cbn in Ho.
    destruct (increment_sys_ok s l c Hok Hc) as [Hinc Hok']; [congruence|]. cbn [exec].
    rewrite Hinc. eexists. split; [reflexivity|done].
  - destruct (drop_sys_ok s l Hok Hleg) as (m'&Hd&_&Hok'). cbn [exec]. rewrite Hd.
    eexists. split; [reflexivity|done].
  - by apply attach_ok.
  - by apply detach_ok.
  - destruct Hleg as (Hb&Ho&Hj). cbn [exec]. apply give_ok; try done. by rewrite Ho.
  - destruct Hleg as (Ha&Ho). cbn [exec]. apply give_ok; try done. by rewrite Ho.
  - destruct Hleg as (Ho&g&a&Hi&Ha&Har). cbn [exec].
    destruct (lend_ok (RefFFI_as_ptr (cm := cm) l) i l g a s eq_refl Hok Ho Hi Ha Har) as (s'&Hs'&Hok').
    destruct (deref l (memory s)) eqn:Hd; unfold handle_of in Hs'; cbn [ptr RefFFI_as_ptr from_raw] in Hs';
      rewrite Hd in Hs'; cbn [mbind safe_bind] in *; [|done].
    destruct (decide _); [eapply lend_ok; eauto|]. by eapply lend_ok; eauto.
  - destruct Hleg as (h&Hi&Hown&Ho&Hno). cbn [exec]. rewrite (box_from_ptr_ok _ _ _ _ Hok Hi Ho).
    eexists. split; [reflexivity|]. by apply take_ok.
  - destruct Hleg as (h&Hi&Hown&Ho&Hno). cbn [exec]. rewrite (arc_from_ptr_ok _ _ _ _ Hok Hi Ho).
    eexists. split; [reflexivity|]. by apply take_ok.
  - by apply clone_arc_ok.
  - destruct Hleg as [h Hi]. cbn [exec].
    destruct (as_ref_defined s i h Borrow Shared CMut Hok Hi) as [c ->]. cbn [mbind safe_bind].
    rewrite Hi. cbn. destruct (h_lender h) as [j|] eqn:Hj; [|by eexists].
    destruct Hok as [Hm Hh]. destruct (Hh i h Hi) as [_ (_&_&Hl)]. destruct (Hl j Hj) as (g&Hg&_).
    destruct (as_ref_defined s j g Borrow Shared CMut (conj Hm Hh) Hg) as [c' ->]. by eexists.
  - destruct Hleg as (h&Hi&Ho&_). cbn [exec].
    destruct (as_ref_defined s i h Borrow Exclusive CMut Hok Hi) as [c Hc].
    unfold BoxFFI_as_mut_ref, into_mut_ref. unfold into_ref in Hc. rewrite Hc. by eexists.
  - destruct Hleg as (h&Hi&Hown&Ho&Hno). destruct (free_ok s i h Hok Hi Hown Hno) as (m'&Hd&_&Hok').
    cbn [exec]. unfold BoxFFI_free. rewrite (box_from_ptr_ok _ _ _ _ Hok Hi Ho). cbn [mbind safe_bind].
    rewrite Hd. by eexists.
  - destruct Hleg as (h&Hi&Hown&Ho&Hno). destruct (free_ok s i h Hok Hi Hown Hno) as (m'&Hd&_&Hok').
    cbn [exec]. unfold ArcFFI_free. rewrite (arc_from_ptr_ok _ _ _ _ Hok Hi Ho). cbn [mbind safe_bind].
    rewrite Hd. by eexists.
  - destruct Hleg as (h&Hi&Hown&Hno). eexists. split; [reflexivity|]. destruct Hok as [Hm Hh].
    split; [|by apply handles_delete]. unfold roots, remove_handle in *. cbn [memory rust client].
    rewrite (owned_refs_delete _ _ _ Hi), Hown, (left_id_L ∅ (⊎)) in Hm. done.
Qed.

Lemma init_ok : sys_ok init.
Proof.
  split; [split|]; cbn [memory client init roots cells]; intros l; [by intros c|intros _|by intros h].
  unfold roots, owned_refs, held. cbn [rust client init]. rewrite !map_fold_empty. multiset_solver.
Qed.

Lemma legal_run_ok ops : forall s, sys_ok s -> legal_trace s ops -> outcome_ok sys_ok (run ops s).
Proof.
  induction ops as [|o ops IH]; intros s Hok Hleg; [by exists s|]. destruct Hleg as [Ho Hleg].
  destruct (exec_ok o s Hok Ho) as (s'&Hs'&Hok'). cbn [run]. rewrite Hs'. cbn [mbind safe_bind]. eauto.
Qed.

(** ** Exclusive access *)

(** Two handles that own the same box are one handle. *)
Lemma box_handle_unique s i j h g :
  sys_ok s -> client s !! i = Some h -> client s !! j = Some g ->
  h_owned h = true -> h_owned g = true -> origin (h_ty h) = FromBox -> h_ptr h = h_ptr g -> i = j.
Proof.
  intros Hok Hi Hj Hoh Hog Hbox E. destruct (decide (i = j)) as [|Hne]; [done|exfalso].
  destruct (handle_live s i h Hok Hi) as (c&Hc&Ht). destruct Hok as [[Hsome _] _].
  destruct (Hsome _ _ Hc) as (_&Hs&_&H1). rewrite H1 in Hs by congruence. unfold roots in Hs.
  rewrite (owned_refs_delete _ _ _ Hi), Hoh in Hs.
  rewrite (owned_refs_delete (delete i (client s)) j g), Hog, <- E in Hs by (by rewrite lookup_delete_ne).
  count.
Qed.

Lemma box_reached_from_itself s i h a :
  sys_ok s -> client s !! i = Some h -> h_owned h = true -> origin (h_ty h) = FromBox ->
  reach (memory s) a (h_ptr h) -> a = h_ptr h.
Proof.
  intros Hok Hi Hoh Hbox Hr. apply rtc_inv_r in Hr as [?|(b&_&Hb)]; [done|exfalso].
  destruct (handle_live s i h Hok Hi) as (c&Hc&Ht). destruct Hok as [[Hsome _] _].
  destruct (Hsome _ _ Hc) as (_&Hs&_&H1). rewrite H1 in Hs by congruence. unfold roots in Hs.
  rewrite (owned_refs_delete _ _ _ Hi), Hoh in Hs.
  assert (Hheld : h_ptr h ∈ held (cells (memory s))) by (apply elem_of_held; exists b; exact Hb).
  rewrite elem_of_multiplicity in Hheld. count.
Qed.

(** While a function has an object through an exclusive pointer nothing is lent from it, so
    it may change the object at will. *)
Lemma exclusive_unlent s i h :
  sys_ok s -> client s !! i = Some h -> legal s (AsMut i) -> unlent s (h_ptr h).
Proof.
  intros Hok Hi (h'&Hi'&Hbox&Hno). simplify_eq. intros k q j g a Hk Hq Hj Hg Ha Hr.
  assert (Howned : forall x p, client s !! x = Some p -> origin (h_ty p) = FromBox -> h_owned p = true).
  { intros x p Hx Hb. destruct Hok as [_ Hh]. destruct (Hh x p Hx) as [_ (_&Hkind&_)].
    destruct (h_owned p); [done|]. by destruct Hkind. }
  pose proof (Howned i h Hi Hbox) as Hoh.
  apply (box_reached_from_itself s i h a Hok Hi Hoh Hbox) in Hr as ->.
  assert (Hsame : forall x p, client s !! x = Some p -> h_ptr p = h_ptr h -> x = i).
  { intros x p Hx E. symmetry. assert (Hb : origin (h_ty p) = FromBox).
    { destruct (handle_live s x p Hok Hx) as (c&Hc&<-). destruct (handle_live s i h Hok Hi) as (d&Hd&Ht).
      rewrite E, Hd in Hc. simplify_eq. congruence. }
    by eapply (box_handle_unique s i x h p); eauto. }
  remember (h_ptr h) as l eqn:El. clear Hq. revert k q j Hk Hj Hg.
  induction Ha as [g|g x p a Hx Hp _ IH]; intros k q j Hk Hj Hg.
  - pose proof (Hsame j g Hg eq_refl) as ->. by apply (Hno k q Hk).
  - eapply IH; [done..|exact Hg|exact Hx|exact Hp].
Qed.

(** ** The client can give everything back *)

(** The newest handle: a borrowed pointer is forgotten, an owned one freed. *)
Definition release (i : nat) (h : handle) : op :=
  if h_owned h then if decide (origin (h_ty h) = FromBox) then FreeBox i else FreeArc i
  else Forget i.

(** Operations with which a client gives pointers back. *)
Definition releases (o : op) : Prop :=
  match o with FreeBox _ | FreeArc _ | Forget _ => True | _ => False end.

Lemma newest_no_loans s i :
  sys_ok s -> map_Forall (fun j _ => j <= i) (client s) -> no_loans s i.
Proof.
  intros [_ Hh] Hmax k g Hk E. destruct (Hh k g Hk) as [_ (_&_&Hl)].
  destruct (Hl i E) as (_&_&Hlt&_). specialize (Hmax k g Hk). cbn in Hmax. lia.
Qed.

Lemma shrinks_refl (m : mem T) : shrinks m m.
Proof. intros l c Hl. eauto. Qed.

Lemma shrinks_trans (m1 m2 m3 : mem T) : shrinks m1 m2 -> shrinks m2 m3 -> shrinks m1 m3.
Proof.
  intros H1 H2 l c3 Hl3. destruct (H2 l c3 Hl3) as (c2&Hl2&?&?). destruct (H1 l c2 Hl2) as (c1&Hl1&?&?).
  exists c1. split_and!; congruence.
Qed.

Lemma shrinks_acyclic (m m' : mem T) : shrinks m m' -> acyclic m -> acyclic m'.
Proof.
  intros Hs Hac l Hl. apply (Hac l). revert Hl. apply (tc_congruence id).
  intros a b (c'&Ha&Hb). destruct (Hs a c' Ha) as (c&Hc&_&E). exists c. by rewrite E.
Qed.

Lemma release_ok s i h :
  sys_ok s -> client s !! i = Some h -> no_loans s i ->
  legal s (release i h) /\
  exists s', exec (release i h) s = Done s' /\ sys_ok s' /\
    client s' = delete i (client s) /\ rust s' = rust s /\ shrinks (memory s) (memory s').
Proof.
  intros Hok Hi Hno.
  assert (Hkind := Hok). destruct Hkind as [_ Hh]. destruct (Hh i h Hi) as [_ (_&Hkind&_)].
  unfold release. destruct (h_owned h) eqn:Ho.
  - destruct (free_ok s i h Hok Hi Ho Hno) as (m'&Hd&Hsh&Hok').
    destruct (decide (origin (h_ty h) = FromBox)) as [Hb|Hb].
    + split; [by exists h|]. eexists. split_and!; [|exact Hok'|done|done|exact Hsh].
      cbn [exec]. unfold BoxFFI_free. rewrite (box_from_ptr_ok _ _ _ _ Hok Hi Hb). cbn [mbind safe_bind].
      by rewrite Hd.
    + assert (Ha : origin (h_ty h) = FromArc) by by destruct (origin (h_ty h)).
      split; [by exists h|]. eexists. split_and!; [|exact Hok'|done|done|exact Hsh].
      cbn [exec]. unfold ArcFFI_free. rewrite (arc_from_ptr_ok _ _ _ _ Hok Hi Ha). cbn [mbind safe_bind].
      by rewrite Hd.
  - assert (Hleg : legal s (Forget i)) by by exists h.
    split; [done|]. destruct (exec_ok _ s Hok Hleg) as (s'&Hs'&Hok'). exists s'.
    cbn [exec] in *. injection Hs' as <-. split_and!; try done. apply shrinks_refl.
Qed.

Lemma release_all_ok : forall n s, sys_ok s -> size (client s) = n ->
  exists ops s', legal_trace s ops /\ run ops s = Done s' /\ sys_ok s' /\
    client s' = ∅ /\ rust s' = rust s /\ shrinks (memory s) (memory s') /\ Forall releases ops.
Proof.
  induction n as [|n IH]; intros s Hok Hn.
  { exists [], s. apply map_size_empty_inv in Hn. split_and!; try done. apply shrinks_refl. }
  assert (Hmax : exists i h, client s !! i = Some h /\ map_Forall (fun j _ => j <= i) (client s)).
  { clear IH. assert (Hne : client s <> ∅) by (intros E; by rewrite E, map_size_empty in Hn).
    clear Hn Hok. revert Hne. induction (client s) as [|i h cl Hi IHc] using map_ind; [done|]. intros _.
    destruct (decide (cl = ∅)) as [->|Hc].
    { exists i, h. split; [by rewrite lookup_insert_eq|]. intros j g Hj. apply lookup_insert_Some in Hj.
      destruct Hj as [[-> _]|[_ Hj]]; [lia|]. by rewrite lookup_empty in Hj. }
    destruct (IHc Hc) as (k&g&Hk&Hm). destruct (decide (k <= i)).
    - exists i, h. split; [by rewrite lookup_insert_eq|]. apply map_Forall_insert_2; [lia|].
      intros j p Hj. specialize (Hm j p Hj). cbn in *. lia.
    - exists k, g. split; [rewrite lookup_insert_ne; [done|lia]|]. apply map_Forall_insert_2; [lia|done]. }
  destruct Hmax as (i&h&Hi&Hm). pose proof (newest_no_loans s i Hok Hm) as Hno.
  destruct (release_ok s i h Hok Hi Hno) as (Hleg&s1&Hs1&Hok1&Hc1&Hr1&Hsh1).
  destruct (IH s1 Hok1) as (ops&s'&Hlt&Hrun&Hok'&Hc'&Hr'&Hsh&Hall).
  { rewrite Hc1, map_size_delete_Some by eauto. lia. }
  exists (release i h :: ops), s'. split_and!; try done; try congruence.
  - split; [done|]. intros s2 Hs2. rewrite Hs1 in Hs2. by injection Hs2 as <-.
  - cbn [run]. by rewrite Hs1.
  - by eapply shrinks_trans.
  - constructor; [|done]. unfold release. destruct (h_owned h); [destruct (decide _)|]; done.
Qed.

(** ** The theorems *)

(** C4: A client that keeps to the contract never causes undefined behaviour: whatever the
    driver and the client do, every conversion finds its object allocated the way it
    expects, the counts of all objects are the numbers of references to them, and every
    pointer the client has points to an object of its type. *)
Theorem ffi_memory_safe (ops : list op) :
  legal_trace init ops -> exists s, run ops init = Done s /\ sys_ok s.
Proof. apply legal_run_ok, init_ok. Qed.

(** C19: Objects live exactly as long as they are needed: when the references between objects
    have no cycle, an object is allocated if and only if a reference of the driver or an
    owned pointer of the client leads to it. *)
Theorem ffi_objects_live_while_reachable (ops : list op) (s : sys) (l : nat) :
  legal_trace init ops -> run ops init = Done s -> acyclic (memory s) ->
  live (memory s) l <-> visible s l.
Proof.
  intros Hleg Hrun Hac. destruct (legal_run_ok ops init init_ok Hleg) as (s'&Hs'&[Hm _]).
  rewrite Hrun in Hs'. injection Hs' as <-. by apply live_reachable.
Qed.

(** C12: Nothing leaks: at any point the client can forget its borrowed pointers and free its
    owned ones, newest first, without breaking the contract, and when the driver has
    finished its work and there is no cycle of references, no object is left. *)
Theorem ffi_client_can_free_everything (ops : list op) (s : sys) :
  legal_trace init ops -> run ops init = Done s ->
  exists frees s', legal_trace s frees /\ Forall releases frees /\ run frees s = Done s' /\
    client s' = ∅ /\ rust s' = rust s /\
    (rust s = ∅ -> acyclic (memory s) -> cells (memory s') = ∅).
Proof.
  intros Hleg Hrun. destruct (legal_run_ok ops init init_ok Hleg) as (s0&Hs0&Hok).
  rewrite Hrun in Hs0. injection Hs0 as <-.
  destruct (release_all_ok _ s Hok eq_refl) as (frees&s'&Hlt&Hr&[Hm _]&Hc&Hru&Hsh&Hall).
  exists frees, s'. split_and!; try done. intros Hempty Hac. apply map_eq. intros l. rewrite lookup_empty.
  apply eq_None_not_Some. intros Hlive.
  apply (live_reachable _ _ _ Hm) in Hlive as (r&Hr'&_); [|by eapply shrinks_acyclic].
  unfold roots in Hr'. rewrite Hc, Hru, Hempty in Hr'. unfold owned_refs in Hr'.
  rewrite map_fold_empty in Hr'. multiset_solver.
Qed.

End Protocol.

(** ** An example

    A data type (an [Arc]) is created, put into a tuple (a [Box]), borrowed from the tuple
    and freed by the client before the tuple is.  Objects are named by their origin. *)
#[local] Instance origin_itself : FFI Origin := fun o => o.

Definition tuple_of_type : list op :=
  [RustNew FromArc []; GiveArc 0 CMut; CloneArc 0; RustNew FromBox [0]; GiveBox 1 None CMut;
   Lend 1 0 CConst; AsRef 2; Forget 2; FreeArc 0; AsMut 1].

(** The state after the first operations. *)
Definition after (n : nat) : sys :=
  match run (take n tuple_of_type) init with Done s => s | Undefined => init end.

Ltac closed := unfold no_loans; cbn [legal]; apply (bool_decide_unpack _); vm_compute; exact I.
Ltac known := eexists; split_and!; [vm_compute; reflexivity|..]; first [vm_compute; reflexivity|closed].

Lemma legal_cons n o ops :
  take 1 (skipn n tuple_of_type) = [o] -> legal (after n) o ->
  exec o (after n) = Done (after (S n)) ->
  legal_trace (after (S n)) ops -> legal_trace (after n) (o :: ops).
Proof. intros _ Ho He Hops. split; [done|]. intros s' Hs'. rewrite He in Hs'. by injection Hs' as <-. Qed.

Lemma tuple_of_type_legal : legal_trace init tuple_of_type.
Proof.
  change init with (after 0). unfold tuple_of_type.
  apply legal_cons; [done|closed|vm_compute; reflexivity|].
  apply legal_cons; [done|split; [closed|vm_compute; reflexivity]|vm_compute; reflexivity|].
  apply legal_cons; [done|known|vm_compute; reflexivity|].
  apply legal_cons; [done|closed|vm_compute; reflexivity|].
  apply legal_cons; [done|split_and!; [closed|vm_compute; reflexivity|exact I]|vm_compute; reflexivity|].
  apply legal_cons; [done| |vm_compute; reflexivity|].
  { split; [vm_compute; discriminate|]. eexists _, 1. split; [vm_compute; reflexivity|].
    split; [apply source_here|]. apply rtc_once. eexists. split; [vm_compute; reflexivity|constructor]. }
  apply legal_cons; [done|closed|vm_compute; reflexivity|].
  apply legal_cons; [done|known|vm_compute; reflexivity|].
  apply legal_cons; [done|known|vm_compute; reflexivity|].
  apply legal_cons; [done|known|vm_compute; reflexivity|].
  exact I.
Qed.

(** When the tuple is alive, so is its data type, which only the tuple refers to. *)
Lemma tuple_of_type_after : (fun c => (strong c, holds c)) <$> cells (memory (after 10)) = {[ 0 := (1, []); 1 := (1, [0]) ]}.
Proof. vm_compute. reflexivity. Qed.

Lemma tuple_of_type_run : run tuple_of_type init = Done (after 10).
Proof. vm_compute. reflexivity. Qed.

Lemma tuple_of_type_edge a b : edge (memory (after 10)) a b -> a = 1 /\ b = 0.
Proof.
  intros (c&Ha&Hb). assert (E := tuple_of_type_after). apply (f_equal (fun m => m !! a)) in E.
  rewrite lookup_fmap, Ha in E. cbn in E. symmetry in E.
  apply lookup_insert_Some in E as [[<- E]|[_ E]]; [injection E as E1 E2; rewrite <- E2 in Hb; by apply not_elem_of_nil in Hb|].
  apply lookup_singleton_Some in E as [<- E]. injection E as E1 E2. rewrite <- E2 in Hb.
  apply list_elem_of_singleton in Hb. done.
Qed.

Lemma tuple_of_type_acyclic : acyclic (memory (after 10)).
Proof.
  intros l Hl. inversion Hl as [? ? He|? b ? He Hr]; subst; apply tuple_of_type_edge in He as [? ?]; subst;
    [done|]. inversion Hr as [? ? He|? ? ? He _]; subst; by apply tuple_of_type_edge in He as [? ?].
Qed.

Lemma ffi_memory_safe_witness : exists s, run tuple_of_type init = Done s /\ sys_ok s.
Proof. exact (ffi_memory_safe tuple_of_type tuple_of_type_legal). Defined.

Lemma ffi_objects_live_while_reachable_witness :
  live (memory (after 10)) 0 <-> visible (after 10) 0.
Proof.
  exact (ffi_objects_live_while_reachable tuple_of_type (after 10) 0
           tuple_of_type_legal tuple_of_type_run tuple_of_type_acyclic).
Defined.

Lemma ffi_client_can_free_everything_witness :
  exists frees s', legal_trace (after 10) frees /\ Forall releases frees /\
    run frees (after 10) = Done s' /\ client s' = ∅ /\ rust s' = rust (after 10) /\
    (rust (after 10) = ∅ -> acyclic (memory (after 10)) -> cells (memory s') = ∅).
Proof.
  exact (ffi_client_can_free_everything tuple_of_type (after 10) tuple_of_type_legal tuple_of_type_run).
Defined.

(** A data type that is its own subtype keeps itself alive: the client has given back all it
    owned and the object is still there. *)
Lemma cycle_leaks :
  exists s, run [RustNew FromArc []; GiveArc 0 CMut; CloneArc 0; RustAttach 0 0; FreeArc 0] init = Done s /\
    client s = ∅ /\ rust s = ∅ /\ live (memory s) 0.
Proof. eexists. split; [vm_compute; reflexivity|]. split_and!; [done|done|]. by eexists. Qed.

(** A second free of the same pointer is undefined, as is freeing a box as an [Arc]. *)
Lemma misuse_undefined :
  (exists s, run [RustNew FromBox []; GiveBox 0 None CMut] init = Done s /\
     BoxFFI_free (cm := CMut) (pointer_of 0 s) (memory s) = Done (mkMem ∅ 1) /\
     BoxFFI_free (cm := CMut) (pointer_of 0 s) (mkMem ∅ 1) = Undefined /\
     ArcFFI_free (cm := CMut) (pointer_of 0 s) (memory s) = Undefined).
Proof. eexists. split; [vm_compute; reflexivity|]. split_and!; vm_compute; reflexivity. Qed.
