(* ===== verification/Api.v ===== *)
(** * The exported functions (api.rs)

    The types that cross the API with their origins (their [impl FFI]), and for every
    function that api.rs exports the pointers it takes and returns: the properties of each
    [CassPtr] in its Rust signature, and for a returned pointer the parameters whose
    lifetime it has.  Arguments that are not pointers to objects of the API are [Val].
    The theorems say that these signatures respect the contract of Lifetimes, so that it is
    enough for a client to pass live pointers of the right C types. *)

From Stdlib Require Import Lia String.
From stdpp Require Import base list gmap gmultiset strings relations.
From S2P Require Import Prelude Ffi Lifetimes.

Open Scope nat_scope.

(** ** Types *)

Inductive CassType :=
| CassBatch | CassCluster | CassCollection | CassColumnMeta | CassDataType | CassErrorResult
| CassExecProfile | CassFuture | CassIterator | CassKeyspaceMeta | CassLogMessage
| CassMaterializedViewMeta | CassNode | CassPrepared | CassResult | CassRetryPolicy | CassRow
| CassSchemaMeta | CassSession | CassSsl | CassStatement | CassTableMeta | CassTimestampGen
| CassTuple | CassUserType | CassUuidGen | CassValue | CassVector.

#[global] Instance CassType_eq_dec : EqDecision CassType.
Proof. solve_decision. Defined.

#[global] Instance CassType_FFI : FFI CassType := fun t =>
  match t with
  | CassBatch | CassCluster | CassCollection | CassExecProfile | CassIterator | CassSchemaMeta
  | CassStatement | CassTimestampGen | CassTuple | CassUserType | CassUuidGen | CassVector => FromBox
  | CassDataType | CassErrorResult | CassFuture | CassPrepared | CassResult | CassRetryPolicy
  | CassSession | CassSsl => FromArc
  | CassColumnMeta | CassKeyspaceMeta | CassLogMessage | CassMaterializedViewMeta | CassNode
  | CassRow | CassTableMeta | CassValue => FromRef
  end.

(** ** Signatures *)

Inductive arg :=
| Val
| Ptr (life : Lifetime) (o : Ownership) (cm : CMutability) (t : CassType).

(** A returned pointer, with the positions of the parameters whose lifetime it has. *)
Inductive ret :=
| NoPtr
| RetPtr (life : Lifetime) (o : Ownership) (cm : CMutability) (t : CassType) (from : list nat).

Record signature := fn { fn_name : string; fn_args : list arg; fn_ret : ret }.

#[local] Notation OwnedShared t cm := (Ptr Static Shared cm t).
#[local] Notation OwnedExclusive t cm := (Ptr Static Exclusive cm t).
#[local] Notation BorrowedShared t cm := (Ptr Borrow Shared cm t).
#[local] Notation BorrowedExclusive t cm := (Ptr Borrow Exclusive cm t).

Open Scope string_scope.
Open Scope list_scope.

(** ** The functions, by module of api.rs *)

Definition execution_profile_api : list signature := [
  fn "cass_execution_profile_free" [OwnedExclusive CassExecProfile CMut] NoPtr;
  fn "cass_execution_profile_new" [] (RetPtr Static Exclusive CMut CassExecProfile []);
  fn "cass_execution_profile_set_blacklist_dc_filtering" [BorrowedExclusive CassExecProfile CMut; Val] NoPtr;
  fn "cass_execution_profile_set_blacklist_dc_filtering_n" [BorrowedExclusive CassExecProfile CMut; Val; Val] NoPtr;
  fn "cass_execution_profile_set_blacklist_filtering" [BorrowedExclusive CassExecProfile CMut; Val] NoPtr;
  fn "cass_execution_profile_set_blacklist_filtering_n" [BorrowedExclusive CassExecProfile CMut; Val; Val] NoPtr;
  fn "cass_execution_profile_set_consistency" [BorrowedExclusive CassExecProfile CMut; Val] NoPtr;
  fn "cass_execution_profile_set_constant_speculative_execution_policy" [BorrowedExclusive CassExecProfile CMut; Val; Val] NoPtr;
  fn "cass_execution_profile_set_latency_aware_routing" [BorrowedExclusive CassExecProfile CMut; Val] NoPtr;
  fn "cass_execution_profile_set_latency_aware_routing_settings" [BorrowedExclusive CassExecProfile CMut; Val; Val; Val; Val; Val] NoPtr;
  fn "cass_execution_profile_set_load_balance_dc_aware" [BorrowedExclusive CassExecProfile CMut; Val; Val; Val] NoPtr;
  fn "cass_execution_profile_set_load_balance_dc_aware_n" [BorrowedExclusive CassExecProfile CMut; Val; Val; Val; Val] NoPtr;
  fn "cass_execution_profile_set_load_balance_rack_aware" [BorrowedExclusive CassExecProfile CMut; Val; Val] NoPtr;
  fn "cass_execution_profile_set_load_balance_rack_aware_n" [BorrowedExclusive CassExecProfile CMut; Val; Val; Val; Val] NoPtr;
  fn "cass_execution_profile_set_load_balance_round_robin" [BorrowedExclusive CassExecProfile CMut] NoPtr;
  fn "cass_execution_profile_set_no_speculative_execution_policy" [BorrowedExclusive CassExecProfile CMut] NoPtr;
  fn "cass_execution_profile_set_request_timeout" [BorrowedExclusive CassExecProfile CMut; Val] NoPtr;
  fn "cass_execution_profile_set_retry_policy" [BorrowedExclusive CassExecProfile CMut; BorrowedShared CassRetryPolicy CMut] NoPtr;
  fn "cass_execution_profile_set_serial_consistency" [BorrowedExclusive CassExecProfile CMut; Val] NoPtr;
  fn "cass_execution_profile_set_token_aware_routing" [BorrowedExclusive CassExecProfile CMut; Val] NoPtr;
  fn "cass_execution_profile_set_token_aware_routing_shuffle_replicas" [BorrowedExclusive CassExecProfile CMut; Val] NoPtr;
  fn "cass_execution_profile_set_whitelist_dc_filtering" [BorrowedExclusive CassExecProfile CMut; Val] NoPtr;
  fn "cass_execution_profile_set_whitelist_dc_filtering_n" [BorrowedExclusive CassExecProfile CMut; Val; Val] NoPtr;
  fn "cass_execution_profile_set_whitelist_filtering" [BorrowedExclusive CassExecProfile CMut; Val] NoPtr;
  fn "cass_execution_profile_set_whitelist_filtering_n" [BorrowedExclusive CassExecProfile CMut; Val; Val] NoPtr
].

Definition cluster_api : list signature := [
  fn "cass_cluster_free" [OwnedExclusive CassCluster CMut] NoPtr;
  fn "cass_cluster_new" [] (RetPtr Static Exclusive CMut CassCluster []);
  fn "cass_cluster_set_application_name" [BorrowedExclusive CassCluster CMut; Val] NoPtr;
  fn "cass_cluster_set_application_name_n" [BorrowedExclusive CassCluster CMut; Val; Val] NoPtr;
  fn "cass_cluster_set_application_version" [BorrowedExclusive CassCluster CMut; Val] NoPtr;
  fn "cass_cluster_set_application_version_n" [BorrowedExclusive CassCluster CMut; Val; Val] NoPtr;
  fn "cass_cluster_set_blacklist_dc_filtering" [BorrowedExclusive CassCluster CMut; Val] NoPtr;
  fn "cass_cluster_set_blacklist_dc_filtering_n" [BorrowedExclusive CassCluster CMut; Val; Val] NoPtr;
  fn "cass_cluster_set_blacklist_filtering" [BorrowedExclusive CassCluster CMut; Val] NoPtr;
  fn "cass_cluster_set_blacklist_filtering_n" [BorrowedExclusive CassCluster CMut; Val; Val] NoPtr;
  fn "cass_cluster_set_client_id" [BorrowedExclusive CassCluster CMut; Val] NoPtr;
  fn "cass_cluster_set_coalesce_delay" [BorrowedExclusive CassCluster CMut; Val] NoPtr;
  fn "cass_cluster_set_compression" [BorrowedExclusive CassCluster CMut; Val] NoPtr;
  fn "cass_cluster_set_connect_timeout" [BorrowedExclusive CassCluster CMut; Val] NoPtr;
  fn "cass_cluster_set_connection_heartbeat_interval" [BorrowedExclusive CassCluster CMut; Val] NoPtr;
  fn "cass_cluster_set_connection_idle_timeout" [BorrowedExclusive CassCluster CMut; Val] NoPtr;
  fn "cass_cluster_set_consistency" [BorrowedExclusive CassCluster CMut; Val] NoPtr;
  fn "cass_cluster_set_constant_reconnect" [BorrowedExclusive CassCluster CMut; Val] NoPtr;
  fn "cass_cluster_set_contact_points" [BorrowedExclusive CassCluster CMut; Val] NoPtr;
  fn "cass_cluster_set_contact_points_n" [BorrowedExclusive CassCluster CMut; Val; Val] NoPtr;
  fn "cass_cluster_set_constant_speculative_execution_policy" [BorrowedExclusive CassCluster CMut; Val; Val] NoPtr;
  fn "cass_cluster_set_core_connections_per_host" [BorrowedExclusive CassCluster CMut; Val] NoPtr;
  fn "cass_cluster_set_core_connections_per_shard" [BorrowedExclusive CassCluster CMut; Val] NoPtr;
  fn "cass_cluster_set_credentials" [BorrowedExclusive CassCluster CMut; Val; Val] NoPtr;
  fn "cass_cluster_set_credentials_n" [BorrowedExclusive CassCluster CMut; Val; Val; Val; Val] NoPtr;
  fn "cass_cluster_set_execution_profile" [BorrowedExclusive CassCluster CMut; Val; BorrowedExclusive CassExecProfile CMut] NoPtr;
  fn "cass_cluster_set_execution_profile_n" [BorrowedExclusive CassCluster CMut; Val; Val; BorrowedExclusive CassExecProfile CMut] NoPtr;
  fn "cass_cluster_set_exponential_reconnect" [BorrowedExclusive CassCluster CMut; Val; Val] NoPtr;
  fn "cass_cluster_set_host_listener_callback" [BorrowedExclusive CassCluster CMut; Val; Val] NoPtr;
  fn "cass_cluster_set_latency_aware_routing" [BorrowedExclusive CassCluster CMut; Val] NoPtr;
  fn "cass_cluster_set_latency_aware_routing_settings" [BorrowedExclusive CassCluster CMut; Val; Val; Val; Val; Val] NoPtr;
  fn "cass_cluster_set_load_balance_round_robin" [BorrowedExclusive CassCluster CMut] NoPtr;
  fn "cass_cluster_set_load_balance_dc_aware" [BorrowedExclusive CassCluster CMut; Val; Val; Val] NoPtr;
  fn "cass_cluster_set_load_balance_dc_aware_n" [BorrowedExclusive CassCluster CMut; Val; Val; Val; Val] NoPtr;
  fn "cass_cluster_set_local_address" [BorrowedExclusive CassCluster CMut; Val] NoPtr;
  fn "cass_cluster_set_local_address_n" [BorrowedExclusive CassCluster CMut; Val; Val] NoPtr;
  fn "cass_cluster_set_local_port_range" [BorrowedExclusive CassCluster CMut; Val; Val] NoPtr;
  fn "cass_cluster_set_load_balance_rack_aware" [BorrowedExclusive CassCluster CMut; Val; Val] NoPtr;
  fn "cass_cluster_set_load_balance_rack_aware_n" [BorrowedExclusive CassCluster CMut; Val; Val; Val; Val] NoPtr;
  fn "cass_cluster_set_max_schema_wait_time" [BorrowedExclusive CassCluster CMut; Val] NoPtr;
  fn "cass_cluster_set_metadata_request_serverside_timeout" [BorrowedExclusive CassCluster CMut; Val] NoPtr;
  fn "cass_cluster_set_no_speculative_execution_policy" [BorrowedExclusive CassCluster CMut] NoPtr;
  fn "cass_cluster_set_num_threads_io" [BorrowedExclusive CassCluster CMut; Val] NoPtr;
  fn "cass_cluster_set_port" [BorrowedExclusive CassCluster CMut; Val] NoPtr;
  fn "cass_cluster_set_protocol_version" [BorrowedExclusive CassCluster CMut; Val] NoPtr;
  fn "cass_cluster_set_reconnect_wait_time" [BorrowedExclusive CassCluster CMut; Val] NoPtr;
  fn "cass_cluster_set_request_timeout" [BorrowedExclusive CassCluster CMut; Val] NoPtr;
  fn "cass_cluster_set_resolve_timeout" [BorrowedExclusive CassCluster CMut; Val] NoPtr;
  fn "cass_cluster_set_retry_policy" [BorrowedExclusive CassCluster CMut; BorrowedShared CassRetryPolicy CMut] NoPtr;
  fn "cass_cluster_set_schema_agreement_interval" [BorrowedExclusive CassCluster CMut; Val] NoPtr;
  fn "cass_cluster_set_serial_consistency" [BorrowedExclusive CassCluster CMut; Val] NoPtr;
  fn "cass_cluster_set_ssl" [BorrowedExclusive CassCluster CMut; BorrowedShared CassSsl CMut] NoPtr;
  fn "cass_cluster_set_tcp_keepalive" [BorrowedExclusive CassCluster CMut; Val; Val] NoPtr;
  fn "cass_cluster_set_tcp_nodelay" [BorrowedExclusive CassCluster CMut; Val] NoPtr;
  fn "cass_cluster_set_timestamp_gen" [BorrowedExclusive CassCluster CMut; BorrowedShared CassTimestampGen CMut] NoPtr;
  fn "cass_cluster_set_token_aware_routing" [BorrowedExclusive CassCluster CMut; Val] NoPtr;
  fn "cass_cluster_set_token_aware_routing_shuffle_replicas" [BorrowedExclusive CassCluster CMut; Val] NoPtr;
  fn "cass_cluster_set_use_beta_protocol_version" [BorrowedExclusive CassCluster CMut; Val] NoPtr;
  fn "cass_cluster_set_use_randomized_contact_points" [BorrowedExclusive CassCluster CMut; Val] NoPtr;
  fn "cass_cluster_set_use_schema" [BorrowedExclusive CassCluster CMut; Val] NoPtr;
  fn "cass_cluster_set_whitelist_dc_filtering" [BorrowedExclusive CassCluster CMut; Val] NoPtr;
  fn "cass_cluster_set_whitelist_dc_filtering_n" [BorrowedExclusive CassCluster CMut; Val; Val] NoPtr;
  fn "cass_cluster_set_whitelist_filtering" [BorrowedExclusive CassCluster CMut; Val] NoPtr;
  fn "cass_cluster_set_whitelist_filtering_n" [BorrowedExclusive CassCluster CMut; Val; Val] NoPtr
].

Definition session_api : list signature := [
  fn "cass_session_close" [BorrowedShared CassSession CMut] (RetPtr Static Shared CMut CassFuture []);
  fn "cass_session_connect" [BorrowedShared CassSession CMut; BorrowedShared CassCluster CConst] (RetPtr Static Shared CMut CassFuture []);
  fn "cass_session_connect_keyspace" [BorrowedShared CassSession CMut; BorrowedShared CassCluster CConst; Val] (RetPtr Static Shared CMut CassFuture []);
  fn "cass_session_connect_keyspace_n" [BorrowedShared CassSession CMut; BorrowedShared CassCluster CConst; Val; Val] (RetPtr Static Shared CMut CassFuture []);
  fn "cass_session_execute" [BorrowedShared CassSession CMut; BorrowedShared CassStatement CConst] (RetPtr Static Shared CMut CassFuture []);
  fn "cass_session_execute_batch" [BorrowedShared CassSession CMut; BorrowedShared CassBatch CConst] (RetPtr Static Shared CMut CassFuture []);
  fn "cass_session_free" [OwnedShared CassSession CMut] NoPtr;
  fn "cass_session_get_client_id" [BorrowedShared CassSession CMut] NoPtr;
  fn "cass_session_get_metrics" [BorrowedShared CassSession CConst; Val] NoPtr;
  fn "cass_session_get_schema_meta" [BorrowedShared CassSession CConst] (RetPtr Static Exclusive CConst CassSchemaMeta []);
  fn "cass_session_new" [] (RetPtr Static Shared CMut CassSession []);
  fn "cass_session_prepare" [BorrowedShared CassSession CMut; Val] (RetPtr Static Shared CMut CassFuture []);
  fn "cass_session_prepare_from_existing" [BorrowedShared CassSession CMut; BorrowedShared CassStatement CMut] (RetPtr Static Shared CMut CassFuture []);
  fn "cass_session_prepare_n" [BorrowedShared CassSession CMut; Val; Val] (RetPtr Static Shared CMut CassFuture [])
].

Definition schema_meta_api : list signature := [
  fn "cass_schema_meta_free" [OwnedExclusive CassSchemaMeta CConst] NoPtr;
  fn "cass_schema_meta_keyspace_by_name" [BorrowedShared CassSchemaMeta CConst; Val] (RetPtr Borrow Shared CConst CassKeyspaceMeta [0]);
  fn "cass_schema_meta_keyspace_by_name_n" [BorrowedShared CassSchemaMeta CConst; Val; Val] (RetPtr Borrow Shared CConst CassKeyspaceMeta [0])
].

Definition keyspace_meta_api : list signature := [
  fn "cass_keyspace_meta_materialized_view_by_name" [BorrowedShared CassKeyspaceMeta CConst; Val] (RetPtr Borrow Shared CConst CassMaterializedViewMeta [0]);
  fn "cass_keyspace_meta_materialized_view_by_name_n" [BorrowedShared CassKeyspaceMeta CConst; Val; Val] (RetPtr Borrow Shared CConst CassMaterializedViewMeta [0]);
  fn "cass_keyspace_meta_name" [BorrowedShared CassKeyspaceMeta CConst; Val; Val] NoPtr;
  fn "cass_keyspace_meta_table_by_name" [BorrowedShared CassKeyspaceMeta CConst; Val] (RetPtr Borrow Shared CConst CassTableMeta [0]);
  fn "cass_keyspace_meta_table_by_name_n" [BorrowedShared CassKeyspaceMeta CConst; Val; Val] (RetPtr Borrow Shared CConst CassTableMeta [0]);
  fn "cass_keyspace_meta_user_type_by_name" [BorrowedShared CassKeyspaceMeta CConst; Val] (RetPtr Borrow Shared CConst CassDataType [0]);
  fn "cass_keyspace_meta_user_type_by_name_n" [BorrowedShared CassKeyspaceMeta CConst; Val; Val] (RetPtr Borrow Shared CConst CassDataType [0])
].

Definition table_meta_api : list signature := [
  fn "cass_table_meta_clustering_key_count" [BorrowedShared CassTableMeta CConst] NoPtr;
  fn "cass_table_meta_clustering_key" [BorrowedShared CassTableMeta CConst; Val] (RetPtr Borrow Shared CConst CassColumnMeta [0]);
  fn "cass_table_meta_column" [BorrowedShared CassTableMeta CConst; Val] (RetPtr Borrow Shared CConst CassColumnMeta [0]);
  fn "cass_table_meta_column_by_name" [BorrowedShared CassTableMeta CConst; Val] (RetPtr Borrow Shared CConst CassColumnMeta [0]);
  fn "cass_table_meta_column_by_name_n" [BorrowedShared CassTableMeta CConst; Val; Val] (RetPtr Borrow Shared CConst CassColumnMeta [0]);
  fn "cass_table_meta_column_count" [BorrowedShared CassTableMeta CConst] NoPtr;
  fn "cass_table_meta_materialized_view" [BorrowedShared CassTableMeta CConst; Val] (RetPtr Borrow Shared CConst CassMaterializedViewMeta [0]);
  fn "cass_table_meta_materialized_view_by_name" [BorrowedShared CassTableMeta CConst; Val] (RetPtr Borrow Shared CConst CassMaterializedViewMeta [0]);
  fn "cass_table_meta_materialized_view_by_name_n" [BorrowedShared CassTableMeta CConst; Val; Val] (RetPtr Borrow Shared CConst CassMaterializedViewMeta [0]);
  fn "cass_table_meta_materialized_view_count" [BorrowedShared CassTableMeta CConst] NoPtr;
  fn "cass_table_meta_name" [BorrowedShared CassTableMeta CConst; Val; Val] NoPtr;
  fn "cass_table_meta_partition_key_count" [BorrowedShared CassTableMeta CConst] NoPtr;
  fn "cass_table_meta_partition_key" [BorrowedShared CassTableMeta CConst; Val] (RetPtr Borrow Shared CConst CassColumnMeta [0])
].

Definition materialized_view_meta_api : list signature := [
  fn "cass_materialized_view_meta_base_table" [BorrowedShared CassMaterializedViewMeta CConst] (RetPtr Borrow Shared CConst CassTableMeta [0]);
  fn "cass_materialized_view_meta_column" [BorrowedShared CassMaterializedViewMeta CConst; Val] (RetPtr Borrow Shared CConst CassColumnMeta [0]);
  fn "cass_materialized_view_meta_column_by_name" [BorrowedShared CassMaterializedViewMeta CConst; Val] (RetPtr Borrow Shared CConst CassColumnMeta [0]);
  fn "cass_materialized_view_meta_column_by_name_n" [BorrowedShared CassMaterializedViewMeta CConst; Val; Val] (RetPtr Borrow Shared CConst CassColumnMeta [0]);
  fn "cass_materialized_view_meta_column_count" [BorrowedShared CassMaterializedViewMeta CConst] NoPtr;
  fn "cass_materialized_view_meta_name" [BorrowedShared CassMaterializedViewMeta CConst; Val; Val] NoPtr;
  fn "cass_materialized_view_meta_clustering_key" [BorrowedShared CassMaterializedViewMeta CConst; Val] (RetPtr Borrow Shared CConst CassColumnMeta [0]);
  fn "cass_materialized_view_meta_clustering_key_count" [BorrowedShared CassMaterializedViewMeta CConst] NoPtr;
  fn "cass_materialized_view_meta_partition_key" [BorrowedShared CassMaterializedViewMeta CConst; Val] (RetPtr Borrow Shared CConst CassColumnMeta [0]);
  fn "cass_materialized_view_meta_partition_key_count" [BorrowedShared CassMaterializedViewMeta CConst] NoPtr
].

Definition column_meta_api : list signature := [
  fn "cass_column_meta_data_type" [BorrowedShared CassColumnMeta CConst] (RetPtr Borrow Shared CConst CassDataType [0]);
  fn "cass_column_meta_name" [BorrowedShared CassColumnMeta CConst; Val; Val] NoPtr;
  fn "cass_column_meta_type" [BorrowedShared CassColumnMeta CConst] NoPtr
].

Definition ssl_api : list signature := [
  fn "cass_ssl_add_trusted_cert" [BorrowedShared CassSsl CMut; Val] NoPtr;
  fn "cass_ssl_add_trusted_cert_n" [BorrowedShared CassSsl CMut; Val; Val] NoPtr;
  fn "cass_ssl_free" [OwnedShared CassSsl CMut] NoPtr;
  fn "cass_ssl_new" [] (RetPtr Static Shared CMut CassSsl []);
  fn "cass_ssl_new_no_lib_init" [] (RetPtr Static Shared CMut CassSsl []);
  fn "cass_ssl_set_cert" [BorrowedShared CassSsl CMut; Val] NoPtr;
  fn "cass_ssl_set_cert_n" [BorrowedShared CassSsl CMut; Val; Val] NoPtr;
  fn "cass_ssl_set_private_key" [BorrowedShared CassSsl CMut; Val; Val] NoPtr;
  fn "cass_ssl_set_private_key_n" [BorrowedShared CassSsl CMut; Val; Val; Val; Val] NoPtr;
  fn "cass_ssl_set_verify_flags" [BorrowedShared CassSsl CMut; Val] NoPtr
].

Definition future_api : list signature := [
  fn "cass_future_coordinator" [BorrowedShared CassFuture CMut] (RetPtr Borrow Shared CConst CassNode [0]);
  fn "cass_future_error_code" [BorrowedShared CassFuture CMut] NoPtr;
  fn "cass_future_error_message" [BorrowedShared CassFuture CMut; Val; Val] NoPtr;
  fn "cass_future_get_error_result" [BorrowedShared CassFuture CMut] (RetPtr Static Shared CConst CassErrorResult []);
  fn "cass_future_free" [OwnedShared CassFuture CMut] NoPtr;
  fn "cass_future_get_prepared" [BorrowedShared CassFuture CMut] (RetPtr Static Shared CConst CassPrepared []);
  fn "cass_future_get_result" [BorrowedShared CassFuture CMut] (RetPtr Static Shared CConst CassResult []);
  fn "cass_future_ready" [BorrowedShared CassFuture CMut] NoPtr;
  fn "cass_future_set_callback" [BorrowedShared CassFuture CMut; Val; Val] NoPtr;
  fn "cass_future_tracing_id" [BorrowedShared CassFuture CMut; Val] NoPtr;
  fn "cass_future_wait" [BorrowedShared CassFuture CMut] NoPtr;
  fn "cass_future_wait_timed" [BorrowedShared CassFuture CMut; Val] NoPtr
].

Definition statement_api : list signature := [
  fn "cass_statement_bind_bool" [BorrowedExclusive CassStatement CMut; Val; Val] NoPtr;
  fn "cass_statement_bind_bool_by_name" [BorrowedExclusive CassStatement CMut; Val; Val] NoPtr;
  fn "cass_statement_bind_bool_by_name_n" [BorrowedExclusive CassStatement CMut; Val; Val; Val] NoPtr;
  fn "cass_statement_bind_bytes" [BorrowedExclusive CassStatement CMut; Val; Val; Val] NoPtr;
  fn "cass_statement_bind_bytes_by_name" [BorrowedExclusive CassStatement CMut; Val; Val; Val] NoPtr;
  fn "cass_statement_bind_bytes_by_name_n" [BorrowedExclusive CassStatement CMut; Val; Val; Val; Val] NoPtr;
  fn "cass_statement_bind_collection" [BorrowedExclusive CassStatement CMut; Val; BorrowedShared CassCollection CConst] NoPtr;
  fn "cass_statement_bind_collection_by_name" [BorrowedExclusive CassStatement CMut; Val; BorrowedShared CassCollection CConst] NoPtr;
  fn "cass_statement_bind_collection_by_name_n" [BorrowedExclusive CassStatement CMut; Val; Val; BorrowedShared CassCollection CConst] NoPtr;
  fn "cass_statement_bind_decimal" [BorrowedExclusive CassStatement CMut; Val; Val; Val; Val] NoPtr;
  fn "cass_statement_bind_decimal_by_name" [BorrowedExclusive CassStatement CMut; Val; Val; Val; Val] NoPtr;
  fn "cass_statement_bind_decimal_by_name_n" [BorrowedExclusive CassStatement CMut; Val; Val; Val; Val; Val] NoPtr;
  fn "cass_statement_bind_double" [BorrowedExclusive CassStatement CMut; Val; Val] NoPtr;
  fn "cass_statement_bind_double_by_name" [BorrowedExclusive CassStatement CMut; Val; Val] NoPtr;
  fn "cass_statement_bind_double_by_name_n" [BorrowedExclusive CassStatement CMut; Val; Val; Val] NoPtr;
  fn "cass_statement_bind_duration" [BorrowedExclusive CassStatement CMut; Val; Val; Val; Val] NoPtr;
  fn "cass_statement_bind_duration_by_name" [BorrowedExclusive CassStatement CMut; Val; Val; Val; Val] NoPtr;
  fn "cass_statement_bind_duration_by_name_n" [BorrowedExclusive CassStatement CMut; Val; Val; Val; Val; Val] NoPtr;
  fn "cass_statement_bind_float" [BorrowedExclusive CassStatement CMut; Val; Val] NoPtr;
  fn "cass_statement_bind_float_by_name" [BorrowedExclusive CassStatement CMut; Val; Val] NoPtr;
  fn "cass_statement_bind_float_by_name_n" [BorrowedExclusive CassStatement CMut; Val; Val; Val] NoPtr;
  fn "cass_statement_bind_inet" [BorrowedExclusive CassStatement CMut; Val; Val] NoPtr;
  fn "cass_statement_bind_inet_by_name" [BorrowedExclusive CassStatement CMut; Val; Val] NoPtr;
  fn "cass_statement_bind_inet_by_name_n" [BorrowedExclusive CassStatement CMut; Val; Val; Val] NoPtr;
  fn "cass_statement_bind_int8" [BorrowedExclusive CassStatement CMut; Val; Val] NoPtr;
  fn "cass_statement_bind_int8_by_name" [BorrowedExclusive CassStatement CMut; Val; Val] NoPtr;
  fn "cass_statement_bind_int8_by_name_n" [BorrowedExclusive CassStatement CMut; Val; Val; Val] NoPtr;
  fn "cass_statement_bind_int16" [BorrowedExclusive CassStatement CMut; Val; Val] NoPtr;
  fn "cass_statement_bind_int16_by_name" [BorrowedExclusive CassStatement CMut; Val; Val] NoPtr;
  fn "cass_statement_bind_int16_by_name_n" [BorrowedExclusive CassStatement CMut; Val; Val; Val] NoPtr;
  fn "cass_statement_bind_int32" [BorrowedExclusive CassStatement CMut; Val; Val] NoPtr;
  fn "cass_statement_bind_int32_by_name" [BorrowedExclusive CassStatement CMut; Val; Val] NoPtr;
  fn "cass_statement_bind_int32_by_name_n" [BorrowedExclusive CassStatement CMut; Val; Val; Val] NoPtr;
  fn "cass_statement_bind_int64" [BorrowedExclusive CassStatement CMut; Val; Val] NoPtr;
  fn "cass_statement_bind_int64_by_name" [BorrowedExclusive CassStatement CMut; Val; Val] NoPtr;
  fn "cass_statement_bind_int64_by_name_n" [BorrowedExclusive CassStatement CMut; Val; Val; Val] NoPtr;
  fn "cass_statement_bind_null" [BorrowedExclusive CassStatement CMut; Val] NoPtr;
  fn "cass_statement_bind_null_by_name" [BorrowedExclusive CassStatement CMut; Val] NoPtr;
  fn "cass_statement_bind_null_by_name_n" [BorrowedExclusive CassStatement CMut; Val; Val] NoPtr;
  fn "cass_statement_bind_string" [BorrowedExclusive CassStatement CMut; Val; Val] NoPtr;
  fn "cass_statement_bind_string_by_name" [BorrowedExclusive CassStatement CMut; Val; Val] NoPtr;
  fn "cass_statement_bind_string_by_name_n" [BorrowedExclusive CassStatement CMut; Val; Val; Val; Val] NoPtr;
  fn "cass_statement_bind_string_n" [BorrowedExclusive CassStatement CMut; Val; Val; Val] NoPtr;
  fn "cass_statement_bind_tuple" [BorrowedExclusive CassStatement CMut; Val; BorrowedShared CassTuple CConst] NoPtr;
  fn "cass_statement_bind_tuple_by_name" [BorrowedExclusive CassStatement CMut; Val; BorrowedShared CassTuple CConst] NoPtr;
  fn "cass_statement_bind_tuple_by_name_n" [BorrowedExclusive CassStatement CMut; Val; Val; BorrowedShared CassTuple CConst] NoPtr;
  fn "cass_statement_bind_uint32" [BorrowedExclusive CassStatement CMut; Val; Val] NoPtr;
  fn "cass_statement_bind_uint32_by_name" [BorrowedExclusive CassStatement CMut; Val; Val] NoPtr;
  fn "cass_statement_bind_uint32_by_name_n" [BorrowedExclusive CassStatement CMut; Val; Val; Val] NoPtr;
  fn "cass_statement_bind_user_type" [BorrowedExclusive CassStatement CMut; Val; BorrowedShared CassUserType CConst] NoPtr;
  fn "cass_statement_bind_user_type_by_name" [BorrowedExclusive CassStatement CMut; Val; BorrowedShared CassUserType CConst] NoPtr;
  fn "cass_statement_bind_user_type_by_name_n" [BorrowedExclusive CassStatement CMut; Val; Val; BorrowedShared CassUserType CConst] NoPtr;
  fn "cass_statement_bind_vector" [BorrowedExclusive CassStatement CMut; Val; BorrowedShared CassVector CConst] NoPtr;
  fn "cass_statement_bind_vector_by_name" [BorrowedExclusive CassStatement CMut; Val; BorrowedShared CassVector CConst] NoPtr;
  fn "cass_statement_bind_vector_by_name_n" [BorrowedExclusive CassStatement CMut; Val; Val; BorrowedShared CassVector CConst] NoPtr;
  fn "cass_statement_bind_uuid" [BorrowedExclusive CassStatement CMut; Val; Val] NoPtr;
  fn "cass_statement_bind_uuid_by_name" [BorrowedExclusive CassStatement CMut; Val; Val] NoPtr;
  fn "cass_statement_bind_uuid_by_name_n" [BorrowedExclusive CassStatement CMut; Val; Val; Val] NoPtr;
  fn "cass_statement_free" [OwnedExclusive CassStatement CMut] NoPtr;
  fn "cass_statement_new" [Val; Val] (RetPtr Static Exclusive CMut CassStatement []);
  fn "cass_statement_new_n" [Val; Val; Val] (RetPtr Static Exclusive CMut CassStatement []);
  fn "cass_statement_reset_parameters" [BorrowedExclusive CassStatement CMut; Val] NoPtr;
  fn "cass_statement_set_consistency" [BorrowedExclusive CassStatement CMut; Val] NoPtr;
  fn "cass_statement_set_host" [BorrowedExclusive CassStatement CMut; Val; Val] NoPtr;
  fn "cass_statement_set_host_inet" [BorrowedExclusive CassStatement CMut; Val; Val] NoPtr;
  fn "cass_statement_set_host_n" [BorrowedExclusive CassStatement CMut; Val; Val; Val] NoPtr;
  fn "cass_statement_set_is_idempotent" [BorrowedExclusive CassStatement CMut; Val] NoPtr;
  fn "cass_statement_set_node" [BorrowedExclusive CassStatement CMut; BorrowedShared CassNode CConst] NoPtr;
  fn "cass_statement_set_paging_size" [BorrowedExclusive CassStatement CMut; Val] NoPtr;
  fn "cass_statement_set_paging_state" [BorrowedExclusive CassStatement CMut; BorrowedShared CassResult CConst] NoPtr;
  fn "cass_statement_set_paging_state_token" [BorrowedExclusive CassStatement CMut; Val; Val] NoPtr;
  fn "cass_statement_set_request_timeout" [BorrowedExclusive CassStatement CMut; Val] NoPtr;
  fn "cass_statement_set_retry_policy" [BorrowedExclusive CassStatement CMut; BorrowedShared CassRetryPolicy CMut] NoPtr;
  fn "cass_statement_set_serial_consistency" [BorrowedExclusive CassStatement CMut; Val] NoPtr;
  fn "cass_statement_set_timestamp" [BorrowedExclusive CassStatement CMut; Val] NoPtr;
  fn "cass_statement_set_tracing" [BorrowedExclusive CassStatement CMut; Val] NoPtr;
  fn "cass_statement_set_execution_profile" [BorrowedExclusive CassStatement CMut; Val] NoPtr;
  fn "cass_statement_set_execution_profile_n" [BorrowedExclusive CassStatement CMut; Val; Val] NoPtr
].

Definition prepared_api : list signature := [
  fn "cass_prepared_bind" [BorrowedShared CassPrepared CConst] (RetPtr Static Exclusive CMut CassStatement []);
  fn "cass_prepared_free" [OwnedShared CassPrepared CConst] NoPtr;
  fn "cass_prepared_parameter_data_type" [BorrowedShared CassPrepared CConst; Val] (RetPtr Borrow Shared CConst CassDataType [0]);
  fn "cass_prepared_parameter_data_type_by_name" [BorrowedShared CassPrepared CConst; Val] (RetPtr Borrow Shared CConst CassDataType [0]);
  fn "cass_prepared_parameter_data_type_by_name_n" [BorrowedShared CassPrepared CConst; Val; Val] (RetPtr Borrow Shared CConst CassDataType [0]);
  fn "cass_prepared_parameter_name" [BorrowedShared CassPrepared CConst; Val; Val; Val] NoPtr
].

Definition batch_api : list signature := [
  fn "cass_batch_add_statement" [BorrowedExclusive CassBatch CMut; BorrowedShared CassStatement CMut] NoPtr;
  fn "cass_batch_free" [OwnedExclusive CassBatch CMut] NoPtr;
  fn "cass_batch_new" [Val] (RetPtr Static Exclusive CMut CassBatch []);
  fn "cass_batch_set_consistency" [BorrowedExclusive CassBatch CMut; Val] NoPtr;
  fn "cass_batch_set_serial_consistency" [BorrowedExclusive CassBatch CMut; Val] NoPtr;
  fn "cass_batch_set_request_timeout" [BorrowedExclusive CassBatch CMut; Val] NoPtr;
  fn "cass_batch_set_is_idempotent" [BorrowedExclusive CassBatch CMut; Val] NoPtr;
  fn "cass_batch_set_retry_policy" [BorrowedExclusive CassBatch CMut; BorrowedShared CassRetryPolicy CMut] NoPtr;
  fn "cass_batch_set_timestamp" [BorrowedExclusive CassBatch CMut; Val] NoPtr;
  fn "cass_batch_set_tracing" [BorrowedExclusive CassBatch CMut; Val] NoPtr;
  fn "cass_batch_set_execution_profile" [BorrowedExclusive CassBatch CMut; Val] NoPtr;
  fn "cass_batch_set_execution_profile_n" [BorrowedExclusive CassBatch CMut; Val; Val] NoPtr
].

Definition data_type_api : list signature := [
  fn "cass_data_sub_type_count" [BorrowedShared CassDataType CConst] NoPtr;
  fn "cass_data_type_add_sub_type" [BorrowedShared CassDataType CMut; BorrowedShared CassDataType CConst] NoPtr;
  fn "cass_data_type_add_sub_type_by_name" [BorrowedShared CassDataType CMut; Val; BorrowedShared CassDataType CConst] NoPtr;
  fn "cass_data_type_add_sub_type_by_name_n" [BorrowedShared CassDataType CMut; Val; Val; BorrowedShared CassDataType CConst] NoPtr;
  fn "cass_data_type_add_sub_value_type" [BorrowedShared CassDataType CMut; Val] NoPtr;
  fn "cass_data_type_add_sub_value_type_by_name" [BorrowedShared CassDataType CMut; Val; Val] NoPtr;
  fn "cass_data_type_add_sub_value_type_by_name_n" [BorrowedShared CassDataType CMut; Val; Val; Val] NoPtr;
  fn "cass_data_type_class_name" [BorrowedShared CassDataType CConst; Val; Val] NoPtr;
  fn "cass_data_type_free" [OwnedShared CassDataType CMut] NoPtr;
  fn "cass_data_type_is_frozen" [BorrowedShared CassDataType CConst] NoPtr;
  fn "cass_data_type_keyspace" [BorrowedShared CassDataType CConst; Val; Val] NoPtr;
  fn "cass_data_type_new" [Val] (RetPtr Static Shared CMut CassDataType []);
  fn "cass_data_type_new_from_existing" [BorrowedShared CassDataType CConst] (RetPtr Static Shared CMut CassDataType []);
  fn "cass_data_type_new_tuple" [Val] (RetPtr Static Shared CMut CassDataType []);
  fn "cass_data_type_new_udt" [Val] (RetPtr Static Shared CMut CassDataType []);
  fn "cass_data_type_new_vector" [BorrowedShared CassDataType CConst; Val] (RetPtr Static Shared CMut CassDataType []);
  fn "cass_data_type_set_class_name" [BorrowedShared CassDataType CMut; Val] NoPtr;
  fn "cass_data_type_set_class_name_n" [BorrowedShared CassDataType CMut; Val; Val] NoPtr;
  fn "cass_data_type_set_keyspace" [BorrowedShared CassDataType CMut; Val] NoPtr;
  fn "cass_data_type_set_keyspace_n" [BorrowedShared CassDataType CMut; Val; Val] NoPtr;
  fn "cass_data_type_set_type_name" [BorrowedShared CassDataType CMut; Val] NoPtr;
  fn "cass_data_type_set_type_name_n" [BorrowedShared CassDataType CMut; Val; Val] NoPtr;
  fn "cass_data_type_sub_data_type" [BorrowedShared CassDataType CConst; Val] (RetPtr Borrow Shared CConst CassDataType [0]);
  fn "cass_data_type_sub_data_type_by_name" [BorrowedShared CassDataType CConst; Val] (RetPtr Borrow Shared CConst CassDataType [0]);
  fn "cass_data_type_sub_data_type_by_name_n" [BorrowedShared CassDataType CConst; Val; Val] (RetPtr Borrow Shared CConst CassDataType [0]);
  fn "cass_data_type_sub_type_count" [BorrowedShared CassDataType CConst] NoPtr;
  fn "cass_data_type_sub_type_name" [BorrowedShared CassDataType CConst; Val; Val; Val] NoPtr;
  fn "cass_data_type_type" [BorrowedShared CassDataType CConst] NoPtr;
  fn "cass_data_type_type_name" [BorrowedShared CassDataType CConst; Val; Val] NoPtr;
  fn "cass_data_type_vector_dimensions" [BorrowedShared CassDataType CConst; Val] NoPtr
].

Definition collection_api : list signature := [
  fn "cass_collection_append_bool" [BorrowedExclusive CassCollection CMut; Val] NoPtr;
  fn "cass_collection_append_bytes" [BorrowedExclusive CassCollection CMut; Val; Val] NoPtr;
  fn "cass_collection_append_collection" [BorrowedExclusive CassCollection CMut; BorrowedShared CassCollection CConst] NoPtr;
  fn "cass_collection_append_decimal" [BorrowedExclusive CassCollection CMut; Val; Val; Val] NoPtr;
  fn "cass_collection_append_duration" [BorrowedExclusive CassCollection CMut; Val; Val; Val] NoPtr;
  fn "cass_collection_append_double" [BorrowedExclusive CassCollection CMut; Val] NoPtr;
  fn "cass_collection_append_float" [BorrowedExclusive CassCollection CMut; Val] NoPtr;
  fn "cass_collection_append_inet" [BorrowedExclusive CassCollection CMut; Val] NoPtr;
  fn "cass_collection_append_int8" [BorrowedExclusive CassCollection CMut; Val] NoPtr;
  fn "cass_collection_append_int16" [BorrowedExclusive CassCollection CMut; Val] NoPtr;
  fn "cass_collection_append_int32" [BorrowedExclusive CassCollection CMut; Val] NoPtr;
  fn "cass_collection_append_int64" [BorrowedExclusive CassCollection CMut; Val] NoPtr;
  fn "cass_collection_append_string" [BorrowedExclusive CassCollection CMut; Val] NoPtr;
  fn "cass_collection_append_string_n" [BorrowedExclusive CassCollection CMut; Val; Val] NoPtr;
  fn "cass_collection_append_tuple" [BorrowedExclusive CassCollection CMut; BorrowedShared CassTuple CConst] NoPtr;
  fn "cass_collection_append_uint32" [BorrowedExclusive CassCollection CMut; Val] NoPtr;
  fn "cass_collection_append_user_type" [BorrowedExclusive CassCollection CMut; BorrowedShared CassUserType CConst] NoPtr;
  fn "cass_collection_append_uuid" [BorrowedExclusive CassCollection CMut; Val] NoPtr;
  fn "cass_collection_append_vector" [BorrowedExclusive CassCollection CMut; BorrowedShared CassVector CConst] NoPtr;
  fn "cass_collection_data_type" [BorrowedShared CassCollection CConst] (RetPtr Borrow Shared CConst CassDataType [0]);
  fn "cass_collection_free" [OwnedExclusive CassCollection CMut] NoPtr;
  fn "cass_collection_new" [Val; Val] (RetPtr Static Exclusive CMut CassCollection []);
  fn "cass_collection_new_from_data_type" [BorrowedShared CassDataType CConst; Val] (RetPtr Static Exclusive CMut CassCollection [])
].

Definition tuple_api : list signature := [
  fn "cass_tuple_data_type" [BorrowedShared CassTuple CConst] (RetPtr Borrow Shared CConst CassDataType [0]);
  fn "cass_tuple_free" [OwnedExclusive CassTuple CMut] NoPtr;
  fn "cass_tuple_new" [Val] (RetPtr Static Exclusive CMut CassTuple []);
  fn "cass_tuple_new_from_data_type" [BorrowedShared CassDataType CConst] (RetPtr Static Exclusive CMut CassTuple []);
  fn "cass_tuple_set_bool" [BorrowedExclusive CassTuple CMut; Val; Val] NoPtr;
  fn "cass_tuple_set_bytes" [BorrowedExclusive CassTuple CMut; Val; Val; Val] NoPtr;
  fn "cass_tuple_set_collection" [BorrowedExclusive CassTuple CMut; Val; BorrowedShared CassCollection CConst] NoPtr;
  fn "cass_tuple_set_decimal" [BorrowedExclusive CassTuple CMut; Val; Val; Val; Val] NoPtr;
  fn "cass_tuple_set_duration" [BorrowedExclusive CassTuple CMut; Val; Val; Val; Val] NoPtr;
  fn "cass_tuple_set_double" [BorrowedExclusive CassTuple CMut; Val; Val] NoPtr;
  fn "cass_tuple_set_float" [BorrowedExclusive CassTuple CMut; Val; Val] NoPtr;
  fn "cass_tuple_set_inet" [BorrowedExclusive CassTuple CMut; Val; Val] NoPtr;
  fn "cass_tuple_set_int8" [BorrowedExclusive CassTuple CMut; Val; Val] NoPtr;
  fn "cass_tuple_set_int16" [BorrowedExclusive CassTuple CMut; Val; Val] NoPtr;
  fn "cass_tuple_set_int32" [BorrowedExclusive CassTuple CMut; Val; Val] NoPtr;
  fn "cass_tuple_set_int64" [BorrowedExclusive CassTuple CMut; Val; Val] NoPtr;
  fn "cass_tuple_set_null" [BorrowedExclusive CassTuple CMut; Val] NoPtr;
  fn "cass_tuple_set_string" [BorrowedExclusive CassTuple CMut; Val; Val] NoPtr;
  fn "cass_tuple_set_string_n" [BorrowedExclusive CassTuple CMut; Val; Val; Val] NoPtr;
  fn "cass_tuple_set_tuple" [BorrowedExclusive CassTuple CMut; Val; BorrowedShared CassTuple CConst] NoPtr;
  fn "cass_tuple_set_uint32" [BorrowedExclusive CassTuple CMut; Val; Val] NoPtr;
  fn "cass_tuple_set_user_type" [BorrowedExclusive CassTuple CMut; Val; BorrowedShared CassUserType CConst] NoPtr;
  fn "cass_tuple_set_uuid" [BorrowedExclusive CassTuple CMut; Val; Val] NoPtr;
  fn "cass_tuple_set_vector" [BorrowedExclusive CassTuple CMut; Val; BorrowedShared CassVector CConst] NoPtr
].

Definition vector_api : list signature := [
  fn "cass_vector_data_type" [BorrowedShared CassVector CConst] (RetPtr Borrow Shared CConst CassDataType [0]);
  fn "cass_vector_free" [OwnedExclusive CassVector CMut] NoPtr;
  fn "cass_vector_new" [Val; Val] (RetPtr Static Exclusive CMut CassVector []);
  fn "cass_vector_new_from_data_type" [BorrowedShared CassDataType CConst] (RetPtr Static Exclusive CMut CassVector []);
  fn "cass_vector_set_bool" [BorrowedExclusive CassVector CMut; Val; Val] NoPtr;
  fn "cass_vector_set_bytes" [BorrowedExclusive CassVector CMut; Val; Val; Val] NoPtr;
  fn "cass_vector_set_collection" [BorrowedExclusive CassVector CMut; Val; BorrowedShared CassCollection CConst] NoPtr;
  fn "cass_vector_set_decimal" [BorrowedExclusive CassVector CMut; Val; Val; Val; Val] NoPtr;
  fn "cass_vector_set_duration" [BorrowedExclusive CassVector CMut; Val; Val; Val; Val] NoPtr;
  fn "cass_vector_set_double" [BorrowedExclusive CassVector CMut; Val; Val] NoPtr;
  fn "cass_vector_set_float" [BorrowedExclusive CassVector CMut; Val; Val] NoPtr;
  fn "cass_vector_set_inet" [BorrowedExclusive CassVector CMut; Val; Val] NoPtr;
  fn "cass_vector_set_int8" [BorrowedExclusive CassVector CMut; Val; Val] NoPtr;
  fn "cass_vector_set_int16" [BorrowedExclusive CassVector CMut; Val; Val] NoPtr;
  fn "cass_vector_set_int32" [BorrowedExclusive CassVector CMut; Val; Val] NoPtr;
  fn "cass_vector_set_int64" [BorrowedExclusive CassVector CMut; Val; Val] NoPtr;
  fn "cass_vector_set_string" [BorrowedExclusive CassVector CMut; Val; Val] NoPtr;
  fn "cass_vector_set_string_n" [BorrowedExclusive CassVector CMut; Val; Val; Val] NoPtr;
  fn "cass_vector_set_tuple" [BorrowedExclusive CassVector CMut; Val; BorrowedShared CassTuple CConst] NoPtr;
  fn "cass_vector_set_uint32" [BorrowedExclusive CassVector CMut; Val; Val] NoPtr;
  fn "cass_vector_set_user_type" [BorrowedExclusive CassVector CMut; Val; BorrowedShared CassUserType CConst] NoPtr;
  fn "cass_vector_set_uuid" [BorrowedExclusive CassVector CMut; Val; Val] NoPtr;
  fn "cass_vector_set_vector" [BorrowedExclusive CassVector CMut; Val; BorrowedShared CassVector CConst] NoPtr
].

Definition user_type_api : list signature := [
  fn "cass_user_type_data_type" [BorrowedShared CassUserType CConst] (RetPtr Borrow Shared CConst CassDataType [0]);
  fn "cass_user_type_free" [OwnedExclusive CassUserType CMut] NoPtr;
  fn "cass_user_type_new_from_data_type" [BorrowedShared CassDataType CConst] (RetPtr Static Exclusive CMut CassUserType []);
  fn "cass_user_type_set_bool" [BorrowedExclusive CassUserType CMut; Val; Val] NoPtr;
  fn "cass_user_type_set_bool_by_name" [BorrowedExclusive CassUserType CMut; Val; Val] NoPtr;
  fn "cass_user_type_set_bool_by_name_n" [BorrowedExclusive CassUserType CMut; Val; Val; Val] NoPtr;
  fn "cass_user_type_set_bytes" [BorrowedExclusive CassUserType CMut; Val; Val; Val] NoPtr;
  fn "cass_user_type_set_bytes_by_name" [BorrowedExclusive CassUserType CMut; Val; Val; Val] NoPtr;
  fn "cass_user_type_set_bytes_by_name_n" [BorrowedExclusive CassUserType CMut; Val; Val; Val; Val] NoPtr;
  fn "cass_user_type_set_collection" [BorrowedExclusive CassUserType CMut; Val; BorrowedShared CassCollection CConst] NoPtr;
  fn "cass_user_type_set_collection_by_name" [BorrowedExclusive CassUserType CMut; Val; BorrowedShared CassCollection CConst] NoPtr;
  fn "cass_user_type_set_collection_by_name_n" [BorrowedExclusive CassUserType CMut; Val; Val; BorrowedShared CassCollection CConst] NoPtr;
  fn "cass_user_type_set_decimal" [BorrowedExclusive CassUserType CMut; Val; Val; Val; Val] NoPtr;
  fn "cass_user_type_set_decimal_by_name" [BorrowedExclusive CassUserType CMut; Val; Val; Val; Val] NoPtr;
  fn "cass_user_type_set_decimal_by_name_n" [BorrowedExclusive CassUserType CMut; Val; Val; Val; Val; Val] NoPtr;
  fn "cass_user_type_set_duration" [BorrowedExclusive CassUserType CMut; Val; Val; Val; Val] NoPtr;
  fn "cass_user_type_set_duration_by_name" [BorrowedExclusive CassUserType CMut; Val; Val; Val; Val] NoPtr;
  fn "cass_user_type_set_duration_by_name_n" [BorrowedExclusive CassUserType CMut; Val; Val; Val; Val; Val] NoPtr;
  fn "cass_user_type_set_double" [BorrowedExclusive CassUserType CMut; Val; Val] NoPtr;
  fn "cass_user_type_set_double_by_name" [BorrowedExclusive CassUserType CMut; Val; Val] NoPtr;
  fn "cass_user_type_set_double_by_name_n" [BorrowedExclusive CassUserType CMut; Val; Val; Val] NoPtr;
  fn "cass_user_type_set_float" [BorrowedExclusive CassUserType CMut; Val; Val] NoPtr;
  fn "cass_user_type_set_float_by_name" [BorrowedExclusive CassUserType CMut; Val; Val] NoPtr;
  fn "cass_user_type_set_float_by_name_n" [BorrowedExclusive CassUserType CMut; Val; Val; Val] NoPtr;
  fn "cass_user_type_set_inet" [BorrowedExclusive CassUserType CMut; Val; Val] NoPtr;
  fn "cass_user_type_set_inet_by_name" [BorrowedExclusive CassUserType CMut; Val; Val] NoPtr;
  fn "cass_user_type_set_inet_by_name_n" [BorrowedExclusive CassUserType CMut; Val; Val; Val] NoPtr;
  fn "cass_user_type_set_int8" [BorrowedExclusive CassUserType CMut; Val; Val] NoPtr;
  fn "cass_user_type_set_int8_by_name" [BorrowedExclusive CassUserType CMut; Val; Val] NoPtr;
  fn "cass_user_type_set_int8_by_name_n" [BorrowedExclusive CassUserType CMut; Val; Val; Val] NoPtr;
  fn "cass_user_type_set_int16" [BorrowedExclusive CassUserType CMut; Val; Val] NoPtr;
  fn "cass_user_type_set_int16_by_name" [BorrowedExclusive CassUserType CMut; Val; Val] NoPtr;
  fn "cass_user_type_set_int16_by_name_n" [BorrowedExclusive CassUserType CMut; Val; Val; Val] NoPtr;
  fn "cass_user_type_set_int32" [BorrowedExclusive CassUserType CMut; Val; Val] NoPtr;
  fn "cass_user_type_set_int32_by_name" [BorrowedExclusive CassUserType CMut; Val; Val] NoPtr;
  fn "cass_user_type_set_int32_by_name_n" [BorrowedExclusive CassUserType CMut; Val; Val; Val] NoPtr;
  fn "cass_user_type_set_int64" [BorrowedExclusive CassUserType CMut; Val; Val] NoPtr;
  fn "cass_user_type_set_int64_by_name" [BorrowedExclusive CassUserType CMut; Val; Val] NoPtr;
  fn "cass_user_type_set_int64_by_name_n" [BorrowedExclusive CassUserType CMut; Val; Val; Val] NoPtr;
  fn "cass_user_type_set_null" [BorrowedExclusive CassUserType CMut; Val] NoPtr;
  fn "cass_user_type_set_null_by_name" [BorrowedExclusive CassUserType CMut; Val] NoPtr;
  fn "cass_user_type_set_null_by_name_n" [BorrowedExclusive CassUserType CMut; Val; Val] NoPtr;
  fn "cass_user_type_set_string" [BorrowedExclusive CassUserType CMut; Val; Val] NoPtr;
  fn "cass_user_type_set_string_by_name" [BorrowedExclusive CassUserType CMut; Val; Val] NoPtr;
  fn "cass_user_type_set_string_by_name_n" [BorrowedExclusive CassUserType CMut; Val; Val; Val; Val] NoPtr;
  fn "cass_user_type_set_string_n" [BorrowedExclusive CassUserType CMut; Val; Val; Val] NoPtr;
  fn "cass_user_type_set_tuple" [BorrowedExclusive CassUserType CMut; Val; BorrowedShared CassTuple CConst] NoPtr;
  fn "cass_user_type_set_tuple_by_name" [BorrowedExclusive CassUserType CMut; Val; BorrowedShared CassTuple CConst] NoPtr;
  fn "cass_user_type_set_tuple_by_name_n" [BorrowedExclusive CassUserType CMut; Val; Val; BorrowedShared CassTuple CConst] NoPtr;
  fn "cass_user_type_set_uint32" [BorrowedExclusive CassUserType CMut; Val; Val] NoPtr;
  fn "cass_user_type_set_uint32_by_name" [BorrowedExclusive CassUserType CMut; Val; Val] NoPtr;
  fn "cass_user_type_set_uint32_by_name_n" [BorrowedExclusive CassUserType CMut; Val; Val; Val] NoPtr;
  fn "cass_user_type_set_user_type" [BorrowedExclusive CassUserType CMut; Val; BorrowedShared CassUserType CConst] NoPtr;
  fn "cass_user_type_set_user_type_by_name" [BorrowedExclusive CassUserType CMut; Val; BorrowedShared CassUserType CConst] NoPtr;
  fn "cass_user_type_set_user_type_by_name_n" [BorrowedExclusive CassUserType CMut; Val; Val; BorrowedShared CassUserType CConst] NoPtr;
  fn "cass_user_type_set_vector" [BorrowedExclusive CassUserType CMut; Val; BorrowedShared CassVector CConst] NoPtr;
  fn "cass_user_type_set_vector_by_name" [BorrowedExclusive CassUserType CMut; Val; BorrowedShared CassVector CConst] NoPtr;
  fn "cass_user_type_set_vector_by_name_n" [BorrowedExclusive CassUserType CMut; Val; Val; BorrowedShared CassVector CConst] NoPtr;
  fn "cass_user_type_set_uuid" [BorrowedExclusive CassUserType CMut; Val; Val] NoPtr;
  fn "cass_user_type_set_uuid_by_name" [BorrowedExclusive CassUserType CMut; Val; Val] NoPtr;
  fn "cass_user_type_set_uuid_by_name_n" [BorrowedExclusive CassUserType CMut; Val; Val; Val] NoPtr
].

Definition result_api : list signature := [
  fn "cass_result_column_count" [BorrowedShared CassResult CConst] NoPtr;
  fn "cass_result_column_data_type" [BorrowedShared CassResult CConst; Val] (RetPtr Borrow Shared CConst CassDataType [0]);
  fn "cass_result_column_name" [BorrowedShared CassResult CConst; Val; Val; Val] NoPtr;
  fn "cass_result_column_type" [BorrowedShared CassResult CConst; Val] NoPtr;
  fn "cass_result_first_row" [BorrowedShared CassResult CConst] (RetPtr Borrow Shared CConst CassRow [0]);
  fn "cass_result_free" [OwnedShared CassResult CConst] NoPtr;
  fn "cass_result_has_more_pages" [BorrowedShared CassResult CConst] NoPtr;
  fn "cass_result_paging_state_token" [BorrowedShared CassResult CConst; Val; Val] NoPtr;
  fn "cass_result_row_count" [BorrowedShared CassResult CConst] NoPtr
].

Definition error_api : list signature := [
  fn "cass_error_desc" [Val] NoPtr;
  fn "cass_error_num_arg_types" [BorrowedShared CassErrorResult CConst] NoPtr;
  fn "cass_error_result_arg_type" [BorrowedShared CassErrorResult CConst; Val; Val; Val] NoPtr;
  fn "cass_error_result_code" [BorrowedShared CassErrorResult CConst] NoPtr;
  fn "cass_error_result_consistency" [BorrowedShared CassErrorResult CConst] NoPtr;
  fn "cass_error_result_data_present" [BorrowedShared CassErrorResult CConst] NoPtr;
  fn "cass_error_result_free" [OwnedShared CassErrorResult CConst] NoPtr;
  fn "cass_error_result_function" [BorrowedShared CassErrorResult CConst; Val; Val] NoPtr;
  fn "cass_error_result_keyspace" [BorrowedShared CassErrorResult CConst; Val; Val] NoPtr;
  fn "cass_error_result_num_failures" [BorrowedShared CassErrorResult CConst] NoPtr;
  fn "cass_error_result_responses_received" [BorrowedShared CassErrorResult CConst] NoPtr;
  fn "cass_error_result_responses_required" [BorrowedShared CassErrorResult CConst] NoPtr;
  fn "cass_error_result_table" [BorrowedShared CassErrorResult CConst; Val; Val] NoPtr;
  fn "cass_error_result_write_type" [BorrowedShared CassErrorResult CConst] NoPtr
].

Definition iterator_api : list signature := [
  fn "cass_iterator_fields_from_user_type" [BorrowedShared CassValue CConst] (RetPtr Static Exclusive CMut CassIterator [0]);
  fn "cass_iterator_free" [OwnedExclusive CassIterator CMut] NoPtr;
  fn "cass_iterator_from_collection" [BorrowedShared CassValue CConst] (RetPtr Static Exclusive CMut CassIterator [0]);
  fn "cass_iterator_from_map" [BorrowedShared CassValue CConst] (RetPtr Static Exclusive CMut CassIterator [0]);
  fn "cass_iterator_from_result" [BorrowedShared CassResult CConst] (RetPtr Static Exclusive CMut CassIterator [0]);
  fn "cass_iterator_from_row" [BorrowedShared CassRow CConst] (RetPtr Static Exclusive CMut CassIterator [0]);
  fn "cass_iterator_from_tuple" [BorrowedShared CassValue CConst] (RetPtr Static Exclusive CMut CassIterator [0]);
  fn "cass_iterator_from_vector" [BorrowedShared CassValue CConst] (RetPtr Static Exclusive CMut CassIterator [0]);
  fn "cass_iterator_columns_from_materialized_view_meta" [BorrowedShared CassMaterializedViewMeta CConst] (RetPtr Static Exclusive CMut CassIterator [0]);
  fn "cass_iterator_columns_from_table_meta" [BorrowedShared CassTableMeta CConst] (RetPtr Static Exclusive CMut CassIterator [0]);
  fn "cass_iterator_get_column" [BorrowedShared CassIterator CConst] (RetPtr Borrow Shared CConst CassValue [0]);
  fn "cass_iterator_get_column_meta" [BorrowedShared CassIterator CConst] (RetPtr Borrow Shared CConst CassColumnMeta [0]);
  fn "cass_iterator_get_map_key" [BorrowedShared CassIterator CConst] (RetPtr Borrow Shared CConst CassValue [0]);
  fn "cass_iterator_get_map_value" [BorrowedShared CassIterator CConst] (RetPtr Borrow Shared CConst CassValue [0]);
  fn "cass_iterator_get_materialized_view_meta" [BorrowedShared CassIterator CConst] (RetPtr Borrow Shared CConst CassMaterializedViewMeta [0]);
  fn "cass_iterator_get_user_type_field_name" [BorrowedShared CassIterator CConst; Val; Val] NoPtr;
  fn "cass_iterator_get_user_type_field_value" [BorrowedShared CassIterator CConst] (RetPtr Borrow Shared CConst CassValue [0]);
  fn "cass_iterator_get_keyspace_meta" [BorrowedShared CassIterator CConst] (RetPtr Borrow Shared CConst CassKeyspaceMeta [0]);
  fn "cass_iterator_get_row" [BorrowedShared CassIterator CConst] (RetPtr Borrow Shared CConst CassRow [0]);
  fn "cass_iterator_get_table_meta" [BorrowedShared CassIterator CConst] (RetPtr Borrow Shared CConst CassTableMeta [0]);
  fn "cass_iterator_get_value" [BorrowedShared CassIterator CConst] (RetPtr Borrow Shared CConst CassValue [0]);
  fn "cass_iterator_get_user_type" [BorrowedShared CassIterator CConst] (RetPtr Borrow Shared CConst CassDataType [0]);
  fn "cass_iterator_keyspaces_from_schema_meta" [BorrowedShared CassSchemaMeta CConst] (RetPtr Static Exclusive CMut CassIterator [0]);
  fn "cass_iterator_materialized_views_from_keyspace_meta" [BorrowedShared CassKeyspaceMeta CConst] (RetPtr Static Exclusive CMut CassIterator [0]);
  fn "cass_iterator_materialized_views_from_table_meta" [BorrowedShared CassTableMeta CConst] (RetPtr Static Exclusive CMut CassIterator [0]);
  fn "cass_iterator_next" [BorrowedExclusive CassIterator CMut] NoPtr;
  fn "cass_iterator_tables_from_keyspace_meta" [BorrowedShared CassKeyspaceMeta CConst] (RetPtr Static Exclusive CMut CassIterator [0]);
  fn "cass_iterator_type" [BorrowedExclusive CassIterator CMut] NoPtr;
  fn "cass_iterator_user_types_from_keyspace_meta" [BorrowedShared CassKeyspaceMeta CConst] (RetPtr Static Exclusive CMut CassIterator [0])
].

Definition row_api : list signature := [
  fn "cass_row_get_column" [BorrowedShared CassRow CConst; Val] (RetPtr Borrow Shared CConst CassValue [0]);
  fn "cass_row_get_column_by_name" [BorrowedShared CassRow CConst; Val] (RetPtr Borrow Shared CConst CassValue [0]);
  fn "cass_row_get_column_by_name_n" [BorrowedShared CassRow CConst; Val; Val] (RetPtr Borrow Shared CConst CassValue [0])
].

Definition value_api : list signature := [
  fn "cass_value_data_type" [BorrowedShared CassValue CConst] (RetPtr Borrow Shared CConst CassDataType [0]);
  fn "cass_value_get_bool" [BorrowedShared CassValue CConst; Val] NoPtr;
  fn "cass_value_get_bytes" [BorrowedShared CassValue CConst; Val; Val] NoPtr;
  fn "cass_value_get_decimal" [BorrowedShared CassValue CConst; Val; Val; Val] NoPtr;
  fn "cass_value_get_duration" [BorrowedShared CassValue CConst; Val; Val; Val] NoPtr;
  fn "cass_value_get_double" [BorrowedShared CassValue CConst; Val] NoPtr;
  fn "cass_value_get_float" [BorrowedShared CassValue CConst; Val] NoPtr;
  fn "cass_value_get_inet" [BorrowedShared CassValue CConst; Val] NoPtr;
  fn "cass_value_get_int8" [BorrowedShared CassValue CConst; Val] NoPtr;
  fn "cass_value_get_int16" [BorrowedShared CassValue CConst; Val] NoPtr;
  fn "cass_value_get_int32" [BorrowedShared CassValue CConst; Val] NoPtr;
  fn "cass_value_get_int64" [BorrowedShared CassValue CConst; Val] NoPtr;
  fn "cass_value_get_string" [BorrowedShared CassValue CConst; Val; Val] NoPtr;
  fn "cass_value_get_uint32" [BorrowedShared CassValue CConst; Val] NoPtr;
  fn "cass_value_get_uuid" [BorrowedShared CassValue CConst; Val] NoPtr;
  fn "cass_value_is_collection" [BorrowedShared CassValue CConst] NoPtr;
  fn "cass_value_is_duration" [BorrowedShared CassValue CConst] NoPtr;
  fn "cass_value_is_null" [BorrowedShared CassValue CConst] NoPtr;
  fn "cass_value_item_count" [BorrowedShared CassValue CConst] NoPtr;
  fn "cass_value_primary_sub_type" [BorrowedShared CassValue CConst] NoPtr;
  fn "cass_value_secondary_sub_type" [BorrowedShared CassValue CConst] NoPtr;
  fn "cass_value_type" [BorrowedShared CassValue CConst] NoPtr
].

Definition uuid_gen_api : list signature := [
  fn "cass_uuid_gen_free" [OwnedExclusive CassUuidGen CMut] NoPtr;
  fn "cass_uuid_gen_from_time" [BorrowedShared CassUuidGen CMut; Val; Val] NoPtr;
  fn "cass_uuid_gen_new" [] (RetPtr Static Exclusive CMut CassUuidGen []);
  fn "cass_uuid_gen_new_with_node" [Val] (RetPtr Static Exclusive CMut CassUuidGen []);
  fn "cass_uuid_gen_random" [Val; Val] NoPtr;
  fn "cass_uuid_gen_time" [BorrowedShared CassUuidGen CMut; Val] NoPtr
].

Definition uuid_api : list signature := [
  fn "cass_uuid_from_string" [Val; Val] NoPtr;
  fn "cass_uuid_from_string_n" [Val; Val; Val] NoPtr;
  fn "cass_uuid_max_from_time" [Val; Val] NoPtr;
  fn "cass_uuid_min_from_time" [Val; Val] NoPtr;
  fn "cass_uuid_string" [Val; Val] NoPtr;
  fn "cass_uuid_timestamp" [Val] NoPtr;
  fn "cass_uuid_version" [Val] NoPtr
].

Definition timestamp_gen_api : list signature := [
  fn "cass_timestamp_gen_free" [OwnedExclusive CassTimestampGen CMut] NoPtr;
  fn "cass_timestamp_gen_monotonic_new" [] (RetPtr Static Exclusive CMut CassTimestampGen []);
  fn "cass_timestamp_gen_monotonic_new_with_settings" [Val; Val] (RetPtr Static Exclusive CMut CassTimestampGen []);
  fn "cass_timestamp_gen_server_side_new" [] (RetPtr Static Exclusive CMut CassTimestampGen [])
].

Definition retry_policy_api : list signature := [
  fn "cass_retry_policy_default_new" [] (RetPtr Static Shared CMut CassRetryPolicy []);
  fn "cass_retry_policy_downgrading_consistency_new" [] (RetPtr Static Shared CMut CassRetryPolicy []);
  fn "cass_retry_policy_fallthrough_new" [] (RetPtr Static Shared CMut CassRetryPolicy []);
  fn "cass_retry_policy_free" [OwnedShared CassRetryPolicy CMut] NoPtr;
  fn "cass_retry_policy_logging_new" [BorrowedShared CassRetryPolicy CMut] (RetPtr Static Shared CMut CassRetryPolicy [])
].

Definition consistency_api : list signature := [
  fn "cass_consistency_string" [Val] NoPtr
].

Definition write_type_api : list signature := [
  fn "cass_write_type_string" [Val] NoPtr
].

Definition log_api : list signature := [
  fn "cass_log_get_callback_and_data" [Val; Val] NoPtr;
  fn "cass_log_level_string" [Val] NoPtr;
  fn "cass_log_set_callback" [Val; Val] NoPtr;
  fn "cass_log_set_level" [Val] NoPtr
].

Definition inet_api : list signature := [
  fn "cass_inet_from_string" [Val; Val] NoPtr;
  fn "cass_inet_from_string_n" [Val; Val; Val] NoPtr;
  fn "cass_inet_init_v4" [Val] NoPtr;
  fn "cass_inet_init_v6" [Val] NoPtr;
  fn "cass_inet_string" [Val; Val] NoPtr
].

Definition date_time_api : list signature := [
  fn "cass_date_from_epoch" [Val] NoPtr;
  fn "cass_date_time_to_epoch" [Val; Val] NoPtr;
  fn "cass_time_from_epoch" [Val] NoPtr
].

Definition api : list signature :=
  execution_profile_api ++
  cluster_api ++
  session_api ++
  schema_meta_api ++
  keyspace_meta_api ++
  table_meta_api ++
  materialized_view_meta_api ++
  column_meta_api ++
  ssl_api ++
  future_api ++
  statement_api ++
  prepared_api ++
  batch_api ++
  data_type_api ++
  collection_api ++
  tuple_api ++
  vector_api ++
  user_type_api ++
  result_api ++
  error_api ++
  iterator_api ++
  row_api ++
  value_api ++
  uuid_gen_api ++
  uuid_api ++
  timestamp_gen_api ++
  retry_policy_api ++
  consistency_api ++
  write_type_api ++
  log_api ++
  inet_api ++
  date_time_api.

(** ** The traits a pointer gives access to *)

(** [BoxFFI] is for exclusive pointers to boxes and [ArcFFI] for owned pointers to [Arc]s; a
    borrowed shared pointer may point to anything. *)
Definition ptr_well_typed (life : Lifetime) (o : Ownership) (t : CassType) : bool :=
  match life, o with
  | Static, Exclusive | Borrow, Exclusive => bool_decide (origin t = FromBox)
  | Static, Shared => bool_decide (origin t = FromArc)
  | Borrow, Shared => true
  end.

Definition arg_well_typed (a : arg) : bool :=
  match a with Val => true | Ptr life o _ t => ptr_well_typed life o t end.

(** A parameter that is borrowed, from which a result may be borrowed. *)
Definition borrowed_arg (args : list arg) (n : nat) : bool :=
  match args !! n with Some (Ptr Borrow _ _ _) => true | _ => false end.

Definition ret_well_typed (args : list arg) (r : ret) : bool :=
  match r with
  | NoPtr => true
  | RetPtr life o _ t from =>
      ptr_well_typed life o t && forallb (borrowed_arg args) from &&
      match life, o with
      | Static, Exclusive => true
      | Static, Shared => match from with [] => true | _ => false end
      | Borrow, Shared => negb (bool_decide (origin t = FromBox)) && match from with [] => false | _ => true end
      | Borrow, Exclusive => false
      end
  end.

Definition well_typed (f : signature) : bool :=
  forallb arg_well_typed (fn_args f) && ret_well_typed (fn_args f) (fn_ret f).

(** The functions that take an owned pointer to [t]. *)
Definition consumes (t : CassType) (f : signature) : bool :=
  existsb (fun a => match a with Ptr Static _ _ t' => bool_decide (t = t') | _ => false end) (fn_args f).

Definition frees (t : CassType) : list signature := List.filter (consumes t) api.

(** An owned pointer with mutability [cm'] may be passed for [cm]. *)
Definition const_ok (cm' cm : CMutability) : bool :=
  match cm', cm with CConst, CMut => false | _, _ => true end.

(** The only function that takes ownership of [t], if [t] can be owned, takes nothing else
    and accepts every owned pointer to [t] that some function returns. *)
Definition freed_by_one (t : CassType) : bool :=
  match origin t, frees t with
  | FromRef, [] => true
  | FromRef, _ => false
  | _, [fn _ [Ptr Static o cm t'] NoPtr] =>
      bool_decide (t = t') &&
      forallb (fun f => match fn_ret f with
                        | RetPtr Static o' cm' t'' _ =>
                            negb (bool_decide (t = t'')) || (bool_decide (o = o') && const_ok cm' cm)
                        | _ => true
                        end) api
  | _, _ => false
  end.

Lemma api_well_typed : forallb well_typed api = true.
Proof. vm_compute. reflexivity. Qed.

Lemma api_names_differ : bool_decide (NoDup (fn_name <$> api)) = true.
Proof. vm_compute. reflexivity. Qed.

Lemma all_freed_by_one t : freed_by_one t = true.
Proof. destruct t; vm_compute; reflexivity. Qed.

(** C23: The signatures respect ownership: every exported function occurs once; a pointer that
    is used as a box or as an [Arc] is to a type allocated that way; a borrowed pointer is
    returned only with the lifetime of a borrowed parameter; and every type of which the
    client can own an object has exactly one function that takes ownership of it, which
    accepts every owned pointer to it that any function returns, whereas no function takes
    ownership of a type that is only lent. *)
Theorem api_ownership_discipline :
  NoDup (fn_name <$> api) /\
  Forall (fun f => well_typed f = true) api /\
  forall t, match origin t with
            | FromRef => frees t = []
            | _ => exists name o cm, frees t = [fn name [Ptr Static o cm t] NoPtr] /\
                     Forall (fun f => forall o' cm' from, fn_ret f = RetPtr Static o' cm' t from ->
                               o' = o /\ (cm = CMut -> cm' = CMut)) api
            end.
Proof.
  split; [exact (bool_decide_eq_true_1 _ api_names_differ)|].
  split; [apply Forall_forall; intros f Hf; by apply (proj1 (forallb_forall _ _) api_well_typed), list_elem_of_In|].
  intros t. pose proof (all_freed_by_one t) as H. unfold freed_by_one in H.
  destruct (origin t); [| |by destruct (frees t)]; destruct (frees t) as [|[name args r] [|]]; try done;
    destruct args as [|[|[] o cm t'] [|]]; try done; destruct r; try done;
    apply andb_true_iff in H as [Ht H]; apply bool_decide_eq_true in Ht as <-;
    exists name, o, cm; (split; [done|]); apply Forall_forall; intros f Hf o' cm' from Er;
    (apply (proj1 (forallb_forall _ _) H) in Hf || apply list_elem_of_In, (proj1 (forallb_forall _ _) H) in Hf);
    rewrite Er, bool_decide_true in Hf by done; cbn in Hf;
    apply andb_true_iff in Hf as [Ho Hc]; apply bool_decide_eq_true in Ho; (split; [done|]);
    intros ->; by destruct cm'.
Qed.

(** ** Calls *)

Lemma data_type_free_exported : fn "cass_data_type_free" [OwnedShared CassDataType CMut] NoPtr ∈ api.
Proof. apply (list_elem_of_lookup_2 _ 265). vm_compute. reflexivity. Qed.

Lemma data_type_new_exported :
  fn "cass_data_type_new" [Val] (RetPtr Static Shared CMut CassDataType []) ∈ api.
Proof. apply (list_elem_of_lookup_2 _ 268). vm_compute. reflexivity. Qed.

#[local] Opaque api.

(** The client passes the pointer [i] for a parameter: a live pointer of its type, owned if
    the function takes ownership, with no loans if the function takes or changes the object,
    and not a pointer to [const] if the parameter is not one. *)
Definition passes (s : sys) (a : arg) (i : nat) : Prop :=
  match a with
  | Val => False
  | Ptr life o cm t =>
      exists h, client s !! i = Some h /\ h_ty h = t /\
        (life = Static -> h_owned h = true) /\
        (life = Static \/ o = Exclusive -> no_loans s i) /\
        const_ok (h_const h) cm = true
  end.

(** The conversions a function may apply to a pointer parameter. *)
Definition arg_ops (a : arg) (i : nat) : list (@op CassType) :=
  match a with
  | Val => []
  | Ptr Static Exclusive _ _ => [TakeBox i; FreeBox i]
  | Ptr Static Shared _ _ => [TakeArc i; FreeArc i]
  | Ptr Borrow Exclusive _ _ => [AsMut i; AsRef i]
  | Ptr Borrow Shared _ t => AsRef i :: if decide (origin t = FromArc) then [CloneArc i] else []
  end.

(** The object [l] a function returns, with [lender] the pointer passed for the parameter
    whose lifetime the result has: an owned result is a reference the driver has, a borrowed
    one is found from the lender. *)
Definition result_found (s : sys) (r : ret) (lender : option nat) (l : nat) : Prop :=
  match r with
  | NoPtr => False
  | RetPtr life _ _ t from =>
      type_at s l = Some t /\
      match lender with
      | Some j => exists g, client s !! j = Some g /\
                    (life = Borrow -> exists a, source (client s) g a /\ reach (memory s) a l)
      | None => from = []
      end /\
      (life = Static -> l ∈ rust s)
  end.

Definition ret_op (r : ret) (lender : option nat) (l : nat) : option (@op CassType) :=
  match r, lender with
  | RetPtr Static Exclusive cm _ _, _ => Some (GiveBox l lender cm)
  | RetPtr Static Shared cm _ _, _ => Some (GiveArc l cm)
  | RetPtr Borrow _ cm _ _, Some j => Some (Lend j l cm)
  | _, _ => None
  end.

Lemma api_elem f : f ∈ api -> well_typed f = true.
Proof. intros Hf. by apply (proj1 (forallb_forall _ _) api_well_typed), list_elem_of_In. Qed.

Lemma arg_ops_legal f a i s o :
  f ∈ api -> a ∈ fn_args f -> passes s a i -> o ∈ arg_ops a i -> legal s o.
Proof.
  intros Hf Ha Hp Ho. apply api_elem, andb_true_iff in Hf as [Hw _].
  apply list_elem_of_In, (proj1 (forallb_forall _ _) Hw) in Ha. clear Hw.
  destruct a as [|life ow cm t]; [done|]. destruct Hp as (h&Hi&<-&Hown&Hno&_). cbn in Ha, Ho.
  destruct life, ow; cbn in Ha, Ho; try apply bool_decide_eq_true in Ha;
    try destruct (decide _); repeat (apply elem_of_cons in Ho as [->|Ho]); try by apply not_elem_of_nil in Ho.
  all: cbn [legal]; eauto 10.
Qed.

Lemma ret_op_legal f s lender l o :
  f ∈ api -> result_found s (fn_ret f) lender l -> ret_op (fn_ret f) lender l = Some o -> legal s o.
Proof.
  intros Hf Hr Ho. apply api_elem, andb_true_iff in Hf as [_ Hw].
  destruct (fn_ret f) as [|life ow cm t from]; [done|]. destruct Hr as (Ht&Hl&Hrust).
  cbn in Hw. apply andb_true_iff in Hw as [[Hw _]%andb_true_iff Hk].
  destruct life, ow; cbn in Hw, Ho, Hk; try discriminate Hk.
  - injection Ho as <-. cbn [legal]. rewrite Ht. apply bool_decide_eq_true in Hw. cbn. rewrite Hw. auto.
  - injection Ho as <-. cbn [legal]. rewrite Ht. apply bool_decide_eq_true in Hw. cbn. rewrite Hw.
    split_and!; auto. destruct lender; [|done]. destruct Hl as (g&Hg&_). eauto.
  - destruct lender as [j|]; [|done]. injection Ho as <-. cbn [legal]. rewrite Ht.
    apply andb_true_iff in Hk as [Hk _]. apply negb_true_iff, bool_decide_eq_false in Hk.
    split; [cbn; congruence|]. destruct Hl as (g&Hg&Hs). destruct (Hs eq_refl) as (a&?&?). eauto.
Qed.

(** What the bodies of the functions and the tasks they start do between the conversions. *)
Definition rust_op (o : @op CassType) : Prop :=
  match o with
  | RustNew _ _ | RustClone _ | RustDrop _ | RustAttach _ _ | RustDetach _ _ => True
  | _ => False
  end.

(** The operations of a program that calls the exported functions: conversions of the
    arguments a client passes, work of the driver, handing out results, and a client that
    no longer uses a borrowed pointer. *)
Inductive api_op (s : sys) : @op CassType -> Prop :=
| api_arg f a i o :
    f ∈ api -> a ∈ fn_args f -> passes s a i -> o ∈ arg_ops a i -> api_op s o
| api_body o : rust_op o -> legal s o -> api_op s o
| api_ret f lender l o :
    f ∈ api -> result_found s (fn_ret f) lender l -> ret_op (fn_ret f) lender l = Some o -> api_op s o
| api_forget i : legal s (Forget i) -> api_op s (Forget i).

Fixpoint api_trace (s : sys) (ops : list op) : Prop :=
  match ops with
  | [] => True
  | o :: ops => api_op s o /\ forall s', exec o s = Done s' -> api_trace s' ops
  end.

Lemma api_op_legal s o : api_op s o -> legal s o.
Proof. intros [f a i o' Hf Ha Hp Ho|o' _ Ho|f lender l o' Hf Hr Ho|i Ho]; eauto using arg_ops_legal, ret_op_legal. Qed.

Lemma api_trace_legal ops : forall s, api_trace s ops -> legal_trace s ops.
Proof.
  induction ops as [|o ops IH]; intros s; [done|]. intros [Ho Hops]. split; [by apply api_op_legal|]. auto.
Qed.

(** C10: No program that uses the exported functions misuses memory: when the client only
    passes live pointers of the types of the parameters, owned where the function takes
    ownership and without outstanding loans where it takes or changes the object, then for
    every sequence of calls, interleaved with whatever the driver does, all conversions of
    arguments and results are defined and all reference counts are right. *)
Theorem api_programs_safe (ops : list op) :
  api_trace init ops -> exists s, run ops init = Done s /\ sys_ok s.
Proof. intros H. by apply legal_run_ok, api_trace_legal; [apply init_ok|]. Qed.

(** Every object can be freed through the API: for an owned pointer that some exported
    function returned, and from which nothing is borrowed, there is an exported function of
    one parameter that accepts the pointer, and freeing the object is what it may do. *)
Theorem api_frees_every_object (s : sys) (i : nat) (h : handle) (g : signature) (o : Ownership) (from : list nat) :
  sys_ok s -> client s !! i = Some h -> h_owned h = true -> no_loans s i ->
  g ∈ api -> fn_ret g = RetPtr Static o (h_const h) (h_ty h) from ->
  exists f a, f ∈ api /\ fn_args f = [a] /\ passes s a i /\ release i h ∈ arg_ops a i /\
    exists s', exec (release i h) s = Done s' /\ sys_ok s' /\ client s' = delete i (client s).
Proof.
  intros Hok Hi Ho Hno Hg Hr.
  destruct (release_ok s i h Hok Hi Hno) as (_&s'&Hs'&Hok'&Hc&_).
  pose proof Hok as [_ Hh]. destruct (Hh i h Hi) as [_ (_&Hkind&_)]. rewrite Ho in Hkind.
  pose proof (all_freed_by_one (h_ty h)) as Hfree. unfold freed_by_one in Hfree.
  assert (Hin : forall f, f ∈ frees (h_ty h) -> f ∈ api).
  { intros f Hf. apply list_elem_of_In in Hf. apply filter_In in Hf as [Hf _]. by apply list_elem_of_In. }
  pose proof (api_elem g Hg) as Hwt. apply andb_true_iff in Hwt as [_ Hwt]. rewrite Hr in Hwt.
  cbn in Hwt. apply andb_true_iff in Hwt as [[Hwt _]%andb_true_iff _].
  destruct (origin (h_ty h)) eqn:Horig; [| |done];
    (destruct (frees (h_ty h)) as [|[name args r] [|]]; try done;
     destruct args as [|[|[] o' cm t'] [|]]; try done; destruct r; try done);
    apply andb_true_iff in Hfree as [Ht Hall]; apply bool_decide_eq_true in Ht as <-;
    apply list_elem_of_In, (proj1 (forallb_forall _ _) Hall) in Hg;
    rewrite Hr, bool_decide_true in Hg by done; cbn in Hg;
    apply andb_true_iff in Hg as [Ho' Hcm]; apply bool_decide_eq_true in Ho' as <-;
    exists (fn name [Ptr Static o' cm (h_ty h)] NoPtr), (Ptr Static o' cm (h_ty h));
    (split; [apply Hin; constructor|]); (split; [done|]); (split; [by exists h|]);
    (split; [|by exists s']); unfold release; rewrite Ho, Horig; destruct o'; cbn in Hwt |- *;
    rewrite ?Horig in Hwt; try discriminate Hwt; repeat constructor.
Qed.

(** ** An example: a data type that is created and freed *)

Definition one_data_type : sys :=
  match run [RustNew CassDataType []; GiveArc 0 CMut] init with Done s => s | Undefined => init end.

Lemma one_data_type_ok : sys_ok one_data_type.
Proof.
  destruct (legal_run_ok [RustNew CassDataType []; GiveArc 0 CMut] init init_ok) as (s&Hs&Hok).
  { split; [closed|]. intros s Hs. vm_compute in Hs. injection Hs as <-.
    split; [|done]. split; [closed|vm_compute; reflexivity]. }
  unfold one_data_type. by rewrite Hs.
Qed.

Lemma one_data_type_no_loans : no_loans one_data_type 0.
Proof. closed. Qed.

Lemma api_programs_safe_witness :
  exists s, run [RustNew CassDataType []; GiveArc 0 CMut; FreeArc 0] init = Done s /\ sys_ok s.
Proof.
  apply (api_programs_safe [RustNew CassDataType []; GiveArc 0 CMut; FreeArc 0]).
  split; [apply api_body; [done|closed]|]. intros s Hs. vm_compute in Hs. injection Hs as <-. split.
  { eapply (api_ret _ _ None 0); [exact data_type_new_exported| |reflexivity].
    split; [vm_compute; reflexivity|]. split; [done|]. intros _. closed. }
  intros s Hs. vm_compute in Hs. injection Hs as <-. split; [|done].
  eapply (api_arg _ _ (OwnedShared CassDataType CMut) 0); [exact data_type_free_exported|constructor| |repeat constructor].
  eexists. split; [vm_compute; reflexivity|]. split_and!; try done. intros _. closed.
Defined.

Lemma api_frees_every_object_witness :
  exists f a, f ∈ api /\ fn_args f = [a] /\ passes one_data_type a 0 /\
    release 0 (mkHandle CassDataType 0 true None CMut) ∈ arg_ops a 0 /\
    exists s', exec (release 0 (mkHandle CassDataType 0 true None CMut)) one_data_type = Done s' /\
      sys_ok s' /\ client s' = delete 0 (client one_data_type).
Proof.
  apply (api_frees_every_object one_data_type 0 (mkHandle CassDataType 0 true None CMut)
           (fn "cass_data_type_new" [Val] (RetPtr Static Shared CMut CassDataType [])) Shared []
           one_data_type_ok); [vm_compute; reflexivity|done|exact one_data_type_no_loans|
           exact data_type_new_exported|done].
Defined.
