(* ===== verification/ArgConv.v ===== *)
(** * C strings crossing the API boundary (argconv.rs)

    A [const char*] argument is [option string]: [None] is the null pointer and
    [Some mem] the bytes readable from the pointer.  A NUL-terminated argument
    is measured with [strlen]; a length-delimited one is paired with its length.
    Both are validated as UTF-8 by the rules of [core::str::from_utf8].  Object
    pointers ([CassPtr]) are [option] of the object or of its address. *)

From Stdlib Require Import ZArith Lia Ascii String.
From stdpp Require Import base list gmap strings.
From S2P Require Import Prelude.

Open Scope Z_scope.

(** ** Bytes of a Rust string *)

Definition as_bytes (s : string) : list Z :=
  map (fun a => Z.of_N (N_of_ascii a)) (list_ascii_of_string s).

(** ** UTF-8 validation, as in [core::str::from_utf8] *)

Definition in_rng (lo hi b : Z) : bool := (lo <=? b) && (b <=? hi).

(** Continuation bytes [10xxxxxx]. *)
Definition is_cont (b : Z) : bool := in_rng 128 191 b.

Definition utf8_lead2 (b0 b1 : Z) : bool := in_rng 194 223 b0 && is_cont b1.

Definition utf8_lead3 (b0 b1 : Z) : bool :=
  ((b0 =? 224) && in_rng 160 191 b1)
  || (in_rng 225 236 b0 && is_cont b1)
  || ((b0 =? 237) && in_rng 128 159 b1)
  || (in_rng 238 239 b0 && is_cont b1).

Definition utf8_lead4 (b0 b1 : Z) : bool :=
  ((b0 =? 240) && in_rng 144 191 b1)
  || (in_rng 241 243 b0 && is_cont b1)
  || ((b0 =? 244) && in_rng 128 143 b1).

Fixpoint utf8_valid (l : list Z) : bool :=
  match l with
  | [] => true
  | b0 :: l0 =>
      if in_rng 0 127 b0 then utf8_valid l0
      else match l0 with
      | [] => false
      | b1 :: l1 =>
          if utf8_lead2 b0 b1 then utf8_valid l1
          else match l1 with
          | [] => false
          | b2 :: l2 =>
              if utf8_lead3 b0 b1 && is_cont b2 then utf8_valid l2
              else match l2 with
              | [] => false
              | b3 :: l3 =>
                  utf8_lead4 b0 b1 && is_cont b2 && is_cont b3 && utf8_valid l3
              end
          end
      end
  end.

(** [str::is_char_boundary]. *)
Definition is_char_boundary (bs : list Z) (index : nat) : bool :=
  match index with
  | O => true
  | _ => match bs !! index with
         | Some b => negb (is_cont b)
         | None => (index =? List.length bs)%nat
         end
  end.

(** ** Pointers to strings *)

Inductive PtrToStrError := NullPointer | InvalidUtf8.

Definition char_ptr : Type := option string.

(** The number of bytes before the first NUL; [0] for the null pointer. *)
Fixpoint nul_index (s : string) : nat :=
  match s with
  | EmptyString => 0
  | String c s => if Ascii.eqb c zero then 0 else S (nul_index s)
  end.

Definition strlen (p : char_ptr) : nat :=
  match p with None => 0%nat | Some mem => nul_index mem end.

Definition from_utf8 (s : string) : result PtrToStrError string :=
  if utf8_valid (as_bytes s) then Ok s else Err InvalidUtf8.

(** [CassStrLenDelimited::to_str]. *)
Definition to_str (p : char_ptr) (len : nat) : result PtrToStrError string :=
  match p with
  | None => Err NullPointer
  | Some mem => from_utf8 (String.substring 0 len mem)
  end.

(** [CassStrNulTerminated::to_str], through [CStr::from_ptr]. *)
Definition nul_to_str (p : char_ptr) : result PtrToStrError string :=
  match p with
  | None => Err NullPointer
  | Some mem => from_utf8 (String.substring 0 (nul_index mem) mem)
  end.

(** [CassStrNulTerminated::as_len_delimited]: how every function of the API
    forwards a NUL-terminated argument to its [_n] variant. *)
Definition as_len_delimited (p : char_ptr) : char_ptr * nat :=
  match p with
  | None => (None, 0%nat)
  | Some _ => (p, strlen p)
  end.

(** [write_str_to_c]: the pointer and the length handed back to C. *)
Definition write_str_to_c (s : string) : char_ptr * nat := (Some s, String.length s).

(** ** Names in double quotes and case-insensitive comparison *)

(** The double quote. *)
Definition quote : ascii := ascii_of_nat 34.

Definition strip_prefix (c : ascii) (s : string) : option string :=
  match s with
  | String c' s => if Ascii.eqb c c' then Some s else None
  | EmptyString => None
  end.

Fixpoint strip_suffix (c : ascii) (s : string) : option string :=
  match s with
  | EmptyString => None
  | String c' EmptyString => if Ascii.eqb c c' then Some EmptyString else None
  | String c' s => String c' <$> strip_suffix c s
  end.

Definition ascii_lowercase (c : ascii) : ascii :=
  let n := nat_of_ascii c in
  if ((65 <=? n) && (n <=? 90))%nat then ascii_of_nat (n + 32) else c.

(** [str::eq_ignore_ascii_case]. *)
Fixpoint eq_ignore_ascii_case (s t : string) : bool :=
  match s, t with
  | EmptyString, EmptyString => true
  | String c s, String d t => Ascii.eqb (ascii_lowercase c) (ascii_lowercase d) && eq_ignore_ascii_case s t
  | _, _ => false
  end.

(** ** Fixed-size message buffers *)

(** The [while !s.is_char_boundary(max_len)] loop of [str_to_arr]. *)
Fixpoint floor_boundary (bs : list Z) (max_len : nat) : nat :=
  if is_char_boundary bs max_len then max_len
  else match max_len with O => O | S n => floor_boundary bs n end.

Definition str_to_arr (N : nat) (bs : list Z) : list Z :=
  let max_len := floor_boundary bs (Nat.min (N - 1) (List.length bs)) in
  take max_len bs ++ replicate (N - max_len) 0.

(** ** Lemmas *)

#[local] Arguments in_rng : simpl never.
#[local] Arguments is_cont : simpl never.
#[local] Arguments utf8_lead2 : simpl never.
#[local] Arguments utf8_lead3 : simpl never.
#[local] Arguments utf8_lead4 : simpl never.

(** One step of the validator: a leading character of 1 to 4 bytes. *)
Lemma utf8_valid_cons b l :
  utf8_valid (b :: l) = true ->
  exists (ext rest : list Z),
    l = ext ++ rest /\ Forall (fun c => is_cont c = true) ext /\
    utf8_valid rest = true /\
    (forall rest', utf8_valid rest' = true -> utf8_valid (b :: ext ++ rest') = true).
Proof.
  simpl. destruct (in_rng 0 127 b) eqn:E0.
  { intros Hv. exists [], l. simpl. naive_solver. }
  destruct l as [|b1 l]; [done|].
  destruct (utf8_lead2 b b1) eqn:E1.
  { intros Hv. exists [b1], l. simpl. rewrite ?E0, ?E1.
    unfold utf8_lead2 in E1. apply andb_true_iff in E1 as [_ ?].
    repeat split; [repeat constructor|..]; done. }
  destruct l as [|b2 l]; [done|].
  destruct (utf8_lead3 b b1 && is_cont b2) eqn:E2.
  { intros Hv. exists [b1; b2], l. simpl. rewrite ?E0, ?E1, ?E2.
    unfold utf8_lead3, is_cont, in_rng in *.
    repeat split; [repeat constructor|..]; try done; lia. }
  destruct l as [|b3 l]; [done|]. intros Hv. exists [b1; b2; b3], l.
  simpl. rewrite ?E0, ?E1, ?E2.
  apply andb_true_iff in Hv as [Hv Hl].
  split; [done|]. split; [|split; [done|intros rest' ->; by rewrite Hv]].
  unfold utf8_lead4, is_cont, in_rng in *. repeat constructor; lia.
Qed.

Lemma utf8_take_boundary bs n :
  utf8_valid bs = true -> is_char_boundary bs n = true -> utf8_valid (take n bs) = true.
Proof.
  remember (List.length bs) as k eqn:Hk. revert bs n Hk.
  induction k as [k IH] using lt_wf_ind; intros bs n Hk Hv Hb.
  destruct bs as [|b l]; [by rewrite take_nil|].
  destruct n as [|n]; [done|].
  destruct (utf8_valid_cons _ _ Hv) as (ext & rest & -> & Hext & Hrest & Hre).
  destruct (decide (n < length ext)%nat) as [Hlt|Hge].
  - exfalso. simpl in Hb. rewrite lookup_app_l in Hb by done.
    destruct (ext !! n) as [c|] eqn:E.
    + rewrite Forall_lookup in Hext. rewrite (Hext _ _ E) in Hb. done.
    + apply lookup_ge_None in E. lia.
  - simpl. rewrite take_app_ge by lia. apply Hre.
    apply (IH (length rest)); [simpl in Hk; rewrite length_app in Hk; lia|done|done|].
    simpl in Hb. rewrite lookup_app_r in Hb by lia.
    unfold is_char_boundary. destruct (n - length ext)%nat as [|m] eqn:Em; [done|].
    destruct (rest !! S m); [done|].
    apply Nat.eqb_eq in Hb. apply Nat.eqb_eq. rewrite length_app in Hb. lia.
Qed.

Lemma floor_boundary_spec bs n :
  (n <= length bs)%nat ->
  let m := floor_boundary bs n in
  (m <= n)%nat /\ is_char_boundary bs m = true /\
  (forall k, (m < k <= n)%nat -> is_char_boundary bs k = false).
Proof.
  induction n as [|n IH]; intros Hn; cbn [floor_boundary].
  { simpl. repeat split; lia. }
  destruct (is_char_boundary bs (S n)) eqn:E; [repeat split; try done; lia|].
  destruct IH as (H1 & H2 & H3); [lia|]. repeat split; [lia|done|].
  intros k Hk. destruct (decide (k = S n)) as [->|]; [done|]. apply H3; lia.
Qed.

Lemma substring_all s : String.substring 0 (String.length s) s = s.
Proof. induction s as [|c s IH]; simpl; [done|]. by rewrite IH. Qed.

Lemma to_str_Ok p len s :
  to_str p len = Ok s -> exists mem, p = Some mem /\ s = String.substring 0 len mem
    /\ utf8_valid (as_bytes s) = true.
Proof.
  destruct p as [mem|]; simpl; [|done]. unfold from_utf8.
  destruct (utf8_valid _) eqn:E; intros [= <-]. eauto.
Qed.

(** ** Properties *)

(** Forwarding a NUL-terminated argument to the length-delimited variant
    of a function reads exactly the string, or the error, that reading the
    NUL-terminated argument itself gives, null pointer included. *)
Theorem as_len_delimited_to_str (p : char_ptr) :
  to_str (as_len_delimited p).1 (as_len_delimited p).2 = nul_to_str p.
Proof. destruct p; reflexivity. Qed.

(** The bounded copy into a log message buffer of [N] bytes has exactly [N]
    bytes, is NUL-terminated, and its text is a prefix of the message that is
    valid UTF-8 again, cut only when the message does not fit and then by less
    than one character. *)
Theorem str_to_arr_spec (N : nat) (bs : list Z) :
  (0 < N)%nat -> utf8_valid bs = true ->
  exists n, str_to_arr N bs = take n bs ++ replicate (N - n) 0 /\
    (n <= length bs)%nat /\ (n < N)%nat /\
    length (str_to_arr N bs) = N /\
    utf8_valid (take n bs) = true /\
    (forall k, (n < k)%nat -> (k < N)%nat -> (k <= length bs)%nat ->
       is_char_boundary bs k = false).
Proof.
  intros HN Hv. unfold str_to_arr.
  destruct (floor_boundary_spec bs (Nat.min (N - 1) (length bs))) as (H1 & H2 & H3); [lia|].
  eexists; split; [reflexivity|]. repeat split; try lia.
  - rewrite length_app, length_take, length_replicate. lia.
  - by apply utf8_take_boundary.
  - intros k ? ? ?. apply H3. lia.
Qed.

Lemma str_to_arr_spec_witness :
  exists n, str_to_arr 4 [97; 98; 195; 169] = take n [97; 98; 195; 169] ++ replicate (4 - n) 0 /\
    (n <= 4)%nat /\ (n < 4)%nat /\
    length (str_to_arr 4 [97; 98; 195; 169]) = 4%nat /\
    utf8_valid (take n [97; 98; 195; 169]) = true /\
    (forall k, (n < k)%nat -> (k < 4)%nat -> (k <= 4)%nat ->
       is_char_boundary [97; 98; 195; 169] k = false).
Proof.
  apply (str_to_arr_spec 4 [97; 98; 195; 169]); [lia | reflexivity].
Defined.
