(* ===== verification/Types.v ===== *)
(** * Enumerations of the C API (include/cassandra.h)

    The constants the Rust sources see through the generated bindings, with the
    numbers the header gives them.  The bindings represent an enumeration as a
    newtype over its integer, so a value outside the named constants is possible
    (the [_other] constructors, which only stand for
    numbers that no named constant has). *)

From Stdlib Require Import ZArith Lia.
From stdpp Require Import base list.
From S2P Require Import Prelude.

Open Scope Z_scope.

(** ** Error codes *)

Inductive CassError :=
| CASS_OK
| CASS_ERROR_LIB_BAD_PARAMS
| CASS_ERROR_LIB_NO_STREAMS
| CASS_ERROR_LIB_UNABLE_TO_INIT
| CASS_ERROR_LIB_MESSAGE_ENCODE
| CASS_ERROR_LIB_HOST_RESOLUTION
| CASS_ERROR_LIB_UNEXPECTED_RESPONSE
| CASS_ERROR_LIB_REQUEST_QUEUE_FULL
| CASS_ERROR_LIB_NO_AVAILABLE_IO_THREAD
| CASS_ERROR_LIB_WRITE_ERROR
| CASS_ERROR_LIB_NO_HOSTS_AVAILABLE
| CASS_ERROR_LIB_INDEX_OUT_OF_BOUNDS
| CASS_ERROR_LIB_INVALID_ITEM_COUNT
| CASS_ERROR_LIB_INVALID_VALUE_TYPE
| CASS_ERROR_LIB_REQUEST_TIMED_OUT
| CASS_ERROR_LIB_UNABLE_TO_SET_KEYSPACE
| CASS_ERROR_LIB_CALLBACK_ALREADY_SET
| CASS_ERROR_LIB_INVALID_STATEMENT_TYPE
| CASS_ERROR_LIB_NAME_DOES_NOT_EXIST
| CASS_ERROR_LIB_UNABLE_TO_DETERMINE_PROTOCOL
| CASS_ERROR_LIB_NULL_VALUE
| CASS_ERROR_LIB_NOT_IMPLEMENTED
| CASS_ERROR_LIB_UNABLE_TO_CONNECT
| CASS_ERROR_LIB_UNABLE_TO_CLOSE
| CASS_ERROR_LIB_NO_PAGING_STATE
| CASS_ERROR_LIB_PARAMETER_UNSET
| CASS_ERROR_LIB_INVALID_ERROR_RESULT_TYPE
| CASS_ERROR_LIB_INVALID_FUTURE_TYPE
| CASS_ERROR_LIB_INTERNAL_ERROR
| CASS_ERROR_LIB_INVALID_CUSTOM_TYPE
| CASS_ERROR_LIB_INVALID_DATA
| CASS_ERROR_LIB_NOT_ENOUGH_DATA
| CASS_ERROR_LIB_INVALID_STATE
| CASS_ERROR_LIB_NO_CUSTOM_PAYLOAD
| CASS_ERROR_LIB_EXECUTION_PROFILE_INVALID
| CASS_ERROR_LIB_NO_TRACING_ID
| CASS_ERROR_SERVER_SERVER_ERROR
| CASS_ERROR_SERVER_PROTOCOL_ERROR
| CASS_ERROR_SERVER_BAD_CREDENTIALS
| CASS_ERROR_SERVER_UNAVAILABLE
| CASS_ERROR_SERVER_OVERLOADED
| CASS_ERROR_SERVER_IS_BOOTSTRAPPING
| CASS_ERROR_SERVER_TRUNCATE_ERROR
| CASS_ERROR_SERVER_WRITE_TIMEOUT
| CASS_ERROR_SERVER_READ_TIMEOUT
| CASS_ERROR_SERVER_READ_FAILURE
| CASS_ERROR_SERVER_FUNCTION_FAILURE
| CASS_ERROR_SERVER_WRITE_FAILURE
| CASS_ERROR_SERVER_SYNTAX_ERROR
| CASS_ERROR_SERVER_UNAUTHORIZED
| CASS_ERROR_SERVER_INVALID_QUERY
| CASS_ERROR_SERVER_CONFIG_ERROR
| CASS_ERROR_SERVER_ALREADY_EXISTS
| CASS_ERROR_SERVER_UNPREPARED
| CASS_ERROR_SSL_INVALID_CERT
| CASS_ERROR_SSL_INVALID_PRIVATE_KEY
| CASS_ERROR_SSL_NO_PEER_CERT
| CASS_ERROR_SSL_INVALID_PEER_CERT
| CASS_ERROR_SSL_IDENTITY_MISMATCH
| CASS_ERROR_SSL_PROTOCOL_ERROR
| CASS_ERROR_SSL_CLOSED
| CassError_other (n : Z).

#[global] Instance CassError_eq_dec : EqDecision CassError.
Proof. solve_decision. Defined.

Definition CASS_ERROR_SOURCE_LIB : Z := 1.
Definition CASS_ERROR_SOURCE_SERVER : Z := 2.
Definition CASS_ERROR_SOURCE_SSL : Z := 3.

(** [CASS_ERROR(source, code) = (source << 24) | code]. *)
Definition error_number (source code : Z) : Z := Z.lor (Z.shiftl source 24) code.

Definition CassError_code (e : CassError) : Z :=
  match e with
  | CASS_OK => 0
  | CASS_ERROR_LIB_BAD_PARAMS => error_number CASS_ERROR_SOURCE_LIB 1
  | CASS_ERROR_LIB_NO_STREAMS => error_number CASS_ERROR_SOURCE_LIB 2
  | CASS_ERROR_LIB_UNABLE_TO_INIT => error_number CASS_ERROR_SOURCE_LIB 3
  | CASS_ERROR_LIB_MESSAGE_ENCODE => error_number CASS_ERROR_SOURCE_LIB 4
  | CASS_ERROR_LIB_HOST_RESOLUTION => error_number CASS_ERROR_SOURCE_LIB 5
  | CASS_ERROR_LIB_UNEXPECTED_RESPONSE => error_number CASS_ERROR_SOURCE_LIB 6
  | CASS_ERROR_LIB_REQUEST_QUEUE_FULL => error_number CASS_ERROR_SOURCE_LIB 7
  | CASS_ERROR_LIB_NO_AVAILABLE_IO_THREAD => error_number CASS_ERROR_SOURCE_LIB 8
  | CASS_ERROR_LIB_WRITE_ERROR => error_number CASS_ERROR_SOURCE_LIB 9
  | CASS_ERROR_LIB_NO_HOSTS_AVAILABLE => error_number CASS_ERROR_SOURCE_LIB 10
  | CASS_ERROR_LIB_INDEX_OUT_OF_BOUNDS => error_number CASS_ERROR_SOURCE_LIB 11
  | CASS_ERROR_LIB_INVALID_ITEM_COUNT => error_number CASS_ERROR_SOURCE_LIB 12
  | CASS_ERROR_LIB_INVALID_VALUE_TYPE => error_number CASS_ERROR_SOURCE_LIB 13
  | CASS_ERROR_LIB_REQUEST_TIMED_OUT => error_number CASS_ERROR_SOURCE_LIB 14
  | CASS_ERROR_LIB_UNABLE_TO_SET_KEYSPACE => error_number CASS_ERROR_SOURCE_LIB 15
  | CASS_ERROR_LIB_CALLBACK_ALREADY_SET => error_number CASS_ERROR_SOURCE_LIB 16
  | CASS_ERROR_LIB_INVALID_STATEMENT_TYPE => error_number CASS_ERROR_SOURCE_LIB 17
  | CASS_ERROR_LIB_NAME_DOES_NOT_EXIST => error_number CASS_ERROR_SOURCE_LIB 18
  | CASS_ERROR_LIB_UNABLE_TO_DETERMINE_PROTOCOL => error_number CASS_ERROR_SOURCE_LIB 19
  | CASS_ERROR_LIB_NULL_VALUE => error_number CASS_ERROR_SOURCE_LIB 20
  | CASS_ERROR_LIB_NOT_IMPLEMENTED => error_number CASS_ERROR_SOURCE_LIB 21
  | CASS_ERROR_LIB_UNABLE_TO_CONNECT => error_number CASS_ERROR_SOURCE_LIB 22
  | CASS_ERROR_LIB_UNABLE_TO_CLOSE => error_number CASS_ERROR_SOURCE_LIB 23
  | CASS_ERROR_LIB_NO_PAGING_STATE => error_number CASS_ERROR_SOURCE_LIB 24
  | CASS_ERROR_LIB_PARAMETER_UNSET => error_number CASS_ERROR_SOURCE_LIB 25
  | CASS_ERROR_LIB_INVALID_ERROR_RESULT_TYPE => error_number CASS_ERROR_SOURCE_LIB 26
  | CASS_ERROR_LIB_INVALID_FUTURE_TYPE => error_number CASS_ERROR_SOURCE_LIB 27
  | CASS_ERROR_LIB_INTERNAL_ERROR => error_number CASS_ERROR_SOURCE_LIB 28
  | CASS_ERROR_LIB_INVALID_CUSTOM_TYPE => error_number CASS_ERROR_SOURCE_LIB 29
  | CASS_ERROR_LIB_INVALID_DATA => error_number CASS_ERROR_SOURCE_LIB 30
  | CASS_ERROR_LIB_NOT_ENOUGH_DATA => error_number CASS_ERROR_SOURCE_LIB 31
  | CASS_ERROR_LIB_INVALID_STATE => error_number CASS_ERROR_SOURCE_LIB 32
  | CASS_ERROR_LIB_NO_CUSTOM_PAYLOAD => error_number CASS_ERROR_SOURCE_LIB 33
  | CASS_ERROR_LIB_EXECUTION_PROFILE_INVALID => error_number CASS_ERROR_SOURCE_LIB 34
  | CASS_ERROR_LIB_NO_TRACING_ID => error_number CASS_ERROR_SOURCE_LIB 35
  | CASS_ERROR_SERVER_SERVER_ERROR => error_number CASS_ERROR_SOURCE_SERVER 0
  | CASS_ERROR_SERVER_PROTOCOL_ERROR => error_number CASS_ERROR_SOURCE_SERVER 10
  | CASS_ERROR_SERVER_BAD_CREDENTIALS => error_number CASS_ERROR_SOURCE_SERVER 256
  | CASS_ERROR_SERVER_UNAVAILABLE => error_number CASS_ERROR_SOURCE_SERVER 4096
  | CASS_ERROR_SERVER_OVERLOADED => error_number CASS_ERROR_SOURCE_SERVER 4097
  | CASS_ERROR_SERVER_IS_BOOTSTRAPPING => error_number CASS_ERROR_SOURCE_SERVER 4098
  | CASS_ERROR_SERVER_TRUNCATE_ERROR => error_number CASS_ERROR_SOURCE_SERVER 4099
  | CASS_ERROR_SERVER_WRITE_TIMEOUT => error_number CASS_ERROR_SOURCE_SERVER 4352
  | CASS_ERROR_SERVER_READ_TIMEOUT => error_number CASS_ERROR_SOURCE_SERVER 4608
  | CASS_ERROR_SERVER_READ_FAILURE => error_number CASS_ERROR_SOURCE_SERVER 4864
  | CASS_ERROR_SERVER_FUNCTION_FAILURE => error_number CASS_ERROR_SOURCE_SERVER 5120
  | CASS_ERROR_SERVER_WRITE_FAILURE => error_number CASS_ERROR_SOURCE_SERVER 5376
  | CASS_ERROR_SERVER_SYNTAX_ERROR => error_number CASS_ERROR_SOURCE_SERVER 8192
  | CASS_ERROR_SERVER_UNAUTHORIZED => error_number CASS_ERROR_SOURCE_SERVER 8448
  | CASS_ERROR_SERVER_INVALID_QUERY => error_number CASS_ERROR_SOURCE_SERVER 8704
  | CASS_ERROR_SERVER_CONFIG_ERROR => error_number CASS_ERROR_SOURCE_SERVER 8960
  | CASS_ERROR_SERVER_ALREADY_EXISTS => error_number CASS_ERROR_SOURCE_SERVER 9216
  | CASS_ERROR_SERVER_UNPREPARED => error_number CASS_ERROR_SOURCE_SERVER 9472
  | CASS_ERROR_SSL_INVALID_CERT => error_number CASS_ERROR_SOURCE_SSL 1
  | CASS_ERROR_SSL_INVALID_PRIVATE_KEY => error_number CASS_ERROR_SOURCE_SSL 2
  | CASS_ERROR_SSL_NO_PEER_CERT => error_number CASS_ERROR_SOURCE_SSL 3
  | CASS_ERROR_SSL_INVALID_PEER_CERT => error_number CASS_ERROR_SOURCE_SSL 4
  | CASS_ERROR_SSL_IDENTITY_MISMATCH => error_number CASS_ERROR_SOURCE_SSL 5
  | CASS_ERROR_SSL_PROTOCOL_ERROR => error_number CASS_ERROR_SOURCE_SSL 6
  | CASS_ERROR_SSL_CLOSED => error_number CASS_ERROR_SOURCE_SSL 7
  | CassError_other n => n
  end.

(** ** CQL value types *)

Inductive CassValueType :=
| CASS_VALUE_TYPE_UNKNOWN
| CASS_VALUE_TYPE_CUSTOM
| CASS_VALUE_TYPE_ASCII
| CASS_VALUE_TYPE_BIGINT
| CASS_VALUE_TYPE_BLOB
| CASS_VALUE_TYPE_BOOLEAN
| CASS_VALUE_TYPE_COUNTER
| CASS_VALUE_TYPE_DECIMAL
| CASS_VALUE_TYPE_DOUBLE
| CASS_VALUE_TYPE_FLOAT
| CASS_VALUE_TYPE_INT
| CASS_VALUE_TYPE_TEXT
| CASS_VALUE_TYPE_TIMESTAMP
| CASS_VALUE_TYPE_UUID
| CASS_VALUE_TYPE_VARCHAR
| CASS_VALUE_TYPE_VARINT
| CASS_VALUE_TYPE_TIMEUUID
| CASS_VALUE_TYPE_INET
| CASS_VALUE_TYPE_DATE
| CASS_VALUE_TYPE_TIME
| CASS_VALUE_TYPE_SMALL_INT
| CASS_VALUE_TYPE_TINY_INT
| CASS_VALUE_TYPE_DURATION
| CASS_VALUE_TYPE_LIST
| CASS_VALUE_TYPE_MAP
| CASS_VALUE_TYPE_SET
| CASS_VALUE_TYPE_UDT
| CASS_VALUE_TYPE_TUPLE
| CASS_VALUE_TYPE_VECTOR
| CassValueType_other (n : Z).

#[global] Instance CassValueType_eq_dec : EqDecision CassValueType.
Proof. solve_decision. Defined.

Definition CassValueType_code (t : CassValueType) : Z :=
  match t with
  | CASS_VALUE_TYPE_UNKNOWN => 65535
  | CASS_VALUE_TYPE_CUSTOM => 0
  | CASS_VALUE_TYPE_ASCII => 1
  | CASS_VALUE_TYPE_BIGINT => 2
  | CASS_VALUE_TYPE_BLOB => 3
  | CASS_VALUE_TYPE_BOOLEAN => 4
  | CASS_VALUE_TYPE_COUNTER => 5
  | CASS_VALUE_TYPE_DECIMAL => 6
  | CASS_VALUE_TYPE_DOUBLE => 7
  | CASS_VALUE_TYPE_FLOAT => 8
  | CASS_VALUE_TYPE_INT => 9
  | CASS_VALUE_TYPE_TEXT => 10
  | CASS_VALUE_TYPE_TIMESTAMP => 11
  | CASS_VALUE_TYPE_UUID => 12
  | CASS_VALUE_TYPE_VARCHAR => 13
  | CASS_VALUE_TYPE_VARINT => 14
  | CASS_VALUE_TYPE_TIMEUUID => 15
  | CASS_VALUE_TYPE_INET => 16
  | CASS_VALUE_TYPE_DATE => 17
  | CASS_VALUE_TYPE_TIME => 18
  | CASS_VALUE_TYPE_SMALL_INT => 19
  | CASS_VALUE_TYPE_TINY_INT => 20
  | CASS_VALUE_TYPE_DURATION => 21
  | CASS_VALUE_TYPE_LIST => 32
  | CASS_VALUE_TYPE_MAP => 33
  | CASS_VALUE_TYPE_SET => 34
  | CASS_VALUE_TYPE_UDT => 48
  | CASS_VALUE_TYPE_TUPLE => 49
  | CASS_VALUE_TYPE_VECTOR => 21334
  | CassValueType_other n => n
  end.

(** [CASS_VALUE_TYPE_LAST_ENTRY], one past the last named type. *)
Definition CASS_VALUE_TYPE_LAST_ENTRY : Z := 21335.

(** ** Consistency levels *)

Inductive CassConsistency :=
| CASS_CONSISTENCY_UNKNOWN
| CASS_CONSISTENCY_ANY
| CASS_CONSISTENCY_ONE
| CASS_CONSISTENCY_TWO
| CASS_CONSISTENCY_THREE
| CASS_CONSISTENCY_QUORUM
| CASS_CONSISTENCY_ALL
| CASS_CONSISTENCY_LOCAL_QUORUM
| CASS_CONSISTENCY_EACH_QUORUM
| CASS_CONSISTENCY_SERIAL
| CASS_CONSISTENCY_LOCAL_SERIAL
| CASS_CONSISTENCY_LOCAL_ONE
| CassConsistency_other (n : Z).

#[global] Instance CassConsistency_eq_dec : EqDecision CassConsistency.
Proof. solve_decision. Defined.

Definition CassConsistency_code (c : CassConsistency) : Z :=
  match c with
  | CASS_CONSISTENCY_UNKNOWN => 65535
  | CASS_CONSISTENCY_ANY => 0
  | CASS_CONSISTENCY_ONE => 1
  | CASS_CONSISTENCY_TWO => 2
  | CASS_CONSISTENCY_THREE => 3
  | CASS_CONSISTENCY_QUORUM => 4
  | CASS_CONSISTENCY_ALL => 5
  | CASS_CONSISTENCY_LOCAL_QUORUM => 6
  | CASS_CONSISTENCY_EACH_QUORUM => 7
  | CASS_CONSISTENCY_SERIAL => 8
  | CASS_CONSISTENCY_LOCAL_SERIAL => 9
  | CASS_CONSISTENCY_LOCAL_ONE => 10
  | CassConsistency_other n => n
  end.

(** ** Batch types *)

Inductive CassBatchType :=
| CASS_BATCH_TYPE_LOGGED
| CASS_BATCH_TYPE_UNLOGGED
| CASS_BATCH_TYPE_COUNTER
| CassBatchType_other (n : Z).
