(* ===== verification/DataType.v ===== *)
(** * CQL data types (cql_types/data_type.rs)

    A [CassDataType] lives behind an [Arc] and is mutable through every copy of
    that [Arc], so data types form a heap: [loc] stands for an [Arc], [heap] maps
    it to the contents.  The contents [CassDataTypeInner] are parametric in the
    reference to a subtype, so the bodies of the recursive functions are written
    once and used on the heap ([R := loc], with fuel, since a caller can build a
    cycle) and on trees ([R := dtree]), which are what an acyclic data type
    denotes.  The files that hold data types without mutating them use trees. *)

From Stdlib Require Import ZArith Lia.
From stdpp Require Import base list gmap strings.
From S2P Require Import Prelude ArgConv Types.

Open Scope Z_scope.

(** ** Data *)

Record UdtDataType (R : Type) := mkUdt {
  field_types : list (string * R);
  udt_keyspace : string;
  udt_name : string;
  udt_frozen : bool
}.
Arguments mkUdt {R}.
Arguments field_types {R}.
Arguments udt_keyspace {R}.
Arguments udt_name {R}.
Arguments udt_frozen {R}.

Inductive MapDataType (R : Type) :=
| Untyped
| Key (k : R)
| KeyAndValue (k v : R).
Arguments Untyped {R}.
Arguments Key {R}.
Arguments KeyAndValue {R}.

Inductive CassDataTypeInner (R : Type) :=
| DValue (t : CassValueType)
| DUdt (udt : UdtDataType R)
| DList (typ : option R) (frozen : bool)
| DSet (typ : option R) (frozen : bool)
| DMap (typ : MapDataType R) (frozen : bool)
| DTuple (sub : list R)
| DVector (typ : R) (dimensions : Z)
| DCustom (class_name : string).
Arguments DValue {R}.
Arguments DUdt {R}.
Arguments DList {R}.
Arguments DSet {R}.
Arguments DMap {R}.
Arguments DTuple {R}.
Arguments DVector {R}.
Arguments DCustom {R}.

Definition loc : Type := positive.
Abbreviation heap := (gmap loc (CassDataTypeInner loc)).

Inductive dtree := Node (i : CassDataTypeInner dtree).

(** [UdtDataType::new] and [with_capacity]: the capacity only reserves memory. *)
Definition UdtDataType_new {R} : UdtDataType R := mkUdt [] EmptyString EmptyString false.
Definition UdtDataType_with_capacity {R} (capacity : nat) : UdtDataType R :=
  mkUdt [] EmptyString EmptyString false.

Definition get_field_by_name {R} (udt : UdtDataType R) (name : string) : option R :=
  match list_find (fun f : string * R => f.1 = name) (field_types udt) with
  | Some (_, f) => Some f.2
  | None => None
  end.

Definition get_value_type {R} (i : CassDataTypeInner R) : CassValueType :=
  match i with
  | DValue t => t
  | DUdt _ => CASS_VALUE_TYPE_UDT
  | DList _ _ => CASS_VALUE_TYPE_LIST
  | DSet _ _ => CASS_VALUE_TYPE_SET
  | DMap _ _ => CASS_VALUE_TYPE_MAP
  | DTuple _ => CASS_VALUE_TYPE_TUPLE
  | DVector _ _ => CASS_VALUE_TYPE_VECTOR
  | DCustom _ => CASS_VALUE_TYPE_CUSTOM
  end.

(** ** Type checks *)

Definition any_string_empty_or_both_equal (s1 s2 : string) : bool :=
  bool_decide (s1 = EmptyString) || bool_decide (s2 = EmptyString)
  || bool_decide (s1 = s2).

Definition value_types_equal (t1 t2 : CassValueType) : bool :=
  match t1, t2 with
  | CASS_VALUE_TYPE_TEXT, CASS_VALUE_TYPE_VARCHAR
  | CASS_VALUE_TYPE_VARCHAR, CASS_VALUE_TYPE_TEXT => true
  | _, _ => bool_decide (t1 = t2)
  end.

Section Bodies.
Context {R S : Type} (rec : R -> S -> outcome bool) (rec1 : R -> outcome bool).

(** [UdtDataType::typecheck_equals]. *)
Definition udt_typecheck (udt : UdtDataType R) (other : UdtDataType S) : outcome bool :=
  if negb (any_string_empty_or_both_equal (udt_keyspace udt) (udt_keyspace other))
  then Ret false
  else if negb (any_string_empty_or_both_equal (udt_name udt) (udt_name other))
  then Ret false
  else zip_all (fun f g => if bool_decide (f.1 = g.1) then rec f.2 g.2 else Ret false)
         (field_types udt) (field_types other).

(** Subtypes of two lists, or of two sets: a missing one is a wildcard. *)
Definition elem_typecheck (typ : option R) (other_typ : option S) : outcome bool :=
  match typ, other_typ with
  | None, _ | _, None => Ret true
  | Some typ, Some other_typ => rec typ other_typ
  end.

Definition map_typecheck (t : MapDataType R) (t_other : MapDataType S) : outcome bool :=
  match t, t_other with
  | Untyped, _ => Ret true
  | _, Untyped => Ret true
  | Key k, Key k_other => rec k k_other
  | KeyAndValue k v, KeyAndValue k_other v_other =>
      and_then (rec k k_other) (rec v v_other)
  | _, _ => Ret false
  end.

Definition tuple_typecheck (sub : list R) (other_sub : list S) : outcome bool :=
  match sub, other_sub with
  | [], _ | _, [] => Ret true
  | _, _ =>
      if (length sub =? length other_sub)%nat then zip_all rec sub other_sub
      else Ret false
  end.

(** [CassDataTypeInner::typecheck_equals]; [rec] compares two subtypes. *)
Definition typecheck_body (self : CassDataTypeInner R) (other : CassDataTypeInner S)
  : outcome bool :=
  match self with
  | DValue t => Ret (value_types_equal t (get_value_type other))
  | DUdt udt => match other with DUdt other_udt => udt_typecheck udt other_udt | _ => Ret false end
  | DList typ _ =>
      match other with DList other_typ _ => elem_typecheck typ other_typ | _ => Ret false end
  | DSet typ _ =>
      match other with DSet other_typ _ => elem_typecheck typ other_typ | _ => Ret false end
  | DMap t _ => match other with DMap t_other _ => map_typecheck t t_other | _ => Ret false end
  | DTuple sub =>
      match other with DTuple other_sub => tuple_typecheck sub other_sub | _ => Ret false end
  | DVector typ dims =>
      match other with
      | DVector other_typ other_dims =>
          if dims =? other_dims then rec typ other_typ else Ret false
      | _ => Ret false
      end
  | DCustom _ => Panic
  end.

(** [CassDataTypeInner::is_fully_typed]. *)
Definition fully_typed_body (self : CassDataTypeInner R) : outcome bool :=
  match self with
  | DValue _ => Ret true
  | DCustom _ => Ret false
  | DList typ _ | DSet typ _ => match typ with Some t => rec1 t | None => Ret false end
  | DMap (Untyped | Key _) _ => Ret false
  | DMap (KeyAndValue k v) _ => and_then (rec1 k) (rec1 v)
  | DTuple [] => Ret false
  | DTuple subtypes => all_outcome rec1 subtypes
  | DUdt udt =>
      match field_types udt with
      | [] => Ret false
      | fields => all_outcome (fun f => rec1 f.2) fields
      end
  | DVector typ _ => rec1 typ
  end.

End Bodies.

(** On the heap.  A reference that is not allocated cannot be held. *)
Definition deref {A} (h : heap) (l : loc) (k : CassDataTypeInner loc -> outcome A) : outcome A :=
  match h !! l with Some i => k i | None => Panic end.

Fixpoint typecheck_equals (fuel : nat) (h : heap) (a b : CassDataTypeInner loc) : outcome bool :=
  match fuel with
  | O => Diverge
  | S fuel =>
      typecheck_body
        (fun x y => deref h x (fun a => deref h y (fun b => typecheck_equals fuel h a b))) a b
  end.

Fixpoint is_fully_typed (fuel : nat) (h : heap) (a : CassDataTypeInner loc) : outcome bool :=
  match fuel with
  | O => Diverge
  | S fuel => fully_typed_body (fun x => deref h x (is_fully_typed fuel h)) a
  end.

(** On trees. *)
Fixpoint tree_typecheck (a b : dtree) : outcome bool :=
  match a, b with Node a, Node b => typecheck_body tree_typecheck a b end.

Fixpoint tree_fully_typed (a : dtree) : outcome bool :=
  match a with Node a => fully_typed_body tree_fully_typed a end.

(** The tree a location denotes, if it is reached within [fuel] levels. *)
Definition map_option {R S} (f : R -> option S) (o : option R) : option (option S) :=
  match o with None => Some None | Some x => Some <$> f x end.

Definition inner_mapM {R S} (f : R -> option S) (i : CassDataTypeInner R)
  : option (CassDataTypeInner S) :=
  match i with
  | DValue t => Some (DValue t)
  | DUdt u =>
      fs ← mapM (fun p => (fun y => (p.1, y)) <$> f p.2) (field_types u);
      Some (DUdt (mkUdt fs (udt_keyspace u) (udt_name u) (udt_frozen u)))
  | DList o fr => o ← map_option f o; Some (DList o fr)
  | DSet o fr => o ← map_option f o; Some (DSet o fr)
  | DMap Untyped fr => Some (DMap Untyped fr)
  | DMap (Key k) fr => k ← f k; Some (DMap (Key k) fr)
  | DMap (KeyAndValue k v) fr => k ← f k; v ← f v; Some (DMap (KeyAndValue k v) fr)
  | DTuple l => l ← mapM f l; Some (DTuple l)
  | DVector t d => t ← f t; Some (DVector t d)
  | DCustom s => Some (DCustom s)
  end.

Fixpoint denote (fuel : nat) (h : heap) (l : loc) : option dtree :=
  match fuel with
  | O => None
  | S fuel => i ← h !! l; Node <$> inner_mapM (denote fuel h) i
  end.

(** ** Native types and column types of the Rust driver

    The two enumerations are non-exhaustive; [NOther] and [COther] stand for the
    variants the sources do not name. *)

Inductive NativeType :=
| NAscii | NBoolean | NBlob | NCounter | NDate | NDecimal | NDouble | NDuration
| NFloat | NInt | NBigInt | NText | NTimestamp | NInet | NSmallInt | NTinyInt
| NTime | NTimeuuid | NUuid | NVarint | NOther.

#[global] Instance NativeType_eq_dec : EqDecision NativeType.
Proof. solve_decision. Defined.

Inductive ColumnType :=
| CNative (native : NativeType)
| CList (typ : ColumnType) (frozen : bool)
| CMap (key value : ColumnType) (frozen : bool)
| CSet (typ : ColumnType) (frozen : bool)
| CUdt (fields : list (string * ColumnType)) (keyspace name : string) (frozen : bool)
| CTuple (v : list ColumnType)
| CVector (typ : ColumnType) (dimensions : Z)
| COther.

(** [From<&NativeType> for CassValueType]. *)
Definition CassValueType_from (native_type : NativeType) : CassValueType :=
  match native_type with
  | NAscii => CASS_VALUE_TYPE_ASCII
  | NBoolean => CASS_VALUE_TYPE_BOOLEAN
  | NBlob => CASS_VALUE_TYPE_BLOB
  | NCounter => CASS_VALUE_TYPE_COUNTER
  | NDate => CASS_VALUE_TYPE_DATE
  | NDecimal => CASS_VALUE_TYPE_DECIMAL
  | NDouble => CASS_VALUE_TYPE_DOUBLE
  | NDuration => CASS_VALUE_TYPE_DURATION
  | NFloat => CASS_VALUE_TYPE_FLOAT
  | NInt => CASS_VALUE_TYPE_INT
  | NBigInt => CASS_VALUE_TYPE_BIGINT
  | NText => CASS_VALUE_TYPE_VARCHAR
  | NTimestamp => CASS_VALUE_TYPE_TIMESTAMP
  | NInet => CASS_VALUE_TYPE_INET
  | NSmallInt => CASS_VALUE_TYPE_SMALL_INT
  | NTinyInt => CASS_VALUE_TYPE_TINY_INT
  | NTime => CASS_VALUE_TYPE_TIME
  | NTimeuuid => CASS_VALUE_TYPE_TIMEUUID
  | NUuid => CASS_VALUE_TYPE_UUID
  | NVarint => CASS_VALUE_TYPE_VARINT
  | NOther => CASS_VALUE_TYPE_UNKNOWN
  end.

(** [TryFrom<CassValueType> for NativeType]. *)
Definition NativeType_try_from (value_type : CassValueType) : option NativeType :=
  match value_type with
  | CASS_VALUE_TYPE_ASCII => Some NAscii
  | CASS_VALUE_TYPE_BIGINT => Some NBigInt
  | CASS_VALUE_TYPE_BLOB => Some NBlob
  | CASS_VALUE_TYPE_BOOLEAN => Some NBoolean
  | CASS_VALUE_TYPE_COUNTER => Some NCounter
  | CASS_VALUE_TYPE_DECIMAL => Some NDecimal
  | CASS_VALUE_TYPE_DOUBLE => Some NDouble
  | CASS_VALUE_TYPE_DURATION => Some NDuration
  | CASS_VALUE_TYPE_FLOAT => Some NFloat
  | CASS_VALUE_TYPE_INT => Some NInt
  | CASS_VALUE_TYPE_TEXT | CASS_VALUE_TYPE_VARCHAR => Some NText
  | CASS_VALUE_TYPE_TIMESTAMP => Some NTimestamp
  | CASS_VALUE_TYPE_UUID => Some NUuid
  | CASS_VALUE_TYPE_VARINT => Some NVarint
  | CASS_VALUE_TYPE_TIMEUUID => Some NTimeuuid
  | CASS_VALUE_TYPE_INET => Some NInet
  | CASS_VALUE_TYPE_DATE => Some NDate
  | CASS_VALUE_TYPE_TIME => Some NTime
  | CASS_VALUE_TYPE_SMALL_INT => Some NSmallInt
  | CASS_VALUE_TYPE_TINY_INT => Some NTinyInt
  | _ => None
  end.

(** [get_column_type]: every [Arc] it makes is fresh and unshared, so the result
    is a tree. *)
Fixpoint get_column_type (column_type : ColumnType) : dtree :=
  Node match column_type with
  | CNative native => DValue (CassValueType_from native)
  | CList boxed_type frozen => DList (Some (get_column_type boxed_type)) frozen
  | CMap key value frozen =>
      DMap (KeyAndValue (get_column_type key) (get_column_type value)) frozen
  | CSet boxed_type frozen => DSet (Some (get_column_type boxed_type)) frozen
  | CUdt fields keyspace name frozen =>
      DUdt (mkUdt (map (fun f => (f.1, get_column_type f.2)) fields) keyspace name frozen)
  | CTuple v => DTuple (map get_column_type v)
  | CVector typ dimensions => DVector (get_column_type typ) dimensions
  | COther => DValue CASS_VALUE_TYPE_UNKNOWN
  end.

(** [uses_variable_length_encoding_in_vector]; [fixed_size] stands for
    [NativeType::type_size_for_vector], a function of the Rust driver. *)
Fixpoint uses_variable_length_encoding_in_vector
    (fixed_size : NativeType -> option nat) (t : dtree) : bool :=
  match t with
  | Node (DValue value_type) =>
      negb match NativeType_try_from value_type with
           | Some native_type =>
               match fixed_size native_type with Some _ => true | None => false end
           | None => false
           end
  | Node (DVector typ _) => uses_variable_length_encoding_in_vector fixed_size typ
  | Node _ => true
  end.

(** ** Subtypes *)

Definition get_sub_data_type {R} (self : CassDataTypeInner R) (index : nat) : option R :=
  match self with
  | DUdt udt => snd <$> field_types udt !! index
  | DList typ _ | DSet typ _ => if (0 <? index)%nat then None else typ
  | DMap Untyped _ => None
  | DMap (Key k) _ => if (index =? 0)%nat then Some k else None
  | DMap (KeyAndValue k v) _ =>
      match index with 0%nat => Some k | 1%nat => Some v | _ => None end
  | DTuple v => v !! index
  | DVector typ _ => if (index =? 0)%nat then Some typ else None
  | DValue _ | DCustom _ => None
  end.

Definition add_sub_data_type {R} (self : CassDataTypeInner R) (sub_type : R)
  : result CassError (CassDataTypeInner R) :=
  match self with
  | DList (Some _) _ | DSet (Some _) _ => Err CASS_ERROR_LIB_BAD_PARAMS
  | DList None frozen => Ok (DList (Some sub_type) frozen)
  | DSet None frozen => Ok (DSet (Some sub_type) frozen)
  | DMap (KeyAndValue _ _) _ => Err CASS_ERROR_LIB_BAD_PARAMS
  | DMap (Key k) frozen => Ok (DMap (KeyAndValue k sub_type) frozen)
  | DMap Untyped frozen => Ok (DMap (Key sub_type) frozen)
  | DTuple types => Ok (DTuple (types ++ [sub_type]))
  | DValue _ | DUdt _ | DVector _ _ | DCustom _ => Err CASS_ERROR_LIB_INVALID_VALUE_TYPE
  end.

Definition sub_type_count {R} (self : CassDataTypeInner R) : nat :=
  match self with
  | DValue _ => 0
  | DUdt udt => length (field_types udt)
  | DList typ _ | DSet typ _ => match typ with Some _ => 1 | None => 0 end
  | DMap Untyped _ => 0
  | DMap (Key _) _ => 1
  | DMap (KeyAndValue _ _) _ => 2
  | DTuple v => length v
  | DVector _ _ => 1
  | DCustom _ => 0
  end.

(** ** The C API

    A data type argument is [option loc], [None] for the null pointer.  An
    operation that changes data types takes the heap and returns the new one.
    [new_arced] allocates; [cass_data_type_free] only drops a reference count
    and leaves the heap unchanged. *)

Definition new_arced (h : heap) (i : CassDataTypeInner loc) : heap * loc :=
  let l := fresh (dom h) in (<[l := i]> h, l).

Definition alloc (h : heap) (i : CassDataTypeInner loc) : heap * option loc :=
  let '(h, l) := new_arced h i in (h, Some l).

Definition cass_data_type_new (value_type : CassValueType) (h : heap) : heap * option loc :=
  match value_type with
  | CASS_VALUE_TYPE_LIST => alloc h (DList None false)
  | CASS_VALUE_TYPE_SET => alloc h (DSet None false)
  | CASS_VALUE_TYPE_TUPLE => alloc h (DTuple [])
  | CASS_VALUE_TYPE_MAP => alloc h (DMap Untyped false)
  | CASS_VALUE_TYPE_UDT => alloc h (DUdt UdtDataType_new)
  | CASS_VALUE_TYPE_CUSTOM => alloc h (DCustom EmptyString)
  | CASS_VALUE_TYPE_VECTOR => (h, None)
  | CASS_VALUE_TYPE_UNKNOWN => (h, None)
  | t => if CassValueType_code t <? CASS_VALUE_TYPE_LAST_ENTRY then alloc h (DValue t)
         else (h, None)
  end.

(** The contents are cloned; the subtypes stay shared with the original. *)
Definition cass_data_type_new_from_existing (data_type : option loc) (h : heap)
  : heap * option loc :=
  match data_type ≫= (h !!.) with
  | None => (h, None)
  | Some i => alloc h i
  end.

Definition cass_data_type_new_tuple (item_count : nat) (h : heap) : heap * option loc :=
  alloc h (DTuple []).

Definition cass_data_type_new_udt (field_count : nat) (h : heap) : heap * option loc :=
  alloc h (DUdt (UdtDataType_with_capacity field_count)).

Definition cass_data_type_new_vector (fuel : nat) (element_type : option loc) (dimensions : Z)
    (h : heap) : outcome (heap * option loc) :=
  match element_type with
  | None => Ret (h, None)
  | Some e =>
      full ← deref h e (is_fully_typed fuel h);
      if negb full then Ret (h, None)
      else if dimensions =? 0 then Ret (h, None)
      else Ret (alloc h (DVector e dimensions))
  end.

Definition cass_data_type_vector_dimensions (data_type : option loc) (h : heap)
  : result CassError Z :=
  match data_type with
  | None => Err CASS_ERROR_LIB_BAD_PARAMS
  | Some l =>
      match h !! l with
      | Some (DVector _ d) => Ok d
      | _ => Err CASS_ERROR_LIB_INVALID_VALUE_TYPE
      end
  end.

Definition cass_data_type_type (data_type : option loc) (h : heap) : CassValueType :=
  match data_type ≫= (h !!.) with
  | None => CASS_VALUE_TYPE_UNKNOWN
  | Some i => get_value_type i
  end.

Definition cass_data_type_is_frozen (data_type : option loc) (h : heap) : bool :=
  match data_type ≫= (h !!.) with
  | Some (DUdt udt) => udt_frozen udt
  | Some (DList _ frozen) | Some (DSet _ frozen) | Some (DMap _ frozen) => frozen
  | _ => false
  end.

(** The string getters: the field handed back on success. *)
Definition cass_data_type_type_name (data_type : option loc) (h : heap)
  : result CassError (char_ptr * nat) :=
  match data_type with
  | None => Err CASS_ERROR_LIB_BAD_PARAMS
  | Some l =>
      match h !! l with
      | Some (DUdt udt) => Ok (write_str_to_c (udt_name udt))
      | _ => Err CASS_ERROR_LIB_INVALID_VALUE_TYPE
      end
  end.

Definition cass_data_type_keyspace (data_type : option loc) (h : heap)
  : result CassError (char_ptr * nat) :=
  match data_type with
  | None => Err CASS_ERROR_LIB_BAD_PARAMS
  | Some l =>
      match h !! l with
      | Some (DUdt udt) => Ok (write_str_to_c (udt_name udt))
      | _ => Err CASS_ERROR_LIB_INVALID_VALUE_TYPE
      end
  end.

Definition cass_data_type_class_name (data_type : option loc) (h : heap)
  : result CassError (char_ptr * nat) :=
  match data_type with
  | None => Err CASS_ERROR_LIB_BAD_PARAMS
  | Some l =>
      match h !! l with
      | Some (DCustom name) => Ok (write_str_to_c name)
      | _ => Err CASS_ERROR_LIB_INVALID_VALUE_TYPE
      end
  end.

Definition cass_data_type_set_type_name_n (data_type : option loc) (type_name : char_ptr)
    (type_name_length : nat) (h : heap) : heap * CassError :=
  match data_type with
  | None => (h, CASS_ERROR_LIB_BAD_PARAMS)
  | Some l =>
      match to_str type_name type_name_length with
      | Err _ => (h, CASS_ERROR_LIB_BAD_PARAMS)
      | Ok s =>
          match h !! l with
          | Some (DUdt u) =>
              (<[l := DUdt (mkUdt (field_types u) (udt_keyspace u) s (udt_frozen u))]> h, CASS_OK)
          | _ => (h, CASS_ERROR_LIB_INVALID_VALUE_TYPE)
          end
      end
  end.

Definition cass_data_type_set_keyspace_n (data_type : option loc) (keyspace : char_ptr)
    (keyspace_length : nat) (h : heap) : heap * CassError :=
  match data_type with
  | None => (h, CASS_ERROR_LIB_BAD_PARAMS)
  | Some l =>
      match to_str keyspace keyspace_length with
      | Err _ => (h, CASS_ERROR_LIB_BAD_PARAMS)
      | Ok s =>
          match h !! l with
          | Some (DUdt u) =>
              (<[l := DUdt (mkUdt (field_types u) s (udt_name u) (udt_frozen u))]> h, CASS_OK)
          | _ => (h, CASS_ERROR_LIB_INVALID_VALUE_TYPE)
          end
      end
  end.

Definition cass_data_type_set_class_name_n (data_type : option loc) (class_name : char_ptr)
    (class_name_length : nat) (h : heap) : heap * CassError :=
  match data_type with
  | None => (h, CASS_ERROR_LIB_BAD_PARAMS)
  | Some l =>
      match to_str class_name class_name_length with
      | Err _ => (h, CASS_ERROR_LIB_BAD_PARAMS)
      | Ok s =>
          match h !! l with
          | Some (DCustom _) => (<[l := DCustom s]> h, CASS_OK)
          | _ => (h, CASS_ERROR_LIB_INVALID_VALUE_TYPE)
          end
      end
  end.

(** The NUL-terminated variants forward to the length-delimited ones. *)
Definition forward_nul {A} (f : char_ptr -> nat -> A) (p : char_ptr) : A :=
  let '(p, n) := as_len_delimited p in f p n.

Definition cass_data_type_set_type_name (data_type : option loc) (p : char_ptr) (h : heap) :=
  forward_nul (fun p n => cass_data_type_set_type_name_n data_type p n h) p.
Definition cass_data_type_set_keyspace (data_type : option loc) (p : char_ptr) (h : heap) :=
  forward_nul (fun p n => cass_data_type_set_keyspace_n data_type p n h) p.
Definition cass_data_type_set_class_name (data_type : option loc) (p : char_ptr) (h : heap) :=
  forward_nul (fun p n => cass_data_type_set_class_name_n data_type p n h) p.

Definition cass_data_type_sub_type_count (data_type : option loc) (h : heap) : nat :=
  match data_type ≫= (h !!.) with None => 0 | Some i => sub_type_count i end.

Definition cass_data_type_sub_data_type (data_type : option loc) (index : nat) (h : heap)
  : option loc :=
  i ← data_type ≫= (h !!.); get_sub_data_type i index.

Definition cass_data_type_sub_data_type_by_name_n (data_type : option loc) (name : char_ptr)
    (name_length : nat) (h : heap) : option loc :=
  match to_str name name_length with
  | Err _ => None
  | Ok name_str =>
      match data_type ≫= (h !!.) with
      | Some (DUdt udt) => get_field_by_name udt name_str
      | _ => None
      end
  end.

Definition cass_data_type_sub_type_name (data_type : option loc) (index : nat) (h : heap)
  : result CassError (char_ptr * nat) :=
  match data_type with
  | None => Err CASS_ERROR_LIB_BAD_PARAMS
  | Some l =>
      match h !! l with
      | Some (DUdt udt) =>
          match field_types udt !! index with
          | None => Err CASS_ERROR_LIB_INDEX_OUT_OF_BOUNDS
          | Some (field_name, _) => Ok (write_str_to_c field_name)
          end
      | _ => Err CASS_ERROR_LIB_INVALID_VALUE_TYPE
      end
  end.

Definition cass_data_type_add_sub_type (data_type sub_data_type : option loc) (h : heap)
  : heap * CassError :=
  match data_type, sub_data_type with
  | Some l, Some sub =>
      match h !! l with
      | Some i =>
          match add_sub_data_type i sub with
          | Ok i => (<[l := i]> h, CASS_OK)
          | Err e => (h, e)
          end
      | None => (h, CASS_ERROR_LIB_BAD_PARAMS)
      end
  | _, _ => (h, CASS_ERROR_LIB_BAD_PARAMS)
  end.

Definition cass_data_type_add_sub_type_by_name_n (data_type : option loc) (name : char_ptr)
    (name_length : nat) (sub_data_type : option loc) (h : heap) : heap * CassError :=
  match data_type, sub_data_type with
  | Some l, Some sub =>
      match to_str name name_length with
      | Err _ => (h, CASS_ERROR_LIB_BAD_PARAMS)
      | Ok s =>
          match h !! l with
          | Some (DUdt u) =>
              (<[l := DUdt (mkUdt (field_types u ++ [(s, sub)]) (udt_keyspace u)
                              (udt_name u) (udt_frozen u))]> h, CASS_OK)
          | _ => (h, CASS_ERROR_LIB_INVALID_VALUE_TYPE)
          end
      end
  | _, _ => (h, CASS_ERROR_LIB_BAD_PARAMS)
  end.

Definition cass_data_type_add_sub_value_type (data_type : option loc)
    (sub_value_type : CassValueType) (h : heap) : heap * CassError :=
  let '(h, sub) := alloc h (DValue sub_value_type) in
  cass_data_type_add_sub_type data_type sub h.

Definition cass_data_type_add_sub_value_type_by_name_n (data_type : option loc)
    (name : char_ptr) (name_length : nat) (sub_value_type : CassValueType) (h : heap)
  : heap * CassError :=
  let '(h, sub) := alloc h (DValue sub_value_type) in
  cass_data_type_add_sub_type_by_name_n data_type name name_length sub h.

(** [make_batch_type]. *)
Inductive BatchType := Logged | Unlogged | Counter.

Definition make_batch_type (type_ : CassBatchType) : option BatchType :=
  match type_ with
  | CASS_BATCH_TYPE_LOGGED => Some Logged
  | CASS_BATCH_TYPE_UNLOGGED => Some Unlogged
  | CASS_BATCH_TYPE_COUNTER => Some Counter
  | CassBatchType_other _ => None
  end.

(** ** Specification vocabulary *)

(** The direct subtypes of a data type. *)
Definition subs {R} (i : CassDataTypeInner R) : list R :=
  match i with
  | DValue _ | DCustom _ => []
  | DUdt u => map snd (field_types u)
  | DList o _ | DSet o _ => option_list o
  | DMap Untyped _ => []
  | DMap (Key k) _ => [k]
  | DMap (KeyAndValue k v) _ => [k; v]
  | DTuple l => l
  | DVector t _ => [t]
  end.

Definition inner_fmap {R S} (f : R -> S) (i : CassDataTypeInner R) : CassDataTypeInner S :=
  match i with
  | DValue t => DValue t
  | DUdt u => DUdt (mkUdt (map (fun p => (p.1, f p.2)) (field_types u))
                      (udt_keyspace u) (udt_name u) (udt_frozen u))
  | DList o fr => DList (match o with Some x => Some (f x) | None => None end) fr
  | DSet o fr => DSet (match o with Some x => Some (f x) | None => None end) fr
  | DMap Untyped fr => DMap Untyped fr
  | DMap (Key k) fr => DMap (Key (f k)) fr
  | DMap (KeyAndValue k v) fr => DMap (KeyAndValue (f k) (f v)) fr
  | DTuple l => DTuple (map f l)
  | DVector t d => DVector (f t) d
  | DCustom s => DCustom s
  end.

Definition inner_forallb {R} (rec : R -> bool) (i : CassDataTypeInner R) : bool :=
  match i with
  | DValue _ | DCustom _ => true
  | DUdt u => forallb (fun f => rec f.2) (field_types u)
  | DList o _ | DSet o _ => match o with Some x => rec x | None => true end
  | DMap Untyped _ => true
  | DMap (Key k) _ => rec k
  | DMap (KeyAndValue k v) _ => rec k && rec v
  | DTuple l => forallb rec l
  | DVector t _ => rec t
  end.

(** [p] holds of every node of the tree. *)
Fixpoint tree_forallb (p : CassDataTypeInner dtree -> bool) (t : dtree) : bool :=
  match t with Node i => p i && inner_forallb (tree_forallb p) i end.

Definition custom_free : dtree -> bool :=
  tree_forallb (fun i => match i with DCustom _ => false | _ => true end).

(** Value types that name a composite type and so match any type of that kind. *)
Definition scalar_value (t : CassValueType) : bool :=
  match t with
  | CASS_VALUE_TYPE_LIST | CASS_VALUE_TYPE_SET | CASS_VALUE_TYPE_MAP
  | CASS_VALUE_TYPE_TUPLE | CASS_VALUE_TYPE_UDT | CASS_VALUE_TYPE_VECTOR
  | CASS_VALUE_TYPE_CUSTOM => false
  | _ => true
  end.

(** No UDT (compared up to appended fields) and no composite named as a value. *)
Definition plain : dtree -> bool :=
  tree_forallb (fun i => match i with DUdt _ => false | DValue t => scalar_value t | _ => true end).

(** The normal form: one name for the text type, no [frozen] flags. *)
Definition norm_value (t : CassValueType) : CassValueType :=
  match t with CASS_VALUE_TYPE_TEXT => CASS_VALUE_TYPE_VARCHAR | t => t end.

Definition norm_node {R} (i : CassDataTypeInner R) : CassDataTypeInner R :=
  match i with
  | DValue t => DValue (norm_value t)
  | DUdt u => DUdt (mkUdt (field_types u) (udt_keyspace u) (udt_name u) false)
  | DList o _ => DList o false
  | DSet o _ => DSet o false
  | DMap m _ => DMap m false
  | i => i
  end.

Fixpoint normalize (t : dtree) : dtree :=
  match t with Node i => Node (norm_node (inner_fmap normalize i)) end.

(** Two data types of the same shape whose subtypes are related. *)
Inductive inner_rel {R S} (Q : R -> S -> Prop) :
  CassDataTypeInner R -> CassDataTypeInner S -> Prop :=
| rel_value t : inner_rel Q (DValue t) (DValue t)
| rel_udt fs gs ks nm fr :
    Forall2 (fun p q => p.1 = q.1 /\ Q p.2 q.2) fs gs ->
    inner_rel Q (DUdt (mkUdt fs ks nm fr)) (DUdt (mkUdt gs ks nm fr))
| rel_list o p fr : option_Forall2 Q o p -> inner_rel Q (DList o fr) (DList p fr)
| rel_set o p fr : option_Forall2 Q o p -> inner_rel Q (DSet o fr) (DSet p fr)
| rel_map_untyped fr : inner_rel Q (DMap Untyped fr) (DMap Untyped fr)
| rel_map_key k k' fr : Q k k' -> inner_rel Q (DMap (Key k) fr) (DMap (Key k') fr)
| rel_map_kv k k' v v' fr :
    Q k k' -> Q v v' -> inner_rel Q (DMap (KeyAndValue k v) fr) (DMap (KeyAndValue k' v') fr)
| rel_tuple l k : Forall2 Q l k -> inner_rel Q (DTuple l) (DTuple k)
| rel_vector t t' d : Q t t' -> inner_rel Q (DVector t d) (DVector t' d)
| rel_custom s : inner_rel Q (DCustom s) (DCustom s).

(** Every subtype in the heap is allocated. *)
Definition closed (h : heap) : Prop :=
  forall l i, h !! l = Some i -> Forall (fun s => is_Some (h !! s)) (subs i).

(** No tuple or UDT of the column type is empty. *)
Fixpoint named_subtypes (c : ColumnType) : bool :=
  match c with
  | CNative _ | COther => true
  | CList t _ | CSet t _ | CVector t _ => named_subtypes t
  | CMap k v _ => named_subtypes k && named_subtypes v
  | CUdt fs _ _ _ => negb (bool_decide (fs = [])) && forallb (fun f => named_subtypes f.2) fs
  | CTuple l => negb (bool_decide (l = [])) && forallb named_subtypes l
  end.

(** The rules of compatibility.  A value type names the types it accepts. *)
Inductive names : CassValueType -> dtree -> Prop :=
| names_value t : names t (Node (DValue t))
| names_text : names CASS_VALUE_TYPE_TEXT (Node (DValue CASS_VALUE_TYPE_VARCHAR))
| names_varchar : names CASS_VALUE_TYPE_VARCHAR (Node (DValue CASS_VALUE_TYPE_TEXT))
| names_udt u : names CASS_VALUE_TYPE_UDT (Node (DUdt u))
| names_list o fr : names CASS_VALUE_TYPE_LIST (Node (DList o fr))
| names_set o fr : names CASS_VALUE_TYPE_SET (Node (DSet o fr))
| names_map m fr : names CASS_VALUE_TYPE_MAP (Node (DMap m fr))
| names_tuple l : names CASS_VALUE_TYPE_TUPLE (Node (DTuple l))
| names_vector t d : names CASS_VALUE_TYPE_VECTOR (Node (DVector t d))
| names_custom s : names CASS_VALUE_TYPE_CUSTOM (Node (DCustom s)).

(** An unset name of a keyspace or a UDT matches any. *)
Definition same_name (a b : string) : Prop := a = EmptyString \/ b = EmptyString \/ a = b.

(** Subtypes that are not given match any, a UDT may have more fields than the other, and
    [frozen] does not matter.  A custom type is compatible with nothing. *)
Inductive compatible : dtree -> dtree -> Prop :=
| compatible_value t b : names t b -> compatible (Node (DValue t)) b
| compatible_udt fs gs more more' ks ks' nm nm' fr fr' :
    same_name ks ks' -> same_name nm nm' ->
    Forall2 (fun f g => f.1 = g.1 /\ compatible f.2 g.2) fs gs -> more = [] \/ more' = [] ->
    compatible (Node (DUdt (mkUdt (fs ++ more) ks nm fr))) (Node (DUdt (mkUdt (gs ++ more') ks' nm' fr')))
| compatible_list_any o p fr fr' :
    o = None \/ p = None -> compatible (Node (DList o fr)) (Node (DList p fr'))
| compatible_list x y fr fr' :
    compatible x y -> compatible (Node (DList (Some x) fr)) (Node (DList (Some y) fr'))
| compatible_set_any o p fr fr' :
    o = None \/ p = None -> compatible (Node (DSet o fr)) (Node (DSet p fr'))
| compatible_set x y fr fr' :
    compatible x y -> compatible (Node (DSet (Some x) fr)) (Node (DSet (Some y) fr'))
| compatible_map_any m m' fr fr' :
    m = Untyped \/ m' = Untyped -> compatible (Node (DMap m fr)) (Node (DMap m' fr'))
| compatible_map_key k k' fr fr' :
    compatible k k' -> compatible (Node (DMap (Key k) fr)) (Node (DMap (Key k') fr'))
| compatible_map k k' v v' fr fr' :
    compatible k k' -> compatible v v' ->
    compatible (Node (DMap (KeyAndValue k v) fr)) (Node (DMap (KeyAndValue k' v') fr'))
| compatible_tuple_any l k : l = [] \/ k = [] -> compatible (Node (DTuple l)) (Node (DTuple k))
| compatible_tuple l k : Forall2 compatible l k -> compatible (Node (DTuple l)) (Node (DTuple k))
| compatible_vector x y d : compatible x y -> compatible (Node (DVector x d)) (Node (DVector y d)).

(** All subtypes are given, down to value types. *)
Inductive fully_typed : dtree -> Prop :=
| full_value t : fully_typed (Node (DValue t))
| full_list x fr : fully_typed x -> fully_typed (Node (DList (Some x) fr))
| full_set x fr : fully_typed x -> fully_typed (Node (DSet (Some x) fr))
| full_map k v fr : fully_typed k -> fully_typed v -> fully_typed (Node (DMap (KeyAndValue k v) fr))
| full_tuple l : l <> [] -> Forall fully_typed l -> fully_typed (Node (DTuple l))
| full_udt u : field_types u <> [] -> Forall (fun f => fully_typed f.2) (field_types u) -> fully_typed (Node (DUdt u))
| full_vector x d : fully_typed x -> fully_typed (Node (DVector x d)).

(** No data type is, through its subtypes, a part of itself. *)
Definition acyclic (h : heap) : Prop :=
  exists rank : loc -> nat, forall l i s, h !! l = Some i -> s ∈ subs i -> (rank s < rank l)%nat.

(** What the normal form theorem says of one pair of types. *)
Definition decides (a b : dtree) : Prop :=
  exists r, tree_typecheck a b = Ret r /\ (r = true <-> normalize a = normalize b).

Definition comparable (t : dtree) : Prop :=
  tree_fully_typed t = Ret true /\ plain t = true.

(** One call of the C API that allocates or changes data types; the pointers
    passed to it are null or point to data types. *)
Definition valid_ptr (h : heap) (p : option loc) : Prop :=
  match p with Some l => is_Some (h !! l) | None => True end.

Inductive api_step (h : heap) : heap -> Prop :=
| step_new t : api_step h (cass_data_type_new t h).1
| step_new_from_existing dt :
    valid_ptr h dt -> api_step h (cass_data_type_new_from_existing dt h).1
| step_new_tuple n : api_step h (cass_data_type_new_tuple n h).1
| step_new_udt n : api_step h (cass_data_type_new_udt n h).1
| step_new_vector fuel e d r :
    valid_ptr h e -> in_u 16 d -> cass_data_type_new_vector fuel e d h = Ret r -> api_step h r.1
| step_set_type_name dt p n : api_step h (cass_data_type_set_type_name_n dt p n h).1
| step_set_keyspace dt p n : api_step h (cass_data_type_set_keyspace_n dt p n h).1
| step_set_class_name dt p n : api_step h (cass_data_type_set_class_name_n dt p n h).1
| step_add_sub dt sub : valid_ptr h sub -> api_step h (cass_data_type_add_sub_type dt sub h).1
| step_add_sub_by_name dt p n sub :
    valid_ptr h sub -> api_step h (cass_data_type_add_sub_type_by_name_n dt p n sub h).1
| step_add_value dt t : api_step h (cass_data_type_add_sub_value_type dt t h).1
| step_add_value_by_name dt p n t :
    api_step h (cass_data_type_add_sub_value_type_by_name_n dt p n t h).1.

(** The heap invariant: subtypes are allocated, a vector has 1 to 65535
    dimensions. *)
Definition heap_ok (h : heap) : Prop :=
  closed h /\ (forall l t d, h !! l = Some (DVector t d) -> 0 < d < 65536).

(** ** Induction and traversal lemmas *)

(** Membership of a subtype in [subs] of a node with at most two of them. *)
Ltac mem := simpl; first [by left | by right; left | assumption].

(** Uses the induction hypothesis on a subtype and the facts on all subtypes. *)
Ltac on_sub IH Sa Sb := apply IH; [mem | apply Sa; mem | apply Sb; mem].

Lemma dtree_induction (P : dtree -> Prop) :
  (forall i, Forall P (subs i) -> P (Node i)) -> forall t, P t.
Proof.
  intros IH. fix rec 1. intros [i]. apply IH.
  destruct i as [t|[fs ks nm fr]|[x|] fr|[x|] fr|[|k|k v] fr|l|x d|s]; simpl;
    repeat constructor; try apply rec.
  - revert fs. fix recl 1. intros [|[s t] fs]; simpl; constructor; [apply rec|apply recl].
  - revert l. fix recl 1. intros [|t l]; constructor; [apply rec|apply recl].
Qed.

Lemma inner_forallb_Forall {R} (rec : R -> bool) i :
  inner_forallb rec i = true <-> Forall (fun x => rec x = true) (subs i).
Proof.
  destruct i as [t|[fs ks nm fr]|[x|] fr|[x|] fr|[|k|k v] fr|l|x d|s]; simpl;
    rewrite ?Forall_cons, ?Forall_nil, ?andb_true_iff; try naive_solver.
  - rewrite Forall_map, forallb_forall, Forall_forall.
    setoid_rewrite list_elem_of_In. done.
  - rewrite forallb_forall, Forall_forall. setoid_rewrite list_elem_of_In. done.
Qed.

Lemma tree_forallb_node p i :
  tree_forallb p (Node i) = true <->
  p i = true /\ Forall (fun x => tree_forallb p x = true) (subs i).
Proof. simpl. rewrite andb_true_iff, inner_forallb_Forall. done. Qed.

Lemma inner_mapM_rel {R S} (f : R -> option S) i j :
  inner_mapM f i = Some j -> inner_rel (fun x y => f x = Some y) i j.
Proof.
  destruct i as [t|[fs ks nm fr]|[x|] fr|[x|] fr|[|k|k v] fr|l|x d|s]; simpl; intros E;
    repeat match goal with
    | E : _ ≫= _ = Some _ |- _ => apply bind_Some in E as (? & ? & ?)
    | E : _ <$> _ = Some _ |- _ => apply fmap_Some in E as (? & ? & ?)
    | E : mapM _ _ = Some _ |- _ => apply mapM_Some in E
    end; simplify_eq; constructor; try constructor; try done.
  eapply Forall2_impl; [done|]. intros [s u] w E. simpl in E.
  apply fmap_Some in E as (z & ? & ->). done.
Qed.

Lemma zip_all_rel {A B A' B'} (f : A -> B -> outcome bool) (g : A' -> B' -> outcome bool)
    (Q : A -> A' -> Prop) (Q' : B -> B' -> Prop) l k l' k' :
  (forall x y x' y', Q x x' -> Q' y y' -> f x y = g x' y') ->
  Forall2 Q l l' -> Forall2 Q' k k' -> zip_all f l k = zip_all g l' k'.
Proof.
  intros Hfg Hl. revert k k'.
  induction Hl as [|x x' l l' Hx Hl IH]; intros k k' Hk; [done|].
  destruct Hk as [|y y' k k' Hy Hk]; [done|]. simpl.
  rewrite (Hfg x y x' y'), (IH k k'); done.
Qed.

Lemma all_outcome_rel {A A'} (f : A -> outcome bool) (g : A' -> outcome bool)
    (Q : A -> A' -> Prop) l l' :
  (forall x x', Q x x' -> f x = g x') -> Forall2 Q l l' -> all_outcome f l = all_outcome g l'.
Proof. intros Hfg Hl. induction Hl; simpl; [done|]. erewrite Hfg, IHHl; done. Qed.

(** The type check only depends on its subtypes through [rec]. *)
Lemma typecheck_body_rel {R S R' S'} (rec : R -> S -> outcome bool)
    (rec' : R' -> S' -> outcome bool) (Q : R -> R' -> Prop) (Q' : S -> S' -> Prop) a b a' b' :
  (forall x y x' y', Q x x' -> Q' y y' -> rec x y = rec' x' y') ->
  inner_rel Q a a' -> inner_rel Q' b b' -> typecheck_body rec a b = typecheck_body rec' a' b'.
Proof.
  intros Hrec Ha Hb.
  destruct Ha as [t|fs gs ks nm fr Hf|o p fr Ho|o p fr Ho|fr|k k' fr Hk|k k' v v' fr Hk Hv
                 |l l' Hl|t t' d Ht|s];
  destruct Hb as [t2|fs2 gs2 ks2 nm2 fr2 Hf2|o2 p2 fr2 Ho2|o2 p2 fr2 Ho2|fr2|k2 k2' fr2 Hk2
                 |k2 k2' v2 v2' fr2 Hk2 Hv2|l2 l2' Hl2|t2 t2' d2 Ht2|s2]; simpl; try done.
  - unfold udt_typecheck; simpl. repeat case_match; try done.
    eapply zip_all_rel; [|done|done]. intros [x1 x2] [y1 y2] [x1' x2'] [y1' y2']; simpl.
    intros [-> ?] [-> ?]. case_bool_decide; eauto.
  - destruct Ho, Ho2; simpl; eauto.
  - destruct Ho, Ho2; simpl; eauto.
  - eauto.
  - by rewrite (Hrec k k2 k' k2'), (Hrec v v2 v' v2').
  - unfold tuple_typecheck.
    destruct Hl as [|x x' l l' Hx Hl], Hl2 as [|y y' l2 l2' Hy Hl2]; try done.
    simpl length. rewrite (Forall2_length _ _ _ Hl), (Forall2_length _ _ _ Hl2).
    case_match; [|done]. eapply zip_all_rel; [|by constructor|by constructor]. done.
  - case_match; eauto.
Qed.

Lemma fully_typed_body_rel {R R'} (rec : R -> outcome bool) (rec' : R' -> outcome bool)
    (Q : R -> R' -> Prop) a a' :
  (forall x x', Q x x' -> rec x = rec' x') ->
  inner_rel Q a a' -> fully_typed_body rec a = fully_typed_body rec' a'.
Proof.
  intros Hrec Ha.
  destruct Ha as [t|fs gs ks nm fr Hf|o p fr Ho|o p fr Ho|fr|k k' fr Hk|k k' v v' fr Hk Hv
                 |l l' Hl|t t' d Ht|s]; simpl; eauto.
  - destruct Hf as [|x y fs gs [_ Hx] Hf]; [done|]. cbn [all_outcome].
    f_equal; [by apply Hrec|]. eapply all_outcome_rel; [|done]. naive_solver.
  - destruct Ho; simpl; eauto.
  - destruct Ho; simpl; eauto.
  - by rewrite (Hrec k k'), (Hrec v v').
  - destruct Hl; [done|]. cbn [all_outcome].
    f_equal; [by apply Hrec|]. by eapply all_outcome_rel.
Qed.

Lemma denote_inv n h l t :
  denote n h l = Some t ->
  exists m i j, n = S m /\ h !! l = Some i /\ t = Node j /\
    inner_rel (fun x y => denote m h x = Some y) i j.
Proof.
  destruct n as [|m]; simpl; [done|]. intros E.
  apply bind_Some in E as (i & Hi & E). apply fmap_Some in E as (j & Hj & ->).
  apply inner_mapM_rel in Hj. naive_solver.
Qed.

Lemma typecheck_equals_denote n h : forall l1 l2 i1 i2 t1 t2,
  h !! l1 = Some i1 -> h !! l2 = Some i2 ->
  denote n h l1 = Some t1 -> denote n h l2 = Some t2 ->
  typecheck_equals n h i1 i2 = tree_typecheck t1 t2.
Proof.
  induction n as [|n IH]; intros l1 l2 i1 i2 t1 t2 H1 H2 D1 D2; [done|].
  apply denote_inv in D1 as (m & i & j & [= <-] & ? & -> & R1).
  apply denote_inv in D2 as (m' & i' & j' & [= <-] & ? & -> & R2).
  simplify_eq. simpl. eapply typecheck_body_rel; [|exact R1|exact R2].
  intros x y x' y' Dx Dy. unfold deref.
  pose proof Dx as (? & ? & ? & _ & Ex & _)%denote_inv.
  pose proof Dy as (? & ? & ? & _ & Ey & _)%denote_inv.
  rewrite Ex, Ey. eapply IH; done.
Qed.

Lemma is_fully_typed_denote n h : forall l i t,
  h !! l = Some i -> denote n h l = Some t -> is_fully_typed n h i = tree_fully_typed t.
Proof.
  induction n as [|n IH]; intros l i t H D; [done|].
  apply denote_inv in D as (m & i' & j & [= <-] & ? & -> & R1). simplify_eq. simpl.
  eapply fully_typed_body_rel; [|exact R1]. intros x x' Dx. unfold deref.
  pose proof Dx as (? & ? & ? & _ & Ex & _)%denote_inv. rewrite Ex. eapply IH; done.
Qed.

(** ** Depth

    An acyclic heap is not deeper than it has cells. *)

Lemma inner_mapM_impl {R S} (f g : R -> option S) i j :
  (forall x y, f x = Some y -> g x = Some y) -> inner_mapM f i = Some j -> inner_mapM g i = Some j.
Proof.
  intros Hfg.
  assert (Hl : forall l k, mapM f l = Some k -> mapM g l = Some k).
  { intros l k. rewrite !mapM_Some. intros H. eapply Forall2_impl; [exact H|]. auto. }
  assert (Hf : forall fs gs, mapM (fun p : string * R => (fun y => (p.1, y)) <$> f p.2) fs = Some gs ->
    mapM (fun p => (fun y => (p.1, y)) <$> g p.2) fs = Some gs).
  { intros fs gs. rewrite !mapM_Some. intros H. eapply Forall2_impl; [exact H|].
    intros p q (y&Hy&->)%fmap_Some. by rewrite (Hfg _ _ Hy). }
  destruct i as [t|[fs ks nm fr]|[x|] fr|[x|] fr|[|k|k v] fr|l|x d|s]; simpl; try done; intros E;
    repeat match goal with
    | E : _ ≫= _ = Some _ |- _ => apply bind_Some in E as (? & ? & ?)
    | E : _ <$> _ = Some _ |- _ => apply fmap_Some in E as (? & ? & ?)
    end; simplify_eq;
    repeat match goal with
    | E : f _ = Some _ |- _ => rewrite (Hfg _ _ E); clear E
    | E : mapM f _ = Some _ |- _ => rewrite (Hl _ _ E); clear E
    | E : mapM _ _ = Some _ |- _ => rewrite (Hf _ _ E); clear E
    end; done.
Qed.

Lemma denote_mono n m h l t : denote n h l = Some t -> (n <= m)%nat -> denote m h l = Some t.
Proof.
  revert m l t. induction n as [|n IH]; intros [|m] l t; simpl; try done; [lia|].
  destruct (h !! l) as [i|]; [|done]. simpl. intros (j & Hj & ->)%fmap_Some Hm.
  rewrite (inner_mapM_impl (denote n h) (denote m h) i j); [done| |done]. intros x y Hx. apply IH; [done|lia].
Qed.

Lemma inner_mapM_total {R S} (f : R -> option S) i :
  Forall (fun x => is_Some (f x)) (subs i) -> is_Some (inner_mapM f i).
Proof.
  assert (Hl : forall l, Forall (fun x => is_Some (f x)) l -> is_Some (mapM f l)).
  { intros l. by rewrite mapM_is_Some. }
  destruct i as [t|[fs ks nm fr]|[x|] fr|[x|] fr|[|k|k v] fr|l|x d|s]; simpl;
    rewrite ?Forall_cons, ?Forall_nil; try (by eexists).
  - rewrite Forall_map. intros H.
    assert (Hm : is_Some (mapM (fun p : string * R => (fun y => (p.1, y)) <$> f p.2) fs)).
    { rewrite mapM_is_Some. eapply Forall_impl; [exact H|]. intros p [y Hy]. simpl in *. rewrite Hy. by eexists. }
    destruct Hm as [gs ->]. by eexists.
  - intros [[y ->] _]. by eexists.
  - intros [[y ->] _]. by eexists.
  - intros [[y ->] _]. by eexists.
  - intros ([y ->] & [z ->] & _). by eexists.
  - intros H%Hl. destruct H as [k ->]. by eexists.
  - intros [[y ->] _]. by eexists.
Qed.

Definition edge (h : heap) (l s : loc) : Prop := exists i, h !! l = Some i /\ s ∈ subs i.

Lemma denote_reachable (h : heap) (rank : loc -> nat) :
  closed h -> (forall l i s, h !! l = Some i -> s ∈ subs i -> (rank s < rank l)%nat) ->
  forall (X : gset loc) l, is_Some (h !! l) -> (forall x, rtc (edge h) l x -> x ∈ X) ->
    is_Some (denote (size X) h l).
Proof.
  intros Hc Hr X. induction (set_wf X) as [X _ IH]. intros l [i Hi] HX.
  assert (Hrank : forall x y, rtc (edge h) x y -> (rank y <= rank x)%nat).
  { induction 1 as [|x y z (j & Hj & Hs) _ IHr]; [lia|]. specialize (Hr _ _ _ Hj Hs). lia. }
  assert (Hl : l ∈ X) by (apply HX; constructor).
  rewrite (union_difference_L {[l]} X), size_union, size_singleton by set_solver. simpl. rewrite Hi. simpl.
  destruct (inner_mapM_total (denote (size (X ∖ {[l]})) h) i) as [j ->]; [|by eexists].
  apply Forall_forall. intros s Hs. apply IH; [set_solver| |].
  - specialize (Hc _ _ Hi). rewrite Forall_forall in Hc. by apply Hc.
  - intros x Hx. apply elem_of_difference. split; [apply HX; eapply rtc_l; [by exists i|done]|].
    rewrite elem_of_singleton. intros ->. pose proof (Hr _ _ _ Hi Hs). specialize (Hrank _ _ Hx). lia.
Qed.

Lemma denote_total h l :
  closed h -> acyclic h -> is_Some (h !! l) -> is_Some (denote (size h) h l).
Proof.
  intros Hc [rank Hr] Hl. rewrite <- size_dom. apply (denote_reachable h rank Hc Hr); [done|].
  intros x [<-|(y & _ & j & Hj & Hsub)]%rtc_inv_r; [by apply elem_of_dom|]. specialize (Hc _ _ Hj). rewrite Forall_forall in Hc.
  by apply elem_of_dom, Hc.
Qed.

(** ** Lemmas on the type check of trees *)

Lemma value_types_equal_norm t1 t2 :
  value_types_equal t1 t2 = bool_decide (norm_value t1 = norm_value t2).
Proof. destruct t1, t2; reflexivity. Qed.

Lemma value_names t b : value_types_equal t (get_value_type (match b with Node i => i end)) = true <-> names t b.
Proof.
  split.
  - destruct b as [i]. intros H.
    assert (Hc : t = get_value_type i \/ (t = CASS_VALUE_TYPE_TEXT /\ get_value_type i = CASS_VALUE_TYPE_VARCHAR) \/
      (t = CASS_VALUE_TYPE_VARCHAR /\ get_value_type i = CASS_VALUE_TYPE_TEXT)).
    { rewrite value_types_equal_norm, bool_decide_eq_true in H. destruct t, (get_value_type i); simpl in H; simplify_eq; auto. }
    destruct i; simpl in Hc; destruct_or? Hc; destruct_and? Hc; subst; try done; constructor.
  - rewrite value_types_equal_norm, bool_decide_eq_true. by destruct 1.
Qed.

Lemma same_name_spec a b : any_string_empty_or_both_equal a b = true <-> same_name a b.
Proof.
  unfold any_string_empty_or_both_equal, same_name. rewrite !orb_true_iff, !bool_decide_eq_true. tauto.
Qed.

(** The common length of two lists. *)
Lemma zip_all_common {A B} (f : A -> B -> outcome bool) (l : list A) (k : list B) :
  zip_all f l k = Ret true <->
  exists l1 more k1 more', l = l1 ++ more /\ k = k1 ++ more' /\
    Forall2 (fun x y => f x y = Ret true) l1 k1 /\ (more = [] \/ more' = []).
Proof.
  revert k. induction l as [|x l IH]; intros k.
  { split; [intros _; exists [], [], [], k; auto|done]. }
  destruct k as [|y k].
  { split; [intros _; exists [], (x :: l), [], []; auto|done]. }
  simpl. rewrite and_then_true, IH. split.
  - intros (Hx & l1 & more & k1 & more' & -> & -> & H & Hm).
    exists (x :: l1), more, (y :: k1), more'. split_and!; try done. by constructor.
  - intros ([|x' l1] & more & k1 & more' & El & Ek & H & Hm).
    + inversion H; subst. simpl in *. subst. destruct Hm; done.
    + inversion H as [|? y' ? k1' Hxy Hrest]; subst. simplify_eq/=. split; [done|].
      exists l1, more, k1', more'. auto.
Qed.

Lemma zip_all_equal {A B} (f : A -> B -> outcome bool) (l : list A) (k : list B) :
  length l = length k -> zip_all f l k = Ret true <-> Forall2 (fun x y => f x y = Ret true) l k.
Proof.
  revert k. induction l as [|x l IH]; intros [|y k] Hlen; simpl in *; try done.
  rewrite and_then_true, Forall2_cons, IH by lia. done.
Qed.

(** Under a type check of the parts that is right for the parts of the left type. *)
Lemma Forall2_compatible {A B} (f : A -> B -> outcome bool) (Q : A -> B -> Prop) (l l0 : list A) k :
  Forall (fun x => forall y, f x y = Ret true <-> Q x y) l0 -> l ⊆ l0 ->
  Forall2 (fun x y => f x y = Ret true) l k <-> Forall2 Q l k.
Proof.
  intros H Hl. rewrite Forall_forall in H.
  split; intros Hlk; (induction Hlk as [|x y l k Hxy _ IH]; constructor; [apply H; [set_solver|done]|apply IH; set_solver]).
Qed.

Lemma udt_compatible fs gs ks ks' nm nm' fr fr' :
  Forall (fun a => forall b, tree_typecheck a b = Ret true <-> compatible a b) (map snd fs) ->
  udt_typecheck tree_typecheck (mkUdt fs ks nm fr) (mkUdt gs ks' nm' fr') = Ret true <->
  compatible (Node (DUdt (mkUdt fs ks nm fr))) (Node (DUdt (mkUdt gs ks' nm' fr'))).
Proof.
  rewrite Forall_map. intros IH. unfold udt_typecheck. simpl.
  assert (Hf : Forall (fun f : string * dtree => forall g,
    (if bool_decide (f.1 = g.1) then tree_typecheck f.2 g.2 else Ret false) = Ret true <->
    f.1 = g.1 /\ compatible f.2 g.2) fs).
  { eapply Forall_impl; [exact IH|]. intros f Hf g. specialize (Hf g.2). simpl in Hf.
    case_bool_decide; [tauto|]. split; [done|tauto]. }
  pose proof (same_name_spec ks ks') as Hks. pose proof (same_name_spec nm nm') as Hnm.
  destruct (any_string_empty_or_both_equal ks ks'); simpl; [|split; [done|]; inversion_clear 1; discriminate (proj2 Hks ltac:(assumption))].
  destruct (any_string_empty_or_both_equal nm nm'); simpl; [|split; [done|]; inversion_clear 1; discriminate (proj2 Hnm ltac:(assumption))].
  rewrite zip_all_common. split.
  - intros (l1 & more & k1 & more' & -> & -> & H & Hm). constructor; [by apply Hks|by apply Hnm| |done].
    eapply Forall2_compatible; [exact Hf| |exact H]. set_solver.
  - inversion 1 as [|fs0 gs0 more more'| | | | | | | | | |]; subst. exists fs0, more, gs0, more'. split_and!; try done.
    rewrite (Forall2_compatible _ _ _ _ _ Hf); [done|]. intros f Hin. apply elem_of_app. by left.
Qed.

Lemma tuple_compatible l k :
  Forall (fun a => forall b, tree_typecheck a b = Ret true <-> compatible a b) l ->
  tuple_typecheck tree_typecheck l k = Ret true <-> compatible (Node (DTuple l)) (Node (DTuple k)).
Proof.
  intros IH. unfold tuple_typecheck. destruct l as [|x l]; [split; [intros _; constructor; auto|done]|].
  destruct k as [|y k]; [split; [intros _; constructor; auto|done]|].
  destruct (Nat.eqb_spec (length (x :: l)) (length (y :: k))) as [E|E].
  - rewrite zip_all_equal by done. rewrite (Forall2_compatible _ compatible _ (x :: l)) by done.
    split; [by constructor|]. by inversion 1; destruct_or?.
  - split; [done|]. inversion 1 as [| | | | | | | | |? ? [|]|? ? Hl|]; try done. by apply Forall2_length in Hl.
Qed.

Lemma typecheck_compatible a b : tree_typecheck a b = Ret true <-> compatible a b.
Proof.
  revert b. induction a as [i IH] using dtree_induction; intros [j]. pose proof IH as IHf. rewrite Forall_forall in IH.
  destruct i as [t|[fs ks nm fr]|[x|] fr|[x|] fr|[|k|k v] fr|l|x d|s].
  { simpl. pose proof (value_names t (Node j)) as Hn. simpl in Hn. split.
    - intros [= H]. constructor. by apply Hn.
    - inversion_clear 1. f_equal. by apply Hn. }
  all: destruct j as [t'|[gs ks' nm' fr']|[x'|] fr'|[x'|] fr'|[|k'|k' v'] fr'|l'|x' d'|s']; simpl;
    try (split; [done|by inversion 1]);
    try (split; [intros _; constructor; auto; fail|done]).
  all: try (rewrite IH by mem; split; [by constructor|by inversion 1; destruct_or?]).
  - by apply udt_compatible.
  - split; [done|]. inversion 1; by destruct_or?.
  - split; [done|]. inversion 1; by destruct_or?.
  - rewrite and_then_true, !IH by mem. split; [by intros []; constructor|by inversion 1; destruct_or?].
  - by apply tuple_compatible.
  - destruct (Z.eqb_spec d d') as [->|Hd]; [|split; [done|by inversion 1]].
    rewrite IH by mem. split; [by constructor|by inversion 1].
Qed.

Lemma all_outcome_total {A} (f : A -> outcome bool) l :
  Forall (fun x => exists r, f x = Ret r) l -> exists r, all_outcome f l = Ret r.
Proof.
  induction 1 as [|x l [r Hx] _ [r' IH]]; simpl; [by eexists|]. rewrite Hx, IH. unfold and_then. simpl. destruct r; eauto.
Qed.

Lemma fully_typed_total a : exists r, tree_fully_typed a = Ret r.
Proof.
  induction a as [i IH] using dtree_induction.
  destruct i as [t|[fs ks nm fr]|[x|] fr|[x|] fr|[|k|k v] fr|l|x d|s]; simpl in *; rewrite ?Forall_cons in IH;
    try (by eexists); try (by apply IH).
  - rewrite Forall_map in IH. destruct fs as [|f fs]; [by eexists|]. exact (all_outcome_total (fun f : string * dtree => tree_fully_typed f.2) (f :: fs) IH).
  - destruct IH as ([r Hk] & [r' Hv] & _). rewrite Hk, Hv. unfold and_then. simpl. destruct r; eauto.
  - destruct l as [|x l]; [by eexists|]. exact (all_outcome_total tree_fully_typed (x :: l) IH).
Qed.

Lemma Forall_iff {A} (P Q : A -> Prop) l : Forall (fun x => P x <-> Q x) l -> Forall P l <-> Forall Q l.
Proof. intros H. split; induction H; intros Hl; inversion Hl; constructor; naive_solver. Qed.

Lemma fully_typed_spec a : tree_fully_typed a = Ret true <-> fully_typed a.
Proof.
  induction a as [i IH] using dtree_induction.
  destruct i as [t|[fs ks nm fr]|[x|] fr|[x|] fr|[|k|k v] fr|l|x d|s]; simpl; simpl in IH;
    try (split; [done|by inversion 1]); try (split; [by constructor|done]).
  - rewrite Forall_map in IH. destruct fs as [|f fs]; [split; [done|by inversion 1]|].
    rewrite (all_outcome_true (fun f : string * dtree => tree_fully_typed f.2) (f :: fs)).
    rewrite (Forall_iff _ (fun f => fully_typed f.2)) by done. split; [by constructor|by inversion 1].
  - apply Forall_cons in IH as [-> _]. split; [by constructor|by inversion 1].
  - apply Forall_cons in IH as [-> _]. split; [by constructor|by inversion 1].
  - rewrite !Forall_cons in IH. destruct IH as (Hk & Hv & _). rewrite and_then_true, Hk, Hv.
    split; [by intros []; constructor|by inversion 1].
  - destruct l as [|x l]; [split; [done|by inversion 1]|].
    rewrite (all_outcome_true tree_fully_typed (x :: l)), (Forall_iff _ fully_typed) by done.
    split; [by constructor|by inversion 1].
  - apply Forall_cons in IH as [-> _]. split; [by constructor|by inversion 1].
Qed.
Lemma fully_typed_subs i :
  tree_fully_typed (Node i) = Ret true ->
  Forall (fun x => tree_fully_typed x = Ret true) (subs i).
Proof.
  destruct i as [t|[fs ks nm fr]|[x|] fr|[x|] fr|[|k|k v] fr|l|x d|s]; simpl;
    try (by repeat constructor).
  - destruct fs as [|f fs]; [done|]. simpl.
    intros [? Hf]%and_then_true. apply all_outcome_true in Hf.
    constructor; [done|]. by rewrite Forall_map.
  - intros [? ?]%and_then_true. by repeat constructor.
  - destruct l as [|x l]; [done|]. simpl.
    intros [? Hf]%and_then_true. apply all_outcome_true in Hf. by constructor.
Qed.

Lemma zip_all_decides {A B C} (f : A -> B -> outcome bool) (g : A -> C) (g' : B -> C) l k :
  length l = length k ->
  Forall (fun x => forall y, y ∈ k ->
    exists r, f x y = Ret r /\ (r = true <-> g x = g' y)) l ->
  exists r, zip_all f l k = Ret r /\ (r = true <-> map g l = map g' k).
Proof.
  revert k; induction l as [|x l IH]; intros [|y k] Hlen Hf; simpl in *; try done.
  { by exists true. }
  apply Forall_cons in Hf as [Hx Hf].
  destruct (Hx y) as (r & -> & Hr); [by left|].
  destruct (IH k) as (r' & -> & Hr'); [lia| |].
  { eapply Forall_impl; [done|]. simpl. intros z Hz w Hw. apply Hz. by right. }
  exists (r && r'). split; [by destruct r|]. rewrite andb_true_iff, Hr, Hr'.
  split; [intros [E1 E2]; congruence|intros [= E1 E2]; done].
Qed.


Lemma comparable_subs i : comparable (Node i) -> Forall comparable (subs i).
Proof.
  intros [Hf Hp]. apply fully_typed_subs in Hf. apply tree_forallb_node in Hp as [_ Hp].
  unfold comparable. rewrite Forall_and. done.
Qed.

Lemma decides_value t b : comparable (Node (DValue t)) -> comparable b -> decides (Node (DValue t)) b.
Proof.
  intros [_ Ht] [_ Hb]. apply tree_forallb_node in Ht as [Ht _].
  destruct b as [i]. apply tree_forallb_node in Hb as [Hb _].
  eexists; split; [reflexivity|]. rewrite value_types_equal_norm, bool_decide_eq_true.
  destruct i as [t'|u|o fr|o fr|[|k|k v] fr|l|x d|s]; simpl in *; try done;
    (split; [intros E; first [by rewrite E | by destruct t]|by intros [=]]).
Qed.

Lemma decides_false a b :
  tree_typecheck a b = Ret false -> normalize a <> normalize b -> decides a b.
Proof. intros E H. exists false. split; [done|]. by split. Qed.

Lemma decides_iff a b x y :
  tree_typecheck a b = tree_typecheck x y -> decides x y ->
  (normalize a = normalize b <-> normalize x = normalize y) -> decides a b.
Proof. intros E (r & Hr & H) Hn. exists r. rewrite E, Hn. done. Qed.

Lemma typecheck_decides a b : comparable a -> comparable b -> decides a b.
Proof.
  revert b. induction a as [i IH] using dtree_induction; intros [j] Ha Hb.
  pose proof (comparable_subs _ Ha) as Sa. pose proof (comparable_subs _ Hb) as Sb.
  rewrite Forall_forall in IH, Sa, Sb.
  destruct i as [t|u|[x|] fr|[x|] fr|[|k|k v] fr|l|x d|s]; [by apply decides_value|..];
    try (by destruct Ha).
  all: destruct j as [t'|u'|[x'|] fr'|[x'|] fr'|[|k'|k' v'] fr'|l'|x' d'|s'];
    try (by destruct Hb); try (by apply decides_false).
  - apply (decides_iff _ _ x x'); [reflexivity|on_sub IH Sa Sb|simpl; split; congruence].
  - apply (decides_iff _ _ x x'); [reflexivity|on_sub IH Sa Sb|simpl; split; congruence].
  - assert (decides k k') as (r & Hr & E) by (on_sub IH Sa Sb).
    assert (decides v v') as (r' & Hr' & E') by (on_sub IH Sa Sb).
    exists (r && r'). simpl. rewrite Hr, Hr'. split; [by destruct r|].
    rewrite andb_true_iff, E, E'. split; [intros [E1 E2]; congruence|intros [= E1 E2]; done].
  - destruct l as [|x l]; [by destruct Ha|]. destruct l' as [|x' l']; [by destruct Hb|].
    unfold decides. cbn [tree_typecheck typecheck_body tuple_typecheck].
    destruct (Nat.eqb_spec (length (x :: l)) (length (x' :: l'))) as [E|E].
    + destruct (zip_all_decides tree_typecheck normalize normalize (x :: l) (x' :: l') E)
        as (r & Hr & Hn).
      { apply Forall_forall. intros y Hy z Hz. apply IH; [done|by apply Sa|by apply Sb]. }
      exists r. split; [done|]. rewrite Hn. simpl. split; congruence.
    + exists false. split; [done|]. split; [done|]. simpl. intros [= E1 E2].
      apply (f_equal length) in E2. rewrite !length_map in E2. simpl in E. lia.
  - assert (decides x x') as (r & Hr & E) by (on_sub IH Sa Sb).
    unfold decides. simpl. destruct (Z.eqb_spec d d') as [->|Hd].
    + exists r. split; [done|]. rewrite E. split; congruence.
    + exists false. split; [done|]. split; congruence.
Qed.

Lemma any_string_refl s : any_string_empty_or_both_equal s s = true.
Proof. unfold any_string_empty_or_both_equal. rewrite (bool_decide_eq_true_2 (s = s)); [|done]. by rewrite orb_true_r. Qed.

Lemma zip_all_total {A B} (f : A -> B -> outcome bool) l k :
  Forall (fun x => forall y, exists r, f x y = Ret r) l -> exists r, zip_all f l k = Ret r.
Proof.
  intros Hl. revert k. induction Hl as [|x l Hx Hl IH]; intros [|y k]; simpl; eauto.
  destruct (Hx y) as (r & ->), (IH k) as (r' & ->). unfold and_then; simpl. destruct r; eauto.
Qed.

Lemma custom_free_subs i :
  custom_free (Node i) = true -> Forall (fun x => custom_free x = true) (subs i).
Proof. intros H. by apply tree_forallb_node in H as [_ H]. Qed.

Lemma typecheck_total a b : custom_free a = true -> exists r, tree_typecheck a b = Ret r.
Proof.
  revert b. induction a as [i IH] using dtree_induction; intros [j] Ha.
  pose proof (custom_free_subs _ Ha) as Sa. rewrite Forall_forall in IH, Sa.
  destruct i as [t|[fs ks nm fr]|[x|] fr|[x|] fr|[|k|k v] fr|l|x d|s]; simpl; try done; eauto;
    destruct j as [t'|u'|[x'|] fr'|[x'|] fr'|[|k'|k' v'] fr'|l'|x' d'|s']; simpl; eauto;
    try (apply IH; [mem|apply Sa; mem]).
  - unfold udt_typecheck; simpl. repeat case_match; eauto.
    apply zip_all_total, Forall_forall. intros [s x] Hx [s' y]; simpl.
    case_bool_decide; eauto. apply IH; simpl in *; [|apply Sa]; apply list_elem_of_fmap; by exists (s, x).
  - destruct (IH k) with k' as (r & ->); [mem|apply Sa; mem|].
    destruct (IH v) with v' as (r' & ->); [mem|apply Sa; mem|].
    unfold and_then; simpl. destruct r; eauto.
  - unfold tuple_typecheck. repeat case_match; eauto. apply zip_all_total, Forall_forall.
    intros x Hx y. subst. apply IH; [done|by apply Sa].
  - case_match; eauto. apply IH; [mem|apply Sa; mem].
Qed.

Lemma zip_all_prefix {A B} (f : A -> B -> outcome bool) l k :
  Forall2 (fun x y => f x y = Ret true) l (take (length l) k) \/
  Forall2 (fun x y => f x y = Ret true) (take (length k) l) k ->
  zip_all f l k = Ret true.
Proof.
  revert k. induction l as [|x l IH]; intros [|y k]; simpl; try done.
  rewrite !Forall2_cons, and_then_true. intros [[? ?]|[? ?]]; split; auto.
Qed.

Lemma zip_all_same {A} (f : A -> A -> outcome bool) l k :
  Forall (fun x => f x x = Ret true) l -> zip_all f l (l ++ k) = Ret true /\ zip_all f (l ++ k) l = Ret true.
Proof.
  induction 1 as [|x l Hx _ [IH1 IH2]]; simpl; [by destruct k|]. by rewrite Hx, IH1, IH2.
Qed.

Lemma typecheck_refl a : custom_free a = true -> tree_typecheck a a = Ret true.
Proof.
  induction a as [i IH] using dtree_induction; intros Ha.
  pose proof (custom_free_subs _ Ha) as Sa. rewrite Forall_forall in IH, Sa.
  destruct i as [t|[fs ks nm fr]|[x|] fr|[x|] fr|[|k|k v] fr|l|x d|s]; simpl; try done;
    try (apply IH; [mem|apply Sa; mem]).
  - by rewrite value_types_equal_norm, bool_decide_eq_true_2.
  - unfold udt_typecheck; simpl. rewrite !any_string_refl; simpl.
    edestruct (zip_all_same (fun f g : string * dtree =>
      if bool_decide (f.1 = g.1) then tree_typecheck f.2 g.2 else Ret false) fs []) as [E _];
      [|by rewrite app_nil_r in E].
    apply Forall_forall. intros p Hp. rewrite bool_decide_eq_true_2 by done.
    apply IH; [|apply Sa]; simpl; by apply list_elem_of_fmap_2.
  - rewrite (IH k), (IH v); try done; try mem; apply Sa; mem.
  - unfold tuple_typecheck. destruct l as [|x l]; [done|]. rewrite Nat.eqb_refl.
    edestruct (zip_all_same tree_typecheck (x :: l) []) as [E _]; [|by rewrite app_nil_r in E].
    apply Forall_forall. intros y Hy. apply IH; [done|by apply Sa].
  - rewrite Z.eqb_refl. apply IH; [mem|apply Sa; mem].
Qed.

(** Column types never contain a custom type. *)
Lemma ColumnType_induction (P : ColumnType -> Prop) :
  (forall n, P (CNative n)) -> (forall t fr, P t -> P (CList t fr)) ->
  (forall k v fr, P k -> P v -> P (CMap k v fr)) -> (forall t fr, P t -> P (CSet t fr)) ->
  (forall fs ks nm fr, Forall (fun f => P f.2) fs -> P (CUdt fs ks nm fr)) ->
  (forall l, Forall P l -> P (CTuple l)) -> (forall t d, P t -> P (CVector t d)) ->
  P COther -> forall c, P c.
Proof.
  intros Hn Hl Hm Hs Hu Ht Hv Ho. fix rec 1. intros [n|t fr|k v fr|t fr|fs ks nm fr|l|t d|].
  - apply Hn.
  - apply Hl, rec.
  - apply Hm; apply rec.
  - apply Hs, rec.
  - apply Hu. revert fs. fix recl 1. intros [|[s t] fs]; constructor; [apply rec|apply recl].
  - apply Ht. revert l. fix recl 1. intros [|t l]; constructor; [apply rec|apply recl].
  - apply Hv, rec.
  - apply Ho.
Qed.

Lemma column_custom_free c : custom_free (get_column_type c) = true.
Proof.
  induction c as [n|t fr IH|k v fr IHk IHv|t fr IH|fs ks nm fr IH|l IH|t d IH|]
    using ColumnType_induction; try done; apply tree_forallb_node; (split; [done|]); simpl;
    try (by repeat constructor).
  - rewrite Forall_map. apply Forall_map. exact IH.
  - apply Forall_map. exact IH.
Qed.


Lemma column_fully_typed c : tree_fully_typed (get_column_type c) = Ret (named_subtypes c).
Proof.
  induction c as [n|t fr IH|k v fr IHk IHv|t fr IH|fs ks nm fr IH|l IH|t d IH|]
    using ColumnType_induction; simpl; try done.
  - rewrite IHk, IHv. by destruct (named_subtypes k).
  - transitivity (match fs with [] => Ret false | _ => all_outcome
      (fun f => tree_fully_typed f.2) (map (fun f => (f.1, get_column_type f.2)) fs) end).
    { by destruct fs. }
    rewrite all_outcome_map. erewrite all_outcome_forallb; [|exact IH]. by destruct fs.
  - transitivity (match l with [] => Ret false | _ =>
      all_outcome tree_fully_typed (map get_column_type l) end).
    { by destruct l. }
    rewrite all_outcome_map, (all_outcome_forallb _ _ _ IH). by destruct l.
Qed.

(** ** Lemmas on the heap *)

Lemma closed_insert h l i :
  closed h -> Forall (fun s => s = l \/ is_Some (h !! s)) (subs i) -> closed (<[l := i]> h).
Proof.
  intros Hc Hi l' i' Hl'. 
  assert (mono : forall s, s = l \/ is_Some (h !! s) -> is_Some (<[l := i]> h !! s)).
  { intros s Hs. destruct (decide (l = s)) as [->|]; [by rewrite lookup_insert_eq|].
    rewrite lookup_insert_ne by done. by destruct Hs as [->|]. }
  destruct (decide (l = l')) as [->|Hne].
  - rewrite lookup_insert_eq in Hl'. injection Hl' as <-.
    eapply Forall_impl; [exact Hi|]. apply mono.
  - rewrite lookup_insert_ne in Hl' by done.
    eapply Forall_impl; [exact (Hc _ _ Hl')|]. intros s Hs. apply mono. by right.
Qed.

Lemma heap_ok_insert h l i :
  heap_ok h -> Forall (fun s => s = l \/ is_Some (h !! s)) (subs i) ->
  (forall t d, i = DVector t d -> 0 < d < 65536) -> heap_ok (<[l := i]> h).
Proof.
  intros [Hc Hd] Hs Hv. split; [by apply closed_insert|].
  intros l' t d. destruct (decide (l = l')) as [->|Hne].
  - rewrite lookup_insert_eq. intros [= ->]. by eapply Hv.
  - rewrite lookup_insert_ne by done. apply Hd.
Qed.

Lemma new_arced_fresh h i : h !! (new_arced h i).2 = None.
Proof. simpl. apply not_elem_of_dom, is_fresh. Qed.

(** Replacing the contents of a cell by contents with at most one more subtype. *)
Lemma heap_ok_update h l i j s :
  heap_ok h -> h !! l = Some i -> is_Some (h !! s) ->
  (forall x, x ∈ subs j -> x = s \/ x ∈ subs i) ->
  (forall t d, j = DVector t d -> i = DVector t d) -> heap_ok (<[l := j]> h).
Proof.
  intros Hok Hl Hs Hj Hv. apply heap_ok_insert; [done| |].
  - apply Forall_forall. intros x Hx. right. destruct (Hj x Hx) as [->|Hi]; [done|].
    destruct Hok as [Hc _]. specialize (Hc _ _ Hl). rewrite Forall_forall in Hc. by apply Hc.
  - intros t d E. destruct Hok as [_ Hd]. apply (Hd l t d). by rewrite Hl, (Hv t d E).
Qed.

Lemma add_sub_data_type_subs {R} (i j : CassDataTypeInner R) s :
  add_sub_data_type i s = Ok j ->
  subs j = subs i ++ [s] /\ get_value_type j = get_value_type i /\
  (forall t d, j <> DVector t d).
Proof.
  destruct i as [t|u|[x|] fr|[x|] fr|[|k|k v] fr|l|x d|c]; simpl; intros [= <-]; done.
Qed.

Lemma sub_type_count_subs {R} (i : CassDataTypeInner R) : sub_type_count i = length (subs i).
Proof.
  destruct i as [t|[fs ks nm fr]|[x|] fr|[x|] fr|[|k|k v] fr|l|x d|c]; simpl; try done.
  by rewrite length_map.
Qed.

Lemma get_sub_data_type_subs {R} (i : CassDataTypeInner R) n :
  get_sub_data_type i n = subs i !! n.
Proof.
  destruct i as [t|[fs ks nm fr]|[x|] fr|[x|] fr|[|k|k v] fr|l|x d|c]; simpl; try done.
  { change (map snd fs) with (snd <$> fs). by rewrite list_lookup_fmap. }
  all: by destruct n as [|[]].
Qed.

Lemma heap_ok_alloc h i :
  heap_ok h -> Forall (fun s => is_Some (h !! s)) (subs i) ->
  (forall t d, i = DVector t d -> 0 < d < 65536) -> heap_ok (alloc h i).1.
Proof.
  intros Hok Hs Hv. apply heap_ok_insert; [done| |done].
  eapply Forall_impl; [exact Hs|]. by right.
Qed.

Lemma heap_ok_new h t : heap_ok h -> heap_ok (cass_data_type_new t h).1.
Proof.
  intros Hok.
  assert (Ha : forall i, subs i = [] -> (forall t d, i <> DVector t d) ->
                 heap_ok (alloc h i).1).
  { intros i Hi Hn. apply heap_ok_alloc; [done|by rewrite Hi|]. intros t' d' E. by destruct (Hn t' d'). }
  destruct t; try (by apply Ha); try done; simpl; case_match; try done; by apply Ha.
Qed.

Lemma heap_ok_new_vector h fuel e d r :
  heap_ok h -> in_u 16 d -> cass_data_type_new_vector fuel e d h = Ret r -> heap_ok r.1.
Proof.
  intros Hok Hd. destruct e as [e|]; simpl; [|by intros [= <-]].
  unfold deref. destruct (h !! e) as [i|] eqn:Ee; [|done].
  destruct (is_fully_typed fuel h i) as [[]| |]; simpl; try done; [|by intros [= <-]].
  destruct (Z.eqb_spec d 0); intros [= <-]; [done|].
  apply heap_ok_alloc; [done|by repeat constructor|].
  intros t d' [= <- <-]. unfold in_u in Hd. lia.
Qed.

(** Renaming a UDT or a custom type keeps the subtypes. *)
Lemma heap_ok_rename h l i j :
  heap_ok h -> h !! l = Some i -> subs j = subs i -> (forall t d, j <> DVector t d) ->
  heap_ok (<[l := j]> h).
Proof.
  intros Hok Hl Hs Hv. apply heap_ok_insert; [done| |].
  - rewrite Hs. eapply Forall_impl; [exact (proj1 Hok _ _ Hl)|]. by right.
  - intros t d E. by destruct (Hv t d).
Qed.

Lemma heap_ok_add_sub h dt sub :
  heap_ok h -> valid_ptr h sub -> heap_ok (cass_data_type_add_sub_type dt sub h).1.
Proof.
  intros Hok Hs. unfold cass_data_type_add_sub_type.
  destruct dt as [l|], sub as [s|]; try done.
  destruct (h !! l) as [i|] eqn:El; [|done].
  destruct (add_sub_data_type i s) as [j|e] eqn:E; [|done]. simpl.
  apply add_sub_data_type_subs in E as (E & _ & Hv).
  apply (heap_ok_update h l i j s); try done.
  - intros x. rewrite E, elem_of_app, list_elem_of_singleton. tauto.
  - intros t d Ej. by destruct (Hv t d).
Qed.

Lemma heap_ok_add_sub_by_name h dt p n sub :
  heap_ok h -> valid_ptr h sub -> heap_ok (cass_data_type_add_sub_type_by_name_n dt p n sub h).1.
Proof.
  intros Hok Hs. unfold cass_data_type_add_sub_type_by_name_n.
  destruct dt as [l|], sub as [s|]; try done. destruct (to_str p n) as [str|]; [|done].
  destruct (h !! l) as [[|u| | | | | |]|] eqn:El; try done. simpl.
  eapply (heap_ok_update h l _ _ s); try done.
  intros x. simpl. rewrite map_app, elem_of_app. simpl. rewrite list_elem_of_singleton. tauto.
Qed.

Lemma heap_ok_step h h' : heap_ok h -> api_step h h' -> heap_ok h'.
Proof.
  intros Hok Hstep. destruct Hstep.
  - by apply heap_ok_new.
  - unfold cass_data_type_new_from_existing. destruct dt as [l|]; simpl in *; [|done].
    destruct (h !! l) as [i|] eqn:El; [|done]. simpl.
    apply heap_ok_alloc; [done|by apply (proj1 Hok _ _ El)|].
    intros t d ->. by apply (proj2 Hok _ _ _ El).
  - by apply heap_ok_alloc.
  - by apply heap_ok_alloc.
  - by eapply heap_ok_new_vector.
  - unfold cass_data_type_set_type_name_n. repeat case_match; try done. simpl. by eapply heap_ok_rename.
  - unfold cass_data_type_set_keyspace_n. repeat case_match; try done. simpl. by eapply heap_ok_rename.
  - unfold cass_data_type_set_class_name_n. repeat case_match; try done. simpl. by eapply heap_ok_rename.
  - by apply heap_ok_add_sub.
  - by apply heap_ok_add_sub_by_name.
  - apply heap_ok_add_sub; [by apply (heap_ok_alloc h (DValue t))|]. simpl. by rewrite lookup_insert_eq.
  - apply heap_ok_add_sub_by_name; [by apply (heap_ok_alloc h (DValue t))|]. simpl. by rewrite lookup_insert_eq.
Qed.

(** ** Properties *)

(** C14: on the heap of shared, mutable data types, where no type is a part of itself, the
    type check and the test for missing subtypes always return: as many levels of
    recursion as there are data types are enough.  A type is reported as fully typed
    exactly when all its subtypes are given, and, if the left type holds no custom type,
    the two types as equal exactly when the rules of [compatible] relate the trees they
    denote. *)
Theorem data_type_heap_refines_tree (fuel : nat) (h : heap) (l1 l2 : loc) (i1 i2 : CassDataTypeInner loc) :
  closed h -> acyclic h -> h !! l1 = Some i1 -> h !! l2 = Some i2 -> (size h <= fuel)%nat ->
  exists t1 t2, denote (size h) h l1 = Some t1 /\ denote (size h) h l2 = Some t2 /\
    (exists r, is_fully_typed fuel h i1 = Ret r /\ (r = true <-> fully_typed t1)) /\
    (custom_free t1 = true ->
     exists r, typecheck_equals fuel h i1 i2 = Ret r /\ (r = true <-> compatible t1 t2)).
Proof.
  intros Hc Ha H1 H2 Hf. destruct (denote_total h l1 Hc Ha) as [t1 D1]; [by eexists|].
  destruct (denote_total h l2 Hc Ha) as [t2 D2]; [by eexists|]. exists t1, t2.
  pose proof (denote_mono _ fuel _ _ _ D1 Hf) as D1'. pose proof (denote_mono _ fuel _ _ _ D2 Hf) as D2'.
  split_and!; [done..| |].
  - destruct (fully_typed_total t1) as [r Hr]. exists r. rewrite (is_fully_typed_denote _ _ _ _ _ H1 D1'), Hr.
    split; [done|]. rewrite <- fully_typed_spec, Hr. split; congruence.
  - intros Ht. destruct (typecheck_total t1 t2 Ht) as [r Hr]. exists r.
    rewrite (typecheck_equals_denote _ _ _ _ _ _ _ _ H1 H2 D1' D2'), Hr.
    split; [done|]. rewrite <- typecheck_compatible, Hr. split; congruence.
Qed.

Definition example_heap : heap :=
  <[1%positive := DList (Some 2%positive) false]>
  (<[2%positive := DTuple [3%positive; 3%positive]]>
  (<[3%positive := DValue CASS_VALUE_TYPE_TEXT]> ∅)).

Lemma example_heap_ok : closed example_heap /\ acyclic example_heap.
Proof.
  assert (H : map_Forall (fun l i => Forall (fun s => is_Some (example_heap !! s) /\ (l < s)%positive /\ (s < 4)%positive)
                                       (subs i)) example_heap).
  { apply (bool_decide_eq_true_1 _). vm_compute. reflexivity. }
  split.
  - intros l i Hi. eapply Forall_impl; [exact (H l i Hi)|]. by intros s [Hs _].
  - exists (fun l => 4 - Pos.to_nat l)%nat. intros l i s Hi Hs. specialize (H l i Hi). rewrite Forall_forall in H.
    destruct (H s Hs) as (_ & H1 & H2). lia.
Qed.

Lemma data_type_heap_refines_tree_witness :
  let i := DList (Some 2%positive) false in
  (exists t, denote 3 example_heap 1%positive = Some t /\ fully_typed t) /\
  exists r, typecheck_equals 3 example_heap i i = Ret r /\
    (r = true <-> exists t, denote 3 example_heap 1%positive = Some t /\ compatible t t).
Proof.
  destruct example_heap_ok as [Hc Ha].
  destruct (data_type_heap_refines_tree 3 example_heap 1%positive 1%positive (DList (Some 2%positive) false)
    (DList (Some 2%positive) false) Hc Ha) as (t1 & t2 & D1 & D2 & (r1 & Hr1 & Hf) & Ht); [reflexivity..|vm_compute; lia|].
  change (size example_heap) with 3%nat in D1, D2. rewrite D1 in D2. injection D2 as <-.
  split; [exists t1; split; [exact D1|]; apply Hf; by injection Hr1|].
  destruct Ht as (r & Hr & Hiff); [by vm_compute in D1; injection D1 as <-|].
  exists r. split; [exact Hr|]. rewrite Hiff. split; [eauto|]. intros (t & Ht' & Hct). congruence.
Defined.
(** On types that name all their subtypes, hold no UDT and name no composite
    type as a bare value, the type check returns, and it answers exactly
    whether the two types are the same up to TEXT/VARCHAR and [frozen]; so it
    is an equivalence relation there, with no wildcard left. *)
Theorem typecheck_normal_form (a b : dtree) :
  tree_fully_typed a = Ret true -> plain a = true ->
  tree_fully_typed b = Ret true -> plain b = true ->
  exists r, tree_typecheck a b = Ret r /\ (r = true <-> normalize a = normalize b).
Proof. intros. by apply typecheck_decides. Qed.

Lemma typecheck_normal_form_witness :
  exists r,
    tree_typecheck (Node (DList (Some (Node (DValue CASS_VALUE_TYPE_TEXT))) true))
      (Node (DList (Some (Node (DValue CASS_VALUE_TYPE_VARCHAR))) false)) = Ret r /\
    (r = true <-> normalize (Node (DList (Some (Node (DValue CASS_VALUE_TYPE_TEXT))) true))
                = normalize (Node (DList (Some (Node (DValue CASS_VALUE_TYPE_VARCHAR))) false))).
Proof. apply typecheck_normal_form; reflexivity. Defined.

(** The type check never panics when its left-hand type holds no custom
    type, whatever the other type is, and every such type is compatible with
    itself. *)
Theorem typecheck_custom_free (a b : dtree) :
  custom_free a = true ->
  (exists r, tree_typecheck a b = Ret r) /\ tree_typecheck a a = Ret true.
Proof. intros. split; [by apply typecheck_total|by apply typecheck_refl]. Qed.

Lemma typecheck_custom_free_witness :
  (exists r, tree_typecheck (Node (DValue CASS_VALUE_TYPE_INT)) (Node (DCustom EmptyString)) = Ret r)
  /\ tree_typecheck (Node (DValue CASS_VALUE_TYPE_INT)) (Node (DValue CASS_VALUE_TYPE_INT)) = Ret true.
Proof. apply typecheck_custom_free; reflexivity. Defined.

(** A UDT stays compatible, in both directions, with a later version of it
    that has more fields appended. *)
Theorem typecheck_udt_append (fields more : list (string * dtree)) (ks nm : string) (fr fr' : bool) :
  custom_free (Node (DUdt (mkUdt fields ks nm fr))) = true ->
  tree_typecheck (Node (DUdt (mkUdt fields ks nm fr)))
    (Node (DUdt (mkUdt (fields ++ more) ks nm fr'))) = Ret true /\
  tree_typecheck (Node (DUdt (mkUdt (fields ++ more) ks nm fr')))
    (Node (DUdt (mkUdt fields ks nm fr))) = Ret true.
Proof.
  intros Hc%custom_free_subs. simpl in Hc. rewrite Forall_map in Hc.
  simpl. unfold udt_typecheck; simpl. rewrite !any_string_refl; simpl.
  apply zip_all_same. eapply Forall_impl; [exact Hc|]. intros [s t] Ht. simpl in *.
  rewrite bool_decide_eq_true_2 by done. by apply typecheck_refl.
Qed.

Lemma typecheck_udt_append_witness :
  tree_typecheck (Node (DUdt (mkUdt [] EmptyString EmptyString false)))
    (Node (DUdt (mkUdt ([] ++ [("a"%string, Node (DValue CASS_VALUE_TYPE_INT))])
                  EmptyString EmptyString true))) = Ret true /\
  tree_typecheck (Node (DUdt (mkUdt ([] ++ [("a"%string, Node (DValue CASS_VALUE_TYPE_INT))])
                  EmptyString EmptyString true)))
    (Node (DUdt (mkUdt [] EmptyString EmptyString false))) = Ret true.
Proof. apply typecheck_udt_append; reflexivity. Defined.

(** The data type built from a column's metadata is compatible with itself,
    never makes the type check panic, and counts as fully typed exactly when
    the column has no empty tuple and no UDT without fields. *)
Theorem get_column_type_typecheck (c : ColumnType) (other : dtree) :
  tree_typecheck (get_column_type c) (get_column_type c) = Ret true /\
  (exists r, tree_typecheck (get_column_type c) other = Ret r) /\
  tree_fully_typed (get_column_type c) = Ret (named_subtypes c).
Proof.
  pose proof (column_custom_free c).
  split; [by apply typecheck_refl|]. split; [by apply typecheck_total|apply column_fully_typed].
Qed.

(** Converting a native type of the Rust driver to a CQL value type and back
    is the identity on every native type the driver knows; the way back
    followed by the way forth is the identity up to naming the text type. *)
Theorem native_type_roundtrip (n : NativeType) (v : CassValueType) :
  (n <> NOther -> NativeType_try_from (CassValueType_from n) = Some n) /\
  (NativeType_try_from v = Some n -> CassValueType_from n = norm_value v).
Proof. split; [by destruct n|destruct v; by intros [= <-]]. Qed.

(** Whatever sequence of calls builds and changes data types, every subtype
    they refer to is allocated and every vector type has between 1 and 65535
    dimensions. *)
Theorem data_type_heap_invariant (h : heap) : rtc api_step ∅ h -> heap_ok h.
Proof.
  intros Hr. assert (H0 : heap_ok ∅) by (split; by intros ? ?).
  induction Hr as [h|h h' h'' Hs _ IH]; [done|]. by apply IH, (heap_ok_step h).
Qed.

Lemma data_type_heap_invariant_witness :
  heap_ok (cass_data_type_new CASS_VALUE_TYPE_LIST ∅).1.
Proof. apply data_type_heap_invariant. eapply rtc_once, step_new. Defined.

(** [cass_data_type_add_sub_type] either fails and changes nothing, or adds
    exactly one subtype: the count grows by one, the new subtype is found at the
    old count, the earlier ones and every other data type are unchanged. *)
Theorem add_sub_type_spec (h : heap) (l s : loc) (i : CassDataTypeInner loc) :
  h !! l = Some i ->
  let '(h', e) := cass_data_type_add_sub_type (Some l) (Some s) h in
  (e <> CASS_OK /\ h' = h) \/
  (e = CASS_OK /\
   cass_data_type_sub_type_count (Some l) h' = S (cass_data_type_sub_type_count (Some l) h) /\
   cass_data_type_sub_data_type (Some l) (cass_data_type_sub_type_count (Some l) h) h' = Some s /\
   (forall k, (k < cass_data_type_sub_type_count (Some l) h)%nat ->
      cass_data_type_sub_data_type (Some l) k h' = cass_data_type_sub_data_type (Some l) k h) /\
   (forall l', l' <> l -> h' !! l' = h !! l')).
Proof.
  intros Hl. unfold cass_data_type_add_sub_type, cass_data_type_sub_type_count,
    cass_data_type_sub_data_type. rewrite Hl. simpl.
  destruct (add_sub_data_type i s) as [j|e] eqn:E.
  - right. apply add_sub_data_type_subs in E as (E & _ & _). rewrite lookup_insert_eq, Hl; simpl.
    rewrite !sub_type_count_subs. repeat setoid_rewrite get_sub_data_type_subs. rewrite E.
    split; [done|]. split; [rewrite length_app; simpl; lia|].
    split; [by rewrite list_lookup_middle|].
    split; [intros; by rewrite lookup_app_l|]. intros l' Hne. by rewrite lookup_insert_ne.
  - left. split; [|done]. by destruct i as [t|u|[x|] fr|[x|] fr|[|k|k v] fr|y|x d|c];
      simpl in E; simplify_eq.
Qed.

Lemma add_sub_type_spec_witness :
  let '(h', e) := cass_data_type_add_sub_type (Some 2%positive) (Some 1%positive) example_heap in
  (e <> CASS_OK /\ h' = example_heap) \/
  (e = CASS_OK /\
   cass_data_type_sub_type_count (Some 2%positive) h'
     = S (cass_data_type_sub_type_count (Some 2%positive) example_heap) /\
   cass_data_type_sub_data_type (Some 2%positive)
     (cass_data_type_sub_type_count (Some 2%positive) example_heap) h' = Some 1%positive /\
   (forall k, (k < cass_data_type_sub_type_count (Some 2%positive) example_heap)%nat ->
      cass_data_type_sub_data_type (Some 2%positive) k h'
      = cass_data_type_sub_data_type (Some 2%positive) k example_heap) /\
   (forall l', l' <> 2%positive -> h' !! l' = example_heap !! l')).
Proof. eapply (add_sub_type_spec example_heap 2%positive 1%positive); reflexivity. Defined.

(** The element type of a vector can still hold a wildcard although
    [cass_data_type_new_vector] only accepts fully typed ones: a list whose
    element was added as the bare value type LIST passes as fully typed, and
    the resulting vector type is compatible with vectors of lists of lists of
    [int] and of lists of lists of [text] alike. *)
Theorem vector_wildcard_element :
  let '(h, list) := cass_data_type_new CASS_VALUE_TYPE_LIST ∅ in
  let '(h, _) := cass_data_type_add_sub_value_type list CASS_VALUE_TYPE_LIST h in
  exists h' v t,
    cass_data_type_new_vector 2 list 3 h = Ret (h', Some v) /\
    denote 3 h' v = Some t /\
    (forall elem, tree_typecheck t
       (Node (DVector (Node (DList (Some (Node (DList (Some elem) false))) false)) 3)) = Ret true).
Proof.
  eexists _, _, _. split; [vm_compute; reflexivity|].
  split; [vm_compute; reflexivity|]. reflexivity.
Qed.

(** [cass_data_type_keyspace] hands back the name of a UDT, not its
    keyspace: after setting name and keyspace, both getters return the name. *)
Theorem keyspace_getter_returns_name (h : heap) (l : loc) (u : UdtDataType loc)
    (ks nm : string) :
  h !! l = Some (DUdt u) ->
  utf8_valid (as_bytes ks) = true -> utf8_valid (as_bytes nm) = true ->
  let h1 := (cass_data_type_set_keyspace_n (Some l) (Some ks) (String.length ks) h).1 in
  let h2 := (cass_data_type_set_type_name_n (Some l) (Some nm) (String.length nm) h1).1 in
  cass_data_type_type_name (Some l) h2 = Ok (write_str_to_c nm) /\
  cass_data_type_keyspace (Some l) h2 = Ok (write_str_to_c nm).
Proof.
  intros Hl Hk Hn. unfold cass_data_type_set_keyspace_n, to_str, from_utf8.
  rewrite substring_all, Hk, Hl. simpl.
  unfold cass_data_type_set_type_name_n, to_str, from_utf8.
  rewrite substring_all, Hn, lookup_insert_eq. simpl.
  unfold cass_data_type_type_name, cass_data_type_keyspace. by rewrite lookup_insert_eq.
Qed.

Definition udt_heap : heap := <[1%positive := DUdt UdtDataType_new]> ∅.

Lemma keyspace_getter_returns_name_witness :
  let h1 := (cass_data_type_set_keyspace_n (Some 1%positive) (Some "ks"%string) 2 udt_heap).1 in
  let h2 := (cass_data_type_set_type_name_n (Some 1%positive) (Some "addr"%string) 4 h1).1 in
  cass_data_type_type_name (Some 1%positive) h2 = Ok (write_str_to_c "addr"%string) /\
  cass_data_type_keyspace (Some 1%positive) h2 = Ok (write_str_to_c "addr"%string).
Proof.
  apply (keyspace_getter_returns_name udt_heap 1%positive UdtDataType_new "ks" "addr");
    reflexivity.
Defined.

(** A data type can be added to itself, and from then on asking whether it
    is fully typed, as building a vector type does, recurses without end. *)
Theorem self_subtype_diverges (h : heap) (l : loc) (fr : bool) :
  h !! l = Some (DList None fr) ->
  let '(h', e) := cass_data_type_add_sub_type (Some l) (Some l) h in
  e = CASS_OK /\
  (forall fuel d, cass_data_type_new_vector fuel (Some l) d h' = Diverge).
Proof.
  intros Hl. unfold cass_data_type_add_sub_type. rewrite Hl. simpl. split; [done|].
  intros fuel d. unfold deref. rewrite lookup_insert_eq.
  assert (E : is_fully_typed fuel (<[l := DList (Some l) fr]> h) (DList (Some l) fr) = Diverge).
  { induction fuel as [|fuel IH]; simpl; [done|]. unfold deref. by rewrite lookup_insert_eq. }
  by rewrite E.
Qed.

Lemma self_subtype_diverges_witness :
  let '(h', e) := cass_data_type_add_sub_type (Some 1%positive) (Some 1%positive)
    (<[1%positive := DList None false]> ∅) in
  e = CASS_OK /\ (forall fuel d, cass_data_type_new_vector fuel (Some 1%positive) d h' = Diverge).
Proof.
  apply (self_subtype_diverges (<[1%positive := DList None false]> ∅) 1%positive false).
  reflexivity.
Defined.
