(* ===== verification/Uuid.v ===== *)
(** * UUIDs (cql_types/uuid.rs)

    [CassUuid] is the pair of 64-bit words of the C API, a [Uuid] of the uuid
    crate its 128-bit value.  The generator's [last_timestamp] is an atomic shared
    by threads: [ThreadState] and [gen_step] interleave the clock sample, the
    atomic load and the compare-exchange or fetch-add of concurrent calls. *)

From Stdlib Require Import ZArith Lia Sorted.
From stdpp Require Import base list gmap relations.
From S2P Require Import Prelude.

Open Scope Z_scope.

Record CassUuid := mkCassUuid { time_and_version : Z; clock_seq_and_node : Z }.

Definition TIME_OFFSET_BETWEEN_UTC_AND_EPOCH : Z := 0x01B21DD213814000.
Definition MIN_CLOCK_SEQ_AND_NODE : Z := 0x8080808080808080.
Definition MAX_CLOCK_SEQ_AND_NODE : Z := 0x7f7f7f7f7f7f7f7f.

Definition to_milliseconds (timestamp : Z) : Z := timestamp / 10000.

Definition from_unix_timestamp (timestamp : Z) : Z :=
  wrap_u 64 (wrap_u 64 (timestamp * 10000) + TIME_OFFSET_BETWEEN_UTC_AND_EPOCH).

Definition set_version (timestamp version : Z) : Z :=
  Z.lor (Z.land timestamp 0x0FFFFFFFFFFFFFFF) (wrap_u 64 (Z.shiftl version 60)).

(** [clock_seq] is the random number the function draws. *)
Definition rand_clock_seq_and_node (clock_seq node : Z) : Z :=
  Z.lor (Z.lor (Z.lor 0 (wrap_u 64 (Z.shiftl (Z.land clock_seq 0x3FFF) 48)))
    0x8000000000000000) node.

Definition cass_uuid_version (uuid : CassUuid) : Z :=
  wrap_u 8 (Z.land (Z.shiftr (time_and_version uuid) 60) 0x0F).

Definition cass_uuid_timestamp (uuid : CassUuid) : Z :=
  let timestamp := Z.land (time_and_version uuid) 0x0FFFFFFFFFFFFFFF in
  to_milliseconds (wrap_u 64 (timestamp - TIME_OFFSET_BETWEEN_UTC_AND_EPOCH)).

Definition cass_uuid_min_from_time (timestamp : Z) : CassUuid :=
  mkCassUuid (set_version (from_unix_timestamp timestamp) 1) MIN_CLOCK_SEQ_AND_NODE.

Definition cass_uuid_max_from_time (timestamp : Z) : CassUuid :=
  mkCassUuid (set_version (from_unix_timestamp timestamp) 1) MAX_CLOCK_SEQ_AND_NODE.

(** ** Conversion to and from the 128-bit value *)

(** [u32::rotate_left(16)]. *)
Definition rotate_left16 (x : Z) : Z :=
  Z.lor (wrap_u 32 (Z.shiftl x 16)) (Z.shiftr x 16).

(** [From<CassUuid> for Uuid]. *)
Definition Uuid_from (uuid : CassUuid) : Z :=
  let time_and_version_msb := Z.land (time_and_version uuid) 0xFFFFFFFF in
  let time_and_version_lsb :=
    rotate_left16 (wrap_u 32 (Z.shiftr (Z.land (time_and_version uuid) 0xFFFFFFFF00000000) 32)) in
  let msb := Z.lor (wrap_u 64 (Z.shiftl time_and_version_msb 32)) time_and_version_lsb in
  let lsb := clock_seq_and_node uuid in
  Z.lor (wrap_u 128 (Z.shiftl msb 64)) lsb.

(** [From<Uuid> for CassUuid]. *)
Definition CassUuid_from (u128_representation : Z) : CassUuid :=
  let upper_u64 := wrap_u 64 (Z.shiftr u128_representation 64) in
  let lower_u64 := wrap_u 64 (Z.land u128_representation 0xFFFFFFFFFFFFFFFF) in
  let msb := rotate_left16 (wrap_u 32 (Z.land upper_u64 0xFFFFFFFF)) in
  let lsb := Z.shiftr (Z.land upper_u64 0xFFFFFFFF00000000) 32 in
  mkCassUuid (Z.lor (wrap_u 64 (Z.shiftl msb 32)) lsb) lower_u64.

Definition CassUuid_ok (u : CassUuid) : Prop :=
  in_u 64 (time_and_version u) /\ in_u 64 (clock_seq_and_node u).

(** ** Generators *)

Record CassUuidGen := mkCassUuidGen { gen_clock_seq_and_node : Z; last_timestamp : Z }.

(** [node_hash] is the hash of the machine id and the process id. *)
Definition cass_uuid_gen_new (node_hash clock_seq : Z) : CassUuidGen :=
  let node := Z.lor (Z.land node_hash 0x0000FFFFFFFFFFFF) 0x0000010000000000 in
  mkCassUuidGen (rand_clock_seq_and_node clock_seq node) 0.

Definition cass_uuid_gen_new_with_node (node clock_seq : Z) : CassUuidGen :=
  mkCassUuidGen (rand_clock_seq_and_node clock_seq (Z.land node 0x0000FFFFFFFFFFFF)) 0.

Definition cass_uuid_gen_random (time_and_version clock_seq_and_node : Z) : CassUuid :=
  mkCassUuid (set_version time_and_version 4)
    (Z.lor (Z.land clock_seq_and_node 0x3FFFFFFFFFFFFFFF) 0x8000000000000000).

Definition cass_uuid_gen_from_time (gen : CassUuidGen) (timestamp : Z) : CassUuid :=
  mkCassUuid (set_version (from_unix_timestamp timestamp) 1) (gen_clock_seq_and_node gen).

(** The rest of [try_monotonic_timestamp] once [last] has been loaded: every
    path performs one atomic operation on the current value [cur] and gives the
    new value and the result. *)
Definition try_commit (now last cur : Z) : Z * option Z :=
  if now >? last then
    if cur =? last then (now, Some now) else (cur, None)
  else
    let last_ms := to_milliseconds last in
    if to_milliseconds now <? last_ms then
      (wrap_u 64 (cur + 1), Some (wrap_u 64 (cur + 1)))
    else
      let candidate := wrap_u 64 (last + 1) in
      if to_milliseconds candidate =? last_ms then
        if cur =? last then (candidate, Some candidate) else (cur, None)
      else (cur, None).

(** [try_monotonic_timestamp] when no other thread intervenes. *)
Definition try_monotonic_timestamp (last_timestamp now : Z) : Z * option Z :=
  try_commit now last_timestamp last_timestamp.

(** The loop of [monotonic_timestamp] over the successive readings of the clock,
    in milliseconds since the epoch; [None] if none of them is enough. *)
Fixpoint monotonic_timestamp (last_timestamp : Z) (clock : list Z) : Z * option Z :=
  match clock with
  | [] => (last_timestamp, None)
  | ms :: clock =>
      match try_monotonic_timestamp last_timestamp (from_unix_timestamp ms) with
      | (last', Some timestamp) => (last', Some timestamp)
      | (last', None) => monotonic_timestamp last' clock
      end
  end.

Definition cass_uuid_gen_time (gen : CassUuidGen) (clock : list Z) : CassUuidGen * option CassUuid :=
  let '(last', ts) := monotonic_timestamp (last_timestamp gen) clock in
  (mkCassUuidGen (gen_clock_seq_and_node gen) last',
   (fun t => mkCassUuid (set_version t 1) (gen_clock_seq_and_node gen)) <$> ts).

(** ** Concurrent use of one generator *)

Inductive ThreadState :=
| TStart                       (* at the top of the loop *)
| TSampled (now : Z)           (* clock read *)
| TLoaded (now last : Z).      (* [last_timestamp] loaded *)

Record GenState := mkGenState {
  shared : Z;                  (* the atomic *)
  threads : nat -> ThreadState;
  returned : list Z            (* timestamps returned so far, latest first *)
}.

Definition set_thread (f : nat -> ThreadState) (t : nat) (s : ThreadState) (u : nat) : ThreadState :=
  if (u =? t)%nat then s else f u.

(** Any thread may read any clock value up to [bound]: the clock may go back. *)
Inductive gen_step (bound : Z) : GenState -> GenState -> Prop :=
| step_sample g t now :
    threads g t = TStart -> 0 <= now <= bound ->
    gen_step bound g (mkGenState (shared g) (set_thread (threads g) t (TSampled now)) (returned g))
| step_load g t now :
    threads g t = TSampled now ->
    gen_step bound g
      (mkGenState (shared g) (set_thread (threads g) t (TLoaded now (shared g))) (returned g))
| step_commit g t now last cur' ts :
    threads g t = TLoaded now last -> try_commit now last (shared g) = (cur', Some ts) ->
    gen_step bound g (mkGenState cur' (set_thread (threads g) t TStart) (ts :: returned g))
| step_retry g t now last cur' :
    threads g t = TLoaded now last -> try_commit now last (shared g) = (cur', None) ->
    gen_step bound g (mkGenState cur' (set_thread (threads g) t TStart) (returned g)).

Definition gen_init : GenState := mkGenState 0 (fun _ => TStart) [].


(** ** Arithmetic forms of the bit operations *)

Lemma land32 x : Z.land x 0xFFFFFFFF = x mod 2 ^ 32.
Proof. apply (Z.land_ones x 32). lia. Qed.
Lemma land14 x : Z.land x 0x3FFF = x mod 2 ^ 14.
Proof. apply (Z.land_ones x 14). lia. Qed.
Lemma land48 x : Z.land x 0x0000FFFFFFFFFFFF = x mod 2 ^ 48.
Proof. apply (Z.land_ones x 48). lia. Qed.
Lemma land62 x : Z.land x 0x3FFFFFFFFFFFFFFF = x mod 2 ^ 62.
Proof. apply (Z.land_ones x 62). lia. Qed.
Lemma land60 x : Z.land x 0x0FFFFFFFFFFFFFFF = x mod 2 ^ 60.
Proof. apply (Z.land_ones x 60). lia. Qed.
Lemma land64 x : Z.land x 0xFFFFFFFFFFFFFFFF = x mod 2 ^ 64.
Proof. apply (Z.land_ones x 64). lia. Qed.
Lemma land_high32 x : Z.land x 0xFFFFFFFF00000000 = (x / 2 ^ 32) mod 2 ^ 32 * 2 ^ 32.
Proof. apply (land_ones_shifted x 32 32); lia. Qed.

Lemma set_version_add t v :
  0 <= v < 16 -> set_version t v = t mod 2 ^ 60 + v * 2 ^ 60.
Proof.
  intros Hv. unfold set_version, wrap_u. rewrite land60, Z.shiftl_mul_pow2, (Z.mod_small (v * _)) by lia.
  apply lor_add_pow2'; [lia|]. apply Z.mod_pos_bound; lia.
Qed.

Lemma rotate_left16_add x : 0 <= x < 2 ^ 32 ->
  rotate_left16 x = x mod 2 ^ 16 * 2 ^ 16 + x / 2 ^ 16.
Proof.
  intros Hx. unfold rotate_left16, wrap_u.
  rewrite Z.shiftl_mul_pow2, Z.shiftr_div_pow2 by lia.
  replace (x * 2 ^ 16 mod 2 ^ 32) with (x mod 2 ^ 16 * 2 ^ 16) by dm_lia.
  apply lor_add_pow2; dm_lia.
Qed.

Lemma rotate_left16_range x : 0 <= x < 2 ^ 32 -> 0 <= rotate_left16 x < 2 ^ 32.
Proof. intros Hx. rewrite rotate_left16_add by done. dm_lia. Qed.

Lemma rotate_left16_twice x : 0 <= x < 2 ^ 32 -> rotate_left16 (rotate_left16 x) = x.
Proof.
  intros Hx. rewrite (rotate_left16_add (rotate_left16 x)) by (by apply rotate_left16_range).
  rewrite rotate_left16_add by done. dm_lia.
Qed.

Lemma Uuid_from_add u : CassUuid_ok u ->
  Uuid_from u =
  (time_and_version u mod 2 ^ 32 * 2 ^ 32 + rotate_left16 (time_and_version u / 2 ^ 32)) * 2 ^ 64
  + clock_seq_and_node u.
Proof.
  intros [Ht Hc]. unfold in_u in *. destruct u as [t c]; simpl in *. unfold Uuid_from, wrap_u; simpl.
  rewrite land32, land_high32, Z.shiftr_div_pow2, Z.div_mul by lia.
  replace ((t / 2 ^ 32) mod 2 ^ 32 mod 2 ^ 32) with (t / 2 ^ 32) by dm_lia.
  pose proof (rotate_left16_range (t / 2 ^ 32)) as Hr.
  pose proof (Z.mod_pos_bound t (2 ^ 32)) as Hm.
  rewrite !Z.shiftl_mul_pow2 by lia.
  rewrite (Z.mod_small (t mod 2 ^ 32 * 2 ^ 32)) by lia.
  rewrite lor_add_pow2 by (try apply Hr; dm_lia).
  assert (0 <= rotate_left16 (t / 2 ^ 32) < 2 ^ 32) by (apply Hr; dm_lia).
  rewrite Z.mod_small by lia. by apply lor_add_pow2.
Qed.

Lemma CassUuid_from_add x : in_u 128 x ->
  CassUuid_from x =
  mkCassUuid (rotate_left16 (x / 2 ^ 64 mod 2 ^ 32) * 2 ^ 32 + x / 2 ^ 96) (x mod 2 ^ 64).
Proof.
  unfold in_u; intros Hx. unfold CassUuid_from, wrap_u.
  rewrite land32, land64, land_high32, !Z.shiftr_div_pow2, Z.div_mul by lia.
  rewrite (Z.mod_small (x / 2 ^ 64)) by dm_lia. rewrite !Z.mod_mod by lia.
  replace (x / 2 ^ 64 / 2 ^ 32 mod 2 ^ 32) with (x / 2 ^ 96) by dm_lia.
  pose proof (rotate_left16_range (x / 2 ^ 64 mod 2 ^ 32)) as Hr.
  rewrite Z.shiftl_mul_pow2, Z.mod_small by (try lia; dm_lia).
  rewrite lor_add_pow2 by dm_lia. done.
Qed.

Lemma CassUuid_from_ok x : in_u 128 x -> CassUuid_ok (CassUuid_from x).
Proof.
  intros Hx. pose proof Hx as Hx'. unfold in_u in Hx'.
  pose proof (rotate_left16_range (x / 2 ^ 64 mod 2 ^ 32)) as Hr.
  assert (Hm : 0 <= x / 2 ^ 64 mod 2 ^ 32 < 2 ^ 32) by (apply Z.mod_pos_bound; lia).
  specialize (Hr Hm). rewrite (CassUuid_from_add x Hx). split; unfold in_u; simpl; dm_lia.
Qed.

Lemma Uuid_CassUuid x : in_u 128 x -> Uuid_from (CassUuid_from x) = x.
Proof.
  intros Hx. pose proof Hx as Hx'. unfold in_u in Hx'.
  pose proof (rotate_left16_range (x / 2 ^ 64 mod 2 ^ 32)) as Hr.
  assert (Hm : 0 <= x / 2 ^ 64 mod 2 ^ 32 < 2 ^ 32) by (apply Z.mod_pos_bound; lia).
  specialize (Hr Hm). pose proof (rotate_left16_twice _ Hm) as Ht.
  rewrite Uuid_from_add by (by apply CassUuid_from_ok). rewrite (CassUuid_from_add x Hx); simpl.
  replace ((rotate_left16 (x / 2 ^ 64 mod 2 ^ 32) * 2 ^ 32 + x / 2 ^ 96) / 2 ^ 32)
    with (rotate_left16 (x / 2 ^ 64 mod 2 ^ 32)) by dm_lia.
  rewrite Ht. dm_lia.
Qed.

Lemma Uuid_from_range u : CassUuid_ok u -> in_u 128 (Uuid_from u).
Proof.
  intros Hu. rewrite Uuid_from_add by done. destruct Hu as [Ht Hc]. unfold in_u in *.
  pose proof (rotate_left16_range (time_and_version u / 2 ^ 32)) as Hr.
  assert (0 <= time_and_version u / 2 ^ 32 < 2 ^ 32) by dm_lia. specialize (Hr ltac:(done)). dm_lia.
Qed.

Lemma CassUuid_Uuid u : CassUuid_ok u -> CassUuid_from (Uuid_from u) = u.
Proof.
  intros Hu. rewrite CassUuid_from_add by (by apply Uuid_from_range).
  rewrite Uuid_from_add by done. destruct u as [t c], Hu as [Ht Hc]; unfold in_u in *; simpl in *.
  assert (Ht' : 0 <= t / 2 ^ 32 < 2 ^ 32) by dm_lia.
  pose proof (rotate_left16_range _ Ht') as Hr. pose proof (rotate_left16_twice _ Ht') as Hrr.
  set (r := rotate_left16 (t / 2 ^ 32)) in *.
  replace (((t mod 2 ^ 32 * 2 ^ 32 + r) * 2 ^ 64 + c) / 2 ^ 64 mod 2 ^ 32) with r by dm_lia.
  rewrite Hrr. f_equal; dm_lia.
Qed.

(** ** Lemmas on timestamps *)

Lemma from_unix_timestamp_small ms :
  0 <= ms -> ms * 10000 + TIME_OFFSET_BETWEEN_UTC_AND_EPOCH < 2 ^ 64 ->
  from_unix_timestamp ms = ms * 10000 + TIME_OFFSET_BETWEEN_UTC_AND_EPOCH.
Proof.
  unfold from_unix_timestamp, wrap_u, TIME_OFFSET_BETWEEN_UTC_AND_EPOCH. intros ? ?.
  rewrite (Z.mod_small (ms * 10000)) by lia. apply Z.mod_small; lia.
Qed.

Lemma try_commit_spec now last cur :
  0 <= now -> 0 <= last -> 0 <= cur -> cur + 1 < 2 ^ 64 ->
  let '(cur', r) := try_commit now last cur in
  (r = None /\ cur' = cur) \/
  (r = Some cur' /\ cur < cur' /\ (cur' = now \/ cur' = cur + 1)).
Proof.
  intros Hn Hl Hc Hb. unfold try_commit.
  destruct (Z.gtb_spec now last) as [Hgt|Hle].
  - destruct (Z.eqb_spec cur last); [right; split; [done|lia]|by left].
  - destruct (Z.ltb_spec (to_milliseconds now) (to_milliseconds last)).
    + right. unfold wrap_u. rewrite Z.mod_small by lia. split; [done|lia].
    + destruct (Z.eqb_spec (to_milliseconds (wrap_u 64 (last + 1))) (to_milliseconds last)); [|by left].
      destruct (Z.eqb_spec cur last) as [->|]; [|by left].
      right. unfold wrap_u. rewrite Z.mod_small by lia. split; [done|lia].
Qed.

Lemma try_commit_None now last cur cur' : try_commit now last cur = (cur', None) -> cur' = cur.
Proof. unfold try_commit. intros E. repeat case_match; by simplify_eq. Qed.

Definition thread_ok (bound : Z) (s : ThreadState) : Prop :=
  match s with
  | TStart => True
  | TSampled now => 0 <= now <= bound
  | TLoaded now last => 0 <= now <= bound /\ 0 <= last
  end.

(** The atomic is at least every timestamp returned so far, these decrease from
    the latest to the earliest, and each return moved the atomic beyond the
    clock by at most one tick. *)
Definition gen_inv (bound : Z) (g : GenState) : Prop :=
  (forall t, thread_ok bound (threads g t)) /\
  0 <= shared g <= bound + Z.of_nat (length (returned g)) /\
  StronglySorted Z.gt (returned g) /\
  Forall (fun ts => 0 < ts <= shared g) (returned g).

Lemma set_thread_ok bound f t s :
  (forall u, thread_ok bound (f u)) -> thread_ok bound s ->
  forall u, thread_ok bound (set_thread f t s u).
Proof. intros Hf Hs u. unfold set_thread. by destruct (u =? t)%nat. Qed.

Lemma gen_inv_step bound g g' :
  gen_step bound g g' ->
  (bound + Z.of_nat (length (returned g)) < 2 ^ 64 -> gen_inv bound g) ->
  bound + Z.of_nat (length (returned g')) < 2 ^ 64 -> gen_inv bound g'.
Proof.
  intros Hs IH Hb. assert (Hg : gen_inv bound g).
  { apply IH. destruct Hs; simpl in *; lia. }
  destruct Hg as (Ht & Hsh & Hsort & Hall).
  destruct Hs as [g t now E Hn|g t now E|g t now last cur' ts E Ec|g t now last cur' E Ec];
    unfold gen_inv; simpl in *; pose proof (Ht t) as Hto; rewrite E in Hto; simpl in Hto.
  - split; [by apply set_thread_ok|done].
  - split; [apply set_thread_ok; simpl; [done|lia]|done].
  - pose proof (try_commit_spec now last (shared g)) as Hc. rewrite Ec in Hc.
    destruct Hc as [[? _]|([= ->] & Hlt & Hv)]; try lia; [done|].
    split; [by apply set_thread_ok|]. split; [lia|]. split; constructor; try done; try lia.
    + eapply Forall_impl; [exact Hall|]. simpl. lia.
    + eapply Forall_impl; [exact Hall|]. simpl. lia.
  - apply try_commit_None in Ec as ->. split; [by apply set_thread_ok|done].
Qed.

Lemma gen_inv_reachable bound g :
  0 <= bound -> rtc (gen_step bound) gen_init g ->
  bound + Z.of_nat (length (returned g)) < 2 ^ 64 -> gen_inv bound g.
Proof.
  intros Hb0 Hr. revert Hr.
  apply (rtc_ind_r (fun g => bound + Z.of_nat (length (returned g)) < 2 ^ 64 -> gen_inv bound g)).
  - intros _. unfold gen_inv; simpl. repeat split; try constructor; lia.
  - intros g1 g2 _ Hs IH. by eapply gen_inv_step.
Qed.

(** ** Properties *)

(** The conversions between the two 64-bit words of the C API and the
    128-bit UUID are inverse to each other, on every value of either side. *)
Theorem uuid_conversion_roundtrip (x : Z) (u : CassUuid) :
  (in_u 128 x -> Uuid_from (CassUuid_from x) = x) /\
  (CassUuid_ok u -> CassUuid_from (Uuid_from u) = u /\ in_u 128 (Uuid_from u)).
Proof.
  split; [apply Uuid_CassUuid|]. intros. split; [by apply CassUuid_Uuid|by apply Uuid_from_range].
Qed.

(** C27: however any number of threads interleave on one generator, and however
    the clock jumps back, the timestamps handed out strictly increase in the
    order in which they are taken, so the UUIDs made from them are distinct;
    the bound excludes overflow of the 60-bit field of the UUID. *)
Theorem uuid_gen_time_unique (bound clock_seq_node : Z) (g : GenState) :
  0 <= bound -> rtc (gen_step bound) gen_init g ->
  bound + Z.of_nat (length (returned g)) < 2 ^ 60 ->
  StronglySorted Z.gt (returned g) /\
  NoDup (map (fun t => mkCassUuid (set_version t 1) clock_seq_node) (returned g)).
Proof.
  intros Hb Hr Hlen.
  destruct (gen_inv_reachable bound g Hb Hr) as (_ & Hsh & Hs & Hall); [lia|].
  split; [done|]. assert (Hbnd : Forall (fun t => 0 <= t < 2 ^ 60) (returned g)).
  { eapply Forall_impl; [exact Hall|]. simpl. lia. }
  clear Hall Hsh Hr Hlen. induction Hs as [|t l Hs IH Hgt]; simpl; constructor.
  - intros (t' & [= Et] & Hin)%list_elem_of_fmap. inversion Hbnd as [|? ? H1 H2]; subst.
    rewrite Forall_forall in Hgt, H2. specialize (Hgt _ Hin). specialize (H2 _ Hin).
    rewrite !set_version_add, !Z.mod_small in Et by lia. lia.
  - apply IH. by inversion Hbnd.
Qed.

Lemma uuid_gen_time_unique_witness :
  StronglySorted Z.gt [12; 11] /\
  NoDup (map (fun t => mkCassUuid (set_version t 1) 7) [12; 11]).
Proof.
  refine (uuid_gen_time_unique 11 7
    (mkGenState 12 (set_thread (set_thread (set_thread (set_thread (set_thread (set_thread
       (fun _ => TStart) 0 (TSampled 11)) 0 (TLoaded 11 0)) 0 TStart)
       1 (TSampled 5)) 1 (TLoaded 5 11)) 1 TStart) [12; 11]) _ _ _).
  - lia.
  - eapply rtc_l; [eapply (step_sample 11 gen_init 0 11); [reflexivity|lia]|].
    eapply rtc_l; [eapply (step_load _ _ 0); reflexivity|].
    eapply rtc_l; [eapply (step_commit _ _ 0); reflexivity|].
    eapply rtc_l; [eapply (step_sample 11 _ 1 5); [reflexivity|lia]|].
    eapply rtc_l; [eapply (step_load _ _ 1); reflexivity|].
    eapply rtc_l; [eapply (step_commit _ _ 1); reflexivity|]. apply rtc_refl.
  - vm_compute. reflexivity.
Defined.

(** The loop of [cass_uuid_gen_time] ends as soon as the clock shows a time
    beyond the last timestamp, and returns a timestamp beyond it. *)
Theorem monotonic_timestamp_returns (last : Z) (clock : list Z) :
  0 <= last -> last + 1 < 2 ^ 64 -> Exists (fun ms => last < from_unix_timestamp ms) clock ->
  exists ts, monotonic_timestamp last clock = (ts, Some ts) /\ last < ts.
Proof.
  intros H0 H1 Hex. induction clock as [|ms clock IH]; [by inversion Hex|]. simpl.
  unfold try_monotonic_timestamp.
  assert (Hn : 0 <= from_unix_timestamp ms) by (unfold from_unix_timestamp, wrap_u; apply Z.mod_pos_bound; lia).
  pose proof (try_commit_spec (from_unix_timestamp ms) last last Hn H0 H0 H1) as Hc.
  destruct (try_commit (from_unix_timestamp ms) last last) as [cur' r] eqn:E.
  destruct Hc as [[-> ->]|(-> & Hlt & _)]; [|eauto].
  apply IH. inversion Hex as [? ? Hnow|]; subst; [|done]. exfalso.
  unfold try_commit in E. rewrite Z.eqb_refl in E.
  destruct (Z.gtb_spec (from_unix_timestamp ms) last); [done|lia].
Qed.

Lemma monotonic_timestamp_returns_witness :
  exists ts, monotonic_timestamp 9999 [0] = (ts, Some ts) /\ 9999 < ts.
Proof.
  apply (monotonic_timestamp_returns 9999 [0]); [lia|lia|]. constructor. vm_compute. reflexivity.
Defined.

(** A UUID made for a point in time carries version 1 and gives back that
    point in time in milliseconds, as long as it fits the 60-bit field. *)
Theorem uuid_from_time_roundtrip (gen : CassUuidGen) (ms : Z) :
  0 <= ms -> ms * 10000 + TIME_OFFSET_BETWEEN_UTC_AND_EPOCH < 2 ^ 60 ->
  cass_uuid_version (cass_uuid_gen_from_time gen ms) = 1 /\
  cass_uuid_timestamp (cass_uuid_gen_from_time gen ms) = ms /\
  cass_uuid_timestamp (cass_uuid_min_from_time ms) = ms /\
  cass_uuid_timestamp (cass_uuid_max_from_time ms) = ms.
Proof.
  intros H0 H1. unfold cass_uuid_version, cass_uuid_timestamp; simpl.
  rewrite from_unix_timestamp_small by lia.
  unfold TIME_OFFSET_BETWEEN_UTC_AND_EPOCH in *. rewrite set_version_add, (Z.mod_small (_ + _)) by lia.
  rewrite land60, Z.shiftr_div_pow2 by lia.
  assert (E : (ms * 10000 + 0x01B21DD213814000 + 1 * 2 ^ 60) mod 2 ^ 60
              = ms * 10000 + 0x01B21DD213814000).
  { rewrite Z.mod_add, Z.mod_small by lia. done. }
  assert (Hts : to_milliseconds (wrap_u 64
    (ms * 10000 + 0x01B21DD213814000 - 0x01B21DD213814000)) = ms).
  { unfold to_milliseconds, wrap_u. rewrite Z.mod_small by lia. dm_lia. }
  rewrite E, Hts. split; [|done].
  rewrite Z.div_add, Z.div_small by lia. reflexivity.
Qed.

Lemma uuid_from_time_roundtrip_witness :
  let gen := cass_uuid_gen_new_with_node 1 2 in
  cass_uuid_version (cass_uuid_gen_from_time gen 1700000000000) = 1 /\
  cass_uuid_timestamp (cass_uuid_gen_from_time gen 1700000000000) = 1700000000000 /\
  cass_uuid_timestamp (cass_uuid_min_from_time 1700000000000) = 1700000000000 /\
  cass_uuid_timestamp (cass_uuid_max_from_time 1700000000000) = 1700000000000.
Proof.
  apply (uuid_from_time_roundtrip (cass_uuid_gen_new_with_node 1 2) 1700000000000);
    [lia | vm_compute; reflexivity].
Defined.

(** Every UUID the driver generates has the RFC 4122 variant; random ones
    have version 4. *)
Theorem generated_uuid_variant (hash clock_seq node tv cs : Z) :
  0 <= hash -> 0 <= node -> 0 <= clock_seq -> 0 <= tv -> 0 <= cs ->
  gen_clock_seq_and_node (cass_uuid_gen_new hash clock_seq) / 2 ^ 62 = 2 /\
  gen_clock_seq_and_node (cass_uuid_gen_new_with_node node clock_seq) / 2 ^ 62 = 2 /\
  clock_seq_and_node (cass_uuid_gen_random tv cs) / 2 ^ 62 = 2 /\
  cass_uuid_version (cass_uuid_gen_random tv cs) = 4.
Proof.
  intros Hh Hn Hc Ht Hs.
  assert (H48 : forall x, 0 <= x -> 0 <= Z.land x 0x0000FFFFFFFFFFFF < 2 ^ 48).
  { intros x Hx. rewrite land48. apply Z.mod_pos_bound; lia. }
  assert (Hr : forall n, 0 <= n < 2 ^ 48 -> rand_clock_seq_and_node clock_seq n / 2 ^ 62 = 2).
  { intros n Hb. unfold rand_clock_seq_and_node, wrap_u. rewrite land14.
    pose proof (Z.mod_pos_bound clock_seq (2 ^ 14)).
    rewrite Z.lor_0_l, Z.shiftl_mul_pow2, (Z.mod_small (_ * _)) by lia.
    rewrite (lor_add_pow2' 63 _ 1) by lia.
    replace (clock_seq mod 2 ^ 14 * 2 ^ 48 + 1 * 2 ^ 63)
      with ((clock_seq mod 2 ^ 14 + 2 ^ 15) * 2 ^ 48) by lia.
    rewrite lor_add_pow2 by lia. dm_lia. }
  split; [|split; [|split]].
  - apply Hr, lor_range; [lia|by apply H48|lia].
  - by apply Hr, H48.
  - simpl. rewrite land62, (lor_add_pow2' 63 _ 1) by (pose proof (Z.mod_pos_bound cs (2 ^ 62)); lia).
    dm_lia.
  - unfold cass_uuid_version; simpl. rewrite set_version_add, Z.shiftr_div_pow2 by lia.
    rewrite Z.div_add, Z.div_small by (try apply Z.mod_pos_bound; lia). reflexivity.
Qed.

Lemma generated_uuid_variant_witness :
  gen_clock_seq_and_node (cass_uuid_gen_new 123456789 77) / 2 ^ 62 = 2 /\
  gen_clock_seq_and_node (cass_uuid_gen_new_with_node 5 77) / 2 ^ 62 = 2 /\
  clock_seq_and_node (cass_uuid_gen_random 1 2) / 2 ^ 62 = 2 /\
  cass_uuid_version (cass_uuid_gen_random 1 2) = 4.
Proof. apply (generated_uuid_variant 123456789 77 5 1 2); lia. Defined.
