(* ===== verification/UuidText.v ===== *)
(** * The text form of UUIDs (cql_types/uuid.rs)

    [cass_uuid_string] and [cass_uuid_from_string].  Formatting and parsing are the uuid
    crate's: [uuid_text] gives the forms of text its documentation lists, the class
    [UuidFormat] says that they are what is written and read, and [lower_hex] is an
    instance of it. *)

From Stdlib Require Import ZArith Lia Ascii String.
From stdpp Require Import base list strings sets.
From S2P Require Import Prelude ArgConv Types Uuid.

Open Scope Z_scope.

(** ** The functions *)

(** [Hyphenated]'s [Display] and [Uuid::parse_str], on the 128-bit value. *)
Class UuidCrate := {
  hyphenated : Z -> string;
  parse_str : string -> option Z
}.

Section Text.
Context {crate : UuidCrate}.

(** The bytes written to [output], with the NUL. *)
Definition cass_uuid_string (uuid_raw : CassUuid) : string :=
  hyphenated (Uuid_from uuid_raw) +:+ String zero EmptyString.

(** The code, and what is written to [output] if anything. *)
Definition cass_uuid_from_string_n (value : char_ptr) (value_length : nat)
  : CassError * option CassUuid :=
  match to_str value value_length with
  | Err _ => (CASS_ERROR_LIB_BAD_PARAMS, None)
  | Ok value_str =>
      match parse_str value_str with
      | Some parsed_uuid => (CASS_OK, Some (CassUuid_from parsed_uuid))
      | None => (CASS_ERROR_LIB_BAD_PARAMS, None)
      end
  end.

Definition cass_uuid_from_string (value : char_ptr) : CassError * option CassUuid :=
  let '(value, value_length) := as_len_delimited value in
  cass_uuid_from_string_n value value_length.

End Text.

(** ** The forms of text *)

(** Both cases of letters are read. *)
Definition hex_value (c : ascii) : option Z :=
  let n := Z.of_nat (nat_of_ascii c) in
  if in_rng 48 57 n then Some (n - 48)
  else if in_rng 97 102 n then Some (n - 87)
  else if in_rng 65 70 n then Some (n - 55)
  else None.

(** The number a list of hexadecimal digits denotes. *)
Fixpoint of_hex (acc : Z) (l : list ascii) : option Z :=
  match l with
  | [] => Some acc
  | c :: l => match hex_value c with Some d => of_hex (acc * 16 + d) l | None => None end
  end.

Definition hyphen : ascii := ascii_of_nat 45.

(** 32 digits in groups of 8, 4, 4, 4 and 12. *)
Definition grouped (d : list ascii) : list ascii :=
  take 8 d ++ hyphen :: take 4 (drop 8 d) ++ hyphen :: take 4 (drop 12 d) ++
  hyphen :: take 4 (drop 16 d) ++ hyphen :: drop 20 d.

Definition braced (l : list ascii) : list ascii := ascii_of_nat 123 :: l ++ [ascii_of_nat 125].
Definition urn (l : list ascii) : list ascii := list_ascii_of_string "urn:uuid:" ++ l.

(** The four forms the uuid crate reads: simple, hyphenated, braced, and URN. *)
Definition forms : list (list ascii -> list ascii) := [id; grouped; braced ∘ grouped; urn ∘ grouped].

Definition uuid_text (s : string) (u : Z) : Prop :=
  exists form d, form ∈ forms /\ List.length d = 32%nat /\ of_hex 0 d = Some u /\
    list_ascii_of_string s = form d.

(** The hyphenated form has 36 characters, lower-case hexadecimal digits and hyphens, and
    is parsed back; the texts parsed are those of the four forms. *)
Definition plain_char (c : ascii) : bool :=
  let n := nat_of_ascii c in ((48 <=? n) && (n <=? 57) || (97 <=? n) && (n <=? 102) || (n =? 45))%nat.

Class UuidFormat `{UuidCrate} := {
  hyphenated_length u : in_u 128 u -> String.length (hyphenated u) = 36%nat;
  hyphenated_chars u : in_u 128 u -> forallb plain_char (list_ascii_of_string (hyphenated u)) = true;
  parse_hyphenated u : in_u 128 u -> parse_str (hyphenated u) = Some u;
  parse_documented s u : parse_str s = Some u <-> uuid_text s u
}.

(** What reading a text ([None] for the null pointer) must give: the UUID the text denotes,
    or [CASS_ERROR_LIB_BAD_PARAMS] with nothing written if it denotes none. *)
Definition reads_uuid (text : option string) (r : CassError * option CassUuid) : Prop :=
  (forall t v, text = Some t -> uuid_text t v ->
     exists w, r = (CASS_OK, Some w) /\ CassUuid_ok w /\ Uuid_from w = v) /\
  (~ (exists t v, text = Some t /\ uuid_text t v) -> r = (CASS_ERROR_LIB_BAD_PARAMS, None)).
(** ** Plain text *)

Lemma plain_char_byte c : plain_char c = true -> in_rng 0 127 (Z.of_N (N_of_ascii c)) = true /\ c <> zero.
Proof. destruct c as [[] [] [] [] [] [] [] []]; vm_compute; naive_solver. Qed.

Lemma plain_utf8 s :
  forallb plain_char (list_ascii_of_string s) = true -> utf8_valid (as_bytes s) = true.
Proof.
  unfold as_bytes. induction (list_ascii_of_string s) as [|c l IH]; [done|]. intros [Hc Hl]%andb_true_iff.
  cbn [map utf8_valid]. destruct (plain_char_byte c Hc) as [-> _]. by apply IH.
Qed.

Lemma plain_nul_index s t :
  forallb plain_char (list_ascii_of_string s) = true ->
  nul_index (s +:+ String zero t) = String.length s.
Proof.
  induction s as [|c s IH]; [done|]. intros [Hc Hl]%andb_true_iff.
  destruct (plain_char_byte c Hc) as [_ Hz].
  change ((if Ascii.eqb c zero then 0 else S (nul_index (s +:+ String zero t)))%nat = S (String.length s)).
  destruct (Ascii.eqb_spec c zero); [done|]. by rewrite IH.
Qed.

Lemma substring_prefix s t : String.substring 0 (String.length s) (s +:+ t) = s.
Proof. induction s as [|c s IH]; [by destruct t|].
  change (String c (String.substring 0 (String.length s) (s +:+ t)) = String c s). by rewrite IH.
Qed.

Lemma length_with_nul s : String.length (s +:+ String zero EmptyString) = S (String.length s).
Proof.
  induction s as [|c s IH]; [done|].
  change (S (String.length (s +:+ String zero EmptyString)) = S (S (String.length s))). by rewrite IH.
Qed.

Lemma get_nul s : String.get (String.length s) (s +:+ String zero EmptyString) = Some zero.
Proof. induction s as [|c s IH]; [done|exact IH]. Qed.

(** ** What the forms consist of *)

Lemma hex_value_cases c d :
  hex_value c = Some d -> 0 <= d < 16 /\ in_rng 0 127 (Z.of_N (N_of_ascii c)) = true.
Proof.
  destruct c as [[] [] [] [] [] [] [] []]; vm_compute; intros H; try discriminate H;
    injection H as <-; split; [|done| |done..]; split; done.
Qed.

Lemma of_hex_range l acc v :
  0 <= acc -> of_hex acc l = Some v ->
  0 <= v < (acc + 1) * 16 ^ Z.of_nat (List.length l).
Proof.
  revert acc; induction l as [|c l IH]; intros acc Ha H; cbn [of_hex] in H.
  { injection H as <-. cbn. lia. }
  destruct (hex_value c) as [d|] eqn:Hd; [|done]. apply hex_value_cases in Hd as [Hd _].
  apply IH in H; [|lia]. cbn [List.length]. rewrite Nat2Z.inj_succ, Z.pow_succ_r by lia.
  assert (0 < 16 ^ Z.of_nat (List.length l)) by (apply Z.pow_pos_nonneg; lia). nia.
Qed.

Lemma uuid_text_range s v : uuid_text s v -> in_u 128 v.
Proof.
  intros (form & d & _ & Hlen & Hd & _). apply of_hex_range in Hd; [|lia]. rewrite Hlen in Hd.
  unfold in_u. change (2 ^ 128) with (16 ^ Z.of_nat 32). lia.
Qed.

(** ASCII text is UTF-8. *)
Definition ascii_text (l : list ascii) : Prop :=
  Forall (fun c => in_rng 0 127 (Z.of_N (N_of_ascii c)) = true) l.

Lemma ascii_utf8 s : ascii_text (list_ascii_of_string s) -> utf8_valid (as_bytes s) = true.
Proof.
  unfold as_bytes. induction 1 as [|c l Hc _ IH]; [done|]. cbn [map utf8_valid]. by rewrite Hc.
Qed.

Lemma of_hex_ascii l acc v : of_hex acc l = Some v -> ascii_text l.
Proof.
  revert acc; induction l as [|c l IH]; intros acc H; [constructor|]. cbn [of_hex] in H.
  destruct (hex_value c) as [d|] eqn:Hd; [|done]. constructor; [|by eapply IH].
  apply (hex_value_cases _ _ Hd).
Qed.

Lemma grouped_ascii d : ascii_text d -> ascii_text (grouped d).
Proof.
  intros H. unfold ascii_text, grouped in *.
  repeat first [apply Forall_app; split | apply Forall_cons; split | apply Forall_take | apply Forall_drop];
    done.
Qed.

Lemma uuid_text_utf8 s v : uuid_text s v -> utf8_valid (as_bytes s) = true.
Proof.
  intros (form & d & Hf & _ & Hd%of_hex_ascii & Hs). apply ascii_utf8. rewrite Hs.
  pose proof (grouped_ascii d Hd) as Hg. unfold forms in Hf. rewrite !elem_of_cons, elem_of_nil in Hf.
  destruct_or! Hf; subst form; [exact Hd|exact Hg|..].
  - apply Forall_cons; split; [done|]. apply Forall_app; split; [exact Hg|]. by repeat constructor.
  - apply Forall_app; split; [|exact Hg]. by repeat constructor.
Qed.

Lemma reads_uuid_n `{UuidFormat} (p : char_ptr) (n : nat) :
  reads_uuid (String.substring 0 n <$> p) (cass_uuid_from_string_n p n).
Proof.
  unfold cass_uuid_from_string_n, to_str. destruct p as [mem|]; cbn [fmap option_fmap option_map].
  2: { split; [by intros ? ?|done]. }
  set (t := String.substring 0 n mem). unfold from_utf8. split.
  - intros t' v [= <-] Hv. rewrite (uuid_text_utf8 t v Hv). pose proof (uuid_text_range t v Hv) as Hr.
    apply parse_documented in Hv. rewrite Hv. eexists. split; [reflexivity|].
    split; [by apply CassUuid_from_ok|by apply Uuid_CassUuid].
  - intros Hno. destruct (utf8_valid (as_bytes t)); [|done].
    destruct (parse_str t) as [v|] eqn:E; [|done]. apply parse_documented in E.
    destruct Hno. by exists t, v.
Qed.

(** ** The theorem *)

(** C36: The text of a UUID is 36 characters and a NUL, which fits the 37 bytes the C API asks
    for, and reading it gives the UUID back.  Reading a text in one of the four forms,
    with a length or up to its NUL, gives the UUID it denotes; the null pointer and every
    other text give BAD_PARAMS, and nothing is written. *)
Theorem uuid_text_roundtrip `{UuidFormat} (u : CassUuid) (p : char_ptr) (n : nat) :
  (CassUuid_ok u ->
     String.length (cass_uuid_string u) = 37%nat /\
     String.get 36 (cass_uuid_string u) = Some zero /\
     cass_uuid_from_string (Some (cass_uuid_string u)) = (CASS_OK, Some u)) /\
  reads_uuid (String.substring 0 n <$> p) (cass_uuid_from_string_n p n) /\
  reads_uuid ((fun mem => String.substring 0 (nul_index mem) mem) <$> p) (cass_uuid_from_string p).
Proof.
  split; [|split; [apply reads_uuid_n|]].
  - intros Hu. pose proof (Uuid_from_range u Hu) as Hr. unfold cass_uuid_string.
    pose proof (hyphenated_length _ Hr) as Hlen. pose proof (hyphenated_chars _ Hr) as Hch. split_and!.
    + by rewrite length_with_nul, Hlen.
    + rewrite <- Hlen. apply get_nul.
    + unfold cass_uuid_from_string, as_len_delimited, cass_uuid_from_string_n, strlen, to_str.
      rewrite plain_nul_index, substring_prefix by done. unfold from_utf8. rewrite plain_utf8 by done.
      rewrite parse_hyphenated, CassUuid_Uuid by done. done.
  - destruct p as [mem|]; [exact (reads_uuid_n (Some mem) (nul_index mem))|exact (reads_uuid_n None 0)].
Qed.

(** ** An instance *)

Definition hex_digit (d : Z) : ascii :=
  ascii_of_nat (Z.to_nat (if d <? 10 then 48 + d else 87 + d)).

Fixpoint to_hex (n : nat) (u : Z) : list ascii :=
  match n with O => [] | S n => to_hex n (u / 16) ++ [hex_digit (u mod 16)] end.

Definition lower_hex_text (u : Z) : string := string_of_list_ascii (grouped (to_hex 32 u)).

Definition ungrouped (l : list ascii) : list ascii :=
  take 8 l ++ take 4 (drop 9 l) ++ take 4 (drop 14 l) ++ take 4 (drop 19 l) ++ drop 24 l.

(** The form a text of this length can have, and its digits. *)
Definition candidate (l : list ascii) : option ((list ascii -> list ascii) * list ascii) :=
  match List.length l with
  | 32 => Some (id, l)
  | 36 => Some (grouped, ungrouped l)
  | 38 => Some (braced ∘ grouped, ungrouped (take 36 (drop 1 l)))
  | 45 => Some (urn ∘ grouped, ungrouped (drop 9 l))
  | _ => None
  end%nat.

Definition digits (l : list ascii) : option (list ascii) :=
  '(form, d) ← candidate l; if bool_decide (List.length d = 32%nat /\ l = form d) then Some d else None.
Definition parse_hex_text (s : string) : option Z :=
  d ← digits (list_ascii_of_string s); of_hex 0 d.
#[local] Instance lower_hex : UuidCrate := {| hyphenated := lower_hex_text; parse_str := parse_hex_text |}.

Lemma length_to_hex n u : List.length (to_hex n u) = n.
Proof. revert u; induction n as [|n IH]; intros u; [done|]. cbn. rewrite length_app, IH. cbn. lia. Qed.

Lemma hex_digit_cases (P : Z -> Prop) d :
  0 <= d < 16 -> Forall P (seqZ 0 16) -> P d.
Proof. intros Hd HP. rewrite Forall_forall in HP. apply HP, elem_of_seqZ. lia. Qed.

Lemma hex_value_digit d : 0 <= d < 16 -> hex_value (hex_digit d) = Some d.
Proof. intros Hd. pattern d. apply (hex_digit_cases _ d Hd). repeat constructor. Qed.

Lemma plain_hex_digit d : 0 <= d < 16 -> plain_char (hex_digit d) = true.
Proof. intros Hd. pattern d. apply (hex_digit_cases _ d Hd). repeat constructor. Qed.

Lemma of_hex_app acc l k : of_hex acc (l ++ k) = of_hex acc l ≫= fun a => of_hex a k.
Proof.
  revert acc; induction l as [|c l IH]; intros acc; [done|]. cbn [of_hex app].
  destruct (hex_value c); [apply IH|done].
Qed.

Lemma of_to_hex n u acc :
  0 <= u < 16 ^ Z.of_nat n -> of_hex acc (to_hex n u) = Some (acc * 16 ^ Z.of_nat n + u).
Proof.
  revert u acc; induction n as [|n IH]; intros u acc Hu.
  { cbn in *. f_equal. lia. }
  rewrite Nat2Z.inj_succ, Z.pow_succ_r in * by lia. cbn [to_hex]. rewrite of_hex_app, IH by dm_lia.
  cbn [mbind option_bind of_hex]. rewrite hex_value_digit by dm_lia. f_equal. dm_lia.
Qed.

Lemma plain_to_hex n u : forallb plain_char (to_hex n u) = true.
Proof.
  revert u; induction n as [|n IH]; intros u; [done|]. cbn [to_hex].
  rewrite forallb_app, IH. cbn. rewrite plain_hex_digit by dm_lia. done.
Qed.

(** The groups of any 32 digits. *)
Lemma ungrouped_grouped (d : list ascii) :
  List.length d = 32%nat ->
  List.length (grouped d) = 36%nat /\ ungrouped (grouped d) = d /\
  (forallb plain_char d = true -> forallb plain_char (grouped d) = true).
Proof.
  intros Hd. do 32 (destruct d as [|? d]; [discriminate Hd|]). destruct d; [|discriminate Hd].
  cbn -[plain_char]. split_and!; [done..|].
  intros H. repeat (apply andb_true_iff in H as [? H]). repeat (apply andb_true_iff; split); done.
Qed.

Lemma digits_form form d :
  form ∈ forms -> List.length d = 32%nat -> digits (form d) = Some d.
Proof.
  intros Hf Hd. destruct (ungrouped_grouped d Hd) as (Hg & Hu & _).
  unfold forms in Hf. rewrite !elem_of_cons, elem_of_nil in Hf. unfold digits, candidate.
  destruct_or! Hf; subst form; unfold compose, id, braced, urn; cbn [List.length];
    rewrite ?length_app, ?Hd, ?Hg; cbn -[grouped ungrouped bool_decide take].
  - by rewrite bool_decide_true.
  - rewrite ?drop_0, Hu. by rewrite bool_decide_true.
  - rewrite drop_0, take_app_length', Hu by done. by rewrite bool_decide_true.
  - rewrite ?drop_0, Hu. by rewrite bool_decide_true.
Qed.

Lemma digits_Some l d : digits l = Some d -> exists form, form ∈ forms /\ List.length d = 32%nat /\ l = form d.
Proof.
  unfold digits. destruct (candidate l) as [[form d']|] eqn:E; [|done]. cbn.
  destruct (bool_decide_reflect (List.length d' = 32%nat /\ l = form d')) as [[Hd Hl]|]; [|done].
  intros [= <-]. exists form. split; [|done]. unfold candidate in E. unfold forms.
  repeat case_match; simplify_eq; set_solver.
Qed.

#[local] Instance lower_hex_format : UuidFormat.
Proof.
  assert (Hp : 2 ^ 128 = 16 ^ Z.of_nat 32) by reflexivity.
  assert (Hl : forall s, String.length s = List.length (list_ascii_of_string s))
    by (induction s as [|c s IH]; [done|cbn; by rewrite IH]).
  split; unfold in_u; rewrite ?Hp; cbn [hyphenated parse_str lower_hex]; unfold lower_hex_text, parse_hex_text.
  - intros u Hu. rewrite Hl, list_ascii_of_string_of_list_ascii. apply ungrouped_grouped, length_to_hex.
  - intros u Hu. rewrite list_ascii_of_string_of_list_ascii.
    apply ungrouped_grouped; [apply length_to_hex|apply plain_to_hex].
  - intros u Hu. rewrite list_ascii_of_string_of_list_ascii, (digits_form grouped); cycle 1.
    { unfold forms. set_solver. } { apply length_to_hex. }
    cbn [mbind option_bind]. by rewrite of_to_hex.
  - intros s u. split.
    + destruct (digits _) as [d|] eqn:E; [|done]. cbn [mbind option_bind]. intros Hd.
      apply digits_Some in E as (form & Hf & Hlen & Hs). by exists form, d.
    + intros (form & d & Hf & Hlen & Hd & ->). rewrite digits_form by done. exact Hd.
Qed.

Lemma uuid_text_roundtrip_witness :
  cass_uuid_from_string (Some (cass_uuid_string (mkCassUuid 0x11E0AAAABBBBCCCC 0x8000112233445566))) =
    (CASS_OK, Some (mkCassUuid 0x11E0AAAABBBBCCCC 0x8000112233445566)) /\
  reads_uuid (Some "no uuid"%string) (cass_uuid_from_string (Some "no uuid"%string)).
Proof.
  destruct (uuid_text_roundtrip (mkCassUuid 0x11E0AAAABBBBCCCC 0x8000112233445566) (Some "no uuid"%string) 7)
    as (H1 & _ & H2).
  split; [|exact H2]. apply H1. split; vm_compute; split; congruence.
Defined.
