(* ===== verification/DateTime.v ===== *)
(** * Dates and times of day (cql_types/date_time.rs)

    The three conversions at their machine widths; [checks] says whether the
    build has overflow checks (the dev profile) or wraps (the release ones). *)

From Stdlib Require Import ZArith Lia.
From stdpp Require Import base tactics.
From S2P Require Import Prelude.

Open Scope Z_scope.

Definition NUM_SECONDS_PER_DAY : Z := 24 * 60 * 60.
Definition CASS_DATE_EPOCH : Z := 2147483648.
Definition CASS_TIME_NANOSECONDS_PER_SECOND : Z := 1000000000.

(** Rust's [/] and [%] truncate towards zero: [Z.quot] and [Z.rem]. *)
Definition cass_date_from_epoch (epoch_secs : Z) : Z :=
  wrap_u 32 (Z.quot epoch_secs NUM_SECONDS_PER_DAY + CASS_DATE_EPOCH).

Definition cass_time_from_epoch (epoch_secs : Z) : Z :=
  CASS_TIME_NANOSECONDS_PER_SECOND * Z.rem epoch_secs NUM_SECONDS_PER_DAY.

Definition cass_date_time_to_epoch (checks : bool) (date time : Z) : outcome Z :=
  days ← arith_u checks 64 (date - CASS_DATE_EPOCH);
  secs ← arith_u checks 64 (days * NUM_SECONDS_PER_DAY);
  total ← arith_u checks 64
    (secs + wrap_u 64 (Z.quot time CASS_TIME_NANOSECONDS_PER_SECOND));
  Ret (wrap_i 64 total).

Lemma quot_rem_day e :
  let q := Z.quot e NUM_SECONDS_PER_DAY in let r := Z.rem e NUM_SECONDS_PER_DAY in
  e = 86400 * q + r /\ -86400 < r < 86400 /\ (0 <= e -> 0 <= r) /\ (e <= 0 -> r <= 0).
Proof.
  unfold NUM_SECONDS_PER_DAY. change (24 * 60 * 60) with 86400. cbv zeta.
  pose proof (Z.quot_rem e 86400 ltac:(lia)) as E. destruct (Z.le_ge_cases 0 e) as [He|He].
  - pose proof (Z.rem_bound_pos e 86400 He ltac:(lia)). split; [done|lia].
  - pose proof (Z.rem_bound_pos (- e) 86400 ltac:(lia) ltac:(lia)) as Hb.
    rewrite Z.rem_opp_l in Hb by lia. split; [done|lia].
Qed.

Lemma time_quot e :
  Z.quot (cass_time_from_epoch e) CASS_TIME_NANOSECONDS_PER_SECOND = Z.rem e NUM_SECONDS_PER_DAY.
Proof.
  unfold cass_time_from_epoch, CASS_TIME_NANOSECONDS_PER_SECOND. rewrite Z.mul_comm.
  apply Z.quot_mul. lia.
Qed.

(** Range of instants whose day number fits the 32-bit date. *)
Definition representable (e : Z) : Prop := - 2 ^ 31 * 86400 <= e < 2 ^ 31 * 86400.

Lemma date_in_range e : representable e ->
  cass_date_from_epoch e = Z.quot e NUM_SECONDS_PER_DAY + 2 ^ 31.
Proof.
  unfold representable. intros He. pose proof (quot_rem_day e) as (E & Hr & Hp & Hn). cbv zeta in *.
  unfold cass_date_from_epoch. apply Z.mod_small. unfold CASS_DATE_EPOCH. lia.
Qed.

(** Splitting an instant at or after 1970 into date and time of day and
    joining them gives the instant back, whether or not the build checks for
    overflow. *)
Theorem date_time_roundtrip (checks : bool) (e : Z) :
  0 <= e < 2 ^ 31 * 86400 ->
  cass_date_time_to_epoch checks (cass_date_from_epoch e) (cass_time_from_epoch e) = Ret e.
Proof.
  intros He. pose proof (quot_rem_day e) as (E & Hr & Hp & _). cbv zeta in *.
  unfold cass_date_time_to_epoch. rewrite date_in_range by (unfold representable; lia).
  rewrite time_quot. unfold CASS_DATE_EPOCH, in_u in *.
  rewrite arith_u_in by (unfold in_u; lia). simpl mbind.
  rewrite arith_u_in by (unfold in_u, NUM_SECONDS_PER_DAY in *; lia). simpl mbind.
  rewrite wrap_u_id by (unfold in_u; lia).
  rewrite arith_u_in by (unfold in_u, NUM_SECONDS_PER_DAY in *; lia). simpl.
  rewrite wrap_i_id; [f_equal| |unfold in_i]; unfold NUM_SECONDS_PER_DAY in *; lia.
Qed.

Lemma date_time_roundtrip_witness :
  cass_date_time_to_epoch true (cass_date_from_epoch 1700000000) (cass_time_from_epoch 1700000000)
    = Ret 1700000000.
Proof. apply (date_time_roundtrip true 1700000000). lia. Defined.

Lemma wrap_sum a b : wrap_u 64 (wrap_u 64 a + wrap_u 64 b) = wrap_u 64 (a + b).
Proof. unfold wrap_u. by rewrite <- Z.add_mod by lia. Qed.

(** Before 1970 the round trip still holds in builds without overflow checks,
    by wrapping around; in builds with overflow checks joining any date before
    the epoch panics instead. *)
Theorem date_time_before_epoch (e : Z) (date time : Z) :
  representable e -> e < 0 -> 0 <= date < CASS_DATE_EPOCH ->
  cass_date_time_to_epoch false (cass_date_from_epoch e) (cass_time_from_epoch e) = Ret e /\
  cass_date_time_to_epoch true date time = Panic.
Proof.
  intros He Hneg Hd. pose proof (quot_rem_day e) as (E & Hr & _ & Hn). cbv zeta in *. split.
  - unfold cass_date_time_to_epoch. rewrite date_in_range by done. rewrite time_quot.
    rewrite !arith_u_wraps by lia. simpl mbind. rewrite !arith_u_wraps by lia. simpl mbind.
    rewrite !arith_u_wraps by lia. simpl mbind. rewrite wrap_sum. f_equal.
    set (q := Z.quot e NUM_SECONDS_PER_DAY) in *. set (r := Z.rem e NUM_SECONDS_PER_DAY) in *.
    replace (wrap_u 64 (wrap_u 64 (q + 2 ^ 31 - CASS_DATE_EPOCH) * NUM_SECONDS_PER_DAY + r))
      with (wrap_u 64 e).
    2: { unfold wrap_u, CASS_DATE_EPOCH, NUM_SECONDS_PER_DAY in *.
         rewrite <- (Z.add_mod_idemp_l (_ * _)), Z.mul_mod_idemp_l, Z.add_mod_idemp_l by lia.
         f_equal. lia. }
    unfold wrap_i, wrap_u. rewrite Z.mod_mod by lia. fold (wrap_i 64 e).
    apply wrap_i_id; [lia|]. unfold in_i, representable in *. lia.
  - unfold cass_date_time_to_epoch. rewrite arith_u_out; [done|].
    unfold in_u, CASS_DATE_EPOCH in *. lia.
Qed.

Lemma date_time_before_epoch_witness :
  cass_date_time_to_epoch false (cass_date_from_epoch (-100000)) (cass_time_from_epoch (-100000))
    = Ret (-100000) /\
  cass_date_time_to_epoch true 2147483647 0 = Panic.
Proof.
  apply (date_time_before_epoch (-100000) 2147483647 0); unfold representable, CASS_DATE_EPOCH; lia.
Defined.
