(* ===== verification/Inet.v ===== *)
(** * IP addresses and host events (cql_types/inet.rs, host_listener.rs)

    [CassInet] is the C structure: 16 bytes of storage and a length byte.
    [IpAddr] is the standard library's enumeration over the octets. *)

From Stdlib Require Import ZArith Lia.
From stdpp Require Import base list.
From S2P Require Import Prelude.

Open Scope Z_scope.

Inductive IpAddr :=
| V4 (octets : list Z)
| V6 (octets : list Z).

#[global] Instance IpAddr_eq_dec : EqDecision IpAddr.
Proof. solve_decision. Defined.

Record CassInet := mkCassInet { address : list Z; address_length : Z }.

Inductive CassInetLength := CASS_INET_V4 | CASS_INET_V6.

Definition inet_length (l : CassInetLength) : nat :=
  match l with CASS_INET_V4 => 4 | CASS_INET_V6 => 16 end.

(** [CassInetLength::from_u64], which [FromPrimitive::from_u8] goes through. *)
Definition from_u64 (n : Z) : option CassInetLength :=
  if n =? 4 then Some CASS_INET_V4 else if n =? 16 then Some CASS_INET_V6 else None.

(** [cass_inet_init] copies [length] bytes into a zeroed array. *)
Definition cass_inet_init (bytes : list Z) (len : CassInetLength) : CassInet :=
  let length := inet_length len in
  mkCassInet (take length bytes ++ replicate (16 - length) 0) (Z.of_nat length).

Definition cass_inet_init_v4 (bytes : list Z) : CassInet := cass_inet_init bytes CASS_INET_V4.
Definition cass_inet_init_v6 (bytes : list Z) : CassInet := cass_inet_init bytes CASS_INET_V6.

(** [TryFrom<CassInet> for IpAddr]. *)
Definition IpAddr_try_from (inet : CassInet) : option IpAddr :=
  match from_u64 (address_length inet) with
  | Some CASS_INET_V4 => Some (V4 (take 4 (address inet)))
  | Some CASS_INET_V6 => Some (V6 (take 16 (address inet)))
  | None => None
  end.

(** [From<IpAddr> for CassInet]. *)
Definition CassInet_from (ip_addr : IpAddr) : CassInet :=
  match ip_addr with
  | V4 octets => mkCassInet (octets ++ replicate 12 0) 4
  | V6 octets => mkCassInet octets 16
  end.

(** An address of the standard library has 4 or 16 octets. *)
Definition IpAddr_ok (ip : IpAddr) : Prop :=
  match ip with
  | V4 o => length o = 4%nat /\ Forall is_byte o
  | V6 o => length o = 16%nat /\ Forall is_byte o
  end.

(** ** Host events *)

Inductive HostEvent :=
| Added | Removed | Up | Down
| AddressChanged (old_address new_address : IpAddr)
| OtherEvent.

Inductive CassHostListenerEvent :=
| CASS_HOST_LISTENER_EVENT_UP
| CASS_HOST_LISTENER_EVENT_DOWN
| CASS_HOST_LISTENER_EVENT_ADD
| CASS_HOST_LISTENER_EVENT_REMOVE.

(** [CCallbackBasedHostListener::on_event]: the calls of the C callback, in
    order.  [host_inet_from] is the second copy of the conversion, for the
    [CassInet] of the other bindings module. *)
Definition host_inet_from (ip_addr : IpAddr) : CassInet :=
  match ip_addr with
  | V4 octets => mkCassInet (octets ++ replicate 12 0) 4
  | V6 octets => mkCassInet octets 16
  end.

Definition on_event (ip : IpAddr) (event : HostEvent) : list (CassHostListenerEvent * CassInet) :=
  let cass_addr := host_inet_from ip in
  match event with
  | Added => [(CASS_HOST_LISTENER_EVENT_ADD, cass_addr)]
  | Removed => [(CASS_HOST_LISTENER_EVENT_REMOVE, cass_addr)]
  | Up => [(CASS_HOST_LISTENER_EVENT_UP, cass_addr)]
  | Down => [(CASS_HOST_LISTENER_EVENT_DOWN, cass_addr)]
  | AddressChanged old_address new_address =>
      [(CASS_HOST_LISTENER_EVENT_REMOVE, host_inet_from old_address);
       (CASS_HOST_LISTENER_EVENT_ADD, host_inet_from new_address)]
  | OtherEvent => []
  end.

Lemma IpAddr_roundtrip ip : IpAddr_ok ip -> IpAddr_try_from (CassInet_from ip) = Some ip.
Proof.
  destruct ip as [o|o]; intros [Hl _]; unfold IpAddr_try_from; simpl.
  - by rewrite <- Hl, take_app_length.
  - by rewrite <- Hl, take_ge.
Qed.

(** An IP address converted to the C structure and back is unchanged; a C
    structure whose length byte is 4 or 16 and whose unused bytes are zero
    survives the opposite round trip; any other length byte is rejected. *)
Theorem inet_roundtrip (ip : IpAddr) (inet : CassInet) :
  (IpAddr_ok ip -> IpAddr_try_from (CassInet_from ip) = Some ip) /\
  (length (address inet) = 16%nat ->
   (address_length inet = 4 -> drop 4 (address inet) = replicate 12 0) ->
   match IpAddr_try_from inet with
   | Some ip' => CassInet_from ip' = inet
   | None => address_length inet <> 4 /\ address_length inet <> 16
   end).
Proof.
  split; [apply IpAddr_roundtrip|]. destruct inet as [a n]; unfold IpAddr_try_from, from_u64; simpl.
  intros Ha Hz. destruct (Z.eqb_spec n 4) as [->|H4]; simpl.
  { f_equal. rewrite <- Hz by done. apply take_drop. }
  destruct (Z.eqb_spec n 16) as [->|H16]; simpl; [|done].
  f_equal. rewrite <- Ha. by rewrite take_ge.
Qed.
