(* ===== verification/IpText.v ===== *)
(** * Text form of IP addresses (cql_types/inet.rs, [core::net])

    [IpAddr_from_str] is the standard library's parser of IP addresses and
    [to_string] its [Display]; both work on the bytes of the text.  The C API
    functions [cass_inet_string] and [cass_inet_from_string_n] go through them. *)

From Stdlib Require Import ZArith Lia.
From stdpp Require Import base list strings.
From S2P Require Import Prelude ArgConv Types Inet.

Open Scope Z_scope.

(** ** The parser of the standard library

    A parser takes the remaining bytes; [None] leaves them where they were. *)

Definition parser (A : Type) : Type := list Z -> option (A * list Z).

Definition COLON : Z := 58.
Definition DOT : Z := 46.

(** [char::to_digit] on a byte. *)
Definition to_digit (radix c : Z) : option Z :=
  let d :=
    if in_rng 48 57 c then c - 48
    else if in_rng 97 122 c then c - 87
    else if in_rng 65 90 c then c - 55
    else 36 in
  if d <? radix then Some d else None.

Definition read_given_char (target : Z) : parser unit := fun l =>
  match l with
  | c :: l => if c =? target then Some (tt, l) else None
  | [] => None
  end.

(** The digit loop of [read_number]; [None] is its early return. *)
Fixpoint read_digits (radix : Z) (max_digits count : nat) (result : Z) (l : list Z)
  : option (Z * nat * list Z) :=
  match l with
  | [] => Some (result, count, [])
  | c :: l' =>
      match to_digit radix c with
      | None => Some (result, count, l)
      | Some digit =>
          if (max_digits <? S count)%nat then None
          else read_digits radix max_digits (S count) (result * radix + digit) l'
      end
  end.

(** [read_number] for a [w]-bit unsigned integer. *)
Definition read_number (w radix : Z) (max_digits : nat) (allow_zero_prefix : bool) : parser Z :=
  fun l =>
  let has_leading_zero := match l with c :: _ => c =? 48 | [] => false end in
  '(result, digit_count, rest) ← read_digits radix max_digits 0 0 l;
  if (digit_count =? 0)%nat then None
  else if negb allow_zero_prefix && has_leading_zero && (1 <? digit_count)%nat then None
  else n ← try_u w result; Some (n, rest).

(** [read_separator]: the separator is read before all but the first item. *)
Definition read_separator {A} (sep : Z) (index : nat) (inner : parser A) : parser A := fun l =>
  match index with
  | O => inner l
  | S _ => '(_, l) ← read_given_char sep l; inner l
  end.

Definition read_octet (index : nat) : parser Z :=
  read_separator DOT index (read_number 8 10 3 false).

Definition read_ipv4_addr : parser (list Z) := fun l =>
  '(a, l) ← read_octet 0 l; '(b, l) ← read_octet 1 l;
  '(c, l) ← read_octet 2 l; '(d, l) ← read_octet 3 l;
  Some ([a; b; c; d], l).

(** [read_groups]: up to [limit] 16-bit groups from index [i] on, possibly ending
    in an embedded IPv4 address; it always succeeds. *)
Fixpoint read_groups (room i : nat) (l : list Z) : list Z * bool * list Z :=
  match room with
  | O => ([], false, l)
  | S room =>
      let embedded :=
        if (0 <? room)%nat then read_separator COLON i read_ipv4_addr l else None in
      match embedded with
      | Some ([one; two; three; four], l) =>
          ([one * 256 + two; three * 256 + four], true, l)
      | _ =>
          match read_separator COLON i (read_number 16 16 4 true) l with
          | Some (g, l) =>
              let '(gs, v4, l) := read_groups room (S i) l in (g :: gs, v4, l)
          | None => ([], false, l)
          end
      end
  end.

Definition group_octets (g : Z) : list Z := [g / 256; g mod 256].

Definition read_ipv6_addr : parser (list Z) := fun l =>
  let '(head, head_ipv4, l) := read_groups 8 0 l in
  if (length head =? 8)%nat then Some (head, l)
  else if head_ipv4 then None
  else
    '(_, l) ← read_given_char COLON l;
    '(_, l) ← read_given_char COLON l;
    let '(tail, _, l) := read_groups (8 - (length head + 1)) 0 l in
    Some (head ++ replicate (8 - length head - length tail) 0 ++ tail, l).

(** [IpAddr::from_str]: the parser has to consume the whole text. *)
Definition IpAddr_from_str (s : list Z) : option IpAddr :=
  let parsed :=
    match read_ipv4_addr s with
    | Some (octets, l) => Some (V4 octets, l)
    | None =>
        '(groups, l) ← read_ipv6_addr s; Some (V6 (concat (map group_octets groups)), l)
    end in
  '(ip, l) ← parsed;
  match l with [] => Some ip | _ => None end.

(** ** [Display] *)

Definition digit_char (d : Z) : Z := if d <? 10 then 48 + d else 87 + d.

(** [{}] and [{:x}] of an unsigned integer; [fuel] digits at most. *)
Fixpoint to_radix (radix : Z) (fuel : nat) (n : Z) : list Z :=
  match fuel with
  | O => []
  | S fuel =>
      if n <? radix then [digit_char n]
      else to_radix radix fuel (n / radix) ++ [digit_char (n mod radix)]
  end.

Definition fmt_u8 (n : Z) : list Z := to_radix 10 3 n.
Definition fmt_hex16 (n : Z) : list Z := to_radix 16 4 n.

(** [fmt_subslice], and the dotted octets. *)
Definition fmt_sep (sep : Z) (f : Z -> list Z) (l : list Z) : list Z :=
  match l with
  | [] => []
  | x :: l => f x ++ concat (map (fun y => sep :: f y) l)
  end.

(** The longest run of zero groups: its start and length. *)
Fixpoint longest_zeroes (i : nat) (current longest : nat * nat) (segments : list Z) : nat * nat :=
  match segments with
  | [] => longest
  | s :: rest =>
      if s =? 0 then
        let current := (if (current.2 =? 0)%nat then i else current.1, S current.2) in
        longest_zeroes (S i) current
          (if (longest.2 <? current.2)%nat then current else longest) rest
      else longest_zeroes (S i) (0%nat, 0%nat) longest rest
  end.

Fixpoint groups_of (octets : list Z) : list Z :=
  match octets with
  | a :: b :: rest => (a * 256 + b) :: groups_of rest
  | _ => []
  end.

Definition fmt_ipv6 (octets : list Z) : list Z :=
  let segments := groups_of octets in
  if bool_decide (take 12 octets = replicate 10 0 ++ [255; 255]) then
    [COLON; COLON; 102; 102; 102; 102; COLON] ++ fmt_sep DOT fmt_u8 (drop 12 octets)
  else
    let '(start, len) := longest_zeroes 0 (0%nat, 0%nat) (0%nat, 0%nat) segments in
    if (1 <? len)%nat then
      fmt_sep COLON fmt_hex16 (take start segments) ++ [COLON; COLON]
        ++ fmt_sep COLON fmt_hex16 (drop (start + len) segments)
    else fmt_sep COLON fmt_hex16 segments.

Definition to_string (ip : IpAddr) : list Z :=
  match ip with
  | V4 octets => fmt_sep DOT fmt_u8 octets
  | V6 octets => fmt_ipv6 octets
  end.

(** ** The C API *)

(** [cass_inet_string]: the bytes written to the output buffer, with the final
    NUL; nothing is written for an invalid length byte. *)
Definition cass_inet_string (inet : CassInet) : list Z :=
  match IpAddr_try_from inet with
  | Some ip_addr => to_string ip_addr ++ [0]
  | None => []
  end.

(** [cass_inet_from_string_n]: the error and the value written to the output. *)
Definition cass_inet_from_string_n (input : char_ptr) (input_length : nat)
  : CassError * option CassInet :=
  match to_str input input_length with
  | Ok input_str =>
      match IpAddr_from_str (as_bytes input_str) with
      | Some ip_addr => (CASS_OK, Some (CassInet_from ip_addr))
      | None => (CASS_ERROR_LIB_BAD_PARAMS, None)
      end
  | Err NullPointer => (CASS_ERROR_LIB_BAD_PARAMS, None)
  | Err InvalidUtf8 => (CASS_ERROR_LIB_BAD_PARAMS, None)
  end.

Definition cass_inet_from_string (input : char_ptr) : CassError * option CassInet :=
  let '(input, input_length) := as_len_delimited input in
  cass_inet_from_string_n input input_length.

(** ** Lemmas: numbers *)

#[local] Arguments in_rng : simpl never.
#[local] Arguments to_digit : simpl never.
#[local] Arguments digit_char : simpl never.

(** The text that follows a number does not continue it. *)
Definition stops (radix : Z) (rest : list Z) : Prop :=
  match rest with [] => True | c :: _ => to_digit radix c = None end.

Definition horner (radix r : Z) (ds : list Z) : Z := foldl (fun r d => r * radix + d) r ds.

Lemma to_digit_char radix d :
  0 <= d < radix -> radix <= 36 -> to_digit radix (digit_char d) = Some d.
Proof.
  intros Hd Hr. unfold to_digit, digit_char, in_rng.
  destruct (Z.ltb_spec d 10);
    repeat match goal with |- context [Z.leb ?a ?b] => destruct (Z.leb_spec a b) end;
    simpl; try lia; (destruct (Z.ltb_spec (48 + d - 48) radix) || idtac);
    repeat match goal with |- context [Z.ltb ?a ?b] => destruct (Z.ltb_spec a b) end;
    try lia; f_equal; lia.
Qed.

Lemma read_digits_app radix max ds rest count r :
  radix <= 36 -> Forall (fun d => 0 <= d < radix) ds -> stops radix rest ->
  (count + length ds <= max)%nat ->
  read_digits radix max count r (map digit_char ds ++ rest)
  = Some (horner radix r ds, (count + length ds)%nat, rest).
Proof.
  intros Hr Hds Hstop. revert count r. induction Hds as [|d ds Hd Hds IH]; intros count r Hlen.
  - simpl in *. rewrite Nat.add_0_r. destruct rest as [|c rest]; simpl; [done|].
    simpl in Hstop. by rewrite Hstop.
  - cbn [map app read_digits]. rewrite to_digit_char by done. simpl in Hlen.
    destruct (Nat.ltb_spec max (S count)); [lia|].
    rewrite IH by lia. simpl. repeat f_equal. lia.
Qed.

Lemma to_radix_digits radix fuel n :
  2 <= radix <= 36 -> (0 < fuel)%nat -> 0 <= n < radix ^ Z.of_nat fuel ->
  exists ds, to_radix radix fuel n = map digit_char ds /\
    Forall (fun d => 0 <= d < radix) ds /\ (0 < length ds <= fuel)%nat /\
    horner radix 0 ds = n /\ (head ds = Some 0 -> length ds = 1%nat).
Proof.
  intros Hr. revert n. induction fuel as [|fuel IH]; intros n Hf Hn; [lia|]. cbn [to_radix].
  destruct (Z.ltb_spec n radix) as [Hlt|Hge].
  { exists [n]. simpl. split_and!; [done|by repeat constructor; lia|lia|lia|lia|done]. }
  assert (0 < fuel)%nat as Hf'.
  { destruct fuel; [|lia]. change (Z.of_nat 1) with 1 in Hn. lia. }
  rewrite Nat2Z.inj_succ, Z.pow_succ_r in Hn by lia.
  destruct (IH (n / radix)) as (ds & -> & Hds & Hlen & Hv & Hz); [done| |].
  { split; [apply Z.div_pos; lia|apply Z.div_lt_upper_bound; lia]. }
  exists (ds ++ [n mod radix]). pose proof (Z.mod_pos_bound n radix). split_and!.
  - by rewrite map_app.
  - apply Forall_app. split; [done|]. repeat constructor; lia.
  - rewrite length_app. simpl. lia.
  - rewrite length_app. simpl. lia.
  - unfold horner in *. rewrite foldl_app, Hv. simpl. pose proof (Z.div_mod n radix). lia.
  - intros Hh. exfalso. destruct ds as [|d ds]; simpl in *; [lia|]. injection Hh as ->.
    destruct ds; simpl in Hz; [|by discriminate Hz].
    unfold horner in Hv; simpl in Hv. symmetry in Hv. apply Z.div_small_iff in Hv; lia.
Qed.

Lemma digit_char_48 d : 0 <= d -> digit_char d = 48 -> d = 0.
Proof. unfold digit_char. destruct (Z.ltb_spec d 10); lia. Qed.

Lemma read_number_print w radix fuel zero n rest :
  2 <= radix <= 36 -> (0 < fuel)%nat -> 0 <= n < radix ^ Z.of_nat fuel -> n < 2 ^ w ->
  stops radix rest ->
  read_number w radix fuel zero (to_radix radix fuel n ++ rest) = Some (n, rest).
Proof.
  intros Hr Hf Hn Hw Hstop. destruct (to_radix_digits radix fuel n) as (ds & -> & Hds & Hl & Hv & Hz);
    [done..|].
  unfold read_number. rewrite read_digits_app by (done || lia). simpl. rewrite Hv.
  destruct (Nat.eqb_spec (length ds) 0); [lia|].
  assert (try_u w n = Some n) as -> by (apply try_u_Some; unfold in_u; lia). simpl.
  destruct ds as [|d ds]; [done|]. cbn [map app].
  destruct (Z.eqb_spec (digit_char d) 48) as [E|]; [|by rewrite andb_false_r].
  inversion_clear Hds. apply digit_char_48 in E; [|lia]. subst d. rewrite Hz by done.
  by rewrite andb_false_r.
Qed.

(** The first byte that is not a hexadecimal digit. *)
Fixpoint next_nonhex (l : list Z) : option Z :=
  match l with
  | [] => None
  | c :: l => match to_digit 16 c with Some _ => next_nonhex l | None => Some c end
  end.

Lemma to_digit_10_16 c d : to_digit 10 c = Some d -> to_digit 16 c = Some d.
Proof.
  unfold to_digit. set (e := if in_rng 48 57 c then _ else _).
  destruct (Z.ltb_spec e 10); [|done]. destruct (Z.ltb_spec e 16); [done|lia].
Qed.

Lemma read_digits_rest max count r l r' n l' :
  read_digits 10 max count r l = Some (r', n, l') -> next_nonhex l = next_nonhex l'.
Proof.
  revert count r. induction l as [|c l IH]; intros count r; simpl; [by intros [= _ _ <-]|].
  destruct (to_digit 10 c) as [d|] eqn:Hd; [|by intros [= _ _ <-]].
  destruct (max <? S count)%nat; [done|]. intros H%IH. by rewrite (to_digit_10_16 _ _ Hd).
Qed.

Lemma read_ipv4_None l : next_nonhex l <> Some DOT -> read_ipv4_addr l = None.
Proof.
  intros Hl. unfold read_ipv4_addr, read_octet, read_separator, read_number.
  destruct (read_digits 10 3 0 0 l) as [[[r n] l']|] eqn:E; simpl; [|done].
  apply read_digits_rest in E. rewrite E in Hl.
  destruct (n =? 0)%nat; [done|]. destruct (_ && _); [done|].
  destruct (try_u 8 r); simpl; [|done].
  destruct l' as [|c l']; simpl; [done|].
  destruct (Z.eqb_spec c DOT) as [->|]; [|done]. by destruct Hl.
Qed.

(** ** Lemmas: addresses *)

#[local] Arguments to_radix : simpl never.
#[local] Arguments read_number : simpl never.

Definition group_ok (g : Z) : Prop := 0 <= g < 65536.

(** What may follow a group: not a hexadecimal digit and not a dot. *)
Definition group_end (rest : list Z) : Prop :=
  stops 16 rest /\ head rest <> Some DOT.

Lemma next_nonhex_hex n rest :
  group_ok n -> stops 16 rest -> next_nonhex (fmt_hex16 n ++ rest) = head rest.
Proof.
  intros Hn Hstop. destruct (to_radix_digits 16 4 n) as (ds & E & Hds & _);
    [lia|lia|exact Hn|]. unfold fmt_hex16. rewrite E. clear E.
  induction Hds as [|d ds Hd Hds IH]; cbn [map app next_nonhex].
  - destruct rest; simpl in *; [done|]. by rewrite Hstop.
  - rewrite to_digit_char by lia. apply IH.
Qed.

Lemma read_ipv4_print a b c d rest :
  Forall is_byte [a; b; c; d] -> stops 10 rest ->
  read_ipv4_addr (fmt_sep DOT fmt_u8 [a; b; c; d] ++ rest) = Some ([a; b; c; d], rest).
Proof.
  intros Hb Hstop. unfold fmt_sep, fmt_u8. cbn [map concat]. rewrite app_nil_r.
  repeat (apply Forall_cons in Hb as [? Hb]). unfold is_byte in *.
  rewrite <- !app_assoc. unfold read_ipv4_addr, read_octet, read_separator.
  rewrite read_number_print by (done || lia). simpl.
  rewrite <- ?app_assoc, read_number_print by (done || lia). simpl.
  rewrite <- ?app_assoc, read_number_print by (done || lia). simpl.
  rewrite <- ?app_assoc, read_number_print by (done || lia). done.
Qed.

#[local] Arguments read_ipv4_addr : simpl never.
#[local] Arguments fmt_hex16 : simpl never.

Definition tail_groups (gs : list Z) : list Z := concat (map (fun y => COLON :: fmt_hex16 y) gs).

(** One group read at index [i]. *)
Lemma read_groups_step room i g rest :
  group_ok g -> group_end rest ->
  read_groups (S room) i ((match i with O => [] | S _ => [COLON] end) ++ fmt_hex16 g ++ rest)
  = let '(gs, v4, l) := read_groups room (S i) rest in (g :: gs, v4, l).
Proof.
  intros Hg [Hstop Hdot]. assert (Hno : read_ipv4_addr (fmt_hex16 g ++ rest) = None).
  { apply read_ipv4_None. by rewrite next_nonhex_hex. }
  assert (Hn : read_number 16 16 4 true (fmt_hex16 g ++ rest) = Some (g, rest)).
  { apply read_number_print; [lia|lia|exact Hg|exact (proj2 Hg)|done]. }
  cbn [read_groups]. destruct i; cbn [app read_separator]; simpl read_given_char; cbn.
  - rewrite Hno, Hn. by destruct room.
  - rewrite Hno, Hn. by destruct room.
Qed.

Lemma group_end_tail gs rest : group_end rest -> group_end (tail_groups gs ++ rest).
Proof. destruct gs; [done|]. by split. Qed.

Lemma read_groups_tail gs room i rest :
  Forall group_ok gs -> group_end rest ->
  read_groups (length gs + room) (S i) (tail_groups gs ++ rest)
  = let '(gs', v4, l) := read_groups room (S (length gs + i)) rest in (gs ++ gs', v4, l).
Proof.
  intros Hgs Hend. revert i. induction Hgs as [|g gs Hg Hgs IH]; intros i.
  { simpl. by destruct (read_groups _ _ _) as [[? ?] ?]. }
  unfold tail_groups in *. cbn [map concat length Nat.add]. rewrite <- app_assoc.
  change ((COLON :: fmt_hex16 g) ++ ?r) with ([COLON] ++ fmt_hex16 g ++ r).
  rewrite (read_groups_step _ (S i)) by (done || by apply group_end_tail).
  rewrite IH. replace (length gs + S i)%nat with (S (length gs + i)) by lia.
  by destruct (read_groups _ _ _) as [[? ?] ?].
Qed.

Lemma read_groups_sep gs room rest :
  Forall group_ok gs -> group_end rest -> gs <> [] ->
  read_groups (length gs + room) 0 (fmt_sep COLON fmt_hex16 gs ++ rest)
  = let '(gs', v4, l) := read_groups room (length gs) rest in (gs ++ gs', v4, l).
Proof.
  intros Hgs Hend Hne. destruct gs as [|g gs]; [done|]. apply Forall_cons in Hgs as [Hg Hgs].
  unfold fmt_sep. rewrite <- app_assoc. cbn [length Nat.add].
  pose proof (read_groups_step (length gs + room) 0 g (tail_groups gs ++ rest)) as Hstep.
  cbn [app] in Hstep. fold (tail_groups gs).
  rewrite Hstep by (done || by apply group_end_tail). rewrite read_groups_tail by done. rewrite Nat.add_0_r.
  cbn [length].
  by destruct (read_groups room (S (length gs)) rest) as [[? ?] ?].
Qed.

(** Reading stops at the end of the text and at [::]. *)
Lemma read_groups_end room i : read_groups room i [] = ([], false, []).
Proof. destruct room as [|[|room]], i; done. Qed.

Lemma read_groups_gap room i rest :
  read_groups room i (COLON :: COLON :: rest) = ([], false, COLON :: COLON :: rest).
Proof.
  destruct room; [done|]. cbn [read_groups].
  assert (read_number 16 16 4 true (COLON :: rest) = None) as Hn by done.
  assert (read_ipv4_addr (COLON :: rest) = None) as H4 by done.
  assert (read_ipv4_addr (COLON :: COLON :: rest) = None) as H4' by done.
  destruct i; cbn [read_separator]; simpl read_given_char; cbn.
  - by destruct room.
  - by destruct room.
Qed.

(** The run of zeroes that [fmt_ipv6] compresses is a run of zeroes. *)
Definition zero_run (segs : list Z) (r : nat * nat) : Prop :=
  (r.1 + r.2 <= length segs)%nat /\ forall j, (r.1 <= j < r.1 + r.2)%nat -> segs !! j = Some 0.

Lemma longest_zeroes_run pre rest current longest :
  let segs := pre ++ rest in
  zero_run segs current -> (current.2 <> 0%nat -> (current.1 + current.2 = length pre)%nat) ->
  zero_run segs longest ->
  zero_run segs (longest_zeroes (length pre) current longest rest).
Proof.
  revert pre current longest. induction rest as [|s rest IH]; intros pre [cs cl] longest segs Hc Hi Hl;
    [done|]. unfold segs in *. cbn [longest_zeroes].
  replace (pre ++ s :: rest) with ((pre ++ [s]) ++ rest) in * by by rewrite <- app_assoc.
  replace (S (length pre)) with (length (pre ++ [s])) by (rewrite length_app; simpl; lia).
  destruct (Z.eqb_spec s 0) as [->|_].
  - set (cur := (if (_ =? 0)%nat then _ else _, _)).
    assert (Hcur : zero_run ((pre ++ [0]) ++ rest) cur /\ (cur.1 + cur.2 = length (pre ++ [0%Z]))%nat).
    { unfold cur, zero_run in *. rewrite !length_app in *. simpl in *.
      assert (forall j, j = length pre -> ((pre ++ [0]) ++ rest) !! j = Some 0) as Hlast.
      { intros j ->. rewrite lookup_app_l by (rewrite length_app; simpl; lia).
        by apply list_lookup_middle. }
      destruct (Nat.eqb_spec cl 0) as [->|Hcl]; simpl.
      - split; [split; [lia|]|lia]. intros j Hj. apply Hlast. lia.
      - specialize (Hi Hcl). split; [split; [lia|]|lia]. intros j Hj.
        destruct (decide (j = length pre)); [by apply Hlast|]. apply Hc. lia. }
    destruct Hcur as [Hr He]. apply IH; [done|done|]. by destruct (_ <? _)%nat.
  - apply IH; [|done|done]. split; simpl; [lia|]. intros j Hj. lia.
Qed.

Lemma zero_run_split segs start len :
  zero_run segs (start, len) ->
  segs = take start segs ++ replicate len 0 ++ drop (start + len) segs.
Proof.
  intros [Hle Hz]; simpl in *. apply list_eq. intros j.
  destruct (decide (j < start)%nat).
  { rewrite lookup_app_l by (rewrite length_take; lia). by rewrite lookup_take_lt. }
  rewrite lookup_app_r by (rewrite length_take; lia). rewrite length_take, Nat.min_l by lia.
  destruct (decide (j < start + len)%nat).
  - rewrite lookup_app_l by (rewrite length_replicate; lia).
    rewrite Hz by lia. symmetry. apply lookup_replicate. split; [done|lia].
  - rewrite lookup_app_r by (rewrite length_replicate; lia).
    rewrite length_replicate, lookup_drop. f_equal. lia.
Qed.

(** Octets and groups. *)
Lemma group_octets_pair a b : is_byte a -> is_byte b -> group_octets (a * 256 + b) = [a; b].
Proof.
  unfold is_byte, group_octets. intros Ha Hb.
  rewrite Z.div_add_l, Z.div_small, Z.add_0_r by lia.
  by rewrite Z.add_comm, Z.mod_add, Z.mod_small by lia.
Qed.

Lemma groups_octets octets :
  Forall is_byte octets -> Nat.even (length octets) = true ->
  concat (map group_octets (groups_of octets)) = octets /\
  Forall group_ok (groups_of octets) /\
  (2 * length (groups_of octets) = length octets)%nat.
Proof.
  remember (length octets) as n eqn:Hn. revert octets Hn.
  induction n as [n IH] using lt_wf_ind; intros [|a [|b rest]] -> Hb He; [done|done|].
  apply Forall_cons in Hb as [Ha Hb]. apply Forall_cons in Hb as [Hb Hr].
  destruct (IH (length rest)) with (octets := rest) as (H1 & H2 & H3); [simpl; lia|done..|].
  cbn [groups_of map concat length]. rewrite H1. split_and!.
  - by rewrite group_octets_pair.
  - constructor; [unfold is_byte, group_ok in *; lia|done].
  - lia.
Qed.

#[local] Arguments read_groups : simpl never.
#[local] Arguments fmt_sep : simpl never.

Lemma stops_gap rest : group_end (COLON :: COLON :: rest).
Proof. by split. Qed.

Lemma group_end_nil : group_end [].
Proof. by split. Qed.

(** Groups followed by the end of the text or by [::], at the start of a text. *)
Lemma read_groups_all gs room rest :
  Forall group_ok gs -> (length gs <= room)%nat ->
  rest = [] \/ (exists r, rest = COLON :: COLON :: r) ->
  read_groups room 0 (fmt_sep COLON fmt_hex16 gs ++ rest) = (gs, false, rest).
Proof.
  intros Hgs Hroom Hrest.
  assert (Hnil : forall m i, read_groups m i rest = ([], false, rest)).
  { intros m i. destruct Hrest as [->|[r ->]]; [apply read_groups_end|apply read_groups_gap]. }
  assert (group_end rest) by (destruct Hrest as [->|[r ->]]; [apply group_end_nil|apply stops_gap]).
  destruct gs as [|g gs]; [by apply Hnil|].
  replace room with (length (g :: gs) + (room - length (g :: gs)))%nat by lia.
  rewrite read_groups_sep by done. rewrite Hnil. by rewrite app_nil_r.
Qed.

Lemma read_ipv6_full gs :
  Forall group_ok gs -> length gs = 8%nat ->
  read_ipv6_addr (fmt_sep COLON fmt_hex16 gs) = Some (gs, []).
Proof.
  intros Hgs Hl. unfold read_ipv6_addr. rewrite <- (app_nil_r (fmt_sep _ _ _)).
  rewrite read_groups_all by (done || lia || auto). by rewrite Hl.
Qed.

Lemma read_ipv6_compressed hd tl :
  Forall group_ok hd -> Forall group_ok tl -> (length hd + length tl <= 7)%nat ->
  read_ipv6_addr (fmt_sep COLON fmt_hex16 hd ++ [COLON; COLON] ++ fmt_sep COLON fmt_hex16 tl)
  = Some (hd ++ replicate (8 - length hd - length tl) 0 ++ tl, []).
Proof.
  intros Hh Ht Hl. unfold read_ipv6_addr.
  rewrite read_groups_all by (done || lia || (right; eexists; reflexivity)).
  destruct (Nat.eqb_spec (length hd) 8); [lia|]. cbn.
  rewrite <- (app_nil_r (fmt_sep COLON fmt_hex16 tl)).
  rewrite read_groups_all by (done || lia || auto). done.
Qed.

Lemma read_ipv6_mapped a b c d :
  Forall is_byte [a; b; c; d] ->
  read_ipv6_addr ([COLON; COLON; 102; 102; 102; 102; COLON] ++ fmt_sep DOT fmt_u8 [a; b; c; d])
  = Some (replicate 5 0 ++ [65535; a * 256 + b; c * 256 + d], []).
Proof.
  intros Hb. unfold read_ipv6_addr.
  change ([COLON; COLON; 102; 102; 102; 102; COLON] ++ ?t)
    with (COLON :: COLON :: (fmt_hex16 65535 ++ [COLON] ++ t)).
  rewrite read_groups_gap. cbn.
  pose proof (read_groups_step 6 0 65535 ([COLON] ++ fmt_sep DOT fmt_u8 [a; b; c; d])) as Hstep.
  cbn [app] in Hstep. rewrite Hstep; [|unfold group_ok; lia|by split].
  assert (read_groups 6 1 (COLON :: fmt_sep DOT fmt_u8 [a; b; c; d])
          = ([a * 256 + b; c * 256 + d], true, [])) as ->; [|done].
  unfold read_groups; fold read_groups. cbn [Nat.ltb Nat.leb read_separator]. cbn.
  rewrite <- (app_nil_r (fmt_sep _ _ _)), read_ipv4_print by done. done.
Qed.

(** A text that starts with a group is not an IPv4 address. *)
Lemma fmt_groups_not_ipv4 gs rest :
  Forall group_ok gs -> (2 <= length gs)%nat \/ (exists r, rest = COLON :: COLON :: r) ->
  read_ipv4_addr (fmt_sep COLON fmt_hex16 gs ++ rest) = None.
Proof.
  intros Hgs Hr. apply read_ipv4_None. destruct gs as [|g gs]; unfold fmt_sep.
  { destruct Hr as [Hr|[r ->]]; [simpl in Hr; lia|done]. }
  apply Forall_cons in Hgs as [Hg Hgs]. rewrite <- app_assoc. fold (tail_groups gs).
  destruct gs as [|g' gs].
  - destruct Hr as [Hr|[r ->]]; [simpl in Hr; lia|]. by rewrite next_nonhex_hex.
  - by rewrite next_nonhex_hex.
Qed.

Lemma from_str_v4 octets :
  length octets = 4%nat -> Forall is_byte octets ->
  IpAddr_from_str (fmt_sep DOT fmt_u8 octets) = Some (V4 octets).
Proof.
  destruct octets as [|a [|b [|c [|d [|]]]]]; try done. intros _ Hb.
  unfold IpAddr_from_str. rewrite <- (app_nil_r (fmt_sep _ _ _)), read_ipv4_print by done. done.
Qed.

Lemma from_str_v6 octets :
  length octets = 16%nat -> Forall is_byte octets ->
  IpAddr_from_str (fmt_ipv6 octets) = Some (V6 octets).
Proof.
  intros Hl Hb. destruct (groups_octets octets) as (Ho & Hg & Hgl); [done|by rewrite Hl|].
  unfold fmt_ipv6. destruct (bool_decide_reflect (take 12 octets = replicate 10 0 ++ [255; 255])).
  { assert (exists a b c d, drop 12 octets = [a; b; c; d]) as (a & b & c & d & Hd).
    { pose proof (length_drop octets 12) as H. rewrite Hl in H.
      destruct (drop 12 octets) as [|? [|? [|? [|? [|]]]]]; try done. eauto. }
    assert (Forall is_byte [a; b; c; d]) as Hd4 by (rewrite <- Hd; by apply Forall_drop).
    rewrite Hd. unfold IpAddr_from_str. rewrite read_ipv4_None by done.
    rewrite read_ipv6_mapped by done. cbn [mbind option_bind]. f_equal. f_equal.
    rewrite <- (take_drop 12 octets), e, Hd. repeat (apply Forall_cons in Hd4 as [? Hd4]).
    cbn [replicate app map concat]. by rewrite !group_octets_pair by done. }
  assert (length (groups_of octets) = 8%nat) as Hg8 by lia.
  destruct (longest_zeroes 0 (0, 0)%nat (0, 0)%nat (groups_of octets)) as [start len] eqn:E.
  assert (Hrun : zero_run (groups_of octets) (start, len)).
  { rewrite <- E. apply (longest_zeroes_run []); [|done|]; (split; simpl; [lia|intros; lia]). }
  destruct (Nat.ltb_spec 1 len) as [Hlen|_]; unfold IpAddr_from_str.
  - rewrite fmt_groups_not_ipv4 by (by apply Forall_take || (right; eexists; reflexivity)).
    pose proof Hrun as [Hle _]; simpl in Hle.
    rewrite read_ipv6_compressed by (by apply Forall_take || by apply Forall_drop ||
      (rewrite length_take, length_drop; lia)).
    cbn [mbind option_bind].
    transitivity (Some (V6 (concat (map group_octets (groups_of octets))))); [|by rewrite Ho].
    do 4 f_equal. symmetry. etransitivity; [exact (zero_run_split _ _ _ Hrun)|]. do 3 f_equal.
    rewrite length_take, length_drop. lia.
  - rewrite <- (app_nil_r (fmt_sep _ _ _)) at 1. rewrite fmt_groups_not_ipv4 by (done || lia).
    rewrite read_ipv6_full by done. cbn [mbind option_bind]. by rewrite Ho.
Qed.

(** The size of the text and its bytes. *)
Lemma to_radix_bytes radix fuel n :
  2 <= radix <= 36 -> 0 <= n ->
  (length (to_radix radix fuel n) <= fuel)%nat /\
  Forall (fun b => in_rng 46 122 b = true) (to_radix radix fuel n).
Proof.
  intros Hr. revert n. induction fuel as [|fuel IH]; intros n Hn; [done|].
  assert (Hd : forall d, 0 <= d < radix -> in_rng 46 122 (digit_char d) = true).
  { intros d Hd. unfold in_rng, digit_char. destruct (Z.ltb_spec d 10); lia. }
  unfold to_radix; fold to_radix. destruct (Z.ltb_spec n radix).
  { split; [simpl; lia|]. repeat constructor. apply Hd. lia. }
  destruct (IH (n / radix)) as [IHl IHb]; [apply Z.div_pos; lia|].
  rewrite length_app, Forall_app. simpl. split; [lia|]. split; [done|].
  repeat constructor. apply Hd, Z.mod_pos_bound. lia.
Qed.

Lemma fmt_sep_bytes sep f k l :
  in_rng 46 122 sep = true ->
  Forall (fun x => (length (f x) <= k)%nat /\ Forall (fun b => in_rng 46 122 b = true) (f x)) l ->
  (length (fmt_sep sep f l) <= length l * S k - 1)%nat /\
  Forall (fun b => in_rng 46 122 b = true) (fmt_sep sep f l).
Proof.
  intros Hs Hl. destruct Hl as [|x l [Hx1 Hx2] Hl]; [done|]. unfold fmt_sep.
  rewrite length_app, Forall_app. simpl.
  assert ((length (concat (map (fun y => sep :: f y) l)) <= length l * S k)%nat /\
    Forall (fun b => in_rng 46 122 b = true) (concat (map (fun y => sep :: f y) l))) as [H1 H2].
  { clear x Hx1 Hx2. induction Hl as [|x l [Hx1 Hx2] Hl [IH1 IH2]]; simpl; [done|].
    rewrite length_app. split; [lia|]. constructor; [done|]. by apply Forall_app. }
  split; [lia|]. split; done.
Qed.

Lemma fmt_octets_bytes l :
  Forall is_byte l ->
  (length (fmt_sep DOT fmt_u8 l) <= length l * 4 - 1)%nat /\
  Forall (fun b => in_rng 46 122 b = true) (fmt_sep DOT fmt_u8 l).
Proof.
  intros Hl. apply fmt_sep_bytes; [done|]. eapply Forall_impl; [exact Hl|].
  intros x Hx. unfold is_byte in Hx. apply to_radix_bytes; lia.
Qed.

Lemma fmt_groups_bytes l :
  Forall group_ok l ->
  (length (fmt_sep COLON fmt_hex16 l) <= length l * 5 - 1)%nat /\
  Forall (fun b => in_rng 46 122 b = true) (fmt_sep COLON fmt_hex16 l).
Proof.
  intros Hl. apply fmt_sep_bytes; [done|]. eapply Forall_impl; [exact Hl|].
  intros x Hx. unfold group_ok in Hx. apply to_radix_bytes; lia.
Qed.

Lemma to_string_bytes ip :
  IpAddr_ok ip ->
  (length (to_string ip) <= 45)%nat /\ Forall (fun b => in_rng 46 122 b = true) (to_string ip).
Proof.
  destruct ip as [o|o]; intros [Hl Hb]; unfold to_string.
  { destruct (fmt_octets_bytes o Hb) as [H1 H2]. rewrite Hl in H1. split; [simpl in H1; lia|done]. }
  destruct (groups_octets o) as (_ & Hg & Hgl); [done|by rewrite Hl|].
  unfold fmt_ipv6. destruct (bool_decide _).
  { destruct (fmt_octets_bytes (drop 12 o)) as [H1 H2]; [by apply Forall_drop|].
    rewrite length_drop, Hl in H1. rewrite length_app, Forall_app. cbn [length] in *.
    split; [lia|]. split; [by repeat constructor|done]. }
  destruct (longest_zeroes _ _ _ _) as [start len]. destruct (1 <? len)%nat.
  - destruct (fmt_groups_bytes (take start (groups_of o))) as [H1 H2]; [by apply Forall_take|].
    destruct (fmt_groups_bytes (drop (start + len) (groups_of o))) as [H3 H4]; [by apply Forall_drop|].
    rewrite length_take in H1. rewrite length_drop in H3. rewrite !length_app, !Forall_app.
    cbn [length]. split; [lia|]. split_and!; [done|by repeat constructor|done].
  - destruct (fmt_groups_bytes (groups_of o)) as [H1 H2]; [done|]. split; [lia|done].
Qed.

Lemma utf8_ascii l : Forall (fun b => in_rng 0 127 b = true) l -> utf8_valid l = true.
Proof. induction 1 as [|b l Hb Hl IH]; simpl; [done|]. by rewrite Hb. Qed.

Lemma length_as_bytes s : length (as_bytes s) = String.length s.
Proof.
  unfold as_bytes. rewrite length_map. induction s as [|c s IH]; simpl; [done|]. by rewrite IH.
Qed.

(** The parser reads back what was printed, which is therefore not empty. *)
Lemma from_str_to_string ip : IpAddr_ok ip -> IpAddr_from_str (to_string ip) = Some ip.
Proof. destruct ip as [o|o]; intros [Hl Hb]; [by apply from_str_v4|by apply from_str_v6]. Qed.

Lemma to_string_nonempty ip : IpAddr_ok ip -> to_string ip <> [].
Proof. intros H%from_str_to_string E. rewrite E in H. by vm_compute in H. Qed.

(** ** Properties *)

(** The text of an IP address, compressed and IPv4-mapped IPv6 forms
    included, is parsed back to the same address, by the Rust parser and through
    the C function; with its final NUL it fits the 46 bytes of the caller's
    buffer ([CASS_INET_STRING_LENGTH]), so that [cass_inet_string] stays in
    bounds. *)
Theorem ip_text_roundtrip (ip : IpAddr) (s : String.string) :
  IpAddr_ok ip ->
  as_bytes s = to_string ip ->
  IpAddr_from_str (as_bytes s) = Some ip /\
  cass_inet_from_string_n (Some s) (String.length s) = (CASS_OK, Some (CassInet_from ip)) /\
  cass_inet_string (CassInet_from ip) = as_bytes s ++ [0] /\
  (length (cass_inet_string (CassInet_from ip)) <= 46)%nat.
Proof.
  intros Hok Hs. destruct (to_string_bytes ip Hok) as [Hlen Hascii].
  assert (Hf : IpAddr_from_str (as_bytes s) = Some ip).
  { rewrite Hs. by apply from_str_to_string. }
  assert (Hc : cass_inet_string (CassInet_from ip) = as_bytes s ++ [0]).
  { unfold cass_inet_string. by rewrite IpAddr_roundtrip, Hs. }
  split; [done|]. split; [|split; [done|]].
  - unfold cass_inet_from_string_n, to_str, from_utf8. rewrite substring_all.
    rewrite utf8_ascii by (rewrite Hs; eapply Forall_impl; [exact Hascii|]; intros b; unfold in_rng; lia). by rewrite Hf.
  - rewrite Hc, length_app, Hs. simpl. lia.
Qed.

(** The documentation address 2001:db8::1. *)
Definition ip_doc : IpAddr := V6 [32; 1; 13; 184; 0; 0; 0; 0; 0; 0; 0; 0; 0; 0; 0; 1].

Lemma ip_text_roundtrip_witness :
  IpAddr_from_str (as_bytes "2001:db8::1") =
    Some ip_doc /\
  (length (cass_inet_string
     (CassInet_from ip_doc)) <= 46)%nat.
Proof.
  destruct (ip_text_roundtrip ip_doc
    "2001:db8::1") as (H & _ & _ & H').
  - split; [reflexivity|]. repeat (constructor; [unfold is_byte; lia|]). constructor.
  - vm_compute. reflexivity.
  - split; [exact H|exact H'].
Defined.
