(* ===== verification/ConfigValue.v ===== *)
(** * Configuration values with an "unset" encoding (config_value.rs)

    The trait [MaybeUnsetConfigValue] is a class, its implementations are
    instances; the setters of clusters, profiles, statements and batches go
    through [from_c_value]. *)

From Stdlib Require Import ZArith Lia.
From stdpp Require Import base tactics.
From S2P Require Import Prelude Types.

Open Scope Z_scope.

Inductive MaybeUnsetConfig (T : Type) := Unset | SetTo (t : T).
Arguments Unset {T}.
Arguments SetTo {T} t.

Class MaybeUnsetConfigValue (CValue T E : Type) := {
  is_unset : CValue -> bool;
  from_set_c_value : CValue -> result E T
}.

Definition from_c_value {CValue T E} `{MaybeUnsetConfigValue CValue T E} (cvalue : CValue)
  : result E (MaybeUnsetConfig T) :=
  if is_unset cvalue then Ok Unset
  else match from_set_c_value cvalue with Ok v => Ok (SetTo v) | Err e => Err e end.

(** Enumerations of the Rust driver. *)
Inductive Consistency :=
| Any | One | Two | Three | Quorum | All | LocalQuorum | EachQuorum | LocalOne
| LocalSerial | Serial.

Inductive SerialConsistency := SCSerial | SCLocalSerial.

#[global] Instance Consistency_eq_dec : EqDecision Consistency.
Proof. solve_decision. Defined.

Definition consistency_from_set (cvalue : CassConsistency) : result unit Consistency :=
  match cvalue with
  | CASS_CONSISTENCY_ANY => Ok Any
  | CASS_CONSISTENCY_ONE => Ok One
  | CASS_CONSISTENCY_TWO => Ok Two
  | CASS_CONSISTENCY_THREE => Ok Three
  | CASS_CONSISTENCY_QUORUM => Ok Quorum
  | CASS_CONSISTENCY_ALL => Ok All
  | CASS_CONSISTENCY_LOCAL_QUORUM => Ok LocalQuorum
  | CASS_CONSISTENCY_EACH_QUORUM => Ok EachQuorum
  | CASS_CONSISTENCY_LOCAL_ONE => Ok LocalOne
  | CASS_CONSISTENCY_LOCAL_SERIAL => Ok LocalSerial
  | CASS_CONSISTENCY_SERIAL => Ok Serial
  | CASS_CONSISTENCY_UNKNOWN | CassConsistency_other _ => Err tt
  end.

#[global] Instance consistency_config : MaybeUnsetConfigValue CassConsistency Consistency unit := {|
  is_unset c := bool_decide (c = CASS_CONSISTENCY_UNKNOWN);
  from_set_c_value := consistency_from_set
|}.

Definition serial_consistency_from_set (cvalue : CassConsistency)
  : result unit (option SerialConsistency) :=
  match cvalue with
  | CASS_CONSISTENCY_ANY => Ok None
  | CASS_CONSISTENCY_LOCAL_SERIAL => Ok (Some SCLocalSerial)
  | CASS_CONSISTENCY_SERIAL => Ok (Some SCSerial)
  | _ => Err tt
  end.

#[global] Instance serial_consistency_config :
  MaybeUnsetConfigValue CassConsistency (option SerialConsistency) unit := {|
  is_unset c := bool_decide (c = CASS_CONSISTENCY_UNKNOWN);
  from_set_c_value := serial_consistency_from_set
|}.

(** A duration is its number of milliseconds; [Duration::MAX] is an infinite
    timeout, which no number of milliseconds passed from C denotes. *)
Inductive Duration := Millis (ms : Z) | INFINITE.

Definition RequestTimeout : Type := option Duration.

#[global] Instance request_timeout_config :
  MaybeUnsetConfigValue Z RequestTimeout Empty_set := {|
  is_unset c := c =? 2 ^ 64 - 1;
  from_set_c_value c := Ok (if negb (c =? 0) then Some (Millis c) else None)
|}.

(** Retry policies (retry_policy.rs).  The three leaf policies are objects of the
    Rust driver; a logging policy wraps a child. *)
Inductive CassRetryPolicy :=
| RetryDefault
| RetryFallthrough
| RetryDowngradingConsistency
| RetryLogging (child : CassRetryPolicy).

(** [None] is the null pointer; [Err] stands for the panic of the [expect] call. *)
#[global] Instance retry_policy_config :
  MaybeUnsetConfigValue (option CassRetryPolicy) CassRetryPolicy unit := {|
  is_unset c := match c with None => true | Some _ => false end;
  from_set_c_value c := match c with Some p => Ok p | None => Err tt end
|}.

(** The retry policy a setter stores: [None] clears it. *)
Definition retry_policy_opt (p : option CassRetryPolicy) : outcome (option CassRetryPolicy) :=
  match from_c_value p with
  | Ok (SetTo retry_policy) => Ret (Some retry_policy)
  | Ok Unset => Ret None
  | Err _ => Panic
  end.

(** [from_c_value_infallible], for a type whose conversion cannot fail. *)
Definition from_c_value_infallible {CValue T} `{MaybeUnsetConfigValue CValue T Empty_set}
    (cvalue : CValue) : MaybeUnsetConfig T :=
  match from_c_value cvalue with
  | Ok v => v
  | Err never => match (never : Empty_set) with end
  end.

(** [From<Consistency> for CassConsistency] (cass_error.rs). *)
Definition CassConsistency_from (c : Consistency) : CassConsistency :=
  match c with
  | Any => CASS_CONSISTENCY_ANY
  | One => CASS_CONSISTENCY_ONE
  | Two => CASS_CONSISTENCY_TWO
  | Three => CASS_CONSISTENCY_THREE
  | Quorum => CASS_CONSISTENCY_QUORUM
  | All => CASS_CONSISTENCY_ALL
  | LocalQuorum => CASS_CONSISTENCY_LOCAL_QUORUM
  | EachQuorum => CASS_CONSISTENCY_EACH_QUORUM
  | LocalOne => CASS_CONSISTENCY_LOCAL_ONE
  | LocalSerial => CASS_CONSISTENCY_LOCAL_SERIAL
  | Serial => CASS_CONSISTENCY_SERIAL
  end.

(** A consistency level of the Rust driver is encoded in C and decoded to
    itself, no other C value decodes to it, and exactly UNKNOWN means unset; a
    null retry policy means unset and never reaches the panicking branch. *)
Theorem consistency_config_roundtrip (c : Consistency) (x : CassConsistency)
    (p : option CassRetryPolicy) :
  from_c_value (CassConsistency_from c) = Ok (SetTo c) /\
  (from_c_value (T := Consistency) x = Ok (SetTo c) -> x = CassConsistency_from c) /\
  (from_c_value (T := Consistency) x = Ok Unset <-> x = CASS_CONSISTENCY_UNKNOWN) /\
  retry_policy_opt p = Ret p.
Proof.
  split; [by destruct c|]. split; [destruct x; by intros [= <-]|].
  split; [by destruct x|by destruct p].
Qed.
