(* ===== verification/Errors.v ===== *)
(** * Errors (cass_error.rs, cql_types/mod.rs)

    The errors of the Rust driver, the C code each of them is reported as, and the
    details a client reads from an error result.  An error enumeration of the driver
    that is marked non-exhaustive has a constructor [..._unknown] for the variants the
    catch-all branches of the source match; payloads the source ignores are left out. *)

From Stdlib Require Import ZArith Lia String Ascii.
From stdpp Require Import base list strings.
From S2P Require Import Prelude Types ArgConv ConfigValue.

Open Scope Z_scope.

(** ** Codes as numbers *)

Definition named_errors : list CassError :=
  [CASS_OK; CASS_ERROR_LIB_BAD_PARAMS; CASS_ERROR_LIB_NO_STREAMS; CASS_ERROR_LIB_UNABLE_TO_INIT;
   CASS_ERROR_LIB_MESSAGE_ENCODE; CASS_ERROR_LIB_HOST_RESOLUTION;
   CASS_ERROR_LIB_UNEXPECTED_RESPONSE; CASS_ERROR_LIB_REQUEST_QUEUE_FULL;
   CASS_ERROR_LIB_NO_AVAILABLE_IO_THREAD; CASS_ERROR_LIB_WRITE_ERROR;
   CASS_ERROR_LIB_NO_HOSTS_AVAILABLE; CASS_ERROR_LIB_INDEX_OUT_OF_BOUNDS;
   CASS_ERROR_LIB_INVALID_ITEM_COUNT; CASS_ERROR_LIB_INVALID_VALUE_TYPE;
   CASS_ERROR_LIB_REQUEST_TIMED_OUT; CASS_ERROR_LIB_UNABLE_TO_SET_KEYSPACE;
   CASS_ERROR_LIB_CALLBACK_ALREADY_SET; CASS_ERROR_LIB_INVALID_STATEMENT_TYPE;
   CASS_ERROR_LIB_NAME_DOES_NOT_EXIST; CASS_ERROR_LIB_UNABLE_TO_DETERMINE_PROTOCOL;
   CASS_ERROR_LIB_NULL_VALUE; CASS_ERROR_LIB_NOT_IMPLEMENTED; CASS_ERROR_LIB_UNABLE_TO_CONNECT;
   CASS_ERROR_LIB_UNABLE_TO_CLOSE; CASS_ERROR_LIB_NO_PAGING_STATE; CASS_ERROR_LIB_PARAMETER_UNSET;
   CASS_ERROR_LIB_INVALID_ERROR_RESULT_TYPE; CASS_ERROR_LIB_INVALID_FUTURE_TYPE;
   CASS_ERROR_LIB_INTERNAL_ERROR; CASS_ERROR_LIB_INVALID_CUSTOM_TYPE; CASS_ERROR_LIB_INVALID_DATA;
   CASS_ERROR_LIB_NOT_ENOUGH_DATA; CASS_ERROR_LIB_INVALID_STATE; CASS_ERROR_LIB_NO_CUSTOM_PAYLOAD;
   CASS_ERROR_LIB_EXECUTION_PROFILE_INVALID; CASS_ERROR_LIB_NO_TRACING_ID;
   CASS_ERROR_SERVER_SERVER_ERROR; CASS_ERROR_SERVER_PROTOCOL_ERROR;
   CASS_ERROR_SERVER_BAD_CREDENTIALS; CASS_ERROR_SERVER_UNAVAILABLE; CASS_ERROR_SERVER_OVERLOADED;
   CASS_ERROR_SERVER_IS_BOOTSTRAPPING; CASS_ERROR_SERVER_TRUNCATE_ERROR;
   CASS_ERROR_SERVER_WRITE_TIMEOUT; CASS_ERROR_SERVER_READ_TIMEOUT; CASS_ERROR_SERVER_READ_FAILURE;
   CASS_ERROR_SERVER_FUNCTION_FAILURE; CASS_ERROR_SERVER_WRITE_FAILURE;
   CASS_ERROR_SERVER_SYNTAX_ERROR; CASS_ERROR_SERVER_UNAUTHORIZED; CASS_ERROR_SERVER_INVALID_QUERY;
   CASS_ERROR_SERVER_CONFIG_ERROR; CASS_ERROR_SERVER_ALREADY_EXISTS; CASS_ERROR_SERVER_UNPREPARED;
   CASS_ERROR_SSL_INVALID_CERT; CASS_ERROR_SSL_INVALID_PRIVATE_KEY; CASS_ERROR_SSL_NO_PEER_CERT;
   CASS_ERROR_SSL_INVALID_PEER_CERT; CASS_ERROR_SSL_IDENTITY_MISMATCH;
   CASS_ERROR_SSL_PROTOCOL_ERROR; CASS_ERROR_SSL_CLOSED].

(** [CassError(code)]: the code with this number. *)
Definition CassError_from (n : Z) : CassError :=
  match find (fun e => CassError_code e =? n) named_errors with
  | Some e => e
  | None => CassError_other n
  end.

(** The last enumerator of the header, one past [CASS_ERROR_SSL_CLOSED]. *)
Definition CASS_ERROR_LAST_ENTRY : CassError :=
  CassError_from (CassError_code CASS_ERROR_SSL_CLOSED + 1).

(** ** Write types *)

Inductive WriteType :=
| WSimple | WBatch | WUnloggedBatch | WCounter | WBatchLog | WCas | WView | WCdc
| WOther (name : string).

Inductive CassWriteType :=
| CASS_WRITE_TYPE_UNKNOWN
| CASS_WRITE_TYPE_SIMPLE
| CASS_WRITE_TYPE_BATCH
| CASS_WRITE_TYPE_UNLOGGED_BATCH
| CASS_WRITE_TYPE_COUNTER
| CASS_WRITE_TYPE_BATCH_LOG
| CASS_WRITE_TYPE_CAS
| CASS_WRITE_TYPE_VIEW
| CASS_WRITE_TYPE_CDC
| CassWriteType_other (n : Z).

Definition CassWriteType_from (c : WriteType) : CassWriteType :=
  match c with
  | WSimple => CASS_WRITE_TYPE_SIMPLE
  | WBatch => CASS_WRITE_TYPE_BATCH
  | WUnloggedBatch => CASS_WRITE_TYPE_UNLOGGED_BATCH
  | WCounter => CASS_WRITE_TYPE_COUNTER
  | WBatchLog => CASS_WRITE_TYPE_BATCH_LOG
  | WCas => CASS_WRITE_TYPE_CAS
  | WView => CASS_WRITE_TYPE_VIEW
  | WCdc => CASS_WRITE_TYPE_CDC
  | WOther _ => CASS_WRITE_TYPE_UNKNOWN
  end.

Definition write_type_as_cstr (w : CassWriteType) : string :=
  match w with
  | CASS_WRITE_TYPE_SIMPLE => "SIMPLE"
  | CASS_WRITE_TYPE_BATCH => "BATCH"
  | CASS_WRITE_TYPE_UNLOGGED_BATCH => "UNLOGGED_BATCH"
  | CASS_WRITE_TYPE_COUNTER => "COUNTER"
  | CASS_WRITE_TYPE_BATCH_LOG => "BATCH_LOG"
  | CASS_WRITE_TYPE_CAS => "CAS"
  | CASS_WRITE_TYPE_VIEW => "VIEW"
  | CASS_WRITE_TYPE_CDC => "CDC"
  | _ => EmptyString
  end%string.

Definition cass_write_type_string (w : CassWriteType) : string := write_type_as_cstr w.

Definition consistency_as_cstr (c : CassConsistency) : string :=
  match c with
  | CASS_CONSISTENCY_UNKNOWN => "UNKNOWN"
  | CASS_CONSISTENCY_ANY => "ANY"
  | CASS_CONSISTENCY_ONE => "ONE"
  | CASS_CONSISTENCY_TWO => "TWO"
  | CASS_CONSISTENCY_THREE => "THREE"
  | CASS_CONSISTENCY_QUORUM => "QUORUM"
  | CASS_CONSISTENCY_ALL => "ALL"
  | CASS_CONSISTENCY_LOCAL_QUORUM => "LOCAL_QUORUM"
  | CASS_CONSISTENCY_EACH_QUORUM => "EACH_QUORUM"
  | CASS_CONSISTENCY_SERIAL => "SERIAL"
  | CASS_CONSISTENCY_LOCAL_SERIAL => "LOCAL_SERIAL"
  | CASS_CONSISTENCY_LOCAL_ONE => "LOCAL_ONE"
  | CassConsistency_other _ => EmptyString
  end%string.

Definition cass_consistency_string (c : CassConsistency) : string := consistency_as_cstr c.

(** ** The errors of the driver *)

(** [SerializationError] wraps any error; the source looks for its own. *)
Inductive SerializationError := UnknownNamedParameterError | OtherSerializationError.

Inductive DbError :=
| ServerError
| ProtocolError
| AuthenticationError
| Unavailable (consistency : Consistency) (required alive : Z)
| Overloaded
| IsBootstrapping
| TruncateError
| WriteTimeout (consistency : Consistency) (received required : Z) (write_type : WriteType)
| ReadTimeout (consistency : Consistency) (received required : Z) (data_present : bool)
| ReadFailure (consistency : Consistency) (received required numfailures : Z) (data_present : bool)
| FunctionFailure (keyspace function : string) (arg_types : list string)
| WriteFailure (consistency : Consistency) (received required numfailures : Z)
    (write_type : WriteType)
| SyntaxError
| Unauthorized
| Invalid
| DbConfigError
| AlreadyExists (keyspace table : string)
| Unprepared
| DbOther (num : Z)
| RateLimitReached
| DbError_unknown.

Inductive RequestAttemptError :=
| AttemptSerializationError (e : SerializationError)
| CqlRequestSerialization
| UnableToAllocStreamId
| BrokenConnectionError
| BodyExtensionsParseError
| CqlResultParseError
| CqlErrorParseError
| AttemptDbError (e : DbError) (reason : string)
| UnexpectedResponse
| RepreparedIdChanged
| RepreparedIdMissingInBatch
| NonfinishedPagingState
| RequestAttemptError_unknown.

(** Every [ConnectionPoolError] is reported alike. *)
Inductive ConnectionPoolError := AnyConnectionPoolError.

Inductive PrepareError :=
| PrepareConnectionPoolError (e : ConnectionPoolError)
| AllAttemptsFailed (first_attempt : RequestAttemptError)
| PreparedStatementIdsMismatch
| PrepareError_unknown.

Inductive RequestError :=
| RequestEmptyPlan
| RequestConnectionPoolError (e : ConnectionPoolError)
| RequestRequestTimeout
| RequestLastAttemptError (e : RequestAttemptError)
| RequestError_unknown.

Inductive NextPageError :=
| PartitionKeyError
| RequestFailure (e : RequestError)
| ResultMetadataParseError
| NextPageError_unknown.

Inductive NextRowError :=
| NextRowNextPageError (e : NextPageError)
| RowDeserializationError
| NextRowError_unknown.

Inductive MetadataFetchErrorKind :=
| InvalidColumnType
| FetchPrepareError (e : PrepareError)
| FetchSerializationError (e : SerializationError)
| FetchNextRowError (e : NextRowError)
| MetadataFetchErrorKind_unknown.

Inductive MetadataError :=
| MetadataConnectionPoolError (e : ConnectionPoolError)
| FetchError (error : MetadataFetchErrorKind)
| KeyspacesError
| PeersError
| TablesError
| UdtsError
| MetadataError_unknown.

Inductive BadQuery :=
| ValuesTooLongForKey (n max : Z)
| PartitionKeyExtraction
| BadQuerySerializationError (e : SerializationError)
| TooManyQueriesInBatchStatement (n : Z)
| BadQuery_unknown.

Inductive ExecutionError :=
| ExecBadQuery (e : BadQuery)
| ExecRequestTimeout
| EmptyPlan
| ExecMetadataError (e : MetadataError)
| ExecConnectionPoolError (e : ConnectionPoolError)
| ExecPrepareError (e : PrepareError)
| LastAttemptError (e : RequestAttemptError)
| ExecUseKeyspaceError
| SchemaAgreementError
| ExecutionError_unknown.

Inductive NewSessionError :=
| FailedToResolveAnyHostname
| EmptyKnownNodesList
| NewSessionMetadataError (e : MetadataError)
| NewSessionUseKeyspaceError
| NewSessionError_unknown.

Inductive BadKeyspaceName := KeyspaceEmpty | KeyspaceTooLong | KeyspaceIllegalCharacter
| BadKeyspaceName_unknown.

(** [CassErrorResult]. *)
Inductive CassErrorResult :=
| Execution (e : ExecutionError)
| ResultMetadataLazyDeserialization
| Deserialization.

(** ** [ToCassError] *)

(** Each error type says the code it is reported as. *)
Class ToCassError (E : Type) := to_cass_error : E -> CassError.

Definition serialization_error_code (e : SerializationError) : CassError :=
  match e with
  | UnknownNamedParameterError => CASS_ERROR_LIB_NAME_DOES_NOT_EXIST
  | OtherSerializationError => CASS_ERROR_LIB_INVALID_DATA
  end.
#[export] Instance serialization_error_code_of : ToCassError SerializationError := serialization_error_code.

(** [CassError((source << 24) | (num as u32))]. *)
Definition other_db_error (num : Z) : CassError :=
  let source := wrap_u 32 CASS_ERROR_SOURCE_SERVER in
  CassError_from (Z.lor (wrap_u 32 (Z.shiftl source 24)) (wrap_u 32 num)).

Definition db_error_code (e : DbError) : CassError :=
  match e with
  | ServerError => CASS_ERROR_SERVER_SERVER_ERROR
  | ProtocolError => CASS_ERROR_SERVER_PROTOCOL_ERROR
  | AuthenticationError => CASS_ERROR_SERVER_BAD_CREDENTIALS
  | Unavailable _ _ _ => CASS_ERROR_SERVER_UNAVAILABLE
  | Overloaded => CASS_ERROR_SERVER_OVERLOADED
  | IsBootstrapping => CASS_ERROR_SERVER_IS_BOOTSTRAPPING
  | TruncateError => CASS_ERROR_SERVER_TRUNCATE_ERROR
  | WriteTimeout _ _ _ _ => CASS_ERROR_SERVER_WRITE_TIMEOUT
  | ReadTimeout _ _ _ _ => CASS_ERROR_SERVER_READ_TIMEOUT
  | ReadFailure _ _ _ _ _ => CASS_ERROR_SERVER_READ_FAILURE
  | FunctionFailure _ _ _ => CASS_ERROR_SERVER_FUNCTION_FAILURE
  | WriteFailure _ _ _ _ _ => CASS_ERROR_SERVER_WRITE_FAILURE
  | SyntaxError => CASS_ERROR_SERVER_SYNTAX_ERROR
  | Unauthorized => CASS_ERROR_SERVER_UNAUTHORIZED
  | Invalid => CASS_ERROR_SERVER_INVALID_QUERY
  | DbConfigError => CASS_ERROR_SERVER_CONFIG_ERROR
  | AlreadyExists _ _ => CASS_ERROR_SERVER_ALREADY_EXISTS
  | Unprepared => CASS_ERROR_SERVER_UNPREPARED
  | DbOther num => other_db_error num
  | RateLimitReached => CASS_ERROR_SERVER_UNAVAILABLE
  | DbError_unknown => CASS_ERROR_LAST_ENTRY
  end.
#[export] Instance db_error_code_of : ToCassError DbError := db_error_code.

Definition attempt_error_code (e : RequestAttemptError) : CassError :=
  match e with
  | AttemptSerializationError e => to_cass_error e
  | CqlRequestSerialization => CASS_ERROR_LIB_MESSAGE_ENCODE
  | UnableToAllocStreamId => CASS_ERROR_LIB_NO_STREAMS
  | BrokenConnectionError => CASS_ERROR_LIB_NO_HOSTS_AVAILABLE
  | BodyExtensionsParseError | CqlResultParseError | CqlErrorParseError =>
      CASS_ERROR_LIB_INVALID_DATA
  | AttemptDbError db_error _ => to_cass_error db_error
  | UnexpectedResponse => CASS_ERROR_LIB_UNEXPECTED_RESPONSE
  | RepreparedIdChanged | RepreparedIdMissingInBatch | NonfinishedPagingState =>
      CASS_ERROR_LIB_INVALID_STATE
  | RequestAttemptError_unknown => CASS_ERROR_LAST_ENTRY
  end.
#[export] Instance attempt_error_code_of : ToCassError RequestAttemptError := attempt_error_code.

Definition connection_pool_error_code (e : ConnectionPoolError) : CassError :=
  CASS_ERROR_LIB_NO_HOSTS_AVAILABLE.
#[export] Instance connection_pool_error_code_of : ToCassError ConnectionPoolError := connection_pool_error_code.

Definition prepare_error_code (e : PrepareError) : CassError :=
  match e with
  | PrepareConnectionPoolError e => to_cass_error e
  | AllAttemptsFailed first_attempt => to_cass_error first_attempt
  | PreparedStatementIdsMismatch => CASS_ERROR_SERVER_PROTOCOL_ERROR
  | PrepareError_unknown => CASS_ERROR_LAST_ENTRY
  end.
#[export] Instance prepare_error_code_of : ToCassError PrepareError := prepare_error_code.

Definition metadata_error_code (e : MetadataError) : CassError :=
  match e with
  | MetadataConnectionPoolError e => to_cass_error e
  | FetchError InvalidColumnType => CASS_ERROR_LIB_UNEXPECTED_RESPONSE
  | FetchError (FetchPrepareError e) => to_cass_error e
  | FetchError (FetchSerializationError e) => to_cass_error e
  | FetchError (FetchNextRowError (NextRowNextPageError next_page_error)) =>
      match next_page_error with
      | PartitionKeyError => CASS_ERROR_LIB_MESSAGE_ENCODE
      | RequestFailure RequestEmptyPlan => CASS_ERROR_LIB_NO_HOSTS_AVAILABLE
      | RequestFailure (RequestConnectionPoolError e) => to_cass_error e
      | RequestFailure RequestRequestTimeout => CASS_ERROR_LIB_REQUEST_TIMED_OUT
      | RequestFailure (RequestLastAttemptError e) => to_cass_error e
      | RequestFailure RequestError_unknown => CASS_ERROR_LAST_ENTRY
      | ResultMetadataParseError => CASS_ERROR_LIB_INVALID_DATA
      | NextPageError_unknown => CASS_ERROR_LAST_ENTRY
      end
  | FetchError (FetchNextRowError RowDeserializationError) => CASS_ERROR_LIB_INVALID_DATA
  | FetchError (FetchNextRowError NextRowError_unknown) => CASS_ERROR_LAST_ENTRY
  | FetchError MetadataFetchErrorKind_unknown => CASS_ERROR_LAST_ENTRY
  | KeyspacesError | PeersError | TablesError | UdtsError => CASS_ERROR_LIB_UNEXPECTED_RESPONSE
  | MetadataError_unknown => CASS_ERROR_LAST_ENTRY
  end.
#[export] Instance metadata_error_code_of : ToCassError MetadataError := metadata_error_code.

Definition bad_query_code (e : BadQuery) : CassError :=
  match e with
  | ValuesTooLongForKey _ _ => CASS_ERROR_LIB_MESSAGE_ENCODE
  | PartitionKeyExtraction => CASS_ERROR_LIB_MESSAGE_ENCODE
  | BadQuerySerializationError e => to_cass_error e
  | TooManyQueriesInBatchStatement _ => CASS_ERROR_LIB_MESSAGE_ENCODE
  | BadQuery_unknown => CASS_ERROR_LAST_ENTRY
  end.
#[export] Instance bad_query_code_of : ToCassError BadQuery := bad_query_code.

Definition execution_error_code (e : ExecutionError) : CassError :=
  match e with
  | ExecBadQuery bad_query => to_cass_error bad_query
  | ExecRequestTimeout => CASS_ERROR_LIB_REQUEST_TIMED_OUT
  | EmptyPlan => CASS_ERROR_LIB_NO_HOSTS_AVAILABLE
  | ExecMetadataError e => to_cass_error e
  | ExecConnectionPoolError e => to_cass_error e
  | ExecPrepareError e => to_cass_error e
  | LastAttemptError e => to_cass_error e
  | ExecUseKeyspaceError => CASS_ERROR_LIB_UNABLE_TO_SET_KEYSPACE
  | SchemaAgreementError => CASS_ERROR_LIB_INVALID_STATE
  | ExecutionError_unknown => CASS_ERROR_LAST_ENTRY
  end.
#[export] Instance execution_error_code_of : ToCassError ExecutionError := execution_error_code.

Definition new_session_error_code (e : NewSessionError) : CassError :=
  match e with
  | FailedToResolveAnyHostname => CASS_ERROR_LIB_NO_HOSTS_AVAILABLE
  | EmptyKnownNodesList => CASS_ERROR_LIB_NO_HOSTS_AVAILABLE
  | NewSessionMetadataError e => to_cass_error e
  | NewSessionUseKeyspaceError => CASS_ERROR_LIB_UNABLE_TO_SET_KEYSPACE
  | NewSessionError_unknown => CASS_ERROR_LAST_ENTRY
  end.
#[export] Instance new_session_error_code_of : ToCassError NewSessionError := new_session_error_code.

Definition bad_keyspace_name_code (e : BadKeyspaceName) : CassError :=
  match e with
  | KeyspaceEmpty | KeyspaceTooLong | KeyspaceIllegalCharacter =>
      CASS_ERROR_LIB_UNABLE_TO_SET_KEYSPACE
  | BadKeyspaceName_unknown => CASS_ERROR_LAST_ENTRY
  end.
#[export] Instance bad_keyspace_name_code_of : ToCassError BadKeyspaceName := bad_keyspace_name_code.

Definition error_result_code (e : CassErrorResult) : CassError :=
  match e with
  | Execution execution_error => to_cass_error execution_error
  | ResultMetadataLazyDeserialization => CASS_ERROR_LIB_INVALID_DATA
  | Deserialization => CASS_ERROR_LIB_INVALID_DATA
  end.
#[export] Instance error_result_code_of : ToCassError CassErrorResult := error_result_code.

(** ** Details of an error result *)

Notation error_ptr := (option CassErrorResult).

Definition cass_error_result_code (error_result : error_ptr) : CassError :=
  match error_result with
  | None => CASS_ERROR_LIB_BAD_PARAMS
  | Some error_result => to_cass_error error_result
  end.

Definition cass_error_result_consistency (error_result : error_ptr) : CassConsistency :=
  match error_result with
  | None => CASS_CONSISTENCY_UNKNOWN
  | Some (Execution (LastAttemptError (AttemptDbError
      ( Unavailable consistency _ _ | ReadTimeout consistency _ _ _
      | WriteTimeout consistency _ _ _ | ReadFailure consistency _ _ _ _
      | WriteFailure consistency _ _ _ _) _))) => CassConsistency_from consistency
  | Some _ => CASS_CONSISTENCY_UNKNOWN
  end.

Definition cass_error_result_responses_received (error_result : error_ptr) : Z :=
  match error_result with
  | None => -1
  | Some (Execution (LastAttemptError attempt_error)) =>
      match attempt_error with
      | AttemptDbError (Unavailable _ _ alive) _ => alive
      | AttemptDbError (ReadTimeout _ received _ _) _ => received
      | AttemptDbError (WriteTimeout _ received _ _) _ => received
      | AttemptDbError (ReadFailure _ received _ _ _) _ => received
      | AttemptDbError (WriteFailure _ received _ _ _) _ => received
      | _ => -1
      end
  | Some _ => -1
  end.

Definition cass_error_result_responses_required (error_result : error_ptr) : Z :=
  match error_result with
  | None => -1
  | Some (Execution (LastAttemptError attempt_error)) =>
      match attempt_error with
      | AttemptDbError (Unavailable _ required _) _ => required
      | AttemptDbError (ReadTimeout _ _ required _) _ => required
      | AttemptDbError (WriteTimeout _ _ required _) _ => required
      | AttemptDbError (ReadFailure _ _ required _ _) _ => required
      | AttemptDbError (WriteFailure _ _ required _ _) _ => required
      | _ => -1
      end
  | Some _ => -1
  end.

Definition cass_error_result_num_failures (error_result : error_ptr) : Z :=
  match error_result with
  | None => -1
  | Some (Execution (LastAttemptError (AttemptDbError (ReadFailure _ _ _ numfailures _) _))) =>
      numfailures
  | Some (Execution (LastAttemptError (AttemptDbError (WriteFailure _ _ _ numfailures _) _))) =>
      numfailures
  | Some _ => -1
  end.

Definition cass_error_result_data_present (error_result : error_ptr) : bool :=
  match error_result with
  | None => false
  | Some (Execution (LastAttemptError (AttemptDbError (ReadTimeout _ _ _ data_present) _))) =>
      if data_present then true else false
  | Some (Execution (LastAttemptError (AttemptDbError (ReadFailure _ _ _ _ data_present) _))) =>
      if data_present then true else false
  | Some _ => false
  end.

Definition cass_error_result_write_type (error_result : error_ptr) : CassWriteType :=
  match error_result with
  | None => CASS_WRITE_TYPE_UNKNOWN
  | Some (Execution (LastAttemptError (AttemptDbError (WriteTimeout _ _ _ write_type) _))) =>
      CassWriteType_from write_type
  | Some (Execution (LastAttemptError (AttemptDbError (WriteFailure _ _ _ _ write_type) _))) =>
      CassWriteType_from write_type
  | Some _ => CASS_WRITE_TYPE_UNKNOWN
  end.

(** A code, and the string written through the out parameters if it is OK. *)
Definition cass_error_result_keyspace (error_result : error_ptr)
  : CassError * option (char_ptr * nat) :=
  match error_result with
  | None => (CASS_ERROR_LIB_BAD_PARAMS, None)
  | Some (Execution (LastAttemptError (AttemptDbError (AlreadyExists keyspace _) _))) =>
      (CASS_OK, Some (write_str_to_c keyspace))
  | Some (Execution (LastAttemptError (AttemptDbError (FunctionFailure keyspace _ _) _))) =>
      (CASS_OK, Some (write_str_to_c keyspace))
  | Some _ => (CASS_ERROR_LIB_INVALID_ERROR_RESULT_TYPE, None)
  end.

Definition cass_error_result_table (error_result : error_ptr)
  : CassError * option (char_ptr * nat) :=
  match error_result with
  | None => (CASS_ERROR_LIB_BAD_PARAMS, None)
  | Some (Execution (LastAttemptError (AttemptDbError (AlreadyExists _ table) _))) =>
      (CASS_OK, Some (write_str_to_c table))
  | Some _ => (CASS_ERROR_LIB_INVALID_ERROR_RESULT_TYPE, None)
  end.

Definition cass_error_result_function (error_result : error_ptr)
  : CassError * option (char_ptr * nat) :=
  match error_result with
  | None => (CASS_ERROR_LIB_BAD_PARAMS, None)
  | Some (Execution (LastAttemptError (AttemptDbError (FunctionFailure _ function _) _))) =>
      (CASS_OK, Some (write_str_to_c function))
  | Some _ => (CASS_ERROR_LIB_INVALID_ERROR_RESULT_TYPE, None)
  end.

Definition cass_error_num_arg_types (error_result : error_ptr) : nat :=
  match error_result with
  | None => 0
  | Some (Execution (LastAttemptError (AttemptDbError (FunctionFailure _ _ arg_types) _))) =>
      length arg_types
  | Some _ => 0
  end.

(** [Panic] is the index expression [arg_types[index]] out of range. *)
Definition cass_error_result_arg_type (error_result : error_ptr) (index : nat)
  : outcome (CassError * option (char_ptr * nat)) :=
  match error_result with
  | None => Ret (CASS_ERROR_LIB_BAD_PARAMS, None)
  | Some (Execution (LastAttemptError (AttemptDbError (FunctionFailure _ _ arg_types) _))) =>
      if (length arg_types <=? index)%nat then Ret (CASS_ERROR_LIB_INDEX_OUT_OF_BOUNDS, None)
      else match arg_types !! index with
           | Some arg_type => Ret (CASS_OK, Some (write_str_to_c arg_type))
           | None => Panic
           end
  | Some _ => Ret (CASS_ERROR_LIB_INVALID_ERROR_RESULT_TYPE, None)
  end.

(** ** Descriptions *)

Definition cass_error_desc (error : CassError) : string :=
  match error with
  | CASS_ERROR_LIB_BAD_PARAMS => "Bad parameters"
  | CASS_ERROR_LIB_NO_STREAMS => "No streams available"
  | CASS_ERROR_LIB_UNABLE_TO_INIT => "Unable to initialize"
  | CASS_ERROR_LIB_MESSAGE_ENCODE => "Unable to encode message"
  | CASS_ERROR_LIB_HOST_RESOLUTION => "Unable to resolve host"
  | CASS_ERROR_LIB_UNEXPECTED_RESPONSE => "Unexpected response from server"
  | CASS_ERROR_LIB_REQUEST_QUEUE_FULL => "The request queue is full"
  | CASS_ERROR_LIB_NO_AVAILABLE_IO_THREAD => "No available IO threads"
  | CASS_ERROR_LIB_WRITE_ERROR => "Write error"
  | CASS_ERROR_LIB_NO_HOSTS_AVAILABLE => "No hosts available"
  | CASS_ERROR_LIB_INDEX_OUT_OF_BOUNDS => "Index out of bounds"
  | CASS_ERROR_LIB_INVALID_ITEM_COUNT => "Invalid item count"
  | CASS_ERROR_LIB_INVALID_VALUE_TYPE => "Invalid value type"
  | CASS_ERROR_LIB_REQUEST_TIMED_OUT => "Request timed out"
  | CASS_ERROR_LIB_UNABLE_TO_SET_KEYSPACE => "Unable to set keyspace"
  | CASS_ERROR_LIB_CALLBACK_ALREADY_SET => "Callback already set"
  | CASS_ERROR_LIB_INVALID_STATEMENT_TYPE => "Invalid statement type"
  | CASS_ERROR_LIB_NAME_DOES_NOT_EXIST => "No value or column for name"
  | CASS_ERROR_LIB_UNABLE_TO_DETERMINE_PROTOCOL => "Unable to find supported protocol version"
  | CASS_ERROR_LIB_NULL_VALUE => "NULL value specified"
  | CASS_ERROR_LIB_NOT_IMPLEMENTED => "Not implemented"
  | CASS_ERROR_LIB_UNABLE_TO_CONNECT => "Unable to connect"
  | CASS_ERROR_LIB_UNABLE_TO_CLOSE => "Unable to close"
  | CASS_ERROR_LIB_NO_PAGING_STATE => "No paging state"
  | CASS_ERROR_LIB_PARAMETER_UNSET => "Parameter unset"
  | CASS_ERROR_LIB_INVALID_ERROR_RESULT_TYPE => "Invalid error result type"
  | CASS_ERROR_LIB_INVALID_FUTURE_TYPE => "Invalid future type"
  | CASS_ERROR_LIB_INTERNAL_ERROR => "Internal error"
  | CASS_ERROR_LIB_INVALID_CUSTOM_TYPE => "Invalid custom type"
  | CASS_ERROR_LIB_INVALID_DATA => "Invalid data"
  | CASS_ERROR_LIB_NOT_ENOUGH_DATA => "Not enough data"
  | CASS_ERROR_LIB_INVALID_STATE => "Invalid state"
  | CASS_ERROR_LIB_NO_CUSTOM_PAYLOAD => "No custom payload"
  | CASS_ERROR_LIB_EXECUTION_PROFILE_INVALID => "Invalid execution profile specified"
  | CASS_ERROR_LIB_NO_TRACING_ID => "No tracing ID"
  | CASS_ERROR_SERVER_SERVER_ERROR => "Server error"
  | CASS_ERROR_SERVER_PROTOCOL_ERROR => "Protocol error"
  | CASS_ERROR_SERVER_BAD_CREDENTIALS => "Bad credentials"
  | CASS_ERROR_SERVER_UNAVAILABLE => "Unavailable"
  | CASS_ERROR_SERVER_OVERLOADED => "Overloaded"
  | CASS_ERROR_SERVER_IS_BOOTSTRAPPING => "Is bootstrapping"
  | CASS_ERROR_SERVER_TRUNCATE_ERROR => "Truncate error"
  | CASS_ERROR_SERVER_WRITE_TIMEOUT => "Write timeout"
  | CASS_ERROR_SERVER_READ_TIMEOUT => "Read timeout"
  | CASS_ERROR_SERVER_READ_FAILURE => "Read failure"
  | CASS_ERROR_SERVER_FUNCTION_FAILURE => "Function failure"
  | CASS_ERROR_SERVER_WRITE_FAILURE => "Write failure"
  | CASS_ERROR_SERVER_SYNTAX_ERROR => "Syntax error"
  | CASS_ERROR_SERVER_UNAUTHORIZED => "Unauthorized"
  | CASS_ERROR_SERVER_INVALID_QUERY => "Invalid query"
  | CASS_ERROR_SERVER_CONFIG_ERROR => "Configuration error"
  | CASS_ERROR_SERVER_ALREADY_EXISTS => "Already exists"
  | CASS_ERROR_SERVER_UNPREPARED => "Unprepared"
  | CASS_ERROR_SSL_INVALID_CERT => "Unable to load certificate"
  | CASS_ERROR_SSL_INVALID_PRIVATE_KEY => "Unable to load private key"
  | CASS_ERROR_SSL_NO_PEER_CERT => "No peer certificate"
  | CASS_ERROR_SSL_INVALID_PEER_CERT => "Invalid peer certificate"
  | CASS_ERROR_SSL_IDENTITY_MISMATCH => "Certificate does not match host or IP address"
  | CASS_ERROR_SSL_PROTOCOL_ERROR => "Protocol error"
  | CASS_ERROR_SSL_CLOSED => "Connection closed"
  | _ => EmptyString
  end%string.

(** ** Lemmas *)

Lemma CassError_from_code n : CassError_code (CassError_from n) = n.
Proof.
  unfold CassError_from. destruct (find _ _) eqn:E; [|done].
  apply find_some in E as [_ E]. by apply Z.eqb_eq.
Qed.

Lemma named_code_from e : e ∈ named_errors -> CassError_from (CassError_code e) = e.
Proof.
  intros H. pose (ok := fun e => bool_decide (CassError_from (CassError_code e) = e)).
  assert (Hall : forallb ok named_errors = true) by (vm_compute; reflexivity).
  rewrite forallb_forall in Hall. apply list_elem_of_In, Hall, bool_decide_eq_true in H. exact H.
Qed.

Lemma LAST_ENTRY_code : CassError_code CASS_ERROR_LAST_ENTRY = error_number CASS_ERROR_SOURCE_SSL 8.
Proof. reflexivity. Qed.

Lemma other_db_error_code num :
  CassError_code (other_db_error num) = Z.lor (CASS_ERROR_SOURCE_SERVER * 2 ^ 24) (num mod 2 ^ 32).
Proof. unfold other_db_error. rewrite CassError_from_code. reflexivity. Qed.

Lemma other_db_error_small num :
  0 <= num < 2 ^ 24 ->
  CassError_code (other_db_error num) = CASS_ERROR_SOURCE_SERVER * 2 ^ 24 + num.
Proof.
  intros H. rewrite other_db_error_code, Z.mod_small by lia. by apply lor_add_pow2.
Qed.

(** A code tells an error from success. *)
Definition reports_failure (e : CassError) : Prop := CassError_code e <> 0.

Class FailureCodes (E : Type) `{ToCassError E} := failure_code : forall e : E, reports_failure (to_cass_error e).

(** Either the code is the one of an inner error, or it is a constant. *)
Ltac failure :=
  first
    [ match goal with
      | e : _ |- _ => exact (failure_code e)
      end
    | lazymatch goal with
      | _ : _ |- reports_failure (to_cass_error (DbOther _)) => idtac
      | |- _ => vm_compute; discriminate
      end ].

#[export] Instance serialization_fails : FailureCodes SerializationError.
Proof. intros []; failure. Qed.

#[export] Instance db_error_fails : FailureCodes DbError.
Proof.
  intros []; failure. unfold reports_failure, to_cass_error, db_error_code_of. cbn [db_error_code].
  rewrite other_db_error_code, Z.lor_eq_0_iff. intros [H _]. vm_compute in H. discriminate.
Qed.

#[export] Instance attempt_error_fails : FailureCodes RequestAttemptError.
Proof. intros []; failure. Qed.

#[export] Instance connection_pool_error_fails : FailureCodes ConnectionPoolError.
Proof. intros []; failure. Qed.

#[export] Instance prepare_error_fails : FailureCodes PrepareError.
Proof. intros []; failure. Qed.

#[export] Instance metadata_error_fails : FailureCodes MetadataError.
Proof.
  intros [e|[|e|e|[[|[|e| |e|]| |]| |]|]| | | | |]; failure.
Qed.

#[export] Instance bad_query_fails : FailureCodes BadQuery.
Proof. intros []; failure. Qed.

#[export] Instance execution_error_fails : FailureCodes ExecutionError.
Proof. intros []; failure. Qed.

#[export] Instance new_session_error_fails : FailureCodes NewSessionError.
Proof. intros []; failure. Qed.

#[export] Instance bad_keyspace_name_fails : FailureCodes BadKeyspaceName.
Proof. intros []; failure. Qed.

#[export] Instance error_result_fails : FailureCodes CassErrorResult.
Proof. intros []; failure. Qed.

(** ** Theorems *)

(** No failure of the driver, of preparing, executing or connecting, is ever
    reported to the C client as [CASS_OK], whatever number the server sent. *)
Theorem errors_never_ok (e : CassErrorResult) (p : PrepareError) (n : NewSessionError)
    (k : BadKeyspaceName) :
  cass_error_result_code (Some e) <> CASS_OK /\ to_cass_error p <> CASS_OK /\
  to_cass_error n <> CASS_OK /\ to_cass_error k <> CASS_OK.
Proof.
  repeat split; intros H; [apply (failure_code e)|apply (failure_code p)|apply (failure_code n)
                          |apply (failure_code k)]; cbn in *; by rewrite H.
Qed.

(** The number of an error in the native protocol. *)
Definition protocol_number (e : DbError) : option Z :=
  match e with
  | ServerError => Some 0x0000 | ProtocolError => Some 0x000A
  | AuthenticationError => Some 0x0100 | Unavailable _ _ _ => Some 0x1000
  | Overloaded => Some 0x1001 | IsBootstrapping => Some 0x1002 | TruncateError => Some 0x1003
  | WriteTimeout _ _ _ _ => Some 0x1100 | ReadTimeout _ _ _ _ => Some 0x1200
  | ReadFailure _ _ _ _ _ => Some 0x1300 | FunctionFailure _ _ _ => Some 0x1400
  | WriteFailure _ _ _ _ _ => Some 0x1500 | SyntaxError => Some 0x2000
  | Unauthorized => Some 0x2100 | Invalid => Some 0x2200 | DbConfigError => Some 0x2300
  | AlreadyExists _ _ => Some 0x2400 | Unprepared => Some 0x2500
  | DbOther num => Some num
  | RateLimitReached | DbError_unknown => None
  end.

(** The code of a server error carries the server as its source and the error's
    number of the native protocol, also for a number the driver does not know: a client
    recovers the number from the code. *)
Theorem server_error_code_roundtrip (e : DbError) (n : Z) :
  protocol_number e = Some n -> 0 <= n < 2 ^ 24 ->
  Z.shiftr (CassError_code (to_cass_error e)) 24 = CASS_ERROR_SOURCE_SERVER /\
  Z.land (CassError_code (to_cass_error e)) (Z.ones 24) = n.
Proof.
  intros Hn Hr.
  enough (CassError_code (to_cass_error e) = CASS_ERROR_SOURCE_SERVER * 2 ^ 24 + n) as ->.
  { rewrite Z.shiftr_div_pow2, Z.land_ones by lia. unfold CASS_ERROR_SOURCE_SERVER. split.
    - rewrite Z.div_add_l by lia. rewrite Z.div_small by lia. lia.
    - rewrite Z.add_comm, Z.mod_add by lia. by rewrite Z.mod_small by lia. }
  destruct e; cbn in Hn; simplify_eq; try reflexivity. by apply other_db_error_small.
Qed.

Lemma server_error_code_roundtrip_witness :
  Z.shiftr (CassError_code (to_cass_error (DbOther 4660))) 24 = CASS_ERROR_SOURCE_SERVER /\
  Z.land (CassError_code (to_cass_error (DbOther 4660))) (Z.ones 24) = 4660.
Proof. apply (server_error_code_roundtrip (DbOther 4660) 4660); [reflexivity | lia]. Defined.

(** The codes of the errors that carry consistency details. *)
Definition consistency_errors : list CassError :=
  [CASS_ERROR_SERVER_UNAVAILABLE; CASS_ERROR_SERVER_READ_TIMEOUT; CASS_ERROR_SERVER_WRITE_TIMEOUT;
   CASS_ERROR_SERVER_READ_FAILURE; CASS_ERROR_SERVER_WRITE_FAILURE].

#[local] Opaque other_db_error CASS_ERROR_LAST_ENTRY.

Lemma consistency_from_known c : CassConsistency_from c <> CASS_CONSISTENCY_UNKNOWN.
Proof. by destruct c. Qed.

(** A detail the error does not have, and one it has. *)
Ltac no_detail := intros H; first [by destruct (H eq_refl) | discriminate H].
Ltac detail :=
  intros; first [apply consistency_from_known | rewrite ?elem_of_cons; auto 10].

(** The details of an error result are there exactly when they make sense for
    its code: consistency and response counts for the errors about replicas, failure
    counts for failures, the keyspace, table, function and argument types for the two
    errors that name them, and an argument type for each index below their number; no
    getter panics. *)
Theorem error_details_match_code (e : CassErrorResult) (i : nat) :
  let p := Some e in let code := cass_error_result_code p in
  (cass_error_result_consistency p <> CASS_CONSISTENCY_UNKNOWN -> code ∈ consistency_errors) /\
  (cass_error_result_responses_received p <> -1 -> cass_error_result_consistency p <> CASS_CONSISTENCY_UNKNOWN) /\
  (cass_error_result_responses_required p <> -1 -> cass_error_result_consistency p <> CASS_CONSISTENCY_UNKNOWN) /\
  (cass_error_result_num_failures p <> -1 ->
     code = CASS_ERROR_SERVER_READ_FAILURE \/ code = CASS_ERROR_SERVER_WRITE_FAILURE) /\
  (cass_error_result_data_present p = true ->
     code = CASS_ERROR_SERVER_READ_FAILURE \/ code = CASS_ERROR_SERVER_READ_TIMEOUT) /\
  (cass_error_result_write_type p <> CASS_WRITE_TYPE_UNKNOWN ->
     code = CASS_ERROR_SERVER_WRITE_FAILURE \/ code = CASS_ERROR_SERVER_WRITE_TIMEOUT) /\
  (fst (cass_error_result_table p) = CASS_OK -> code = CASS_ERROR_SERVER_ALREADY_EXISTS) /\
  (fst (cass_error_result_function p) = CASS_OK -> code = CASS_ERROR_SERVER_FUNCTION_FAILURE) /\
  (fst (cass_error_result_keyspace p) = CASS_OK <->
     fst (cass_error_result_table p) = CASS_OK \/ fst (cass_error_result_function p) = CASS_OK) /\
  (exists r, cass_error_result_arg_type p i = Ret r /\
     (fst r = CASS_OK <-> (i < cass_error_num_arg_types p)%nat)) /\
  (forall db reason, e = Execution (LastAttemptError (AttemptDbError db reason)) ->
     db <> RateLimitReached -> (forall n, db <> DbOther n) -> code ∈ consistency_errors ->
     cass_error_result_consistency p <> CASS_CONSISTENCY_UNKNOWN).
Proof.
  intros p code. split_and!.
  11: { intros db reason -> Hr Ho Hc. destruct db; try apply consistency_from_known;
          try (by destruct (Hr eq_refl)); try (by destruct (Ho _ eq_refl));
          unfold code, p, consistency_errors in Hc; rewrite !elem_of_cons, elem_of_nil in Hc;
          destruct_or? Hc; by vm_compute in Hc. }
  all: destruct e as [[| | | | | |a| | |]| |]; try destruct a as [| | | | | | |[] reason| | | | |];
    cbn; try no_detail; try detail; try (split; [by auto|by intros [|]]);
    try (eexists; split; [reflexivity|split; [discriminate|lia]]).
  1-5: unfold consistency_errors; rewrite !elem_of_cons; auto 10.
  destruct (Nat.leb_spec (length arg_types) i) as [Hi|Hi].
  - eexists; split; [reflexivity|]. cbn. split; [done|lia].
  - apply lookup_lt_is_Some in Hi as [x Hx]. rewrite Hx. eexists; split; [reflexivity|].
    cbn. split; [|done]. intros _. by eapply lookup_lt_Some.
Qed.

Lemma other_unnamed n : CassError_other n ∉ named_errors.
Proof.
  intros H%list_elem_of_In. pose (ok := fun e => match e with CassError_other _ => false | _ => true end).
  assert (Hall : forallb ok named_errors = true) by reflexivity.
  rewrite forallb_forall in Hall. by specialize (Hall _ H).
Qed.

(** Every named code has its own number and a description, [CASS_OK] apart, and a
    number the header does not name has none. *)
Theorem error_desc_spec (n : Z) :
  CassError_code (CassError_from n) = n /\
  (cass_error_desc (CassError_from n) <> EmptyString <->
     CassError_from n ∈ named_errors /\ n <> 0) /\
  (forall e, e ∈ named_errors -> CassError_from (CassError_code e) = e).
Proof.
  split; [apply CassError_from_code|]. split; [|apply named_code_from].
  assert (Hn : n <> 0 <-> CassError_from n <> CASS_OK).
  { split; [|intros H ->; by apply H]. intros H E. apply H. by rewrite <- (CassError_from_code n), E. }
  rewrite Hn. unfold CassError_from. destruct (find _ _) as [e|] eqn:E.
  - apply find_some in E as [E%list_elem_of_In _].
    split; [intros H; split; [done|]; by intros ->|].
    intros [_ H]. destruct e; try done. by apply other_unnamed in E.
  - split; [done|]. by intros [?%other_unnamed _].
Qed.
