(* ===== verification/LoadBalancing.v ===== *)
(** * Load balancing: filtering policies and the host filter (load_balancing.rs)

    A policy is built from a [LoadBalancingConfig]: the Rust driver's default
    policy (a parameter, [child_pick] and [child_fallback]) wrapped by the
    filtering of white- and blacklists and by the rule for local consistency
    levels.  The host filter of a session combines the filters of all policies. *)

From Stdlib Require Import ZArith Lia.
From stdpp Require Import base list strings.
From S2P Require Import Prelude ConfigValue Inet.

Open Scope Z_scope.

Inductive DcRestriction := DcNone | DcLocal (local_dc : string).

Record FilteringConfig := mkFilteringConfig {
  fc_whitelist_hosts : list IpAddr;
  fc_blacklist_hosts : list IpAddr;
  fc_whitelist_dc : list string;
  fc_blacklist_dc : list string;
  dc_restriction : DcRestriction
}.

Inductive AllowedDcs := AllDcs | Whitelist (dcs : list string).

Record FilteringInfo := mkFilteringInfo {
  whitelist_hosts : option (list IpAddr);
  blacklist_hosts : option (list IpAddr);
  whitelist_dc : option (list string);
  blacklist_dc : option (list string);
  allowed_dcs : AllowedDcs
}.

(** [(!l.is_empty()).then_some(l)]. *)
Definition nonempty {A} (l : list A) : option (list A) :=
  match l with [] => None | _ => Some l end.

Definition into_filtering_info (c : FilteringConfig) : FilteringInfo :=
  mkFilteringInfo (nonempty (fc_whitelist_hosts c)) (nonempty (fc_blacklist_hosts c))
    (nonempty (fc_whitelist_dc c)) (nonempty (fc_blacklist_dc c))
    match dc_restriction c with
    | DcNone => AllDcs
    | DcLocal local_dc => Whitelist [local_dc]
    end.

(** [Vec::contains], and [iter().any] with an equality. *)
Definition contains {A} `{EqDecision A} (l : list A) (x : A) : bool := bool_decide (x ∈ l).

Definition is_some_and {A} (o : option A) (f : A -> bool) : bool :=
  match o with Some a => f a | None => false end.

Definition is_host_allowed (f : FilteringInfo) (ip : IpAddr) (dc : option string) : bool :=
  let dc := default EmptyString dc in
  if match allowed_dcs f with Whitelist dcs => negb (contains dcs dc) | AllDcs => false end
  then false
  else if is_some_and (whitelist_hosts f) (fun wl => negb (contains wl ip)) then false
  else if is_some_and (blacklist_hosts f) (fun bl => contains bl ip) then false
  else if is_some_and (whitelist_dc f) (fun wl => negb (contains wl dc)) then false
  else if is_some_and (blacklist_dc f) (fun bl => contains bl dc) then false
  else true.

Inductive LoadBalancingKind :=
| RoundRobin
| DcAware (local_dc : string) (permit_dc_failover allow_remote_dcs_for_local_cl : bool)
| RackAware (local_dc local_rack : string).

(** Settings of the Rust driver's latency awareness; the threshold is the bit
    pattern of an [f64], durations are in milliseconds, and a scale that is not
    set is the driver's default. *)
Record LatencyAwareness := mkLatencyAwareness {
  exclusion_threshold : Z; scale_ms : option Z; retry_period_ms : Z; update_rate_ms : Z;
  minimum_measurements : Z
}.

Record LoadBalancingConfig := mkLoadBalancingConfig {
  token_awareness_enabled : bool;
  token_aware_shuffling_replicas_enabled : bool;
  load_balancing_kind : option LoadBalancingKind;
  latency_awareness_enabled : bool;
  latency_awareness_builder : option LatencyAwareness;   (* [None]: the driver's default *)
  filtering : FilteringConfig
}.

Definition LoadBalancingConfig_default : LoadBalancingConfig :=
  mkLoadBalancingConfig true true None false None (mkFilteringConfig [] [] [] [] DcNone).

(** ** Building the policy *)

Inductive DcLocalConsistencyAllowance :=
| AllowAll
| DisallowRemotes (local_dc : string).

(** The calls made on [DefaultPolicyBuilder]. *)
Record PolicySettings := mkPolicySettings {
  ps_token_aware : bool;
  ps_shuffling_replicas : option bool;
  ps_preference : option (string * option string);
  ps_permit_dc_failover : option bool;
  ps_latency : option (option LatencyAwareness)
}.

Record FilteringPolicy := mkFilteringPolicy {
  fp_filtering : FilteringInfo;
  fp_dc_local_cl_allowance : DcLocalConsistencyAllowance;
  fp_child : PolicySettings
}.

Definition build (c : LoadBalancingConfig) : FilteringPolicy :=
  let kind := default RoundRobin (load_balancing_kind c) in
  let shuffling :=
    if token_awareness_enabled c then Some (token_aware_shuffling_replicas_enabled c) else None in
  let latency :=
    if latency_awareness_enabled c then Some (latency_awareness_builder c) else None in
  let settings pref failover :=
    mkPolicySettings (token_awareness_enabled c) shuffling pref failover latency in
  let filtering := into_filtering_info (filtering c) in
  match kind with
  | DcAware local_dc permit_dc_failover allow_remote_dcs_for_local_cl =>
      mkFilteringPolicy filtering
        (if allow_remote_dcs_for_local_cl then AllowAll else DisallowRemotes local_dc)
        (settings (Some (local_dc, None)) (Some permit_dc_failover))
  | RackAware local_dc local_rack =>
      mkFilteringPolicy filtering AllowAll
        (settings (Some (local_dc, Some local_rack)) (Some true))
  | RoundRobin => mkFilteringPolicy filtering AllowAll (settings None None)
  end.

Definition is_consistency_local (cl : Consistency) : bool :=
  match cl with
  | Any | One | Two | Three | Quorum | All | EachQuorum | Serial => false
  | LocalQuorum | LocalOne | LocalSerial => true
  end.

Definition is_dc_allowed (a : DcLocalConsistencyAllowance) (dc : option string) (cl : Consistency)
  : bool :=
  match a with
  | AllowAll => true
  | DisallowRemotes local_dc =>
      if is_consistency_local cl then is_some_and dc (fun dc => bool_decide (local_dc = dc))
      else true
  end.

(** ** Query plans

    A node is its address and its datacenter; the child's picks and fallback
    plans are those of the Rust driver's policy. *)

Record Node := mkNode { node_ip : IpAddr; datacenter : option string }.

Section Plans.
Context {Request Cluster Shard : Type}.
Context (consistency : Request -> Consistency).
Context (child_pick : PolicySettings -> Request -> Cluster -> option (Node * Shard)).
Context (child_fallback : PolicySettings -> Request -> Cluster -> list (Node * Shard)).

Definition node_allowed (p : FilteringPolicy) (cl : Consistency) (n : Node) : bool :=
  is_host_allowed (fp_filtering p) (node_ip n) (datacenter n)
  && is_dc_allowed (fp_dc_local_cl_allowance p) (datacenter n) cl.

Definition pick (p : FilteringPolicy) (request : Request) (cluster : Cluster)
  : option (Node * Shard) :=
  target ← child_pick (fp_child p) request cluster;
  if node_allowed p (consistency request) target.1 then Some target else None.

Definition fallback (p : FilteringPolicy) (request : Request) (cluster : Cluster)
  : list (Node * Shard) :=
  List.filter (fun target => node_allowed p (consistency request) target.1)
    (child_fallback (fp_child p) request cluster).

End Plans.

(** ** The host filter *)

Section SetOps.
Context {T : Type} `{EqDecision T}.

(** [for v in values { if !union.contains(v) { union.push(v) } }]. *)
Definition push_new (union values : list T) : list T :=
  foldl (fun u v => if contains u v then u else u ++ [v]) union values.

#[global] Arguments push_new : simpl never.

Fixpoint union_loop (union : list T) (iter : list (list T)) : option (list T) :=
  match iter with
  | [] => nonempty union
  | [] :: _ => None
  | values :: iter => union_loop (push_new union values) iter
  end.

Definition nonempty_union (iter : list (list T)) : option (list T) := union_loop [] iter.

Definition nonempty_intersection (iter : list (list T)) : option (list T) :=
  match iter with
  | [] => None
  | first :: rest =>
      nonempty (foldl (fun inter set => List.filter (contains set) inter) first rest)
  end.

End SetOps.

Definition fold_allowed (acc : option AllowedDcs) (c : LoadBalancingConfig) : option AllowedDcs :=
  match acc, dc_restriction (filtering c) with
  | None, DcNone => Some AllDcs
  | None, DcLocal local_dc => Some (Whitelist [local_dc])
  | Some (Whitelist dcs), DcLocal local_dc => Some (Whitelist (dcs ++ [local_dc]))
  | Some AllDcs, _ => Some AllDcs
  | _, DcNone => Some AllDcs
  end.

(** [CassHostFilter::new_from_lbp_configs_inner]. *)
Definition new_from_lbp_configs (configs : list LoadBalancingConfig) : FilteringInfo :=
  mkFilteringInfo
    (nonempty_union (map (fun c => fc_whitelist_hosts (filtering c)) configs))
    (nonempty_intersection (map (fun c => fc_blacklist_hosts (filtering c)) configs))
    (nonempty_union (map (fun c => fc_whitelist_dc (filtering c)) configs))
    (nonempty_intersection (map (fun c => fc_blacklist_dc (filtering c)) configs))
    (default AllDcs (foldl fold_allowed None configs)).

(** [HostFilter::accept]. *)
Definition accept (f : FilteringInfo) (peer : Node) : bool :=
  is_host_allowed f (node_ip peer) (datacenter peer).

(** What one policy accepts, whatever the consistency level. *)
Definition policy_accepts (c : LoadBalancingConfig) (peer : Node) : bool :=
  is_host_allowed (into_filtering_info (filtering c)) (node_ip peer) (datacenter peer).

(** The five independent rules of one configuration. *)
Definition rules : list (LoadBalancingConfig -> Node -> bool) :=
  [ (fun c n => match dc_restriction (filtering c) with
                | DcNone => true
                | DcLocal dc => bool_decide (default EmptyString (datacenter n) = dc)
                end);
    (fun c n => bool_decide (fc_whitelist_hosts (filtering c) = [])
                || contains (fc_whitelist_hosts (filtering c)) (node_ip n));
    (fun c n => negb (contains (fc_blacklist_hosts (filtering c)) (node_ip n)));
    (fun c n => bool_decide (fc_whitelist_dc (filtering c) = [])
                || contains (fc_whitelist_dc (filtering c)) (default EmptyString (datacenter n)));
    (fun c n => negb (contains (fc_blacklist_dc (filtering c))
                        (default EmptyString (datacenter n)))) ].

(** ** Lemmas *)

Section SetLemmas.
Context {T : Type} `{EqDecision T}.
Implicit Types (l u : list T) (ls : list (list T)) (x : T).

Lemma contains_true l x : contains l x = true <-> x ∈ l.
Proof. apply bool_decide_eq_true. Qed.

Lemma contains_false l x : contains l x = false <-> x ∉ l.
Proof. apply bool_decide_eq_false. Qed.

Lemma contains_nil x : contains [] x = false.
Proof. apply contains_false, not_elem_of_nil. Qed.

Lemma elem_of_push_new l u x : x ∈ push_new u l <-> x ∈ u \/ x ∈ l.
Proof.
  revert u. induction l as [|v l IH]; intros u; simpl.
  - rewrite elem_of_nil. tauto.
  - unfold push_new in *; simpl. rewrite IH. rewrite elem_of_cons. destruct (contains u v) eqn:Hv.
    + rewrite contains_true in Hv. split; [tauto|]. intros [?|[->|?]]; auto.
    + rewrite elem_of_app, list_elem_of_singleton. tauto.
Qed.

Lemma union_loop_Some ls u r :
  union_loop u ls = Some r -> ([] ∉ ls) /\ (forall x, x ∈ r <-> x ∈ u \/ (exists l, l ∈ ls /\ x ∈ l)).
Proof.
  revert u. induction ls as [|[|y l] ls IH]; intros u; simpl; [|done|].
  - intros Hr. split; [apply not_elem_of_nil|]. intros x.
    assert (r = u) as -> by (destruct u; simplify_eq/=; done).
    split; [auto|]. intros [|(? & []%elem_of_nil & _)]; done.
  - intros [Hne Hr]%IH. split.
    + rewrite elem_of_cons. intros [?|?]; done.
    + intros x. rewrite Hr, elem_of_push_new. split.
      * intros [[?|?]|(l' & ? & ?)].
        -- auto.
        -- right. exists (y :: l). rewrite elem_of_cons. auto.
        -- right. exists l'. rewrite elem_of_cons. auto.
      * intros [?|(l' & [->|?]%elem_of_cons & ?)]; eauto.
Qed.

Lemma union_loop_None ls u : union_loop u ls = None -> [] ∈ ls \/ (u = [] /\ ls = []).
Proof.
  revert u. induction ls as [|[|y l] ls IH]; intros u; simpl.
  - destruct u; [auto|done].
  - left. apply elem_of_cons. auto.
  - intros [?|[Hu _]]%IH; [left; apply elem_of_cons; auto|].
    exfalso. assert (y ∈ push_new u (y :: l)) as Hy.
    { rewrite elem_of_push_new, elem_of_cons. auto. }
    rewrite Hu in Hy. by apply elem_of_nil in Hy.
Qed.

Lemma elem_of_retain_all ls l x :
  x ∈ foldl (fun inter set => List.filter (contains set) inter) l ls
  <-> x ∈ l /\ forall l', l' ∈ ls -> x ∈ l'.
Proof.
  revert l. induction ls as [|s ls IH]; intros l; simpl.
  - split; [|tauto]. intros ?. split; [done|]. by intros l' ?%elem_of_nil.
  - rewrite IH, list_elem_of_In, filter_In, contains_true, <- list_elem_of_In.
    setoid_rewrite elem_of_cons. split.
    + intros [[? ?] Hall]. split; [done|]. intros l' [->|?]; auto.
    + intros [? Hall]. auto.
Qed.

Lemma nonempty_intersection_spec ls x :
  is_some_and (nonempty_intersection ls) (fun bl => contains bl x) = true
  <-> ls <> [] /\ forall l, l ∈ ls -> x ∈ l.
Proof.
  destruct ls as [|l ls]; simpl; [by intuition|]. set (r := foldl _ _ _).
  assert (is_some_and (nonempty r) (fun bl => contains bl x) = contains r x) as ->.
  { destruct r; [symmetry; apply contains_false, not_elem_of_nil|done]. }
  rewrite contains_true. unfold r. rewrite elem_of_retain_all. setoid_rewrite elem_of_cons. split.
  - intros [? Hall]. split; [done|]. intros l' [->|?]; auto.
  - intros [_ Hall]. auto.
Qed.

Lemma nonempty_union_spec ls x :
  is_some_and (nonempty_union ls) (fun wl => negb (contains wl x)) = true
  <-> ls <> [] /\ forall l, l ∈ ls -> l <> [] /\ x ∉ l.
Proof.
  unfold nonempty_union. destruct (union_loop [] ls) as [r|] eqn:Hu; simpl.
  - pose proof Hu as Hu'. apply union_loop_Some in Hu' as [Hne Hr].
    rewrite negb_true_iff, contains_false, Hr. split.
    + intros Hx. split.
      * intros ->. discriminate Hu.
      * intros l Hl. split; [by intros ->|]. intros ?. apply Hx. eauto.
    + intros [_ Hall] [?%elem_of_nil|(l & Hl & ?)]; [done|]. by apply (Hall l).
  - split; [done|]. intros [Hls Hall]. apply union_loop_None in Hu as [Hl|[_ ?]]; [|done].
    by apply Hall in Hl as [? _].
Qed.

End SetLemmas.

Lemma fold_allowed_spec configs acc dc :
  match foldl fold_allowed (Some acc) configs with
  | Some (Whitelist dcs) =>
      dc ∈ dcs <-> match acc with Whitelist l => dc ∈ l | AllDcs => True end
                   \/ exists c, c ∈ configs /\ dc_restriction (filtering c) = DcLocal dc
  | Some AllDcs => acc = AllDcs \/ exists c, c ∈ configs /\ dc_restriction (filtering c) = DcNone
  | None => False
  end /\ (acc = AllDcs \/ (exists c, c ∈ configs /\ dc_restriction (filtering c) = DcNone) ->
          foldl fold_allowed (Some acc) configs = Some AllDcs).
Proof.
  revert acc. induction configs as [|c cs IH]; intros acc; simpl.
  - split; [|intros [->|(? & ?%elem_of_nil & _)]; done].
    destruct acc; [by left|]. split; [by left|]. intros [?|(? & ?%elem_of_nil & _)]; done.
  - destruct acc as [|l]; [|destruct (dc_restriction (filtering c)) as [|ldc] eqn:Hc]; simpl.
    + destruct (IH AllDcs) as [_ ->]; auto.
    + destruct (IH AllDcs) as [_ ->]; [|by left]. split; [|done]. right. exists c.
      rewrite elem_of_cons. auto.
    + destruct (IH (Whitelist (l ++ [ldc]))) as [IH1 IH2]. split.
      * destruct (foldl _ _ cs) as [[|dcs]|]; [|rewrite IH1, elem_of_app, list_elem_of_singleton|done].
        -- destruct IH1 as [?|(c' & ? & ?)]; [done|]. right. exists c'. rewrite elem_of_cons. auto.
        -- setoid_rewrite elem_of_cons. split.
           ++ intros [[?| ->]|(c' & ? & ?)]; eauto.
           ++ intros [?|(c' & [->|?] & ?)]; eauto. rewrite Hc in *. simplify_eq. auto.
      * intros [?|(c' & [->|?]%elem_of_cons & ?)]; [done|congruence|]. apply IH2. eauto.
Qed.

(** The host check is the conjunction of its five guards. *)
Lemma is_host_allowed_guards f ip dc :
  is_host_allowed f ip dc =
  forallb negb
    [ match allowed_dcs f with
      | Whitelist dcs => negb (contains dcs (default EmptyString dc)) | AllDcs => false end;
      is_some_and (whitelist_hosts f) (fun wl => negb (contains wl ip));
      is_some_and (blacklist_hosts f) (fun bl => contains bl ip);
      is_some_and (whitelist_dc f) (fun wl => negb (contains wl (default EmptyString dc)));
      is_some_and (blacklist_dc f) (fun bl => contains bl (default EmptyString dc)) ].
Proof. unfold is_host_allowed. simpl. by repeat case_match. Qed.

Section Guards.
Context {T : Type} `{EqDecision T}.
Context (get : LoadBalancingConfig -> list T).

Lemma negb_existsb {A} (f : A -> bool) (l : list A) (b : bool) :
  (b = true <-> forall a, a ∈ l -> f a = false) -> negb b = existsb f l.
Proof.
  intros Hb. apply eq_true_iff_eq. rewrite negb_true_iff, existsb_exists. split.
  - intros ->. destruct (existsb f l) eqn:He; [by apply existsb_exists|].
    assert (false = true) as [=]. apply Hb. intros a Ha%list_elem_of_In.
    destruct (f a) eqn:Hf; [|done]. rewrite <- He. symmetry. apply existsb_exists. eauto.
  - intros (a & Ha%list_elem_of_In & Hf). destruct b; [|done].
    by rewrite (proj1 Hb eq_refl a Ha) in Hf.
Qed.

Lemma union_guard cs x :
  cs <> [] ->
  negb (is_some_and (nonempty_union (map get cs)) (fun wl => negb (contains wl x)))
  = existsb (fun c => bool_decide (get c = []) || contains (get c) x) cs.
Proof.
  intros Hcs. apply negb_existsb. rewrite nonempty_union_spec. split.
  - intros [_ Hall] c Hc. destruct (Hall (get c)) as [? ?]; [by apply list_elem_of_fmap_2|].
    apply orb_false_iff. by rewrite bool_decide_eq_false, contains_false.
  - intros Hall. split; [by destruct cs|]. intros l (c & -> & Hc)%list_elem_of_fmap.
    specialize (Hall c Hc). by rewrite orb_false_iff, bool_decide_eq_false, contains_false in Hall.
Qed.

Lemma intersection_guard cs x :
  cs <> [] ->
  negb (is_some_and (nonempty_intersection (map get cs)) (fun bl => contains bl x))
  = existsb (fun c => negb (contains (get c) x)) cs.
Proof.
  intros Hcs. apply negb_existsb. rewrite nonempty_intersection_spec. split.
  - intros [_ Hall] c Hc. apply negb_false_iff, contains_true, Hall. by apply list_elem_of_fmap_2.
  - intros Hall. split; [by destruct cs|]. intros l (c & -> & Hc)%list_elem_of_fmap.
    apply contains_true, negb_false_iff, (Hall c Hc).
Qed.

End Guards.

Lemma allowed_guard cs dc :
  cs <> [] ->
  negb match default AllDcs (foldl fold_allowed None cs) with
       | Whitelist dcs => negb (contains dcs dc) | AllDcs => false end
  = existsb (fun c => match dc_restriction (filtering c) with
                      | DcNone => true | DcLocal l => bool_decide (dc = l) end) cs.
Proof.
  intros Hcs. apply negb_existsb. destruct cs as [|c cs]; [done|]. cbn [foldl].
  set (acc := match dc_restriction (filtering c) with
              | DcNone => AllDcs | DcLocal l => Whitelist [l] end).
  assert (fold_allowed None c = Some acc) as ->.
  { unfold fold_allowed, acc. by destruct (dc_restriction _). }
  destruct (fold_allowed_spec cs acc dc) as [Hspec Hall].
  destruct (foldl fold_allowed (Some acc) cs) as [[|dcs]|] eqn:Hf; simpl; [| |done].
  - split; [done|]. intros Hno. destruct Hspec as [Hacc|(c' & Hc' & Hn)].
    + specialize (Hno c (list_elem_of_here _ _)). unfold acc in Hacc. by destruct (dc_restriction _).
    + specialize (Hno c'). rewrite Hn, elem_of_cons in Hno. by discriminate Hno; auto.
  - rewrite negb_true_iff, contains_false, Hspec. split.
    + intros Hdc c' Hc'. destruct (dc_restriction (filtering c')) as [|l] eqn:Hr.
      * apply elem_of_cons in Hc' as [->|Hc']; [unfold acc in *; rewrite Hr in *|];
          (discriminate Hall; eauto).
      * apply bool_decide_eq_false. intros ->. apply Hdc.
        apply elem_of_cons in Hc' as [->|Hc']; [|eauto].
        left. unfold acc. rewrite Hr. apply list_elem_of_singleton. done.
    + intros Hno [Hacc|(c' & Hc' & Hr)].
      * specialize (Hno c (list_elem_of_here _ _)). unfold acc in Hacc.
        destruct (dc_restriction _); [done|]. apply list_elem_of_singleton in Hacc.
        by apply bool_decide_eq_false in Hno.
      * specialize (Hno c' (list_elem_of_further _ _ _ Hc')). rewrite Hr in Hno.
        by apply bool_decide_eq_false in Hno.
Qed.

Lemma accept_rules configs n :
  configs <> [] ->
  accept (new_from_lbp_configs configs) n =
  forallb (fun rule => existsb (fun c => rule c n) configs) rules.
Proof.
  intros Hne. unfold accept. rewrite is_host_allowed_guards. simpl.
  rewrite !union_guard, !intersection_guard, allowed_guard by done. done.
Qed.

Lemma policy_accepts_rules c n : policy_accepts c n = forallb (fun rule => rule c n) rules.
Proof.
  unfold policy_accepts. rewrite is_host_allowed_guards. simpl.
  repeat f_equal.
  - destruct (dc_restriction _) as [|l]; [done|]. rewrite negb_involutive. apply bool_decide_ext.
    apply list_elem_of_singleton.
  - destruct (fc_whitelist_hosts _); [done|]. simpl. by rewrite negb_involutive.
  - destruct (fc_blacklist_hosts _); [simpl|done].
    by rewrite contains_nil.
  - destruct (fc_whitelist_dc _); [done|]. simpl. by rewrite negb_involutive.
  - destruct (fc_blacklist_dc _); [simpl|done].
    by rewrite contains_nil.
Qed.

Lemma accept_sound configs c peer :
  c ∈ configs -> policy_accepts c peer = true ->
  accept (new_from_lbp_configs configs) peer = true.
Proof.
  intros Hc. rewrite policy_accepts_rules, accept_rules by (intros ->; by apply elem_of_nil in Hc).
  rewrite !forallb_forall. intros Hp rule Hr. apply existsb_exists. exists c.
  split; [by apply list_elem_of_In|auto].
Qed.

Lemma build_filtering c : fp_filtering (build c) = into_filtering_info (filtering c).
Proof. unfold build. by destruct (load_balancing_kind c) as [[]|]. Qed.

(** The policy that a configuration describes, one part at a time. *)
Definition described (c : LoadBalancingConfig) : FilteringPolicy :=
  let f := filtering c in
  {| fp_filtering :=
       {| whitelist_hosts := if decide (fc_whitelist_hosts f = []) then None else Some (fc_whitelist_hosts f);
          blacklist_hosts := if decide (fc_blacklist_hosts f = []) then None else Some (fc_blacklist_hosts f);
          whitelist_dc := if decide (fc_whitelist_dc f = []) then None else Some (fc_whitelist_dc f);
          blacklist_dc := if decide (fc_blacklist_dc f = []) then None else Some (fc_blacklist_dc f);
          allowed_dcs := match dc_restriction f with DcLocal dc => Whitelist [dc] | DcNone => AllDcs end |};
     fp_dc_local_cl_allowance :=
       match load_balancing_kind c with
       | Some (DcAware dc _ false) => DisallowRemotes dc
       | _ => AllowAll
       end;
     fp_child :=
       {| ps_token_aware := token_awareness_enabled c;
          ps_shuffling_replicas :=
            if token_awareness_enabled c then Some (token_aware_shuffling_replicas_enabled c) else None;
          ps_preference :=
            match load_balancing_kind c with
            | Some (DcAware dc _ _) => Some (dc, None)
            | Some (RackAware dc rack) => Some (dc, Some rack)
            | _ => None
            end;
          ps_permit_dc_failover :=
            match load_balancing_kind c with
            | Some (DcAware _ failover _) => Some failover
            | Some (RackAware _ _) => Some true
            | _ => None
            end;
          ps_latency :=
            if latency_awareness_enabled c then Some (latency_awareness_builder c) else None |} |}.

Lemma nonempty_decide {A} (l : list A) : nonempty l = if decide (l = []) then None else Some l.
Proof. by destruct l. Qed.

Lemma build_described c : build c = described c.
Proof.
  unfold build, described, into_filtering_info. rewrite !nonempty_decide.
  by destruct (load_balancing_kind c) as [[|dc f []|dc rack]|].
Qed.

(** ** Properties *)

(** C13: the host filter of a session never closes a host to the policies that may
    use it: a peer that some policy accepts is accepted by the filter combined
    from all configurations. *)
Theorem host_filter_sound (configs : list LoadBalancingConfig) (c : LoadBalancingConfig)
    (peer : Node) :
  c ∈ configs ->
  policy_accepts c peer = true ->
  accept (new_from_lbp_configs configs) peer = true.
Proof. apply accept_sound. Qed.

Definition cfg (wl bl : list IpAddr) (r : DcRestriction) : LoadBalancingConfig :=
  mkLoadBalancingConfig true true None false None (mkFilteringConfig wl bl [] [] r).

Definition ip_a : IpAddr := V4 [10; 0; 0; 1].
Definition ip_b : IpAddr := V4 [10; 0; 0; 2].

Lemma host_filter_sound_witness :
  accept (new_from_lbp_configs [cfg [ip_b] [ip_a] DcNone; cfg [ip_a] [] (DcLocal "dc1")])
    (mkNode ip_a (Some "dc1"%string)) = true.
Proof.
  apply (host_filter_sound _ (cfg [ip_a] [] (DcLocal "dc1"))); [|by vm_compute].
  apply elem_of_cons. right. by apply list_elem_of_singleton.
Defined.

(** The combined filter decides each of the five rules (allowed datacenters,
    host and datacenter white- and blacklists) separately: a peer is accepted
    exactly when each rule is satisfied by some configuration.  With a single
    configuration the filter is therefore the policy itself. *)
Theorem host_filter_rules (configs : list LoadBalancingConfig) (c : LoadBalancingConfig)
    (peer : Node) :
  (configs <> [] ->
   accept (new_from_lbp_configs configs) peer =
   forallb (fun rule => existsb (fun c => rule c peer) configs) rules) /\
  accept (new_from_lbp_configs [c]) peer = policy_accepts c peer.
Proof.
  split; [apply accept_rules|]. rewrite accept_rules, policy_accepts_rules by done.
  simpl. by rewrite !orb_false_r.
Qed.

(** The filter is not exact: there are configurations such that a host
    rejected by all of them is accepted by the combined filter, because its
    whitelist comes from one policy and its absence from the blacklists from
    the other. *)
Theorem host_filter_not_exact :
  exists configs peer,
    Forall (fun c => policy_accepts c peer = false) configs /\ configs <> [] /\
    accept (new_from_lbp_configs configs) peer = true.
Proof.
  exists [cfg [ip_a] [ip_a] DcNone; cfg [ip_b] [] DcNone], (mkNode ip_a None).
  split; [by repeat constructor|]. split; [done|by vm_compute].
Qed.

(** Every target a policy picks or falls back to passes the configured lists
    and, for a DC-aware policy that keeps local consistency levels local, lies in
    the local datacenter whenever the request's level is local; no other target of
    the child policy is dropped and the order of the plan is kept. *)
Theorem policy_plan_allowed {Request Cluster Shard : Type}
    (consistency : Request -> Consistency)
    (child_pick : PolicySettings -> Request -> Cluster -> option (Node * Shard))
    (child_fallback : PolicySettings -> Request -> Cluster -> list (Node * Shard))
    (c : LoadBalancingConfig) (request : Request) (cluster : Cluster) (t : Node * Shard) :
  let p := build c in
  let ok n := policy_accepts c n = true /\
    forall local_dc failover, load_balancing_kind c = Some (DcAware local_dc failover false) ->
    is_consistency_local (consistency request) = true -> datacenter n = Some local_dc in
  (pick consistency child_pick p request cluster = Some t <->
   child_pick (fp_child p) request cluster = Some t /\ ok t.1) /\
  (t ∈ fallback consistency child_fallback p request cluster <->
   t ∈ child_fallback (fp_child p) request cluster /\ ok t.1) /\
  sublist (fallback consistency child_fallback p request cluster)
    (child_fallback (fp_child p) request cluster).
Proof.
  intros p ok.
  assert (Hok : forall n, node_allowed p (consistency request) n = true <-> ok n).
  { intros n. unfold node_allowed, ok. rewrite andb_true_iff.
    unfold p at 1. rewrite build_filtering. fold (policy_accepts c n).
    apply and_iff_compat_l. unfold p, build.
    destruct (load_balancing_kind c) as [[|dc fo [|]|]|]; simpl; [by split..| |by split|by split].
    destruct (is_consistency_local _); [|by split]. unfold is_some_and. split.
    - intros H ? ? [= <- <-] _. destruct (datacenter n); [|done].
      by apply bool_decide_eq_true in H as ->.
    - intros H. rewrite (H dc fo eq_refl eq_refl). by apply bool_decide_eq_true. }
  unfold pick, fallback. rewrite <- !Hok. split_and!.
  - destruct (child_pick _ _ _) as [t'|]; simpl; [|by split; [|intros []]].
    destruct (node_allowed p _ t'.1) eqn:H; split; try done; [by intros [= <-]|by intros []|].
    intros [[= <-] ?]. congruence.
  - by rewrite !list_elem_of_In, filter_In.
  - induction (child_fallback _ _ _) as [|x l IH]; simpl; [constructor|].
    destruct (node_allowed _ _ _); by constructor.
Qed.
