(* ===== verification/ConfigSetters.v ===== *)
(** * Setters shared by clusters and execution profiles (cluster.rs)

    Comma-delimited lists of hosts and datacenters, and the two setters of the
    load balancing kind that [CassCluster] and [CassExecProfile] share. *)

From Stdlib Require Import ZArith Lia Ascii String.
From stdpp Require Import base list strings.
From S2P Require Import Prelude ArgConv Types ConfigValue Inet IpText LoadBalancing.

Open Scope Z_scope.

(** ** Text: [str::split] and [str::trim] on the bytes of a string *)

Definition string_of_bytes (l : list Z) : string :=
  string_of_list_ascii (map (fun b => ascii_of_N (Z.to_N b)) l).

Definition COMMA : Z := 44.

(** [split(',')]: never empty. *)
Fixpoint split_comma (l : list Z) : list (list Z) :=
  match l with
  | [] => [[]]
  | b :: l =>
      if b =? COMMA then [] :: split_comma l
      else match split_comma l with
           | item :: items => (b :: item) :: items
           | [] => [[b]]
           end
  end.

(** [char::is_whitespace] (the Unicode White_Space property) by encoded length. *)
Definition ws1 (b : Z) : bool := in_rng 9 13 b || (b =? 32).
Definition ws2 (b1 b2 : Z) : bool := (b1 =? 194) && ((b2 =? 133) || (b2 =? 160)).
Definition ws3 (b1 b2 b3 : Z) : bool :=
  ((b1 =? 225) && (b2 =? 154) && (b3 =? 128))
  || ((b1 =? 226) && (b2 =? 128)
      && (in_rng 128 138 b3 || (b3 =? 168) || (b3 =? 169) || (b3 =? 175)))
  || ((b1 =? 226) && (b2 =? 129) && (b3 =? 159))
  || ((b1 =? 227) && (b2 =? 128) && (b3 =? 128)).

Fixpoint trim_start (l : list Z) : list Z :=
  match l with
  | [] => []
  | b1 :: l1 =>
      if ws1 b1 then trim_start l1
      else match l1 with
      | [] => l
      | b2 :: l2 =>
          if ws2 b1 b2 then trim_start l2
          else match l2 with
          | [] => l
          | b3 :: l3 => if ws3 b1 b2 b3 then trim_start l3 else l
          end
      end
  end.

(** The same from the end; the bytes come in reverse order. *)
Fixpoint trim_rev (l : list Z) : list Z :=
  match l with
  | [] => []
  | b1 :: l1 =>
      if ws1 b1 then trim_rev l1
      else match l1 with
      | [] => l
      | b2 :: l2 =>
          if ws2 b2 b1 then trim_rev l2
          else match l2 with
          | [] => l
          | b3 :: l3 => if ws3 b3 b2 b1 then trim_rev l3 else l
          end
      end
  end.

Definition trim (l : list Z) : list Z := rev (trim_rev (rev (trim_start l))).

(** ** Comma-delimited lists *)

(** [update_comma_delimited_list]: the result and the updated vector. *)
Definition update_comma_delimited_list {T} (l : list T) (item_ptr : char_ptr) (item_length : nat)
    (convert : list Z -> option T) : result CassError unit * list T :=
  match to_str item_ptr item_length with
  | Err InvalidUtf8 => (Err CASS_ERROR_LIB_BAD_PARAMS, l)
  | Err NullPointer => (Ok tt, [])
  | Ok item_str =>
      if (String.length item_str =? 0)%nat then (Ok tt, [])
      else (Ok tt, l ++ omap convert (map trim (split_comma (as_bytes item_str))))
  end.

(** [|s| (!s.is_empty()).then(|| s.to_string())]. *)
Definition convert_string (s : list Z) : option string :=
  match s with [] => None | _ => Some (string_of_bytes s) end.

(** The converters of the host lists log and skip what does not parse. *)
Definition convert_ip (s : list Z) : option IpAddr := IpAddr_from_str s.

Definition result_code (r : result CassError unit) : CassError :=
  match r with Ok _ => CASS_OK | Err e => e end.

(** ** Load balancing kinds *)

#[export] Instance FilteringConfig_eta : Eta FilteringConfig := fun r =>
  mkFilteringConfig (fc_whitelist_hosts r) (fc_blacklist_hosts r) (fc_whitelist_dc r)
    (fc_blacklist_dc r) (dc_restriction r).

#[export] Instance LoadBalancingConfig_eta : Eta LoadBalancingConfig := fun r =>
  mkLoadBalancingConfig (token_awareness_enabled r) (token_aware_shuffling_replicas_enabled r)
    (load_balancing_kind r) (latency_awareness_enabled r) (latency_awareness_builder r)
    (filtering r).

Definition set_load_balance_dc_aware_n (config : LoadBalancingConfig) (local_dc_raw : char_ptr)
    (local_dc_length : nat) (used_hosts_per_remote_dc allow_remote_dcs_for_local_cl : Z)
  : CassError * LoadBalancingConfig :=
  match to_str local_dc_raw local_dc_length with
  | Err NullPointer => (CASS_ERROR_LIB_BAD_PARAMS, config)
  | Err InvalidUtf8 => (CASS_ERROR_LIB_BAD_PARAMS, config)
  | Ok local_dc =>
      if (local_dc_length =? 0)%nat then (CASS_ERROR_LIB_BAD_PARAMS, config)
      else
        let permit_dc_failover := 0 <? used_hosts_per_remote_dc in
        let config := config <| load_balancing_kind :=
          Some (DcAware local_dc permit_dc_failover (negb (allow_remote_dcs_for_local_cl =? 0))) |> in
        (CASS_OK, config <| filtering ::= fun f => f <| dc_restriction :=
           if permit_dc_failover then DcNone else DcLocal local_dc |> |>)
  end.

Definition set_load_balance_rack_aware_n (config : LoadBalancingConfig) (local_dc_raw : char_ptr)
    (local_dc_length : nat) (local_rack_raw : char_ptr) (local_rack_length : nat)
  : CassError * LoadBalancingConfig :=
  match to_str local_dc_raw local_dc_length, to_str local_rack_raw local_rack_length with
  | Ok local_dc, Ok local_rack =>
      if negb (local_dc_length =? 0)%nat && negb (local_rack_length =? 0)%nat
      then (CASS_OK, config <| load_balancing_kind := Some (RackAware local_dc local_rack) |>)
      else (CASS_ERROR_LIB_BAD_PARAMS, config)
  | _, _ => (CASS_ERROR_LIB_BAD_PARAMS, config)
  end.

(** ** Lemmas *)

(** The text of a list: items joined by commas. *)
Fixpoint join_comma (items : list (list Z)) : list Z :=
  match items with
  | [] => []
  | [x] => x
  | x :: items => x ++ COMMA :: join_comma items
  end.

Definition no_comma (x : list Z) : Prop := Forall (fun b => b <> COMMA) x.

(** An item between optional spaces, and when it has none of its own. *)
Definition spaces (l : list Z) : Prop := Forall (fun b => ws1 b = true) l.
Definition trimmed (x : list Z) : Prop :=
  x <> [] /\ trim_start x = x /\ trim_rev (rev x) = rev x.

#[local] Arguments ws1 : simpl never.
#[local] Arguments ws2 : simpl never.
#[local] Arguments ws3 : simpl never.

Lemma split_comma_cons x l :
  no_comma x -> split_comma (x ++ COMMA :: l) = x :: split_comma l.
Proof.
  induction 1 as [|b x Hb Hx IH]; simpl; [done|].
  destruct (Z.eqb_spec b COMMA); [done|]. by rewrite IH.
Qed.

Lemma split_comma_one x : no_comma x -> split_comma x = [x].
Proof.
  induction 1 as [|b x Hb Hx IH]; simpl; [done|].
  destruct (Z.eqb_spec b COMMA); [done|]. by rewrite IH.
Qed.

Lemma split_join items :
  items <> [] -> Forall no_comma items -> split_comma (join_comma items) = items.
Proof.
  intros Hne Hall. destruct Hall as [|x items Hx Hall]; [done|]. clear Hne. revert x Hx.
  induction Hall as [|y items Hy Hall IH]; intros x Hx; [by apply split_comma_one|].
  change (join_comma (x :: y :: items)) with (x ++ COMMA :: join_comma (y :: items)).
  by rewrite split_comma_cons, IH.
Qed.

Lemma trim_start_spaces l x : spaces l -> trim_start (l ++ x) = trim_start x.
Proof. induction 1 as [|b l Hb Hl IH]; simpl; [done|]. by rewrite Hb. Qed.

Lemma trim_rev_spaces l x : spaces l -> trim_rev (l ++ x) = trim_rev x.
Proof. induction 1 as [|b l Hb Hl IH]; simpl; [done|]. by rewrite Hb. Qed.

Lemma trim_start_length l : (length (trim_start l) <= length l)%nat.
Proof.
  induction l as [l IH] using (well_founded_induction (Wf_nat.well_founded_ltof _ (@length Z))).
  unfold Wf_nat.ltof in IH. destruct l as [|b1 l1]; simpl; [done|].
  destruct (ws1 b1); [specialize (IH l1); simpl in IH; lia|].
  destruct l1 as [|b2 l2]; simpl; [done|].
  destruct (ws2 b1 b2); [specialize (IH l2); simpl in IH; lia|].
  destruct l2 as [|b3 l3]; simpl; [done|].
  destruct (ws3 b1 b2 b3); [specialize (IH l3); simpl in IH; lia|done].
Qed.

(** Spaces after an item do not complete a longer white space character. *)
Lemma ws_space b c b' : ws1 c = true -> ws2 b c = false /\ ws3 b c b' = false /\ ws3 b b' c = false.
Proof. unfold ws1, ws2, ws3, in_rng. lia. Qed.

Lemma trim_start_keep x r :
  x <> [] -> trim_start x = x -> spaces r -> trim_start (x ++ r) = x ++ r.
Proof.
  intros Hne Hx Hr.
  assert (Hno : forall y : list Z, (length y < length x)%nat -> trim_start y <> x).
  { intros y Hy E. pose proof (trim_start_length y). rewrite E in *. lia. }
  destruct x as [|b1 [|b2 [|b3 x]]]; [done|..]; simpl in *.
  - destruct (ws1 b1); [done|]. destruct Hr as [|c r Hc Hr]; [done|].
    destruct (ws_space b1 c 0 Hc) as (-> & _ & _). destruct Hr as [|d r Hd Hr]; [done|].
    by destruct (ws_space b1 c d Hc) as (_ & -> & _).
  - destruct (ws1 b1); [by apply (Hno [b2]) in Hx; simpl; [|lia]|].
    destruct (ws2 b1 b2); [done|]. destruct Hr as [|c r Hc Hr]; [done|].
    by destruct (ws_space b1 c b2 Hc) as (_ & _ & ->).
  - destruct (ws1 b1); [by apply (Hno (b2 :: b3 :: x)) in Hx; simpl; [|lia]|].
    destruct (ws2 b1 b2); [by apply (Hno (b3 :: x)) in Hx; simpl; [|lia]|].
    destruct (ws3 b1 b2 b3); [by apply (Hno x) in Hx; simpl; [|lia]|done].
Qed.

Lemma trim_pad l x r : spaces l -> trimmed x -> spaces r -> trim (l ++ x ++ r) = x.
Proof.
  intros Hl (Hne & Hs & He) Hr. unfold trim. rewrite trim_start_spaces by done.
  rewrite trim_start_keep by done. rewrite rev_app_distr, trim_rev_spaces, He; [apply rev_involutive|].
  apply Forall_rev. done.
Qed.

Lemma spaces_no_comma l : spaces l -> no_comma l.
Proof.
  intros Hl. eapply Forall_impl; [exact Hl|]. intros b. unfold ws1, in_rng, COMMA. lia.
Qed.

(** ** Properties *)

(** A comma-delimited list appends exactly the accepted items of its text, in
    order, whatever spaces surround them; a null or empty string clears the list,
    and text that is not UTF-8 is refused and leaves the list alone. *)
Theorem comma_list_items {T} (l : list T) (convert : list Z -> option T) (s : string)
    (items : list (list Z * list Z * list Z)) :
  items <> [] ->
  Forall (fun '(pre, x, post) => spaces pre /\ trimmed x /\ no_comma x /\ spaces post) items ->
  as_bytes s = join_comma (map (fun '(pre, x, post) => pre ++ x ++ post) items) ->
  update_comma_delimited_list l (Some s) (String.length s) convert
    = (if utf8_valid (as_bytes s) then (Ok tt, l ++ omap convert (map (fun i => i.1.2) items))
       else (Err CASS_ERROR_LIB_BAD_PARAMS, l)) /\
  update_comma_delimited_list l (Some s) 0 convert = (Ok tt, []) /\
  update_comma_delimited_list l None 0 convert = (Ok tt, []).
Proof.
  intros Hne Hall Hs. split; [|by destruct s].
  unfold update_comma_delimited_list, to_str, from_utf8. rewrite substring_all.
  destruct (utf8_valid (as_bytes s)); [|done].
  destruct (Nat.eqb_spec (String.length s) 0) as [H0|_].
  { exfalso. rewrite <- length_as_bytes, Hs in H0. destruct Hall as [|[[a x] b] items Hi Hall]; [done|].
    destruct Hi as (_ & (Hx & _) & _). destruct x as [|c x]; [done|].
    destruct items; simpl in H0; rewrite !length_app in H0; simpl in H0; lia. }
  do 3 f_equal. rewrite Hs, split_join.
  - rewrite map_map. apply map_ext_in. intros [[a x] b] Hin%list_elem_of_In.
    rewrite Forall_forall in Hall. destruct (Hall _ Hin) as (? & ? & ? & ?). by apply trim_pad.
  - by destruct items.
  - apply Forall_map. eapply Forall_impl; [exact Hall|]. intros [[a x] b] (? & ? & ? & ?).
    unfold no_comma. simpl. rewrite !Forall_app. split_and!; (done || by apply spaces_no_comma).
Qed.

Lemma comma_list_items_witness :
  update_comma_delimited_list [ip_doc] (Some " 10.0.0.1,x , ::1") 17 convert_ip
  = (Ok tt, [ip_doc; V4 [10; 0; 0; 1]; V6 (replicate 15 0 ++ [1])]).
Proof.
  destruct (comma_list_items [ip_doc] convert_ip " 10.0.0.1,x , ::1"
    [([32], as_bytes "10.0.0.1", []); ([], as_bytes "x", [32]); ([32], as_bytes "::1", [])])
    as (H & _ & _).
  - discriminate.
  - repeat constructor; (discriminate || reflexivity).
  - reflexivity.
  - etransitivity; [exact H|]. vm_compute. reflexivity.
Defined.
