(* ===== verification/ExecProfile.v ===== *)
(** * Execution profiles (exec_profile.rs)

    [ExecutionProfileBuilder] and [ExecutionProfile] belong to the Rust driver:
    the builder remembers what was set, and [build] fills what was not with the
    driver's own defaults, a parameter here. *)

From Stdlib Require Import ZArith Lia String.
From stdpp Require Import base list gmap strings.
From S2P Require Import Prelude ArgConv Types ConfigValue Inet IpText LoadBalancing ConfigSetters.

Open Scope Z_scope.

(** [SimpleSpeculativeExecutionPolicy]. *)
Record SpeculativePolicy := mkSpeculativePolicy { max_retry_count : Z; retry_interval : Duration }.

Record ExecutionProfileBuilder := mkBuilder {
  b_request_timeout : option (option Duration);
  b_consistency : option Consistency;
  b_serial_consistency : option (option SerialConsistency);
  b_load_balancing_policy : option FilteringPolicy;
  b_retry_policy : option CassRetryPolicy;
  b_speculative_execution_policy : option (option SpeculativePolicy)
}.

Definition builder_new : ExecutionProfileBuilder := mkBuilder None None None None None None.

#[export] Instance builder_eta : Eta ExecutionProfileBuilder := fun r =>
  mkBuilder (b_request_timeout r) (b_consistency r) (b_serial_consistency r)
    (b_load_balancing_policy r) (b_retry_policy r) (b_speculative_execution_policy r).

Record ExecutionProfile := mkProfile {
  p_request_timeout : option Duration;
  p_consistency : Consistency;
  p_serial_consistency : option SerialConsistency;
  p_load_balancing_policy : FilteringPolicy;
  p_retry_policy : CassRetryPolicy;
  p_speculative_execution_policy : option SpeculativePolicy
}.

(** [ExecutionProfileBuilder::build], over the Rust driver's defaults. *)
Definition builder_build (rust : ExecutionProfile) (b : ExecutionProfileBuilder)
  : ExecutionProfile :=
  mkProfile (default (p_request_timeout rust) (b_request_timeout b))
    (default (p_consistency rust) (b_consistency b))
    (default (p_serial_consistency rust) (b_serial_consistency b))
    (default (p_load_balancing_policy rust) (b_load_balancing_policy b))
    (default (p_retry_policy rust) (b_retry_policy b))
    (default (p_speculative_execution_policy rust) (b_speculative_execution_policy b)).

Record ExecutionProfileOverrides := mkOverrides {
  o_consistency : bool;
  o_serial_consistency : bool;
  o_request_timeout : bool;
  o_retry_policy : bool;
  o_speculative_execution_policy : bool
}.

Definition overrides_default : ExecutionProfileOverrides :=
  mkOverrides false false false false false.

#[export] Instance overrides_eta : Eta ExecutionProfileOverrides := fun r =>
  mkOverrides (o_consistency r) (o_serial_consistency r) (o_request_timeout r) (o_retry_policy r)
    (o_speculative_execution_policy r).

Record CassExecProfile := mkCassExecProfile {
  inner : ExecutionProfileBuilder;
  overrides : ExecutionProfileOverrides;
  load_balancing_config : LoadBalancingConfig
}.

#[export] Instance CassExecProfile_eta : Eta CassExecProfile := fun r =>
  mkCassExecProfile (inner r) (overrides r) (load_balancing_config r).

Definition cass_execution_profile_new : CassExecProfile :=
  mkCassExecProfile builder_new overrides_default LoadBalancingConfig_default.

(** [modify_in_place] through [exec_profile_builder_modify]: the builder is taken,
    modified and put back. *)
Definition exec_profile_builder_modify (builder : ExecutionProfileBuilder)
    (builder_modifier : ExecutionProfileBuilder -> ExecutionProfileBuilder)
  : ExecutionProfileBuilder := builder_modifier builder.

Definition modify_in_place (self : CassExecProfile)
    (builder_modifier : ExecutionProfileBuilder -> ExecutionProfileBuilder) : CassExecProfile :=
  self <| inner := exec_profile_builder_modify (inner self) builder_modifier |>.

(** cluster.rs: [DEFAULT_CONSISTENCY]. *)
Definition DEFAULT_CONSISTENCY : Consistency := LocalOne.

Definition use_cluster_defaults_for_unset_settings (self : CassExecProfile)
    (default_profile : ExecutionProfile) : CassExecProfile :=
  let o := overrides self in
  let self := if o_consistency o then self else
    modify_in_place self (fun b => b <| b_consistency := Some DEFAULT_CONSISTENCY |>) in
  let self := if o_serial_consistency o then self else
    modify_in_place self
      (fun b => b <| b_serial_consistency := Some (p_serial_consistency default_profile) |>) in
  let self := if o_request_timeout o then self else
    modify_in_place self
      (fun b => b <| b_request_timeout := Some (p_request_timeout default_profile) |>) in
  let self := if o_retry_policy o then self else
    modify_in_place self
      (fun b => b <| b_retry_policy := Some (p_retry_policy default_profile) |>) in
  if o_speculative_execution_policy o then self else
    modify_in_place self (fun b => b <| b_speculative_execution_policy :=
      Some (p_speculative_execution_policy default_profile) |>).

(** [CassExecProfile::build]. *)
Definition profile_build (rust : ExecutionProfile) (self : CassExecProfile)
    (cluster_default_profile : ExecutionProfile) : ExecutionProfile :=
  let self := use_cluster_defaults_for_unset_settings self cluster_default_profile in
  let load_balancing :=
    match load_balancing_kind (load_balancing_config self) with
    | Some _ => build (load_balancing_config self)
    | None => p_load_balancing_policy cluster_default_profile
    end in
  builder_build rust ((inner self) <| b_load_balancing_policy := Some load_balancing |>).

(** [ExecProfileName::try_from]: a profile name is a non-empty string. *)
Definition ExecProfileName_try_from (name : string) : option string :=
  if (String.length name =? 0)%nat then None else Some name.

(** ** Per-statement profiles

    The cell is shared by a statement and the clones of it that run. *)
Inductive PerStatementExecProfile (Handle : Type) :=
| Unresolved (name : string)
| Resolved (handle : Handle).
Arguments Unresolved {Handle} name.
Arguments Resolved {Handle} handle.

Definition get_or_resolve_profile_handle {Handle E} (resolve_exec_profile : string -> result E Handle)
    (cell : PerStatementExecProfile Handle)
  : result E Handle * PerStatementExecProfile Handle :=
  match cell with
  | Resolved handle => (Ok handle, cell)
  | Unresolved name =>
      match resolve_exec_profile name with
      | Ok handle => (Ok handle, Resolved handle)
      | Err e => (Err e, cell)
      end
  end.

(** [cass_statement_set_execution_profile_n] and [cass_batch_set_execution_profile_n]
    on the [exec_profile] field of the statement or batch behind the pointer. *)
Definition set_execution_profile_n {Handle} (name : char_ptr) (name_length : nat)
    (exec_profile : option (PerStatementExecProfile Handle))
  : CassError * option (PerStatementExecProfile Handle) :=
  match to_str name name_length with
  | Ok name => (CASS_OK, Unresolved <$> ExecProfileName_try_from name)
  | Err NullPointer => (CASS_OK, None)
  | Err InvalidUtf8 => (CASS_ERROR_LIB_BAD_PARAMS, exec_profile)
  end.

(** ** The setters of the C API *)

Definition profile_ptr : Type := option CassExecProfile.

Definition on_profile (f : CassExecProfile -> CassError * CassExecProfile) (profile : profile_ptr)
  : CassError * profile_ptr := with_mut CASS_ERROR_LIB_BAD_PARAMS f profile.

(** Setters of the load balancing configuration that cannot fail. *)
Definition on_lbc (f : LoadBalancingConfig -> LoadBalancingConfig) (profile : CassExecProfile)
  : CassError * CassExecProfile := (CASS_OK, profile <| load_balancing_config ::= f |>).

Definition cass_execution_profile_set_consistency (consistency : CassConsistency) :=
  on_profile (fun profile =>
    match from_c_value (T := Consistency) consistency with
    | Err _ => (CASS_ERROR_LIB_BAD_PARAMS, profile)
    | Ok Unset => (CASS_OK, profile <| overrides ::= fun o => o <| o_consistency := false |> |>)
    | Ok (SetTo consistency) =>
        let profile := modify_in_place profile (fun b => b <| b_consistency := Some consistency |>) in
        (CASS_OK, profile <| overrides ::= fun o => o <| o_consistency := true |> |>)
    end).

Definition cass_execution_profile_set_serial_consistency (serial_consistency : CassConsistency) :=
  on_profile (fun profile =>
    match from_c_value (T := option SerialConsistency) serial_consistency with
    | Err _ => (CASS_ERROR_LIB_BAD_PARAMS, profile)
    | Ok Unset =>
        (CASS_OK, profile <| overrides ::= fun o => o <| o_serial_consistency := false |> |>)
    | Ok (SetTo maybe_serial) =>
        let profile :=
          modify_in_place profile (fun b => b <| b_serial_consistency := Some maybe_serial |>) in
        (CASS_OK, profile <| overrides ::= fun o => o <| o_serial_consistency := true |> |>)
    end).

Definition cass_execution_profile_set_request_timeout (timeout_ms : Z) :=
  on_profile (fun profile =>
    match from_c_value_infallible (T := RequestTimeout) timeout_ms with
    | Unset => (CASS_OK, profile <| overrides ::= fun o => o <| o_request_timeout := false |> |>)
    | SetTo maybe_timeout =>
        let profile :=
          modify_in_place profile (fun b => b <| b_request_timeout := Some maybe_timeout |>) in
        (CASS_OK, profile <| overrides ::= fun o => o <| o_request_timeout := true |> |>)
    end).

(** [Panic] is the failing [expect] of the conversion. *)
Definition cass_execution_profile_set_retry_policy (retry_policy : option CassRetryPolicy)
    (profile : profile_ptr) : outcome (CassError * profile_ptr) :=
  match profile with
  | None => Ret (CASS_ERROR_LIB_BAD_PARAMS, None)
  | Some profile =>
      match from_c_value (T := CassRetryPolicy) retry_policy with
      | Ok (SetTo retry_policy) =>
          let profile :=
            modify_in_place profile (fun b => b <| b_retry_policy := Some retry_policy |>) in
          Ret (CASS_OK, Some (profile <| overrides ::= fun o => o <| o_retry_policy := true |> |>))
      | Ok Unset =>
          Ret (CASS_OK, Some (profile <| overrides ::= fun o => o <| o_retry_policy := false |> |>))
      | Err _ => Panic
      end
  end.

Definition cass_execution_profile_set_no_speculative_execution_policy :=
  on_profile (fun profile =>
    let profile :=
      modify_in_place profile (fun b => b <| b_speculative_execution_policy := Some None |>) in
    (CASS_OK, profile <| overrides ::= fun o => o <| o_speculative_execution_policy := true |> |>)).

Definition cass_execution_profile_set_constant_speculative_execution_policy
    (constant_delay_ms max_speculative_executions : Z) :=
  on_profile (fun profile =>
    if (constant_delay_ms <? 0) || (max_speculative_executions <? 0)
    then (CASS_ERROR_LIB_BAD_PARAMS, profile)
    else
      let policy := mkSpeculativePolicy max_speculative_executions (Millis constant_delay_ms) in
      let profile :=
        modify_in_place profile (fun b => b <| b_speculative_execution_policy := Some (Some policy) |>) in
      (CASS_OK,
       profile <| overrides ::= fun o => o <| o_speculative_execution_policy := true |> |>)).

Definition cass_execution_profile_set_latency_aware_routing (enabled : Z) :=
  on_profile (on_lbc (fun c => c <| latency_awareness_enabled := negb (enabled =? 0) |>)).

(** The scale is ignored; the threshold is passed as its bit pattern. *)
Definition cass_execution_profile_set_latency_aware_routing_settings
    (exclusion_threshold _scale_ms retry_period_ms update_rate_ms min_measured : Z)
    (profile : profile_ptr) : profile_ptr :=
  (with_mut tt (fun profile =>
     (tt, profile <| load_balancing_config ::= fun c => c <| latency_awareness_builder :=
        Some (mkLatencyAwareness exclusion_threshold None retry_period_ms update_rate_ms
                min_measured) |> |>)) profile).2.

Definition cass_execution_profile_set_load_balance_dc_aware_n (local_dc : char_ptr)
    (local_dc_length : nat) (used_hosts_per_remote_dc allow_remote_dcs_for_local_cl : Z) :=
  on_profile (fun profile =>
    let '(err, c) := set_load_balance_dc_aware_n (load_balancing_config profile) local_dc
      local_dc_length used_hosts_per_remote_dc allow_remote_dcs_for_local_cl in
    (err, profile <| load_balancing_config := c |>)).

Definition cass_execution_profile_set_load_balance_dc_aware (local_dc : char_ptr)
    (used_hosts_per_remote_dc allow_remote_dcs_for_local_cl : Z) :=
  let '(local_dc, local_dc_length) := as_len_delimited local_dc in
  cass_execution_profile_set_load_balance_dc_aware_n local_dc local_dc_length
    used_hosts_per_remote_dc allow_remote_dcs_for_local_cl.

Definition cass_execution_profile_set_load_balance_rack_aware_n (local_dc : char_ptr)
    (local_dc_length : nat) (local_rack : char_ptr) (local_rack_length : nat) :=
  on_profile (fun profile =>
    let '(err, c) := set_load_balance_rack_aware_n (load_balancing_config profile) local_dc
      local_dc_length local_rack local_rack_length in
    (err, profile <| load_balancing_config := c |>)).

Definition cass_execution_profile_set_load_balance_rack_aware (local_dc local_rack : char_ptr) :=
  let '(local_dc, local_dc_length) := as_len_delimited local_dc in
  let '(local_rack, local_rack_length) := as_len_delimited local_rack in
  cass_execution_profile_set_load_balance_rack_aware_n local_dc local_dc_length local_rack
    local_rack_length.

Definition cass_execution_profile_set_load_balance_round_robin :=
  on_profile (on_lbc (fun c => c <| load_balancing_kind := Some RoundRobin |>)).

(** The four list setters; a list that is not UTF-8 is reported and unchanged. *)
Definition cass_execution_profile_set_whitelist_filtering_n (hosts : char_ptr) (hosts_size : nat) :=
  on_profile (fun profile =>
    let f := filtering (load_balancing_config profile) in
    let '(r, l) := update_comma_delimited_list (fc_whitelist_hosts f) hosts hosts_size convert_ip in
    (result_code r, profile <| load_balancing_config ::= fun c =>
       c <| filtering := f <| fc_whitelist_hosts := l |> |> |>)).

Definition cass_execution_profile_set_blacklist_filtering_n (hosts : char_ptr) (hosts_size : nat) :=
  on_profile (fun profile =>
    let f := filtering (load_balancing_config profile) in
    let '(r, l) := update_comma_delimited_list (fc_blacklist_hosts f) hosts hosts_size convert_ip in
    (result_code r, profile <| load_balancing_config ::= fun c =>
       c <| filtering := f <| fc_blacklist_hosts := l |> |> |>)).

Definition cass_execution_profile_set_whitelist_dc_filtering_n (dcs : char_ptr) (dcs_size : nat) :=
  on_profile (fun profile =>
    let f := filtering (load_balancing_config profile) in
    let '(r, l) := update_comma_delimited_list (fc_whitelist_dc f) dcs dcs_size convert_string in
    (result_code r, profile <| load_balancing_config ::= fun c =>
       c <| filtering := f <| fc_whitelist_dc := l |> |> |>)).

Definition cass_execution_profile_set_blacklist_dc_filtering_n (dcs : char_ptr) (dcs_size : nat) :=
  on_profile (fun profile =>
    let f := filtering (load_balancing_config profile) in
    let '(r, l) := update_comma_delimited_list (fc_blacklist_dc f) dcs dcs_size convert_string in
    (result_code r, profile <| load_balancing_config ::= fun c =>
       c <| filtering := f <| fc_blacklist_dc := l |> |> |>)).

Definition cass_execution_profile_set_whitelist_filtering (hosts : char_ptr) :=
  let '(hosts, n) := as_len_delimited hosts in
  cass_execution_profile_set_whitelist_filtering_n hosts n.

Definition cass_execution_profile_set_blacklist_filtering (hosts : char_ptr) :=
  let '(hosts, n) := as_len_delimited hosts in
  cass_execution_profile_set_blacklist_filtering_n hosts n.

Definition cass_execution_profile_set_whitelist_dc_filtering (dcs : char_ptr) :=
  let '(dcs, n) := as_len_delimited dcs in
  cass_execution_profile_set_whitelist_dc_filtering_n dcs n.

Definition cass_execution_profile_set_blacklist_dc_filtering (dcs : char_ptr) :=
  let '(dcs, n) := as_len_delimited dcs in
  cass_execution_profile_set_blacklist_dc_filtering_n dcs n.

Definition cass_execution_profile_set_token_aware_routing (enabled : Z) :=
  on_profile (on_lbc (fun c => c <| token_awareness_enabled := negb (enabled =? 0) |>)).

Definition cass_execution_profile_set_token_aware_routing_shuffle_replicas (enabled : Z) :=
  on_profile
    (on_lbc (fun c => c <| token_aware_shuffling_replicas_enabled := negb (enabled =? 0) |>)).

(** ** Sequences of calls *)

Inductive profile_call :=
| PConsistency (c : CassConsistency)
| PSerialConsistency (c : CassConsistency)
| PRequestTimeout (timeout_ms : Z)
| PRetryPolicy (p : option CassRetryPolicy)
| PNoSpeculative
| PConstantSpeculative (delay_ms max : Z)
| PLatencyAware (enabled : Z)
| PLatencySettings (exclusion scale retry_period update_rate min_measured : Z)
| PDcAware (dc : char_ptr) (len : nat) (used_hosts allow : Z)
| PRackAware (dc : char_ptr) (dc_len : nat) (rack : char_ptr) (rack_len : nat)
| PRoundRobin
| PWhitelist (hosts : char_ptr) (len : nat)
| PBlacklist (hosts : char_ptr) (len : nat)
| PWhitelistDc (dcs : char_ptr) (len : nat)
| PBlacklistDc (dcs : char_ptr) (len : nat)
| PTokenAware (enabled : Z)
| PShuffleReplicas (enabled : Z).

Definition profile_exec (call : profile_call) (p : profile_ptr) : outcome (CassError * profile_ptr) :=
  match call with
  | PConsistency c => Ret (cass_execution_profile_set_consistency c p)
  | PSerialConsistency c => Ret (cass_execution_profile_set_serial_consistency c p)
  | PRequestTimeout t => Ret (cass_execution_profile_set_request_timeout t p)
  | PRetryPolicy r => cass_execution_profile_set_retry_policy r p
  | PNoSpeculative => Ret (cass_execution_profile_set_no_speculative_execution_policy p)
  | PConstantSpeculative d m =>
      Ret (cass_execution_profile_set_constant_speculative_execution_policy d m p)
  | PLatencyAware e => Ret (cass_execution_profile_set_latency_aware_routing e p)
  | PLatencySettings a b c d e =>
      Ret (CASS_OK, cass_execution_profile_set_latency_aware_routing_settings a b c d e p)
  | PDcAware dc n u a => Ret (cass_execution_profile_set_load_balance_dc_aware_n dc n u a p)
  | PRackAware dc n rack m =>
      Ret (cass_execution_profile_set_load_balance_rack_aware_n dc n rack m p)
  | PRoundRobin => Ret (cass_execution_profile_set_load_balance_round_robin p)
  | PWhitelist h n => Ret (cass_execution_profile_set_whitelist_filtering_n h n p)
  | PBlacklist h n => Ret (cass_execution_profile_set_blacklist_filtering_n h n p)
  | PWhitelistDc h n => Ret (cass_execution_profile_set_whitelist_dc_filtering_n h n p)
  | PBlacklistDc h n => Ret (cass_execution_profile_set_blacklist_dc_filtering_n h n p)
  | PTokenAware e => Ret (cass_execution_profile_set_token_aware_routing e p)
  | PShuffleReplicas e => Ret (cass_execution_profile_set_token_aware_routing_shuffle_replicas e p)
  end.

Fixpoint profile_run (calls : list profile_call) (p : profile_ptr) : outcome profile_ptr :=
  match calls with
  | [] => Ret p
  | call :: calls =>
      match profile_exec call p with
      | Ret (_, p) => profile_run calls p
      | Panic => Panic
      | Diverge => Diverge
      end
  end.

(** ** The contract of a profile

    Each setting is given or left to the cluster, and the last valid call on it
    decides.  The contract is written on settings, apart from the configuration
    structures and the conversions of the code. *)
Record ProfileSpec := mkProfileSpec {
  s_consistency : option Consistency;
  s_serial_consistency : option (option SerialConsistency);
  s_request_timeout : option (option Duration);
  s_retry_policy : option CassRetryPolicy;
  s_speculative : option (option SpeculativePolicy);
  s_kind : option LoadBalancingKind;
  s_only_dc : option string;     (* the last DC-aware policy, if it has no failover *)
  s_token_aware : bool;
  s_shuffle : bool;
  s_latency_aware : bool;
  s_latency : option LatencyAwareness;
  s_white_hosts : list IpAddr;
  s_black_hosts : list IpAddr;
  s_white_dcs : list string;
  s_black_dcs : list string
}.

#[export] Instance ProfileSpec_eta : Eta ProfileSpec := fun r =>
  mkProfileSpec (s_consistency r) (s_serial_consistency r) (s_request_timeout r)
    (s_retry_policy r) (s_speculative r) (s_kind r) (s_only_dc r) (s_token_aware r) (s_shuffle r)
    (s_latency_aware r) (s_latency r) (s_white_hosts r) (s_black_hosts r) (s_white_dcs r)
    (s_black_dcs r).

(** A new profile gives nothing, except token awareness with shuffling. *)
Definition spec_new : ProfileSpec :=
  mkProfileSpec None None None None None None None true true false None [] [] [] [].

(** The level a C value is the encoding of. *)
Definition level (c : CassConsistency) : option Consistency :=
  list_find (fun l => CassConsistency_from l = c)
    [Any; One; Two; Three; Quorum; All; LocalQuorum; EachQuorum; LocalOne; LocalSerial; Serial]
  ≫= fun found => Some found.2.

Definition serial_level (c : CassConsistency) : option (option SerialConsistency) :=
  if decide (c = CASS_CONSISTENCY_SERIAL) then Some (Some SCSerial)
  else if decide (c = CASS_CONSISTENCY_LOCAL_SERIAL) then Some (Some SCLocalSerial)
  else if decide (c = CASS_CONSISTENCY_ANY) then Some None
  else None.

(** The text an argument gives: the first [n] bytes, which must be UTF-8. *)
Definition text (p : char_ptr) (n : nat) : option string :=
  p ≫= fun s => let t := String.substring 0 n s in
    if utf8_valid (as_bytes t) then Some t else None.

(** The same where the text must not be empty. *)
Definition name_given (p : char_ptr) (n : nat) : option string :=
  if decide (n = 0%nat) then None else text p n.

(** A list is cleared by a null or empty text and extended by the entries of any
    other one. *)
Definition listed {T} (entry : list Z -> option T) (p : char_ptr) (n : nat) (old : list T) : list T :=
  match p with
  | None => []
  | Some _ =>
      match text p n with
      | Some EmptyString => []
      | Some t => old ++ omap entry (map trim (split_comma (as_bytes t)))
      | None => old
      end
  end.

Definition dc_entry (s : list Z) : option string :=
  if decide (s = []) then None else Some (string_of_bytes s).

(** Which calls have arguments the API accepts. *)
Definition valid_call (call : profile_call) : bool :=
  match call with
  | PConsistency c => bool_decide (c = CASS_CONSISTENCY_UNKNOWN \/ is_Some (level c))
  | PSerialConsistency c => bool_decide (c = CASS_CONSISTENCY_UNKNOWN \/ is_Some (serial_level c))
  | PConstantSpeculative d m => bool_decide (0 <= d /\ 0 <= m)
  | PDcAware dc n _ _ => bool_decide (is_Some (name_given dc n))
  | PRackAware dc n rack m =>
      bool_decide (is_Some (name_given dc n) /\ is_Some (name_given rack m))
  | PWhitelist p n | PBlacklist p n | PWhitelistDc p n | PBlacklistDc p n =>
      bool_decide (p = None \/ is_Some (text p n))
  | PRequestTimeout _ | PRetryPolicy _ | PNoSpeculative | PLatencyAware _
  | PLatencySettings _ _ _ _ _ | PRoundRobin | PTokenAware _ | PShuffleReplicas _ => true
  end.

(** What an accepted call does to the settings. *)
Definition call_effect (call : profile_call) (s : ProfileSpec) : ProfileSpec :=
  match call with
  | PConsistency c => s <| s_consistency := level c |>
  | PSerialConsistency c => s <| s_serial_consistency := serial_level c |>
  | PRequestTimeout t => s <| s_request_timeout :=
      if decide (t = 2 ^ 64 - 1) then None
      else Some (if decide (t = 0) then None else Some (Millis t)) |>
  | PRetryPolicy r => s <| s_retry_policy := r |>
  | PNoSpeculative => s <| s_speculative := Some None |>
  | PConstantSpeculative d m =>
      s <| s_speculative := Some (Some (mkSpeculativePolicy m (Millis d))) |>
  | PLatencyAware e => s <| s_latency_aware := bool_decide (e <> 0) |>
  | PLatencySettings exclusion _ retry_period update_rate min_measured =>
      s <| s_latency :=
        Some (mkLatencyAwareness exclusion None retry_period update_rate min_measured) |>
  | PDcAware dc n used_hosts allow =>
      let failover := bool_decide (0 < used_hosts) in
      let s := s <| s_kind := (fun dc => DcAware dc failover (bool_decide (allow <> 0)))
                                <$> name_given dc n |> in
      s <| s_only_dc := if failover then None else name_given dc n |>
  | PRackAware dc n rack m =>
      s <| s_kind := name_given dc n ≫= fun dc => RackAware dc <$> name_given rack m |>
  | PRoundRobin => s <| s_kind := Some RoundRobin |>
  | PWhitelist p n => s <| s_white_hosts ::= listed IpAddr_from_str p n |>
  | PBlacklist p n => s <| s_black_hosts ::= listed IpAddr_from_str p n |>
  | PWhitelistDc p n => s <| s_white_dcs ::= listed dc_entry p n |>
  | PBlacklistDc p n => s <| s_black_dcs ::= listed dc_entry p n |>
  | PTokenAware e => s <| s_token_aware := bool_decide (e <> 0) |>
  | PShuffleReplicas e => s <| s_shuffle := bool_decide (e <> 0) |>
  end.

Definition spec_call (s : ProfileSpec) (call : profile_call) : ProfileSpec :=
  if valid_call call then call_effect call s else s.

(** The load balancing settings as a configuration. *)
Definition spec_config (s : ProfileSpec) : LoadBalancingConfig :=
  mkLoadBalancingConfig (s_token_aware s) (s_shuffle s) (s_kind s) (s_latency_aware s) (s_latency s)
    (mkFilteringConfig (s_white_hosts s) (s_black_hosts s) (s_white_dcs s) (s_black_dcs s)
      (from_option DcLocal DcNone (s_only_dc s))).
(** What a session uses for a profile: its own settings, else the cluster's, except
    for the consistency, which falls back to LOCAL_ONE whatever the cluster's is.
    The load balancing settings count as a whole, once a kind was chosen. *)
Definition spec_build (s : ProfileSpec) (cluster : ExecutionProfile) : ExecutionProfile :=
  {| p_request_timeout := default (p_request_timeout cluster) (s_request_timeout s);
     p_consistency := default LocalOne (s_consistency s);
     p_serial_consistency := default (p_serial_consistency cluster) (s_serial_consistency s);
     p_load_balancing_policy :=
       if decide (s_kind s = None) then p_load_balancing_policy cluster else described (spec_config s);
     p_retry_policy := default (p_retry_policy cluster) (s_retry_policy s);
     p_speculative_execution_policy :=
       default (p_speculative_execution_policy cluster) (s_speculative s) |}.
(** A builder field counts only while its override flag is set. *)
Definition guarded {A} (flag : bool) (field : option A) (s : option A) : Prop :=
  if flag then field = s /\ s <> None else s = None.

Record simulates (p : CassExecProfile) (s : ProfileSpec) : Prop := {
  sim_consistency : guarded (o_consistency (overrides p)) (b_consistency (inner p)) (s_consistency s);
  sim_serial : guarded (o_serial_consistency (overrides p)) (b_serial_consistency (inner p))
                 (s_serial_consistency s);
  sim_timeout : guarded (o_request_timeout (overrides p)) (b_request_timeout (inner p))
                  (s_request_timeout s);
  sim_retry : guarded (o_retry_policy (overrides p)) (b_retry_policy (inner p)) (s_retry_policy s);
  sim_speculative : guarded (o_speculative_execution_policy (overrides p))
                      (b_speculative_execution_policy (inner p)) (s_speculative s);
  sim_lbc : load_balancing_config p = spec_config s
}.

(** *** The conversions of the code against the contract *)

Lemma from_c_value_level c :
  from_c_value (T := Consistency) c
  = if decide (c = CASS_CONSISTENCY_UNKNOWN) then Ok Unset
    else from_option (fun l => Ok (SetTo l)) (Err tt) (level c).
Proof. by destruct c. Qed.

Lemma from_c_value_serial_level c :
  from_c_value (T := option SerialConsistency) c
  = if decide (c = CASS_CONSISTENCY_UNKNOWN) then Ok Unset
    else from_option (fun l => Ok (SetTo l)) (Err tt) (serial_level c).
Proof. by destruct c. Qed.

Lemma to_str_text p n :
  to_str p n = match p with
               | None => Err NullPointer
               | Some _ => from_option Ok (Err InvalidUtf8) (text p n)
               end.
Proof.
  destruct p as [s|]; [|done]. unfold to_str, from_utf8, text. simpl. by destruct (utf8_valid _).
Qed.

Lemma update_listed {T} (convert entry : list Z -> option T) l p n :
  (forall x, convert x = entry x) ->
  update_comma_delimited_list l p n convert
  = if bool_decide (p = None \/ is_Some (text p n)) then (Ok tt, listed entry p n l)
    else (Err CASS_ERROR_LIB_BAD_PARAMS, l).
Proof.
  intros Hext. unfold update_comma_delimited_list, listed. rewrite to_str_text.
  destruct p as [s|]; [|done]. destruct (text (Some s) n) as [t|] eqn:Ht; simpl.
  - destruct t as [|a t]; [done|]. simpl. do 2 f_equal.
    by apply list_omap_ext, Forall_Forall2_diag, Forall_true.
  - done.
Qed.

Lemma dc_aware_given c dc n used allow :
  set_load_balance_dc_aware_n c dc n used allow
  = match name_given dc n with
    | None => (CASS_ERROR_LIB_BAD_PARAMS, c)
    | Some dc =>
        (CASS_OK, c <| load_balancing_kind :=
                         Some (DcAware dc (bool_decide (0 < used)) (bool_decide (allow <> 0))) |>
                    <| filtering ::= fun f => f <| dc_restriction :=
                         if bool_decide (0 < used) then DcNone else DcLocal dc |> |>)
    end.
Proof.
  unfold set_load_balance_dc_aware_n, name_given. rewrite to_str_text.
  destruct dc as [s|]; [|by case_decide].
  destruct (text (Some s) n) as [t|]; simpl; [|by case_decide].
  destruct (Nat.eqb_spec n 0); case_decide; try done.
  replace (0 <? used) with (bool_decide (0 < used)) by (case_bool_decide; lia).
  by replace (negb (allow =? 0)) with (bool_decide (allow <> 0)) by (case_bool_decide; lia).
Qed.

Lemma rack_aware_given c dc n rack m :
  set_load_balance_rack_aware_n c dc n rack m
  = match name_given dc n, name_given rack m with
    | Some dc, Some rack => (CASS_OK, c <| load_balancing_kind := Some (RackAware dc rack) |>)
    | _, _ => (CASS_ERROR_LIB_BAD_PARAMS, c)
    end.
Proof.
  unfold set_load_balance_rack_aware_n, name_given. rewrite !to_str_text.
  destruct dc as [s|]; [destruct (text (Some s) n)|]; (destruct rack as [s'|];
    [destruct (text (Some s') m)|]); simpl;
    destruct (Nat.eqb_spec n 0), (Nat.eqb_spec m 0); by repeat case_decide.
Qed.

Lemma flag_given e : negb (e =? 0) = bool_decide (e <> 0).
Proof. case_bool_decide; lia. Qed.

(** *** Every call follows the contract *)

Definition refusal (call : profile_call) : CassError :=
  if valid_call call then CASS_OK else CASS_ERROR_LIB_BAD_PARAMS.

Ltac simulated := eexists; split; [reflexivity|]; split; done.

Lemma setting_simulates call p s :
  match call with
  | PConsistency _ | PSerialConsistency _ | PRequestTimeout _ | PRetryPolicy _ | PNoSpeculative
  | PConstantSpeculative _ _ => simulates p s
  | _ => False
  end ->
  exists p', profile_exec call (Some p) = Ret (refusal call, Some p') /\ simulates p' (spec_call s call).
Proof.
  destruct call as [c|c|t|r| |d m| | | | | | | | | | |]; try done; intros [H1 H2 H3 H4 H5 H6];
    unfold refusal, spec_call; simpl.
  - rewrite from_c_value_level. case_decide as Hc; [subst; simulated|].
    destruct (level c) as [l|] eqn:Hl; simpl.
    + rewrite bool_decide_true by eauto. simulated.
    + rewrite bool_decide_false by (intros [?|[? ?]]; done). simulated.
  - rewrite from_c_value_serial_level. case_decide as Hc; [subst; simulated|].
    destruct (serial_level c) as [l|] eqn:Hl; simpl.
    + rewrite bool_decide_true by eauto. simulated.
    + rewrite bool_decide_false by (intros [?|[? ?]]; done). simulated.
  - unfold from_c_value_infallible, from_c_value. simpl.
    destruct (Z.eqb_spec t (2 ^ 64 - 1)) as [->|Ht]; [simulated|].
    rewrite decide_False by done. simpl. rewrite flag_given.
    case_decide; case_bool_decide; try done; simulated.
  - destruct r as [r|]; simulated.
  - simulated.
  - destruct ((d <? 0) || (m <? 0)) eqn:Hneg; simpl; case_bool_decide; try lia; simulated.
Qed.

Lemma balancing_simulates call p s :
  match call with
  | PConsistency _ | PSerialConsistency _ | PRequestTimeout _ | PRetryPolicy _ | PNoSpeculative
  | PConstantSpeculative _ _ => False
  | _ => simulates p s
  end ->
  exists p', profile_exec call (Some p) = Ret (refusal call, Some p') /\ simulates p' (spec_call s call).
Proof.
  destruct p as [b o c]. destruct call as [| | | | | |e| |dc n u a|dc n rack m| |q n|q n|q n|q n|e|e];
    try done; intros [H1 H2 H3 H4 H5 H6]; simpl in *; subst c; unfold refusal, spec_call; simpl.
  - rewrite flag_given. simulated.
  - simulated.
  - rewrite dc_aware_given. destruct (name_given dc n) as [t|]; simpl; [case_bool_decide|]; simulated.
  - rewrite rack_aware_given.
    destruct (name_given dc n) as [t|]; simpl; [destruct (name_given rack m) as [t'|]; simpl|];
      simulated.
  - simulated.
  - rewrite (update_listed convert_ip IpAddr_from_str) by done. destruct (bool_decide _); simulated.
  - rewrite (update_listed convert_ip IpAddr_from_str) by done. destruct (bool_decide _); simulated.
  - rewrite (update_listed convert_string dc_entry) by by intros []. destruct (bool_decide _); simulated.
  - rewrite (update_listed convert_string dc_entry) by by intros []. destruct (bool_decide _); simulated.
  - rewrite flag_given. simulated.
  - rewrite flag_given. simulated.
Qed.

Lemma profile_exec_simulates call p s :
  simulates p s ->
  exists p', profile_exec call (Some p) = Ret (refusal call, Some p') /\ simulates p' (spec_call s call).
Proof.
  intros Hsim. destruct call;
    first [apply setting_simulates; exact Hsim | apply balancing_simulates; exact Hsim].
Qed.

Lemma profile_run_simulates calls p s :
  simulates p s ->
  exists p', profile_run calls (Some p) = Ret (Some p') /\ simulates p' (foldl spec_call s calls).
Proof.
  revert p s. induction calls as [|call calls IH]; intros p s Hsim; simpl; [by exists p|].
  destruct (profile_exec_simulates call p s Hsim) as (p' & -> & Hsim'). by apply IH.
Qed.
Lemma guarded_default {A} (flag : bool) (field s : option A) (rust d : A) :
  guarded flag field s -> default rust (if flag then field else Some d) = default d s.
Proof. destruct flag; [|by intros ->]. intros [-> Hs]. by destruct s. Qed.

(** The builder after the unset settings were filled in. *)
Lemma cluster_defaults_inner p d :
  let o := overrides p in
  inner (use_cluster_defaults_for_unset_settings p d) = mkBuilder
    (if o_request_timeout o then b_request_timeout (inner p) else Some (p_request_timeout d))
    (if o_consistency o then b_consistency (inner p) else Some DEFAULT_CONSISTENCY)
    (if o_serial_consistency o then b_serial_consistency (inner p)
     else Some (p_serial_consistency d))
    (b_load_balancing_policy (inner p))
    (if o_retry_policy o then b_retry_policy (inner p) else Some (p_retry_policy d))
    (if o_speculative_execution_policy o then b_speculative_execution_policy (inner p)
     else Some (p_speculative_execution_policy d)) /\
  load_balancing_config (use_cluster_defaults_for_unset_settings p d) = load_balancing_config p.
Proof. destruct p as [[] [[] [] [] [] []] c]; by split. Qed.

Lemma profile_build_spec rust p s cluster :
  simulates p s -> profile_build rust p cluster = spec_build s cluster.
Proof.
  intros [H1 H2 H3 H4 H5 H6]. unfold profile_build.
  destruct (cluster_defaults_inner p cluster) as [Hi Hc]. rewrite Hi, Hc, H6.
  unfold builder_build, spec_build. simpl.
  rewrite (guarded_default _ _ _ _ _ H1), (guarded_default _ _ _ _ _ H2),
    (guarded_default _ _ _ _ _ H3), (guarded_default _ _ _ _ _ H4),
    (guarded_default _ _ _ _ _ H5).
  rewrite build_described. change (load_balancing_kind (spec_config s)) with (s_kind s).
  by destruct (s_kind s).
Qed.
(** ** Properties *)

(** A profile of a statement is resolved at most once: after it was resolved
    successfully in one session, every later execution uses that handle and the
    resolver of the other session is not consulted; a failed resolution changes
    nothing and is retried. *)
Theorem profile_resolved_once {Handle E : Type}
    (session session' : string -> result E Handle) (cell : PerStatementExecProfile Handle) :
  match get_or_resolve_profile_handle session cell with
  | (Ok handle, cell') => get_or_resolve_profile_handle session' cell' = (Ok handle, cell')
  | (Err e, cell') => cell' = cell /\ exists name, cell = Unresolved name /\ session name = Err e
  end.
Proof.
  destruct cell as [name|handle]; simpl; [|done].
  destruct (session name) eqn:E0; [done|]. eauto.
Qed.
