(* ===== verification/Cluster.v ===== *)
(** * Cluster configuration (cluster.rs, timestamp_generator.rs)

    [CassCluster] with every setter of the C API except the TLS one.  The part of
    the state that the Rust driver owns is the record [SessionConfig]; its initial
    value ([SessionBuilder::new]) and the validation of port ranges belong to the
    driver and are parameters. *)

From Stdlib Require Import ZArith Lia String.
From stdpp Require Import base list gmap strings.
From S2P Require Import Prelude ArgConv Types ConfigValue Uuid Inet IpText LoadBalancing.
From S2P Require Import ConfigSetters ExecProfile.

Open Scope Z_scope.

(** ** Timestamp generators *)

(** The warning times of a monotonic generator (microseconds, milliseconds). *)
Inductive MonotonicTimestampGenerator :=
| MonotonicDefault
| MonotonicWithoutWarnings
| MonotonicWarningTimes (warning_threshold_us warning_interval_ms : Z).

Inductive CassTimestampGen :=
| ServerSide
| Monotonic (generator : MonotonicTimestampGenerator).

Definition cass_timestamp_gen_server_side_new : CassTimestampGen := ServerSide.

Definition cass_timestamp_gen_monotonic_new : CassTimestampGen := Monotonic MonotonicDefault.

Definition cass_timestamp_gen_monotonic_new_with_settings
    (warning_threshold_us warning_interval_ms : Z) : CassTimestampGen :=
  Monotonic
    (if warning_threshold_us <=? 0 then MonotonicWithoutWarnings
     else
       let warning_interval := if warning_interval_ms <=? 0 then 1 else warning_interval_ms in
       MonotonicWarningTimes warning_threshold_us warning_interval).

(** ** State *)

Inductive PoolSize := PerHost (n : Z) | PerShard (n : Z).

Inductive WriteCoalescingDelay := SmallNondeterministic | Milliseconds (ms : Z).

Inductive Compression := Lz4 | Snappy.

Inductive CassCompressionType :=
| CASS_COMPRESSION_NONE | CASS_COMPRESSION_SNAPPY | CASS_COMPRESSION_LZ4
| CassCompressionType_other (n : Z).

Inductive ReconnectPolicy :=
| ConstantReconnectPolicy (wait : Duration)
| ExponentialReconnectPolicy (base max : Duration).

(** [ShardAwarePortRange]: the ephemeral range or an inclusive range. *)
Inductive ShardAwarePortRange := EPHEMERAL_PORT_RANGE | PortRange (first last : Z).

Record SessionConfig := mkSessionConfig {
  driver_name : option string;
  driver_version : option string;
  application_name : option string;
  application_version : option string;
  identity_client_id : option string;
  fetch_schema_metadata : bool;
  schema_agreement_timeout : Duration;
  schema_agreement_interval : Duration;
  tcp_nodelay : bool;
  tcp_keepalive_interval : option Duration;
  connect_timeout : Duration;
  connection_pool_size : PoolSize;
  enable_write_coalescing : bool;
  write_coalescing_delay : WriteCoalescingDelay;
  keepalive_interval : option Duration;
  keepalive_timeout : option Duration;
  local_ip_address : option IpAddr;
  shard_aware_local_port_range : ShardAwarePortRange;
  timestamp_generator : option MonotonicTimestampGenerator;
  hostname_resolution_timeout : option Duration;
  compression : option Compression;
  reconnect_policy : ReconnectPolicy;
  metadata_request_serverside_timeout : option Duration;
  host_listener : option (positive * option positive);   (* C callback and its data *)
  known_nodes : list string;
  user : option (string * string)
}.

#[export] Instance SessionConfig_eta : Eta SessionConfig := fun r =>
  mkSessionConfig (driver_name r) (driver_version r) (application_name r) (application_version r)
    (identity_client_id r) (fetch_schema_metadata r) (schema_agreement_timeout r)
    (schema_agreement_interval r) (tcp_nodelay r) (tcp_keepalive_interval r) (connect_timeout r)
    (connection_pool_size r) (enable_write_coalescing r) (write_coalescing_delay r)
    (keepalive_interval r) (keepalive_timeout r) (local_ip_address r)
    (shard_aware_local_port_range r) (timestamp_generator r) (hostname_resolution_timeout r)
    (compression r) (reconnect_policy r) (metadata_request_serverside_timeout r)
    (host_listener r) (known_nodes r) (user r).

Record CassCluster := mkCassCluster {
  num_threads_io : option Z;
  session_builder : SessionConfig;
  default_execution_profile_builder : ExecutionProfileBuilder;
  execution_profile_map : gmap string CassExecProfile;
  contact_points : list string;
  port : Z;
  cluster_load_balancing_config : LoadBalancingConfig;
  use_beta_protocol_version : bool;
  auth_username : option string;
  auth_password : option string;
  client_id : option Z;
  shuffle_contact_points : bool
}.

#[export] Instance CassCluster_eta : Eta CassCluster := fun r =>
  mkCassCluster (num_threads_io r) (session_builder r) (default_execution_profile_builder r)
    (execution_profile_map r) (contact_points r) (port r) (cluster_load_balancing_config r)
    (use_beta_protocol_version r) (auth_username r) (auth_password r) (client_id r)
    (shuffle_contact_points r).

Definition secs (s : Z) : Duration := Millis (s * 1000).

(** [(x > 0).then(|| Duration::from_millis(x))]. *)
Definition positive_millis (ms : Z) : option Duration := if 0 <? ms then Some (Millis ms) else None.
Definition positive_secs (s : Z) : option Duration := if 0 <? s then Some (secs s) else None.

Definition DEFAULT_SERIAL_CONSISTENCY : option SerialConsistency := Some SCLocalSerial.
Definition DEFAULT_REQUEST_TIMEOUT : Duration := Millis 12000.
Definition DEFAULT_DNS_RESOLVE_TIMEOUT : Duration := Millis 2000.
Definition DEFAULT_MAX_SCHEMA_WAIT_TIME : Duration := Millis 10000.
Definition DEFAULT_SCHEMA_AGREEMENT_INTERVAL : Duration := Millis 200.
Definition DEFAULT_CONNECTION_POOL_SIZE : PoolSize := PerShard 1.
Definition DEFAULT_CONNECT_TIMEOUT : Duration := Millis 5000.
Definition DEFAULT_KEEPALIVE_INTERVAL : Duration := secs 30.
Definition DEFAULT_KEEPALIVE_TIMEOUT : Duration := secs 60.
Definition DEFAULT_TCP_KEEPALIVE_INTERVAL : Duration := secs 2.
Definition DRIVER_NAME : string := "ScyllaDB CPP RS Driver".
(** The version of the package in Cargo.toml. *)
Definition DRIVER_VERSION : string := "1.1.3".

(** [cass_cluster_new]; [rust] is [SessionBuilder::new]. *)
Definition default_session_builder (rust : SessionConfig) : SessionConfig :=
  rust <| driver_name := Some DRIVER_NAME |>
    <| driver_version := Some DRIVER_VERSION |>
    <| fetch_schema_metadata := true |>
    <| schema_agreement_timeout := DEFAULT_MAX_SCHEMA_WAIT_TIME |>
    <| schema_agreement_interval := DEFAULT_SCHEMA_AGREEMENT_INTERVAL |>
    <| tcp_nodelay := true |>
    <| tcp_keepalive_interval := Some DEFAULT_TCP_KEEPALIVE_INTERVAL |>
    <| connect_timeout := DEFAULT_CONNECT_TIMEOUT |>
    <| connection_pool_size := DEFAULT_CONNECTION_POOL_SIZE |>
    <| enable_write_coalescing := true |>
    <| write_coalescing_delay := SmallNondeterministic |>
    <| keepalive_interval := Some DEFAULT_KEEPALIVE_INTERVAL |>
    <| keepalive_timeout := Some DEFAULT_KEEPALIVE_TIMEOUT |>
    <| local_ip_address := None |>
    <| shard_aware_local_port_range := EPHEMERAL_PORT_RANGE |>
    <| timestamp_generator := Some MonotonicDefault |>
    <| hostname_resolution_timeout := Some DEFAULT_DNS_RESOLVE_TIMEOUT |>.

Definition cass_cluster_new (rust : SessionConfig) : CassCluster :=
  let default_builder := builder_new
    <| b_consistency := Some DEFAULT_CONSISTENCY |>
    <| b_serial_consistency := Some DEFAULT_SERIAL_CONSISTENCY |>
    <| b_request_timeout := Some (Some DEFAULT_REQUEST_TIMEOUT) |>
    <| b_retry_policy := Some RetryDefault |>
    <| b_speculative_execution_policy := Some None |> in
  mkCassCluster None (default_session_builder rust) default_builder ∅ [] 9042
    LoadBalancingConfig_default false None None None true.

(** ** What a session is built from *)

(** [build_host_filter]: profiles without a load balancing kind use the cluster's
    policy, so their filters do not count. *)
Definition build_host_filter (self : CassCluster) : FilteringInfo :=
  new_from_lbp_configs
    (cluster_load_balancing_config self ::
     omap (fun exec_profile =>
             match load_balancing_kind (load_balancing_config exec_profile) with
             | Some _ => Some (load_balancing_config exec_profile)
             | None => None
             end) (map snd (map_to_list (execution_profile_map self)))).

(** [{cp}:{port}]; a port has at most five digits. *)
Definition known_node (port : Z) (cp : string) : string :=
  (cp +:+ ":" +:+ string_of_bytes (to_radix 10 5 port))%string.

(** [build_session_builder]; [shuffle] is the random permutation of [rand]. *)
Definition build_session_builder (rust_defaults : ExecutionProfile)
    (shuffle : list string -> list string) (self : CassCluster) : SessionConfig * ExecutionProfile :=
  let nodes := map (known_node (port self)) (contact_points self) in
  let nodes := if shuffle_contact_points self then shuffle nodes else nodes in
  let session_builder := (session_builder self) <| known_nodes ::= fun old => old ++ nodes |> in
  let session_builder :=
    match auth_username self, auth_password self with
    | Some username, Some password => session_builder <| user := Some (username, password) |>
    | _, _ => session_builder
    end in
  let load_balancing := build (cluster_load_balancing_config self) in
  let execution_profile_builder :=
    (default_execution_profile_builder self) <| b_load_balancing_policy := Some load_balancing |> in
  (session_builder, builder_build rust_defaults execution_profile_builder).

(** ** The setters of the C API

    Functions that return a [CassError] go through [on_cluster]; functions that
    return nothing go through [modify]. *)

Definition cluster_ptr : Type := option CassCluster.

Definition on_cluster (f : CassCluster -> CassError * CassCluster) (cluster : cluster_ptr)
  : CassError * cluster_ptr := with_mut CASS_ERROR_LIB_BAD_PARAMS f cluster.

Definition modify (f : CassCluster -> CassCluster) (cluster : cluster_ptr) : cluster_ptr :=
  match cluster with None => None | Some cluster => Some (f cluster) end.

Definition set_config (f : SessionConfig -> SessionConfig) (cluster : CassCluster) : CassCluster :=
  cluster <| session_builder ::= f |>.

Definition set_builder (f : ExecutionProfileBuilder -> ExecutionProfileBuilder)
    (cluster : CassCluster) : CassCluster :=
  cluster <| default_execution_profile_builder ::= fun b => exec_profile_builder_modify b f |>.

Definition set_lbc (f : LoadBalancingConfig -> LoadBalancingConfig) (cluster : CassCluster)
  : CassCluster := cluster <| cluster_load_balancing_config ::= f |>.

Definition cass_cluster_set_contact_points_n (points : char_ptr) (points_length : nat) :=
  on_cluster (fun cluster =>
    let '(r, l) := update_comma_delimited_list (contact_points cluster) points points_length
      convert_string in
    (result_code r, cluster <| contact_points := l |>)).

Definition cass_cluster_set_contact_points (points : char_ptr) :=
  let '(points, points_length) := as_len_delimited points in
  cass_cluster_set_contact_points_n points points_length.

Definition cass_cluster_set_application_name_n (app_name : char_ptr) (app_name_len : nat) :=
  modify (fun cluster =>
    match to_str app_name app_name_len with
    | Ok s => set_config (fun c => c <| application_name := Some s |>) cluster
    | Err NullPointer => cluster
    | Err InvalidUtf8 => cluster
    end).

Definition cass_cluster_set_application_name (app_name : char_ptr) :=
  let '(app_name, app_name_len) := as_len_delimited app_name in
  cass_cluster_set_application_name_n app_name app_name_len.

Definition cass_cluster_set_application_version_n (app_version : char_ptr) (len : nat) :=
  modify (fun cluster =>
    match to_str app_version len with
    | Ok s => set_config (fun c => c <| application_version := Some s |>) cluster
    | Err NullPointer => cluster
    | Err InvalidUtf8 => cluster
    end).

Definition cass_cluster_set_application_version (app_version : char_ptr) :=
  let '(app_version, len) := as_len_delimited app_version in
  cass_cluster_set_application_version_n app_version len.

(** [uuid_to_string] is the [Display] of the uuid crate. *)
Definition cass_cluster_set_client_id (uuid_to_string : Z -> string) (id : CassUuid) :=
  modify (fun cluster =>
    let client_uuid := Uuid_from id in
    set_config (fun c => c <| identity_client_id := Some (uuid_to_string client_uuid) |>)
      (cluster <| client_id := Some client_uuid |>)).

Definition cass_cluster_set_use_schema (enabled : Z) :=
  modify (set_config (fun c => c <| fetch_schema_metadata := negb (enabled =? 0) |>)).

Definition cass_cluster_set_use_randomized_contact_points (enabled : Z) :=
  on_cluster (fun cluster =>
    (CASS_OK, cluster <| shuffle_contact_points := enabled =? 1 |>)).

Definition cass_cluster_set_tcp_nodelay (enabled : Z) :=
  modify (set_config (fun c => c <| tcp_nodelay := negb (enabled =? 0) |>)).

Definition cass_cluster_set_tcp_keepalive (enabled delay_secs : Z) :=
  modify (set_config (fun c => c <| tcp_keepalive_interval :=
    if negb (enabled =? 0) then Some (secs delay_secs) else None |>)).

Definition cass_cluster_set_timestamp_gen (timestamp_gen : option CassTimestampGen) :=
  modify (fun cluster =>
    match timestamp_gen with
    | None => cluster
    | Some ServerSide => set_config (fun c => c <| timestamp_generator := None |>) cluster
    | Some (Monotonic generator) =>
        set_config (fun c => c <| timestamp_generator := Some generator |>) cluster
    end).

Definition cass_cluster_set_connection_heartbeat_interval (interval_secs : Z) :=
  modify (set_config (fun c => c <| keepalive_interval := positive_secs interval_secs |>)).

Definition cass_cluster_set_connection_idle_timeout (timeout_secs : Z) :=
  modify (set_config (fun c => c <| keepalive_timeout := positive_secs timeout_secs |>)).

Definition cass_cluster_set_connect_timeout (timeout_ms : Z) :=
  modify (set_config (fun c => c <| connect_timeout := Millis timeout_ms |>)).

Definition cass_cluster_set_core_connections_per_host (num_connections : Z) :=
  on_cluster (fun cluster =>
    if num_connections =? 0 then (CASS_ERROR_LIB_BAD_PARAMS, cluster)
    else (CASS_OK,
      set_config (fun c => c <| connection_pool_size := PerHost num_connections |>) cluster)).

Definition cass_cluster_set_core_connections_per_shard (num_connections : Z) :=
  on_cluster (fun cluster =>
    if num_connections =? 0 then (CASS_ERROR_LIB_BAD_PARAMS, cluster)
    else (CASS_OK,
      set_config (fun c => c <| connection_pool_size := PerShard num_connections |>) cluster)).

Definition cass_cluster_set_coalesce_delay (delay_us : Z) :=
  on_cluster (fun cluster =>
    match delay_us ?= 0 with
    | Lt => (CASS_ERROR_LIB_BAD_PARAMS, cluster)
    | Eq => (CASS_OK, set_config (fun c => c <| enable_write_coalescing := false |>) cluster)
    | Gt =>
        let delay :=
          let ms := Z.quot delay_us 1000 in
          if ms =? 0 then SmallNondeterministic else Milliseconds ms in
        (CASS_OK, set_config (fun c =>
           c <| enable_write_coalescing := true |> <| write_coalescing_delay := delay |>) cluster)
    end).

Definition cass_cluster_set_request_timeout (timeout_ms : Z) :=
  modify (set_builder (fun b => b <| b_request_timeout := Some (positive_millis timeout_ms) |>)).

Definition cass_cluster_set_resolve_timeout (timeout_ms : Z) :=
  modify (set_config (fun c => c <| hostname_resolution_timeout := positive_millis timeout_ms |>)).

Definition cass_cluster_set_max_schema_wait_time (wait_time_ms : Z) :=
  modify (set_config (fun c => c <| schema_agreement_timeout := Millis wait_time_ms |>)).

Definition cass_cluster_set_schema_agreement_interval (interval_ms : Z) :=
  modify (set_config (fun c => c <| schema_agreement_interval := Millis interval_ms |>)).

Definition cass_cluster_set_port (new_port : Z) :=
  on_cluster (fun cluster =>
    match try_u 16 new_port with
    | None => (CASS_ERROR_LIB_BAD_PARAMS, cluster)
    | Some new_port => (CASS_OK, cluster <| port := new_port |>)
    end).

Definition cass_cluster_set_local_address_n (ip : char_ptr) (ip_length : nat) :=
  on_cluster (fun cluster =>
    let store local_addr :=
      (CASS_OK, set_config (fun c => c <| local_ip_address := local_addr |>) cluster) in
    if (ip_length =? 0)%nat then store None
    else match to_str ip ip_length with
    | Ok ip_str =>
        match IpAddr_from_str (as_bytes ip_str) with
        | Some addr => store (Some addr)
        | None => (CASS_ERROR_LIB_BAD_PARAMS, cluster)
        end
    | Err NullPointer => store None
    | Err InvalidUtf8 => (CASS_ERROR_LIB_BAD_PARAMS, cluster)
    end).

Definition cass_cluster_set_local_address (ip : char_ptr) :=
  let '(ip, ip_length) := as_len_delimited ip in cass_cluster_set_local_address_n ip ip_length.

(** [compute_range_from_raw]; [range_ok] is the validation of
    [ShardAwarePortRange::new]. *)
Definition compute_range_from_raw (range_ok : Z -> Z -> bool) (lo hi : Z)
  : result CassError ShardAwarePortRange :=
  match try_u 16 lo with
  | None => Err CASS_ERROR_LIB_BAD_PARAMS
  | Some first =>
      match try_i 32 (hi - 1) with
      | None => Err CASS_ERROR_LIB_BAD_PARAMS
      | Some last =>
          match try_u 16 last with
          | None => Err CASS_ERROR_LIB_BAD_PARAMS
          | Some last =>
              if range_ok first last then Ok (PortRange first last)
              else Err CASS_ERROR_LIB_BAD_PARAMS
          end
      end
  end.

Definition cass_cluster_set_local_port_range (range_ok : Z -> Z -> bool) (lo hi : Z) :=
  on_cluster (fun cluster =>
    match compute_range_from_raw range_ok lo hi with
    | Err cass_error => (cass_error, cluster)
    | Ok range =>
        (CASS_OK, set_config (fun c => c <| shard_aware_local_port_range := range |>) cluster)
    end).

Definition cass_cluster_set_credentials_n (username : char_ptr) (username_length : nat)
    (password : char_ptr) (password_length : nat) :=
  modify (fun cluster =>
    match to_str username username_length with
    | Err NullPointer => cluster
    | Err InvalidUtf8 => cluster
    | Ok username =>
        match to_str password password_length with
        | Err NullPointer => cluster
        | Err InvalidUtf8 => cluster
        | Ok password =>
            cluster <| auth_username := Some username |> <| auth_password := Some password |>
        end
    end).

Definition cass_cluster_set_credentials (username password : char_ptr) :=
  let '(username, username_length) := as_len_delimited username in
  let '(password, password_length) := as_len_delimited password in
  cass_cluster_set_credentials_n username username_length password password_length.

Definition cass_cluster_set_load_balance_round_robin :=
  modify (set_lbc (fun c => c <| load_balancing_kind := Some RoundRobin |>)).

Definition cass_cluster_set_load_balance_dc_aware_n (local_dc : char_ptr) (local_dc_length : nat)
    (used_hosts_per_remote_dc allow_remote_dcs_for_local_cl : Z) :=
  on_cluster (fun cluster =>
    let '(err, c) := set_load_balance_dc_aware_n (cluster_load_balancing_config cluster) local_dc
      local_dc_length used_hosts_per_remote_dc allow_remote_dcs_for_local_cl in
    (err, cluster <| cluster_load_balancing_config := c |>)).

Definition cass_cluster_set_load_balance_dc_aware (local_dc : char_ptr)
    (used_hosts_per_remote_dc allow_remote_dcs_for_local_cl : Z) :=
  let '(local_dc, local_dc_length) := as_len_delimited local_dc in
  cass_cluster_set_load_balance_dc_aware_n local_dc local_dc_length used_hosts_per_remote_dc
    allow_remote_dcs_for_local_cl.

Definition cass_cluster_set_load_balance_rack_aware_n (local_dc : char_ptr) (local_dc_length : nat)
    (local_rack : char_ptr) (local_rack_length : nat) :=
  on_cluster (fun cluster =>
    let '(err, c) := set_load_balance_rack_aware_n (cluster_load_balancing_config cluster) local_dc
      local_dc_length local_rack local_rack_length in
    (err, cluster <| cluster_load_balancing_config := c |>)).

Definition cass_cluster_set_load_balance_rack_aware (local_dc local_rack : char_ptr) :=
  let '(local_dc, local_dc_length) := as_len_delimited local_dc in
  let '(local_rack, local_rack_length) := as_len_delimited local_rack in
  cass_cluster_set_load_balance_rack_aware_n local_dc local_dc_length local_rack local_rack_length.

Definition cass_cluster_set_use_beta_protocol_version (enable : Z) :=
  on_cluster (fun cluster => (CASS_OK, cluster <| use_beta_protocol_version := enable =? 1 |>)).

Definition cass_cluster_set_protocol_version (protocol_version : Z) :=
  on_cluster (fun cluster =>
    if (protocol_version =? 4) && negb (use_beta_protocol_version cluster) then (CASS_OK, cluster)
    else (CASS_ERROR_LIB_BAD_PARAMS, cluster)).

Definition cass_cluster_set_constant_speculative_execution_policy
    (constant_delay_ms max_speculative_executions : Z) :=
  on_cluster (fun cluster =>
    if (constant_delay_ms <? 0) || (max_speculative_executions <? 0)
    then (CASS_ERROR_LIB_BAD_PARAMS, cluster)
    else
      let policy := mkSpeculativePolicy max_speculative_executions (Millis constant_delay_ms) in
      (CASS_OK,
       set_builder (fun b => b <| b_speculative_execution_policy := Some (Some policy) |>) cluster)).

Definition cass_cluster_set_no_speculative_execution_policy :=
  on_cluster (fun cluster =>
    (CASS_OK, set_builder (fun b => b <| b_speculative_execution_policy := Some None |>) cluster)).

Definition cass_cluster_set_token_aware_routing (enabled : Z) :=
  modify (set_lbc (fun c => c <| token_awareness_enabled := negb (enabled =? 0) |>)).

Definition cass_cluster_set_token_aware_routing_shuffle_replicas (enabled : Z) :=
  modify (set_lbc (fun c => c <| token_aware_shuffling_replicas_enabled := negb (enabled =? 0) |>)).

(** [Panic] is the failing [expect] of the conversion. *)
Definition cass_cluster_set_retry_policy (retry_policy : option CassRetryPolicy)
    (cluster : cluster_ptr) : outcome cluster_ptr :=
  match cluster with
  | None => Ret None
  | Some cluster =>
      match from_c_value (T := CassRetryPolicy) retry_policy with
      | Ok (SetTo retry_policy) =>
          Ret (Some (set_builder (fun b => b <| b_retry_policy := Some retry_policy |>) cluster))
      | Ok Unset => Ret (Some cluster)
      | Err _ => Panic
      end
  end.

Definition cass_cluster_set_compression (compression_type : CassCompressionType) :=
  modify (set_config (fun c => c <| compression :=
    match compression_type with
    | CASS_COMPRESSION_LZ4 => Some Lz4
    | CASS_COMPRESSION_SNAPPY => Some Snappy
    | CASS_COMPRESSION_NONE => None
    | CassCompressionType_other _ => None
    end |>)).

Definition cass_cluster_set_latency_aware_routing (enabled : Z) :=
  modify (set_lbc (fun c => c <| latency_awareness_enabled := negb (enabled =? 0) |>)).

Definition cass_cluster_set_latency_aware_routing_settings
    (exclusion_threshold scale_ms retry_period_ms update_rate_ms min_measured : Z) :=
  modify (set_lbc (fun c => c <| latency_awareness_builder :=
    Some (mkLatencyAwareness exclusion_threshold (Some scale_ms) retry_period_ms update_rate_ms
            min_measured) |>)).

(** The list setters drop the error of [update_comma_delimited_list]. *)
Definition cass_cluster_set_whitelist_filtering_n (hosts : char_ptr) (hosts_size : nat) :=
  modify (set_lbc (fun c => c <| filtering ::= fun f => f <| fc_whitelist_hosts ::= fun l =>
    (update_comma_delimited_list l hosts hosts_size convert_ip).2 |> |>)).

Definition cass_cluster_set_blacklist_filtering_n (hosts : char_ptr) (hosts_size : nat) :=
  modify (set_lbc (fun c => c <| filtering ::= fun f => f <| fc_blacklist_hosts ::= fun l =>
    (update_comma_delimited_list l hosts hosts_size convert_ip).2 |> |>)).

Definition cass_cluster_set_whitelist_dc_filtering_n (dcs : char_ptr) (dcs_size : nat) :=
  modify (set_lbc (fun c => c <| filtering ::= fun f => f <| fc_whitelist_dc ::= fun l =>
    (update_comma_delimited_list l dcs dcs_size convert_string).2 |> |>)).

Definition cass_cluster_set_blacklist_dc_filtering_n (dcs : char_ptr) (dcs_size : nat) :=
  modify (set_lbc (fun c => c <| filtering ::= fun f => f <| fc_blacklist_dc ::= fun l =>
    (update_comma_delimited_list l dcs dcs_size convert_string).2 |> |>)).

Definition cass_cluster_set_whitelist_filtering (hosts : char_ptr) :=
  let '(hosts, n) := as_len_delimited hosts in cass_cluster_set_whitelist_filtering_n hosts n.

Definition cass_cluster_set_blacklist_filtering (hosts : char_ptr) :=
  let '(hosts, n) := as_len_delimited hosts in cass_cluster_set_blacklist_filtering_n hosts n.

Definition cass_cluster_set_whitelist_dc_filtering (dcs : char_ptr) :=
  let '(dcs, n) := as_len_delimited dcs in cass_cluster_set_whitelist_dc_filtering_n dcs n.

Definition cass_cluster_set_blacklist_dc_filtering (dcs : char_ptr) :=
  let '(dcs, n) := as_len_delimited dcs in cass_cluster_set_blacklist_dc_filtering_n dcs n.

Definition cass_cluster_set_consistency (consistency : CassConsistency) :=
  on_cluster (fun cluster =>
    match from_c_value (T := Consistency) consistency with
    | Err _ => (CASS_ERROR_LIB_BAD_PARAMS, cluster)
    | Ok Unset => (CASS_ERROR_LIB_BAD_PARAMS, cluster)
    | Ok (SetTo consistency) =>
        (CASS_OK, set_builder (fun b => b <| b_consistency := Some consistency |>) cluster)
    end).

Definition cass_cluster_set_serial_consistency (serial_consistency : CassConsistency) :=
  on_cluster (fun cluster =>
    match from_c_value (T := option SerialConsistency) serial_consistency with
    | Err _ => (CASS_ERROR_LIB_BAD_PARAMS, cluster)
    | Ok Unset => (CASS_ERROR_LIB_BAD_PARAMS, cluster)
    | Ok (SetTo serial) =>
        (CASS_OK, set_builder (fun b => b <| b_serial_consistency := Some serial |>) cluster)
    end).

Definition cass_cluster_set_execution_profile_n (name : char_ptr) (name_length : nat)
    (profile : option CassExecProfile) :=
  on_cluster (fun cluster =>
    match profile with
    | None => (CASS_ERROR_LIB_BAD_PARAMS, cluster)
    | Some profile =>
        match to_str name name_length with
        | Ok name =>
            match ExecProfileName_try_from name with
            | Some name => (CASS_OK, cluster <| execution_profile_map ::= <[name := profile]> |>)
            | None => (CASS_ERROR_LIB_BAD_PARAMS, cluster)
            end
        | Err NullPointer => (CASS_ERROR_LIB_BAD_PARAMS, cluster)
        | Err InvalidUtf8 => (CASS_ERROR_LIB_BAD_PARAMS, cluster)
        end
    end).

Definition cass_cluster_set_execution_profile (name : char_ptr) (profile : option CassExecProfile) :=
  let '(name, name_length) := as_len_delimited name in
  cass_cluster_set_execution_profile_n name name_length profile.

Definition cass_cluster_set_constant_reconnect (wait_time_ms : Z) :=
  modify (set_config (fun c => c <| reconnect_policy :=
    ConstantReconnectPolicy (Millis wait_time_ms) |>)).

Definition cass_cluster_set_reconnect_wait_time (wait_time_ms : Z) :=
  cass_cluster_set_constant_reconnect wait_time_ms.

Definition cass_cluster_set_exponential_reconnect (base_delay_ms max_delay_ms : Z) :=
  on_cluster (fun cluster =>
    if base_delay_ms <=? 1 then (CASS_ERROR_LIB_BAD_PARAMS, cluster)
    else if max_delay_ms <=? 1 then (CASS_ERROR_LIB_BAD_PARAMS, cluster)
    else if max_delay_ms <? base_delay_ms then (CASS_ERROR_LIB_BAD_PARAMS, cluster)
    else (CASS_OK, set_config (fun c => c <| reconnect_policy :=
      ExponentialReconnectPolicy (Millis base_delay_ms) (Millis max_delay_ms) |>) cluster)).

Definition cass_cluster_set_num_threads_io (num_threads : Z) :=
  on_cluster (fun cluster => (CASS_OK, cluster <| num_threads_io := Some num_threads |>)).

Definition cass_cluster_set_metadata_request_serverside_timeout (timeout_ms : Z) :=
  modify (set_config (fun c =>
    c <| metadata_request_serverside_timeout := positive_millis timeout_ms |>)).

Definition cass_cluster_set_host_listener_callback (callback data : option positive) :=
  on_cluster (fun cluster =>
    (CASS_OK, set_config (fun c => c <| host_listener := (fun cb => (cb, data)) <$> callback |>)
       cluster)).

(** ** Sequences of calls *)

Inductive cluster_call :=
| CContactPoints (s : char_ptr) (n : nat)
| CApplicationName (s : char_ptr) (n : nat)
| CApplicationVersion (s : char_ptr) (n : nat)
| CClientId (uuid_to_string : Z -> string) (id : CassUuid)
| CUseSchema (enabled : Z)
| CRandomizedContactPoints (enabled : Z)
| CTcpNodelay (enabled : Z)
| CTcpKeepalive (enabled delay_secs : Z)
| CTimestampGen (g : option CassTimestampGen)
| CHeartbeatInterval (secs : Z)
| CIdleTimeout (secs : Z)
| CConnectTimeout (ms : Z)
| CConnectionsPerHost (n : Z)
| CConnectionsPerShard (n : Z)
| CCoalesceDelay (us : Z)
| CRequestTimeout (ms : Z)
| CResolveTimeout (ms : Z)
| CMaxSchemaWaitTime (ms : Z)
| CSchemaAgreementInterval (ms : Z)
| CPort (port : Z)
| CLocalAddress (s : char_ptr) (n : nat)
| CLocalPortRange (lo hi : Z)
| CCredentials (u : char_ptr) (un : nat) (p : char_ptr) (pn : nat)
| CRoundRobin
| CDcAware (dc : char_ptr) (n : nat) (used_hosts allow : Z)
| CRackAware (dc : char_ptr) (n : nat) (rack : char_ptr) (m : nat)
| CUseBeta (enable : Z)
| CProtocolVersion (v : Z)
| CConstantSpeculative (delay_ms max : Z)
| CNoSpeculative
| CTokenAware (enabled : Z)
| CShuffleReplicas (enabled : Z)
| CRetryPolicy (p : option CassRetryPolicy)
| CCompression (c : CassCompressionType)
| CLatencyAware (enabled : Z)
| CLatencySettings (exclusion scale retry_period update_rate min_measured : Z)
| CWhitelist (s : char_ptr) (n : nat)
| CBlacklist (s : char_ptr) (n : nat)
| CWhitelistDc (s : char_ptr) (n : nat)
| CBlacklistDc (s : char_ptr) (n : nat)
| CConsistency (c : CassConsistency)
| CSerialConsistency (c : CassConsistency)
| CExecutionProfile (s : char_ptr) (n : nat) (p : option CassExecProfile)
| CConstantReconnect (ms : Z)
| CExponentialReconnect (base max : Z)
| CNumThreadsIo (n : Z)
| CMetadataTimeout (ms : Z)
| CHostListener (callback data : option positive).

(** Functions that return nothing report [CASS_OK] here. *)
Definition cluster_exec (range_ok : Z -> Z -> bool) (call : cluster_call) (p : cluster_ptr)
  : outcome (CassError * cluster_ptr) :=
  match call with
  | CContactPoints s n => Ret (cass_cluster_set_contact_points_n s n p)
  | CApplicationName s n => Ret (CASS_OK, cass_cluster_set_application_name_n s n p)
  | CApplicationVersion s n => Ret (CASS_OK, cass_cluster_set_application_version_n s n p)
  | CClientId f id => Ret (CASS_OK, cass_cluster_set_client_id f id p)
  | CUseSchema e => Ret (CASS_OK, cass_cluster_set_use_schema e p)
  | CRandomizedContactPoints e => Ret (cass_cluster_set_use_randomized_contact_points e p)
  | CTcpNodelay e => Ret (CASS_OK, cass_cluster_set_tcp_nodelay e p)
  | CTcpKeepalive e d => Ret (CASS_OK, cass_cluster_set_tcp_keepalive e d p)
  | CTimestampGen g => Ret (CASS_OK, cass_cluster_set_timestamp_gen g p)
  | CHeartbeatInterval t => Ret (CASS_OK, cass_cluster_set_connection_heartbeat_interval t p)
  | CIdleTimeout t => Ret (CASS_OK, cass_cluster_set_connection_idle_timeout t p)
  | CConnectTimeout t => Ret (CASS_OK, cass_cluster_set_connect_timeout t p)
  | CConnectionsPerHost n => Ret (cass_cluster_set_core_connections_per_host n p)
  | CConnectionsPerShard n => Ret (cass_cluster_set_core_connections_per_shard n p)
  | CCoalesceDelay d => Ret (cass_cluster_set_coalesce_delay d p)
  | CRequestTimeout t => Ret (CASS_OK, cass_cluster_set_request_timeout t p)
  | CResolveTimeout t => Ret (CASS_OK, cass_cluster_set_resolve_timeout t p)
  | CMaxSchemaWaitTime t => Ret (CASS_OK, cass_cluster_set_max_schema_wait_time t p)
  | CSchemaAgreementInterval t => Ret (CASS_OK, cass_cluster_set_schema_agreement_interval t p)
  | CPort n => Ret (cass_cluster_set_port n p)
  | CLocalAddress s n => Ret (cass_cluster_set_local_address_n s n p)
  | CLocalPortRange lo hi => Ret (cass_cluster_set_local_port_range range_ok lo hi p)
  | CCredentials u n w m => Ret (CASS_OK, cass_cluster_set_credentials_n u n w m p)
  | CRoundRobin => Ret (CASS_OK, cass_cluster_set_load_balance_round_robin p)
  | CDcAware dc n u a => Ret (cass_cluster_set_load_balance_dc_aware_n dc n u a p)
  | CRackAware dc n r m => Ret (cass_cluster_set_load_balance_rack_aware_n dc n r m p)
  | CUseBeta e => Ret (cass_cluster_set_use_beta_protocol_version e p)
  | CProtocolVersion v => Ret (cass_cluster_set_protocol_version v p)
  | CConstantSpeculative d m => Ret (cass_cluster_set_constant_speculative_execution_policy d m p)
  | CNoSpeculative => Ret (cass_cluster_set_no_speculative_execution_policy p)
  | CTokenAware e => Ret (CASS_OK, cass_cluster_set_token_aware_routing e p)
  | CShuffleReplicas e => Ret (CASS_OK, cass_cluster_set_token_aware_routing_shuffle_replicas e p)
  | CRetryPolicy r =>
      match cass_cluster_set_retry_policy r p with
      | Ret p => Ret (CASS_OK, p) | Panic => Panic | Diverge => Diverge
      end
  | CCompression c => Ret (CASS_OK, cass_cluster_set_compression c p)
  | CLatencyAware e => Ret (CASS_OK, cass_cluster_set_latency_aware_routing e p)
  | CLatencySettings a b c d e =>
      Ret (CASS_OK, cass_cluster_set_latency_aware_routing_settings a b c d e p)
  | CWhitelist s n => Ret (CASS_OK, cass_cluster_set_whitelist_filtering_n s n p)
  | CBlacklist s n => Ret (CASS_OK, cass_cluster_set_blacklist_filtering_n s n p)
  | CWhitelistDc s n => Ret (CASS_OK, cass_cluster_set_whitelist_dc_filtering_n s n p)
  | CBlacklistDc s n => Ret (CASS_OK, cass_cluster_set_blacklist_dc_filtering_n s n p)
  | CConsistency c => Ret (cass_cluster_set_consistency c p)
  | CSerialConsistency c => Ret (cass_cluster_set_serial_consistency c p)
  | CExecutionProfile s n profile => Ret (cass_cluster_set_execution_profile_n s n profile p)
  | CConstantReconnect t => Ret (CASS_OK, cass_cluster_set_constant_reconnect t p)
  | CExponentialReconnect b m => Ret (cass_cluster_set_exponential_reconnect b m p)
  | CNumThreadsIo n => Ret (cass_cluster_set_num_threads_io n p)
  | CMetadataTimeout t => Ret (CASS_OK, cass_cluster_set_metadata_request_serverside_timeout t p)
  | CHostListener cb d => Ret (cass_cluster_set_host_listener_callback cb d p)
  end.

Fixpoint cluster_run (range_ok : Z -> Z -> bool) (calls : list cluster_call) (p : cluster_ptr)
  : outcome cluster_ptr :=
  match calls with
  | [] => Ret p
  | call :: calls =>
      match cluster_exec range_ok call p with
      | Ret (_, p) => cluster_run range_ok calls p
      | Panic => Panic
      | Diverge => Diverge
      end
  end.

(** ** Well-formed clusters *)

(** A length-delimited argument describes readable memory; counts are unsigned. *)
Definition ptr_ok (p : char_ptr) (n : nat) : Prop :=
  match p with Some mem => (n <= String.length mem)%nat | None => True end.

Definition cluster_call_ok (call : cluster_call) : Prop :=
  match call with
  | CConnectionsPerHost n | CConnectionsPerShard n => 0 <= n
  | CDcAware dc n _ _ => ptr_ok dc n
  | CRackAware dc n rack m => ptr_ok dc n /\ ptr_ok rack m
  | _ => True
  end.

Definition named (s : string) : Prop := s <> EmptyString.

Record config_ok (range_ok : Z -> Z -> bool) (c : SessionConfig) : Prop := {
  ok_pool : match connection_pool_size c with PerHost n | PerShard n => 0 < n end;
  ok_delay : match write_coalescing_delay c with Milliseconds ms => 0 < ms | _ => True end;
  ok_reconnect :
    match reconnect_policy c with
    | ExponentialReconnectPolicy (Millis base) (Millis max) => 1 < base <= max
    | _ => True
    end;
  ok_range :
    match shard_aware_local_port_range c with
    | PortRange lo hi => in_u 16 lo /\ in_u 16 hi /\ range_ok lo hi = true
    | EPHEMERAL_PORT_RANGE => True
    end
}.

Record lbc_ok (c : LoadBalancingConfig) : Prop := {
  ok_kind :
    match load_balancing_kind c with
    | Some (DcAware dc _ _) => named dc
    | Some (RackAware dc rack) => named dc /\ named rack
    | _ => True
    end;
  ok_restriction : match dc_restriction (filtering c) with DcLocal dc => named dc | DcNone => True end;
  ok_whitelist : Forall named (fc_whitelist_dc (filtering c));
  ok_blacklist : Forall named (fc_blacklist_dc (filtering c))
}.

Record cluster_ok (range_ok : Z -> Z -> bool) (c : CassCluster) : Prop := {
  ok_port : in_u 16 (port c);
  ok_config : config_ok range_ok (session_builder c);
  ok_profiles : map_Forall (fun name _ => named name) (execution_profile_map c);
  ok_points : Forall named (contact_points c);
  ok_lbc : lbc_ok (cluster_load_balancing_config c)
}.

(** ** Lemmas *)

Lemma convert_string_named s x : convert_string s = Some x -> named x.
Proof. destruct s; [done|]. by intros [= <-]. Qed.

Lemma update_list_named l p n :
  Forall named l -> Forall named (update_comma_delimited_list l p n convert_string).2.
Proof.
  intros Hl. unfold update_comma_delimited_list. destruct (to_str p n) as [s|[]]; simpl; [|done..].
  destruct (String.length s =? 0)%nat; simpl; [done|]. apply Forall_app. split; [done|].
  apply Forall_forall. intros x (y & _ & Hx)%list_elem_of_omap. by eapply convert_string_named.
Qed.

Lemma to_str_named p n s : to_str p n = Ok s -> ptr_ok p n -> n <> 0%nat -> named s.
Proof.
  intros (mem & -> & -> & _)%to_str_Ok Hp Hn. simpl in Hp.
  destruct n, mem; simpl in *; try lia; done.
Qed.

Lemma dc_aware_ok c dc n u a :
  lbc_ok c -> ptr_ok dc n -> lbc_ok (set_load_balance_dc_aware_n c dc n u a).2.
Proof.
  intros [H1 H2 H3 H4] Hp. unfold set_load_balance_dc_aware_n.
  destruct (to_str dc n) as [s|[]] eqn:E; [|by split..].
  destruct (Nat.eqb_spec n 0); [by split|].
  pose proof (to_str_named _ _ _ E Hp ltac:(done)). split; simpl; try done. by destruct (0 <? u).
Qed.

Lemma rack_aware_ok c dc n rack m :
  lbc_ok c -> ptr_ok dc n -> ptr_ok rack m -> lbc_ok (set_load_balance_rack_aware_n c dc n rack m).2.
Proof.
  intros [H1 H2 H3 H4] Hp Hr. unfold set_load_balance_rack_aware_n.
  destruct (to_str dc n) as [s|?] eqn:E; [|by split].
  destruct (to_str rack m) as [t|?] eqn:E'; [|by split].
  destruct (Nat.eqb_spec n 0), (Nat.eqb_spec m 0); try by split.
  split; simpl; [|done..]. split; [by eapply (to_str_named dc)|by eapply (to_str_named rack)].
Qed.

Lemma dc_aware_error c dc n u a :
  (set_load_balance_dc_aware_n c dc n u a).1 <> CASS_OK ->
  (set_load_balance_dc_aware_n c dc n u a).2 = c.
Proof.
  unfold set_load_balance_dc_aware_n. destruct (to_str dc n) as [s|[]]; [|done..].
  by destruct (n =? 0)%nat.
Qed.

Lemma rack_aware_error c dc n rack m :
  (set_load_balance_rack_aware_n c dc n rack m).1 <> CASS_OK ->
  (set_load_balance_rack_aware_n c dc n rack m).2 = c.
Proof.
  unfold set_load_balance_rack_aware_n. destruct (to_str dc n), (to_str rack m); try done.
  by destruct (_ && _).
Qed.

Lemma update_list_error {T} (l : list T) p n convert :
  result_code (update_comma_delimited_list l p n convert).1 <> CASS_OK ->
  (update_comma_delimited_list l p n convert).2 = l.
Proof.
  unfold update_comma_delimited_list. destruct (to_str p n) as [s|[]]; simpl; [|done..].
  by destruct (String.length s =? 0)%nat.
Qed.

Lemma port_range_ok range_ok lo hi range :
  compute_range_from_raw range_ok lo hi = Ok range ->
  exists first last, range = PortRange first last /\ in_u 16 first /\ in_u 16 last /\
    range_ok first last = true /\ first = lo /\ last = hi - 1.
Proof.
  unfold compute_range_from_raw.
  destruct (try_u 16 lo) as [f|] eqn:E1; [|done]. apply try_u_Some in E1 as [-> H1].
  destruct (try_i 32 (hi - 1)) as [l|] eqn:E2; [|done].
  assert (l = hi - 1) as -> by (unfold try_i in E2; destruct (_ && _); congruence).
  destruct (try_u 16 (hi - 1)) as [l|] eqn:E3; [|done]. apply try_u_Some in E3 as [-> H3].
  destruct (range_ok _ _) eqn:E; [|done]. intros [= <-]. eauto 10.
Qed.

#[local] Arguments set_load_balance_dc_aware_n : simpl never.
#[local] Arguments set_load_balance_rack_aware_n : simpl never.
#[local] Arguments update_comma_delimited_list : simpl never.
#[local] Arguments compute_range_from_raw : simpl never.
#[local] Arguments try_u : simpl never.
#[local] Arguments from_c_value : simpl never.
#[local] Arguments IpAddr_from_str : simpl never.
#[local] Arguments to_str : simpl never.

(** Closes the goals of a call that leaves the checked fields alone. *)
Ltac untouched H :=
  destruct H as [? [? ? ? ?] ? ? [? ? ? ?]];
  split; simpl; [..|split; simpl]; try done; try (by split).

(** Runs a call, by case analysis on its guards. *)
Ltac run_call H :=
  repeat case_match; do 2 eexists; (split; [reflexivity|]); (split; [untouched H|done]).

Lemma cluster_exec_ok range_ok call c :
  cluster_ok range_ok c -> cluster_call_ok call ->
  exists err c', cluster_exec range_ok call (Some c) = Ret (err, Some c') /\
    cluster_ok range_ok c' /\ (err <> CASS_OK -> c' = c).
Proof.
  intros Hok Hc. destruct call; simpl in *; try (run_call Hok; fail).
  - pose proof (update_list_named (contact_points c) s n (ok_points _ _ Hok)) as Hl.
    pose proof (update_list_error (contact_points c) s n convert_string) as He.
    destruct (update_comma_delimited_list _ _ _ _) as [r l]. do 2 eexists. split; [reflexivity|].
    split; [untouched Hok|]. intros Hr. simpl in He. rewrite (He Hr). by destruct c.
  - destruct (Z.eqb_spec n 0); run_call Hok. split; simpl; [lia|done..].
  - destruct (Z.eqb_spec n 0); run_call Hok. split; simpl; [lia|done..].
  - destruct (Z.compare_spec us 0) as [| |Hus]; [run_call Hok..|].
    do 2 eexists. split; [reflexivity|]. split; [|done]. untouched Hok. split; simpl; [done| |done..].
    destruct (Z.eqb_spec (us ÷ 1000) 0); [done|]. pose proof (Z.quot_pos us 1000). lia.
  - destruct (try_u 16 port0) as [n|] eqn:E; [|run_call Hok]. apply try_u_Some in E as [-> ?].
    run_call Hok.
  - destruct (n =? 0)%nat; [run_call Hok|].
    destruct (to_str s n) as [ip|[]]; [destruct (IpAddr_from_str _)|..]; run_call Hok.
  - destruct (compute_range_from_raw range_ok lo hi) as [r|e] eqn:E.
    + apply port_range_ok in E as (f & l & -> & ? & ? & ? & _). run_call Hok.
    + do 2 eexists. split; [reflexivity|done].
  - pose proof (dc_aware_ok _ dc n used_hosts allow (ok_lbc _ _ Hok) Hc) as Hl.
    pose proof (dc_aware_error (cluster_load_balancing_config c) dc n used_hosts allow) as He.
    destruct (set_load_balance_dc_aware_n _ _ _ _ _) as [e l]. do 2 eexists.
    split; [reflexivity|]. split; [destruct Hok; by split|]. intros Hr. simpl in He.
    rewrite (He Hr). by destruct c.
  - destruct Hc as [Hc1 Hc2].
    pose proof (rack_aware_ok _ dc n rack m (ok_lbc _ _ Hok) Hc1 Hc2) as Hl.
    pose proof (rack_aware_error (cluster_load_balancing_config c) dc n rack m) as He.
    destruct (set_load_balance_rack_aware_n _ _ _ _ _) as [e l]. do 2 eexists.
    split; [reflexivity|]. split; [destruct Hok; by split|]. intros Hr. simpl in He.
    rewrite (He Hr). by destruct c.
  - destruct (_ && _); run_call Hok.
  - destruct (_ || _); run_call Hok.
  - unfold from_c_value. destruct p; simpl; run_call Hok.
  - run_call Hok. by apply update_list_named.
  - run_call Hok. by apply update_list_named.
  - destruct (from_c_value c0) as [[|x]|e]; run_call Hok.
  - destruct (from_c_value c0) as [[|x]|e]; run_call Hok.
  - destruct p as [p|]; [|run_call Hok]. destruct (to_str s n) as [name|[]]; [|run_call Hok..].
    unfold ExecProfileName_try_from. destruct (Nat.eqb_spec (String.length name) 0); [run_call Hok|].
    run_call Hok. apply map_Forall_insert_2; [by destruct name|done].
  - destruct (Z.leb_spec base 1), (Z.leb_spec max 1), (Z.ltb_spec max base); run_call Hok.
Qed.

Lemma cluster_run_ok range_ok calls c :
  cluster_ok range_ok c -> Forall cluster_call_ok calls ->
  exists c', cluster_run range_ok calls (Some c) = Ret (Some c') /\ cluster_ok range_ok c'.
Proof.
  intros Hok Hcalls. revert c Hok. induction Hcalls as [|call calls Hc _ IH]; intros c Hok;
    simpl; [by exists c|].
  destruct (cluster_exec_ok range_ok call c Hok Hc) as (err & c' & -> & Hok' & _). by apply IH.
Qed.

Lemma cluster_new_ok range_ok rust :
  match reconnect_policy rust with
  | ExponentialReconnectPolicy (Millis base) (Millis max) => 1 < base <= max | _ => True end ->
  cluster_ok range_ok (cass_cluster_new rust).
Proof. intros H. split; [done|by split|apply map_Forall_empty|constructor|by repeat constructor]. Qed.

(** ** Properties *)

(** C24: whatever sequence of setters is called on a new cluster, none panics and
    the configuration handed to the Rust driver stays valid: the port is a 16-bit
    number, pool sizes and coalescing delays are positive, exponential backoff has
    1 < base <= max, a port range passed the driver's validation, and profile
    names, contact points and datacenter and rack names are non-empty. *)
Theorem cluster_config_invariant (range_ok : Z -> Z -> bool) (rust : SessionConfig)
    (calls : list cluster_call) :
  match reconnect_policy rust with
  | ExponentialReconnectPolicy (Millis base) (Millis max) => 1 < base <= max | _ => True end ->
  Forall cluster_call_ok calls ->
  exists c, cluster_run range_ok calls (Some (cass_cluster_new rust)) = Ret (Some c) /\
    cluster_ok range_ok c.
Proof. intros Hr Hcalls. apply cluster_run_ok; [by apply cluster_new_ok|done]. Qed.

Definition rust_session_config : SessionConfig :=
  mkSessionConfig None None None None None true (Millis 60000) (Millis 200) true None (Millis 5000)
    (PerShard 1) true SmallNondeterministic None None None EPHEMERAL_PORT_RANGE None None None
    (ExponentialReconnectPolicy (Millis 50) (Millis 4000)) None None [] None.

Lemma cluster_config_invariant_witness :
  exists c, cluster_run (fun lo hi => (1024 <=? lo) && (lo <=? hi))
    [CContactPoints (Some "a, b"%string) 4; CPort 70000; CLocalPortRange 2000 3000;
     CDcAware (Some "dc1"%string) 3 0 0; CExponentialReconnect 1 2]
    (Some (cass_cluster_new rust_session_config)) = Ret (Some c) /\
    cluster_ok (fun lo hi => (1024 <=? lo) && (lo <=? hi)) c.
Proof.
  apply cluster_config_invariant; [simpl; lia|]. repeat constructor.
Defined.

(** A setter that reports an error has changed nothing. *)
Theorem cluster_error_unchanged (range_ok : Z -> Z -> bool) (call : cluster_call)
    (c : CassCluster) (err : CassError) (p : cluster_ptr) :
  cluster_ok range_ok c -> cluster_call_ok call ->
  cluster_exec range_ok call (Some c) = Ret (err, p) ->
  err <> CASS_OK -> p = Some c.
Proof.
  intros Hok Hc He Herr. destruct (cluster_exec_ok range_ok call c Hok Hc) as (e & c' & E & _ & Hu).
  rewrite E in He. injection He as <- <-. by rewrite Hu.
Qed.

Lemma cluster_error_unchanged_witness :
  exists p, cluster_exec (fun _ _ => true) (CPort 65536) (Some (cass_cluster_new rust_session_config))
    = Ret (CASS_ERROR_LIB_BAD_PARAMS, p) /\ p = Some (cass_cluster_new rust_session_config).
Proof.
  eexists. split; [reflexivity|].
  apply (cluster_error_unchanged (fun _ _ => true) (CPort 65536)
    (cass_cluster_new rust_session_config) CASS_ERROR_LIB_BAD_PARAMS);
    [apply cluster_new_ok; simpl; lia|exact I|reflexivity|discriminate].
Defined.

(** The profile of the session for [p], and the policy it picks nodes with. *)
Definition session_policy (rust : ExecutionProfile) (c : CassCluster) (p : CassExecProfile)
  : FilteringPolicy :=
  p_load_balancing_policy
    (profile_build rust p (build_session_builder rust (fun l => l) c).2).

(** The host filter of a session never rejects a host that the session's
    default policy, or the policy its profiles are built with, would use: the
    profiles that count are exactly those that bring a policy of their own. *)
Theorem session_filter_covers_policies (rust : ExecutionProfile) (c : CassCluster) (peer : Node) :
  (is_host_allowed
     (fp_filtering (p_load_balancing_policy (build_session_builder rust (fun l => l) c).2))
     (node_ip peer) (datacenter peer) = true
   -> accept (build_host_filter c) peer = true) /\
  forall name p, execution_profile_map c !! name = Some p ->
    is_host_allowed (fp_filtering (session_policy rust c p)) (node_ip peer) (datacenter peer) = true ->
    accept (build_host_filter c) peer = true.
Proof.
  assert (Hd : is_host_allowed
     (fp_filtering (p_load_balancing_policy (build_session_builder rust (fun l => l) c).2))
     (node_ip peer) (datacenter peer) = true -> accept (build_host_filter c) peer = true).
  { cbn [build_session_builder snd builder_build p_load_balancing_policy]. simpl.
    rewrite build_filtering. apply accept_sound. apply list_elem_of_here. }
  split; [exact Hd|]. intros name p Hp. unfold session_policy, profile_build.
  destruct (cluster_defaults_inner p (build_session_builder rust (fun l => l) c).2) as [_ ->].
  destruct (load_balancing_kind (load_balancing_config p)) eqn:Hk; [|exact Hd].
  unfold builder_build. cbn [p_load_balancing_policy update]. simpl.
  rewrite build_filtering. apply accept_sound, list_elem_of_further, list_elem_of_omap.
  exists p. rewrite Hk. split; [|done]. apply list_elem_of_fmap. exists (name, p).
  split; [done|]. by apply elem_of_map_to_list.
Qed.

(** The datacenter restriction of a DC-aware policy outlives it: after
    switching to round-robin, or to rack-aware, the policy (and with it the
    cluster's part of the host filter) still rejects every node outside the
    former local datacenter. *)
Theorem stale_dc_restriction (c : CassCluster) (dc rack : string) (peer : Node) :
  utf8_valid (as_bytes dc) = true -> utf8_valid (as_bytes rack) = true ->
  dc <> EmptyString -> rack <> EmptyString ->
  default EmptyString (datacenter peer) <> dc ->
  let aware := (cass_cluster_set_load_balance_dc_aware_n (Some dc) (String.length dc) 0 0 (Some c)).2 in
  exists c1 c2,
    cass_cluster_set_load_balance_round_robin aware = Some c1 /\
    load_balancing_kind (cluster_load_balancing_config c1) = Some RoundRobin /\
    policy_accepts (cluster_load_balancing_config c1) peer = false /\
    cass_cluster_set_load_balance_rack_aware_n (Some dc) (String.length dc) (Some rack)
      (String.length rack) aware = (CASS_OK, Some c2) /\
    load_balancing_kind (cluster_load_balancing_config c2) = Some (RackAware dc rack) /\
    policy_accepts (cluster_load_balancing_config c2) peer = false.
Proof.
  intros Hu1 Hu2 Hdc Hrack Hpeer. simpl. unfold set_load_balance_dc_aware_n, to_str, from_utf8.
  rewrite substring_all, Hu1. destruct (Nat.eqb_spec (String.length dc) 0); [by destruct dc|]. simpl.
  unfold set_load_balance_rack_aware_n, to_str, from_utf8.
  rewrite !substring_all, Hu1, Hu2. destruct (Nat.eqb_spec (String.length dc) 0); [done|].
  destruct (Nat.eqb_spec (String.length rack) 0); [by destruct rack|]. simpl.
  do 2 eexists. split_and!; try reflexivity; rewrite policy_accepts_rules; simpl;
    by rewrite bool_decide_eq_false_2.
Qed.

Lemma stale_dc_restriction_witness :
  exists c1 c2, policy_accepts (cluster_load_balancing_config c1) (mkNode ip_a (Some "dc2"%string)) = false
    /\ load_balancing_kind (cluster_load_balancing_config c1) = Some RoundRobin
    /\ load_balancing_kind (cluster_load_balancing_config c2) = Some (RackAware "dc1" "r1").
Proof.
  destruct (stale_dc_restriction (cass_cluster_new rust_session_config) "dc1" "r1"
    (mkNode ip_a (Some "dc2"%string))) as (c1 & c2 & _ & H1 & H2 & _ & H3 & _);
    [reflexivity|reflexivity|discriminate..|].
  exists c1, c2. auto.
Defined.

(** With the documented validation of the Rust driver (ports from 1024 on,
    non-empty range), the half-open range of the C API is accepted exactly when
    1024 <= lo < hi <= 65536, whatever 32-bit integers are passed, and stored as
    the inclusive range from lo to hi - 1. *)
Theorem local_port_range_spec (range_ok : Z -> Z -> bool) (lo hi : Z) :
  (forall a b, range_ok a b = (1024 <=? a) && (a <=? b)) ->
  in_i 32 lo -> in_i 32 hi ->
  compute_range_from_raw range_ok lo hi =
  if (1024 <=? lo) && (lo <? hi) && (hi <=? 65536) then Ok (PortRange lo (hi - 1))
  else Err CASS_ERROR_LIB_BAD_PARAMS.
Proof.
  unfold in_i, compute_range_from_raw, try_i, try_u. intros Hr Hlo Hhi.
  change (32 - 1) with 31 in *. change (2 ^ 16) with 65536.
  change (2 ^ 31) with 2147483648 in *.
  repeat match goal with
  | |- context [?a <=? ?b] => destruct (Z.leb_spec a b); simpl
  | |- context [?a <? ?b] => destruct (Z.ltb_spec a b); simpl
  end; try lia; try done; rewrite Hr;
  repeat match goal with |- context [?a <=? ?b] => destruct (Z.leb_spec a b); simpl end; done || lia.
Qed.

Lemma local_port_range_spec_witness :
  compute_range_from_raw (fun a b => (1024 <=? a) && (a <=? b)) 49152 65536
  = Ok (PortRange 49152 65535).
Proof.
  apply (local_port_range_spec (fun a b => (1024 <=? a) && (a <=? b)) 49152 65536);
    [reflexivity|unfold in_i; lia..].
Defined.
