(* ===== verification/Value.v ===== *)
(** * CQL values: binding type checks and serialization (cql_types/value.rs)

    A value refers to data types by a reference type [R]; the class [DataTypes]
    is what values and containers use of data types, with two instances: the
    heap of DataType.v (a call sees the contents at the time of the call) and
    immutable trees.  The serialization of native values and the cell writers
    belong to the Rust driver: they are the fields of [Writers]. *)

From Stdlib Require Import ZArith Lia.
From stdpp Require Import base list gmap strings.
From S2P Require Import Prelude ArgConv Types DataType Inet.

Open Scope Z_scope.

(** ** What values need of data types *)

Class DataTypes (R : Type) := {
  get_unchecked : R -> outcome (CassDataTypeInner R);
  (** [a.get_unchecked().typecheck_equals(b.get_unchecked())] *)
  typecheck : R -> R -> outcome bool;
  (** [t.get_unchecked().uses_variable_length_encoding_in_vector()] *)
  variable_in_vector : R -> outcome bool
}.

(** [NativeType::type_size_for_vector] is a parameter of both instances. *)
Definition tree_data_types (fixed_size : NativeType -> option nat) : DataTypes dtree := {|
  get_unchecked t := match t with Node i => Ret i end;
  typecheck := tree_typecheck;
  variable_in_vector t := Ret (uses_variable_length_encoding_in_vector fixed_size t)
|}.

Fixpoint heap_variable_in_vector (fixed_size : NativeType -> option nat) (fuel : nat) (h : heap)
    (l : loc) : outcome bool :=
  match fuel with
  | O => Diverge
  | S fuel =>
      deref h l (fun i =>
        match i with
        | DValue value_type =>
            Ret (negb match NativeType_try_from value_type with
                      | Some native_type =>
                          match fixed_size native_type with Some _ => true | None => false end
                      | None => false
                      end)
        | DVector typ _ => heap_variable_in_vector fixed_size fuel h typ
        | _ => Ret true
        end)
  end.

Definition heap_data_types (fixed_size : NativeType -> option nat) (fuel : nat) (h : heap)
  : DataTypes loc := {|
  get_unchecked l := deref h l Ret;
  typecheck a b := deref h a (fun a => deref h b (fun b => typecheck_equals fuel h a b));
  variable_in_vector := heap_variable_in_vector fixed_size fuel h
|}.

(** ** Values *)

Record CqlDuration := mkCqlDuration { months : Z; days : Z; nanoseconds : Z }.

(** A decimal: the bytes of its unscaled value and its exponent. *)
Record CqlDecimal := mkCqlDecimal { int_val : list Z; scale : Z }.

(** Floating-point numbers are their bit patterns. *)
Inductive CassCqlValue (R : Type) :=
| TinyInt (v : Z)
| SmallInt (v : Z)
| Int (v : Z)
| BigInt (v : Z)
| Float (bits : Z)
| Double (bits : Z)
| Boolean (b : bool)
| Text (s : string)
| Blob (bytes : list Z)
| UuidVal (u : Z)
| DateVal (d : Z)
| InetVal (ip : IpAddr)
| DurationVal (d : CqlDuration)
| DecimalVal (d : CqlDecimal)
| Tuple (data_type : option R) (fields : list (option (CassCqlValue R)))
| ListVal (data_type : option R) (values : list (CassCqlValue R))
| MapVal (data_type : option R) (values : list (CassCqlValue R * CassCqlValue R))
| SetVal (data_type : option R) (values : list (CassCqlValue R))
| Vector (data_type element_type : R) (values : list (option (CassCqlValue R)))
| UserDefinedType (data_type : R) (fields : list (string * option (CassCqlValue R))).
Arguments TinyInt {R}. Arguments SmallInt {R}. Arguments Int {R}. Arguments BigInt {R}.
Arguments Float {R}. Arguments Double {R}. Arguments Boolean {R}. Arguments Text {R}.
Arguments Blob {R}. Arguments UuidVal {R}. Arguments DateVal {R}. Arguments InetVal {R}.
Arguments DurationVal {R}. Arguments DecimalVal {R}. Arguments Tuple {R}. Arguments ListVal {R}.
Arguments MapVal {R}. Arguments SetVal {R}. Arguments Vector {R}. Arguments UserDefinedType {R}.

(** ** Type checks at binding time *)

Section Compatible.
Context {R : Type} `{DataTypes R}.

Definition has_value_type (typ : R) (p : CassValueType -> bool) : outcome bool :=
  match get_unchecked typ with
  | Ret i => Ret (p (get_value_type i))
  | Panic => Panic
  | Diverge => Diverge
  end.

Definition is_value_type (t : CassValueType) : CassValueType -> bool := fun u => bool_decide (u = t).

(** Untyped containers are accepted by any type of their kind. *)
Definition container_compatible (data_type : option R) (kind : CassValueType) (typ : R)
  : outcome bool :=
  match data_type with
  | Some dt => typecheck dt typ
  | None => has_value_type typ (is_value_type kind)
  end.

(** [CassCqlValue::is_type_compatible]. *)
Definition value_is_type_compatible (self : CassCqlValue R) (typ : R) : outcome bool :=
  match self with
  | TinyInt _ => has_value_type typ (is_value_type CASS_VALUE_TYPE_TINY_INT)
  | SmallInt _ => has_value_type typ (is_value_type CASS_VALUE_TYPE_SMALL_INT)
  | Int _ => has_value_type typ (is_value_type CASS_VALUE_TYPE_INT)
  | BigInt _ => has_value_type typ (fun t =>
      match t with
      | CASS_VALUE_TYPE_BIGINT | CASS_VALUE_TYPE_COUNTER | CASS_VALUE_TYPE_TIMESTAMP
      | CASS_VALUE_TYPE_TIME => true
      | _ => false
      end)
  | Float _ => has_value_type typ (is_value_type CASS_VALUE_TYPE_FLOAT)
  | Double _ => has_value_type typ (is_value_type CASS_VALUE_TYPE_DOUBLE)
  | Boolean _ => has_value_type typ (is_value_type CASS_VALUE_TYPE_BOOLEAN)
  | Text _ => has_value_type typ (fun t =>
      match t with
      | CASS_VALUE_TYPE_TEXT | CASS_VALUE_TYPE_VARCHAR | CASS_VALUE_TYPE_ASCII
      | CASS_VALUE_TYPE_BLOB | CASS_VALUE_TYPE_VARINT => true
      | _ => false
      end)
  | Blob _ => has_value_type typ (fun t =>
      match t with CASS_VALUE_TYPE_BLOB | CASS_VALUE_TYPE_VARINT => true | _ => false end)
  | UuidVal _ => has_value_type typ (fun t =>
      match t with CASS_VALUE_TYPE_UUID | CASS_VALUE_TYPE_TIMEUUID => true | _ => false end)
  | DateVal _ => has_value_type typ (is_value_type CASS_VALUE_TYPE_DATE)
  | InetVal _ => has_value_type typ (is_value_type CASS_VALUE_TYPE_INET)
  | DurationVal _ => has_value_type typ (is_value_type CASS_VALUE_TYPE_DURATION)
  | DecimalVal _ => has_value_type typ (is_value_type CASS_VALUE_TYPE_DECIMAL)
  | Tuple data_type _ => container_compatible data_type CASS_VALUE_TYPE_TUPLE typ
  | ListVal data_type _ => container_compatible data_type CASS_VALUE_TYPE_LIST typ
  | MapVal data_type _ => container_compatible data_type CASS_VALUE_TYPE_MAP typ
  | SetVal data_type _ => container_compatible data_type CASS_VALUE_TYPE_SET typ
  | Vector data_type _ _ => typecheck data_type typ
  | UserDefinedType data_type _ => typecheck data_type typ
  end.

(** [value::is_type_compatible]: a null fits every type. *)
Definition is_type_compatible (value : option (CassCqlValue R)) (typ : R) : outcome bool :=
  match value with
  | Some v => value_is_type_compatible v typ
  | None => Ret true
  end.

End Compatible.

(** ** Unsigned variable-length integers *)

(** [u64::leading_zeros]. *)
Definition leading_zeros (v : Z) : Z := if v =? 0 then 64 else 63 - Z.log2 v.

(** [unsigned_vint_encode]: the bytes appended to the buffer. *)
Definition unsigned_vint_encode (v : Z) : list Z :=
  let number_of_bytes := Z.shiftr (639 - 9 * leading_zeros v) 6 in
  if number_of_bytes <=? 1 then [v mod 256]
  else
    let '(prefix, v, number_of_bytes) :=
      if negb (number_of_bytes =? 9) then
        let extra_bytes := number_of_bytes - 1 in
        let length_bits := 255 - Z.shiftr 255 extra_bytes in
        ([], Z.lor v (wrap_u 64 (Z.shiftl length_bits (8 * extra_bytes))), number_of_bytes)
      else ([255], v, number_of_bytes - 1) in
    prefix ++ drop (8 - Z.to_nat number_of_bytes) (be_bytes 8 v).

(** The decoder of the CQL protocol: the leading ones of the first byte count the
    bytes that follow it. *)
Definition leading_ones (b : Z) : nat := Z.to_nat (if b =? 255 then 8 else 7 - Z.log2 (255 - b)).

Definition unsigned_vint_decode (l : list Z) : option (Z * list Z) :=
  match l with
  | [] => None
  | b :: l =>
      let extra := leading_ones b in
      if (length l <? extra)%nat then None
      else Some (be_value ((b mod 2 ^ (8 - Z.of_nat extra)) :: take extra l), drop extra l)
  end.

(** ** Lemmas: variable-length integers *)

Lemma drop_be_bytes k n z : drop k (be_bytes (k + n) z) = be_bytes n z.
Proof.
  revert z. induction n as [|n IH]; intros z.
  - rewrite Nat.add_0_r. apply drop_ge. rewrite length_be_bytes. lia.
  - rewrite Nat.add_succ_r. cbn [be_bytes]. rewrite drop_app_le by (rewrite length_be_bytes; lia).
    by rewrite IH.
Qed.

Lemma be_bytes_cons n z : be_bytes (S n) z = (z / 256 ^ Z.of_nat n) mod 256 :: be_bytes n z.
Proof.
  revert z. induction n as [|n IH]; intros z.
  - cbn. by rewrite Z.div_1_r.
  - cbn [be_bytes] in *. rewrite (IH (z / 256)). cbn [app]. f_equal.
    rewrite Z.div_div by lia. f_equal. f_equal. rewrite Nat2Z.inj_succ, Z.pow_succ_r by lia. lia.
Qed.

Lemma be_value_acc_eq acc l :
  be_value_acc acc l = acc * 256 ^ Z.of_nat (length l) + be_value l.
Proof.
  revert acc. induction l as [|b l IH]; intros acc; cbn [be_value_acc length]; [unfold be_value; cbn; lia|].
  unfold be_value. cbn [be_value_acc]. rewrite !IH, Nat2Z.inj_succ, Z.pow_succ_r by lia. lia.
Qed.

Lemma be_value_cons b l : be_value (b :: l) = b * 256 ^ Z.of_nat (length l) + be_value l.
Proof. unfold be_value at 1. cbn [be_value_acc]. by rewrite be_value_acc_eq. Qed.

(** The number of bytes grows by one with every seven bits. *)
Lemma vint_size v n :
  1 <= n <= 8 -> 2 ^ (7 * n) <= v < 2 ^ (7 * n + 7) ->
  Z.shiftr (639 - 9 * leading_zeros v) 6 = n + 1.
Proof.
  intros Hn [Hlo Hhi]. assert (0 < v) by (pose proof (Z.pow_pos_nonneg 2 (7 * n)); lia).
  unfold leading_zeros. destruct (Z.eqb_spec v 0); [lia|].
  assert (7 * n <= Z.log2 v) by (apply Z.log2_le_pow2; lia).
  assert (Z.log2 v < 7 * n + 7) by (apply Z.log2_lt_pow2; lia).
  rewrite Z.shiftr_div_pow2 by lia. change (2 ^ 6) with 64. dm_lia.
Qed.

Lemma leading_ones_spec b e :
  (e <= 7)%nat -> 256 - 2 ^ (8 - Z.of_nat e) <= b < 256 - 2 ^ (7 - Z.of_nat e) ->
  leading_ones b = e.
Proof.
  intros He Hb. unfold leading_ones.
  assert (0 < 2 ^ (7 - Z.of_nat e)) by (apply Z.pow_pos_nonneg; lia).
  destruct (Z.eqb_spec b 255); [lia|].
  rewrite (Z.log2_unique (255 - b) (7 - Z.of_nat e)); [lia|lia|].
  split; [lia|]. replace (Z.succ (7 - Z.of_nat e)) with (8 - Z.of_nat e) by lia. lia.
Qed.

(** Seven cases, so that the constants are literals. *)
Lemma upto7 (P : nat -> Prop) :
  P 1%nat -> P 2%nat -> P 3%nat -> P 4%nat -> P 5%nat -> P 6%nat -> P 7%nat ->
  forall e, (1 <= e <= 7)%nat -> P e.
Proof. intros H1 H2 H3 H4 H5 H6 H7 e He. do 8 (destruct e as [|e]; [done || lia|]). lia. Qed.

Lemma length_bits_lor e v :
  (1 <= e <= 7)%nat -> 0 <= v < 2 ^ (7 * Z.of_nat e + 7) ->
  Z.lor v (wrap_u 64 (Z.shiftl (255 - Z.shiftr 255 (Z.of_nat e)) (8 * Z.of_nat e)))
  = v + (256 - 2 ^ (8 - Z.of_nat e)) * 256 ^ Z.of_nat e.
Proof.
  intros He Hv.
  assert (wrap_u 64 (Z.shiftl (255 - Z.shiftr 255 (Z.of_nat e)) (8 * Z.of_nat e))
          = 2 * (2 ^ Z.of_nat e - 1) * 2 ^ (7 * Z.of_nat e + 7) /\
          2 * (2 ^ Z.of_nat e - 1) * 2 ^ (7 * Z.of_nat e + 7)
          = (256 - 2 ^ (8 - Z.of_nat e)) * 256 ^ Z.of_nat e) as [-> E].
  { clear Hv. revert e He. apply upto7; split; reflexivity. }
  rewrite lor_add_pow2' by lia. by rewrite E.
Qed.

(** Between 2 and 8 bytes: [e] bytes follow the first one. *)
Lemma vint_mid e v w rest :
  (1 <= e <= 7)%nat -> 0 <= v < 2 ^ (7 * Z.of_nat e + 7) ->
  w = v + (256 - 2 ^ (8 - Z.of_nat e)) * 256 ^ Z.of_nat e ->
  unsigned_vint_decode (be_bytes (S e) w ++ rest) = Some (v, rest).
Proof.
  intros He Hv Hw. set (P := 256 ^ Z.of_nat e) in *.
  assert (HP : P = 2 ^ (8 * Z.of_nat e)) by (unfold P; by rewrite Z.pow_mul_r by lia).
  assert (0 < P) by (rewrite HP; apply Z.pow_pos_nonneg; lia).
  assert (Hq : 0 <= v / P < 2 ^ (7 - Z.of_nat e)).
  { split; [apply Z.div_pos; lia|]. apply Z.div_lt_upper_bound; [lia|].
    rewrite HP, <- Z.pow_add_r by lia. replace (8 * Z.of_nat e + (7 - Z.of_nat e))
      with (7 * Z.of_nat e + 7) by lia. lia. }
  assert (Hp : 2 ^ (8 - Z.of_nat e) = 2 * 2 ^ (7 - Z.of_nat e)).
  { rewrite <- Z.pow_succ_r by lia. f_equal. lia. }
  assert (H8 : 2 ^ (8 - Z.of_nat e) <= 128).
  { change 128 with (2 ^ 7). apply Z.pow_le_mono_r; lia. }
  assert (Hd : w / P = v / P + (256 - 2 ^ (8 - Z.of_nat e))) by (rewrite Hw; apply Z.div_add; lia).
  assert (Hm : w mod P = v mod P) by (rewrite Hw; apply Z.mod_add; lia).
  rewrite be_bytes_cons. fold P. rewrite Hd, Z.mod_small by lia. cbn [app unsigned_vint_decode].
  rewrite (leading_ones_spec _ e) by lia. rewrite length_app, length_be_bytes.
  destruct (Nat.ltb_spec (e + length rest) e); [lia|].
  rewrite take_app_length', drop_app_length' by by rewrite length_be_bytes.
  f_equal. f_equal. rewrite be_value_cons, length_be_bytes, be_value_bytes. fold P. rewrite Hm.
  replace ((v / P + (256 - 2 ^ (8 - Z.of_nat e))) mod 2 ^ (8 - Z.of_nat e)) with (v / P).
  - pose proof (Z.div_mod v P). lia.
  - symmetry. assert (exists k, 256 = k * 2 ^ (8 - Z.of_nat e)) as [k Hk].
    { exists (2 ^ Z.of_nat e). rewrite <- Z.pow_add_r by lia.
      by replace (Z.of_nat e + (8 - Z.of_nat e)) with 8 by lia. }
    rewrite Hk. replace (v / P + (k * 2 ^ (8 - Z.of_nat e) - 2 ^ (8 - Z.of_nat e)))
      with (v / P + (k - 1) * 2 ^ (8 - Z.of_nat e)) by lia.
    rewrite Z.mod_add by lia. apply Z.mod_small. lia.
Qed.

(** The three shapes of an encoding. *)
Lemma vint_shape v :
  in_u 64 v ->
  (v < 128 /\ unsigned_vint_encode v = [v]) \/
  (exists e, (1 <= e <= 7)%nat /\ 2 ^ (7 * Z.of_nat e) <= v < 2 ^ (7 * Z.of_nat e + 7) /\
     unsigned_vint_encode v
     = be_bytes (S e) (v + (256 - 2 ^ (8 - Z.of_nat e)) * 256 ^ Z.of_nat e)) \/
  (2 ^ 56 <= v /\ unsigned_vint_encode v = 255 :: be_bytes 8 v).
Proof.
  unfold in_u. intros Hv. unfold unsigned_vint_encode.
  destruct (Z.lt_ge_cases v 128) as [Hlt|Hge]; [left; split; [done|]|right].
  { assert (Z.shiftr (639 - 9 * leading_zeros v) 6 <= 1) as Hs.
    { unfold leading_zeros. rewrite Z.shiftr_div_pow2 by lia. change (2 ^ 6) with 64.
      destruct (Z.eqb_spec v 0); [done|].
      assert (Z.log2 v < 7) by (apply Z.log2_lt_pow2; lia). dm_lia. }
    destruct (Z.leb_spec (Z.shiftr (639 - 9 * leading_zeros v) 6) 1); [|lia].
    by rewrite Z.mod_small by lia. }
  destruct (Z.lt_ge_cases v (2 ^ 56)) as [Hmid|Hbig]; [left|right; split; [done|]].
  - assert (exists e, (1 <= e <= 7)%nat /\ 2 ^ (7 * Z.of_nat e) <= v < 2 ^ (7 * Z.of_nat e + 7))
      as (e & He & Hr).
    { exists (Z.to_nat (Z.log2 v / 7)).
      assert (7 <= Z.log2 v) by (apply Z.log2_le_pow2; lia).
      assert (Z.log2 v < 56) by (apply Z.log2_lt_pow2; lia).
      rewrite Z2Nat.id by dm_lia. split; [dm_lia|].
      split; [apply Z.log2_le_pow2|apply Z.log2_lt_pow2]; (lia || dm_lia). }
    exists e. split_and!; [lia..|]. rewrite (vint_size v (Z.of_nat e)) by lia.
    destruct (Z.leb_spec (Z.of_nat e + 1) 1); [lia|].
    destruct (Z.eqb_spec (Z.of_nat e + 1) 9); [lia|]. cbn [negb app].
    replace (Z.of_nat e + 1 - 1) with (Z.of_nat e) by lia. rewrite length_bits_lor by lia.
    replace 8%nat with ((8 - Z.to_nat (Z.of_nat e + 1)) + S e)%nat at 2 by lia.
    by rewrite drop_be_bytes.
  - assert (Z.shiftr (639 - 9 * leading_zeros v) 6 = 9) as ->; [|reflexivity].
    destruct (Z.lt_ge_cases v (2 ^ 63)); [by rewrite (vint_size v 8) by lia|].
    unfold leading_zeros. destruct (Z.eqb_spec v 0); [lia|].
    rewrite (Z.log2_unique v 63) by lia. done.
Qed.

Lemma vint_roundtrip v rest :
  in_u 64 v -> unsigned_vint_decode (unsigned_vint_encode v ++ rest) = Some (v, rest).
Proof.
  intros Hv. pose proof Hv as Hv'. unfold in_u in Hv'.
  destruct (vint_shape v Hv) as [[Hlt ->]|[(e & He & Hr & ->)|[Hbig ->]]].
  - cbn [app unsigned_vint_decode]. rewrite (leading_ones_spec v 0) by lia. cbn.
    by rewrite Z.mod_small by lia.
  - apply (vint_mid e); [done| |done]. pose proof (Z.pow_pos_nonneg 2 (7 * Z.of_nat e)). lia.
  - cbn [app unsigned_vint_decode]. change (leading_ones 255) with 8%nat.
    rewrite length_app, length_be_bytes. destruct (Nat.ltb_spec (8 + length rest) 8); [lia|].
    rewrite take_app_length', drop_app_length' by by rewrite length_be_bytes.
    rewrite be_value_cons, be_value_bytes, length_be_bytes. cbn [Z.of_nat].
    rewrite (Z.mod_small v) by (change (256 ^ Z.of_nat 8) with (2 ^ 64); lia). done.
Qed.

Lemma vint_length v n :
  in_u 64 v -> (1 <= n <= 8)%nat ->
  (length (unsigned_vint_encode v) <= n)%nat <-> v < 2 ^ (7 * Z.of_nat n).
Proof.
  intros Hv Hn. pose proof Hv as Hv'. unfold in_u in Hv'.
  destruct (vint_shape v Hv) as [[Hlt ->]|[(e & He & Hr & ->)|[Hbig ->]]].
  - simpl. split; [|lia]. intros _. pose proof (Z.pow_le_mono_r 2 7 (7 * Z.of_nat n)). lia.
  - rewrite length_be_bytes. split; intros H.
    + pose proof (Z.pow_le_mono_r 2 (7 * Z.of_nat e + 7) (7 * Z.of_nat n)). lia.
    + destruct (Nat.le_gt_cases (S e) n); [done|].
      pose proof (Z.pow_le_mono_r 2 (7 * Z.of_nat n) (7 * Z.of_nat e)). lia.
  - cbn [length]. rewrite length_be_bytes. split; [lia|]. intros H.
    pose proof (Z.pow_le_mono_r 2 (7 * Z.of_nat n) 56). lia.
Qed.

(** ** Properties *)

(** The length prefix of vector elements: every 64-bit number is decoded from
    its encoding, whatever bytes follow, and the encoding is the shortest one
    (at most [n] bytes exactly for numbers below [2^(7n)], nine at most). *)
Theorem unsigned_vint_roundtrip (v : Z) (rest : list Z) :
  in_u 64 v ->
  unsigned_vint_decode (unsigned_vint_encode v ++ rest) = Some (v, rest) /\
  (length (unsigned_vint_encode v) <= 9)%nat /\
  forall n, (1 <= n <= 8)%nat ->
    (length (unsigned_vint_encode v) <= n)%nat <-> v < 2 ^ (7 * Z.of_nat n).
Proof.
  intros Hv. split; [by apply vint_roundtrip|]. split; [|intros n; by apply vint_length].
  destruct (vint_shape v Hv) as [[_ ->]|[(e & He & _ & ->)|[_ ->]]]; [simpl; lia| |];
    cbn [length]; rewrite ?length_be_bytes; lia.
Qed.

Lemma unsigned_vint_roundtrip_witness :
  unsigned_vint_decode (unsigned_vint_encode 16384 ++ [1]) = Some (16384, [1]).
Proof. apply (unsigned_vint_roundtrip 16384 [1]). unfold in_u. lia. Defined.
