(* ===== verification/Serialize.v ===== *)
(** * Serialization of values (cql_types/value.rs)

    [do_serialize] with its helpers, over the writers of the Rust driver
    ([Writers]); the wire format of the CQL protocol as a grammar of byte strings
    with a type-directed decoder; and the theorem that the bytes written decode
    to the value. *)

From Stdlib Require Import ZArith Lia.
From stdpp Require Import base list gmap strings.
From S2P Require Import Prelude Types DataType Value.

Open Scope Z_scope.

(** ** Errors *)

Inductive SerializationError :=
| NativeError
| SizeOverflow
| TooManyElements
| TupleElementFailed (index : nat) (err : SerializationError)
| ElementFailed (err : SerializationError)
| KeyFailed (err : SerializationError)
| ValueFailed (err : SerializationError)
| VectorElementFailed (err : SerializationError)
| VectorElementNotSet (index : nat)
| FieldFailed (field_name : string) (err : SerializationError).

(** A computation of bytes; [outcome] for the look-ups of data types. *)
Definition ser : Type := outcome (result SerializationError (list Z)).

Definition ser_bind (m : ser) (k : list Z -> ser) : ser :=
  match m with
  | Ret (Ok bs) => k bs
  | Ret (Err e) => Ret (Err e)
  | Panic => Panic
  | Diverge => Diverge
  end.

Definition map_err (f : SerializationError -> SerializationError) (m : ser) : ser :=
  match m with Ret (Err e) => Ret (Err (f e)) | _ => m end.

Notation "'let!' x := m 'in' k" := (ser_bind m (fun x => k))
  (at level 10, x name, m at level 100, k at level 200).

Definition ok (bs : list Z) : ser := Ret (Ok bs).

(** ** Writers of the Rust driver

    A writer either prefixes its contents with their size or not. *)
Record Writers (R : Type) := {
  (** [SerializeValue::serialize] of a native value *)
  native : bool -> CassCqlValue R -> result SerializationError (list Z);
  (** [CellValueBuilder::finish] on the contents written so far *)
  finish : bool -> list Z -> result SerializationError (list Z);
  (** [CellWriter::set_null] *)
  set_null : list Z
}.
Arguments native {R}.
Arguments finish {R}.
Arguments set_null {R}.

Section Serialize.
Context {R : Type} `{DataTypes R} (W : Writers R).

Section Helpers.
Context (do_serialize : bool -> CassCqlValue R -> ser).

Definition serialize_field (err : SerializationError -> SerializationError)
    (field : option (CassCqlValue R)) : ser :=
  match field with
  | None => ok (set_null W)
  | Some el => map_err err (do_serialize true el)
  end.

(** The loops append to the builder and stop at the first error. *)
Fixpoint tuple_loop (index : nat) (fields : list (option (CassCqlValue R))) : ser :=
  match fields with
  | [] => ok []
  | el :: fields =>
      let! b := serialize_field (TupleElementFailed index) el in
      let! bs := tuple_loop (S index) fields in ok (b ++ bs)
  end.

Fixpoint sequence_loop (values : list (CassCqlValue R)) : ser :=
  match values with
  | [] => ok []
  | el :: values =>
      let! b := map_err ElementFailed (do_serialize true el) in
      let! bs := sequence_loop values in ok (b ++ bs)
  end.

Fixpoint mapping_loop (values : list (CassCqlValue R * CassCqlValue R)) : ser :=
  match values with
  | [] => ok []
  | (k, v) :: values =>
      let! b := map_err KeyFailed (do_serialize true k) in
      let! b' := map_err ValueFailed (do_serialize true v) in
      let! bs := mapping_loop values in ok (b ++ b' ++ bs)
  end.

Fixpoint vector_loop (variable_length : bool) (index : nat)
    (values : list (option (CassCqlValue R))) : ser :=
  match values with
  | [] => ok []
  | None :: _ => Ret (Err (VectorElementFailed (VectorElementNotSet index)))
  | Some element :: values =>
      let! b := map_err VectorElementFailed (do_serialize false element) in
      let! bs := vector_loop variable_length (S index) values in
      ok ((if variable_length then unsigned_vint_encode (Z.of_nat (length b)) ++ b else b) ++ bs)
  end.

Fixpoint udt_loop (values : list (string * option (CassCqlValue R))) : ser :=
  match values with
  | [] => ok []
  | (fname, fvalue) :: values =>
      let! b := serialize_field (FieldFailed fname) fvalue in
      let! bs := udt_loop values in ok (b ++ bs)
  end.

Definition with_size_finish (with_size : bool) (bs : list Z) : ser := Ret (finish W with_size bs).

Definition serialize_tuple_like (with_size : bool) (fields : list (option (CassCqlValue R))) : ser :=
  let! bs := tuple_loop 0 fields in with_size_finish with_size bs.

(** The [i32] count in front of the elements of a collection. *)
Definition element_count (len : nat) : ser :=
  match try_i 32 (Z.of_nat len) with
  | None => Ret (Err TooManyElements)
  | Some count => ok (be_bytes 4 (wrap_u 32 count))
  end.

Definition serialize_sequence (with_size : bool) (values : list (CassCqlValue R)) : ser :=
  let! count := element_count (length values) in
  let! bs := sequence_loop values in with_size_finish with_size (count ++ bs).

Definition serialize_mapping (with_size : bool) (values : list (CassCqlValue R * CassCqlValue R))
  : ser :=
  let! count := element_count (length values) in
  let! bs := mapping_loop values in with_size_finish with_size (count ++ bs).

Definition serialize_vector (with_size : bool) (element_type : R)
    (values : list (option (CassCqlValue R))) : ser :=
  match variable_in_vector element_type with
  | Ret variable_length =>
      let! bs := vector_loop variable_length 0 values in with_size_finish with_size bs
  | Panic => Panic
  | Diverge => Diverge
  end.

Definition serialize_udt (with_size : bool) (values : list (string * option (CassCqlValue R)))
  : ser :=
  let! bs := udt_loop values in with_size_finish with_size bs.

End Helpers.

Fixpoint do_serialize (with_size : bool) (self : CassCqlValue R) {struct self} : ser :=
  match self with
  | Tuple _ fields => serialize_tuple_like do_serialize with_size fields
  | ListVal _ values => serialize_sequence do_serialize with_size values
  | MapVal _ values => serialize_mapping do_serialize with_size values
  | SetVal _ values => serialize_sequence do_serialize with_size values
  | Vector _ element_type values => serialize_vector do_serialize with_size element_type values
  | UserDefinedType _ fields => serialize_udt do_serialize with_size fields
  | _ => Ret (native W with_size self)
  end.

End Serialize.

(** ** The wire format

    What the CQL protocol writes for a value, without its types. *)

Inductive wire :=
| WNative (bs : list Z)
| WSeq (l : list wire)
| WMap (l : list (wire * wire))
| WTuple (l : list (option wire))
| WVec (variable : bool) (l : list wire).

Definition cell (bs : list Z) : list Z := be_bytes 4 (Z.of_nat (length bs)) ++ bs.
Definition null_cell : list Z := be_bytes 4 (2 ^ 32 - 1).

Fixpoint encode (w : wire) : list Z :=
  match w with
  | WNative bs => bs
  | WSeq l => be_bytes 4 (Z.of_nat (length l)) ++ concat (map (fun x => cell (encode x)) l)
  | WMap l =>
      be_bytes 4 (Z.of_nat (length l))
        ++ concat (map (fun p => cell (encode p.1) ++ cell (encode p.2)) l)
  | WTuple l =>
      concat (map (fun o => match o with Some x => cell (encode x) | None => null_cell end) l)
  | WVec variable l =>
      concat (map (fun x =>
        if variable then unsigned_vint_encode (Z.of_nat (length (encode x))) ++ encode x
        else encode x) l)
  end.

(** Types as the decoder needs them: sizes of native types of a fixed size, the
    dimensions of a vector and whether its elements are prefixed. *)
Inductive wtype :=
| TNative (size : option nat)
| TSeq (t : wtype)
| TMap (k v : wtype)
| TTuple (ts : list wtype)
| TVec (n : nat) (variable : bool) (t : wtype).

Fixpoint fixed_size (t : wtype) : option nat :=
  match t with
  | TNative size => size
  | TVec n false t => size ← fixed_size t; Some (n * size)%nat
  | _ => None
  end.

(** A cell: [None] for null, and the rest of the input. *)
Definition read_cell (bs : list Z) : option (option (list Z) * list Z) :=
  if (length bs <? 4)%nat then None
  else
    let size := be_value (take 4 bs) in
    let bs := drop 4 bs in
    if 2 ^ 31 <=? size then Some (None, bs)
    else if (length bs <? Z.to_nat size)%nat then None
    else Some (Some (take (Z.to_nat size) bs), drop (Z.to_nat size) bs).

Fixpoint read_cells {A} (dec : list Z -> option A) (n : nat) (bs : list Z)
  : option (list A * list Z) :=
  match n with
  | O => Some ([], bs)
  | S n =>
      '(c, bs) ← read_cell bs; c ← c; a ← dec c;
      '(l, bs) ← read_cells dec n bs; Some (a :: l, bs)
  end.

(** All the input has to be used. *)
Definition complete {A} (r : option (A * list Z)) : option A :=
  '(a, bs) ← r; match bs with [] => Some a | _ => None end.

Definition read_count (bs : list Z) : option (nat * list Z) :=
  if (length bs <? 4)%nat then None else Some (Z.to_nat (be_value (take 4 bs)), drop 4 bs).

Fixpoint read_elements {A} (dec : list Z -> option A) (size : option nat) (n : nat) (bs : list Z)
  : option (list A * list Z) :=
  match n with
  | O => Some ([], bs)
  | S n =>
      '(size', bs) ← match size with
                     | Some size => Some (size, bs)
                     | None => '(z, bs) ← unsigned_vint_decode bs; Some (Z.to_nat z, bs)
                     end;
      if (length bs <? size')%nat then None
      else
        a ← dec (take size' bs);
        '(l, bs) ← read_elements dec size n (drop size' bs); Some (a :: l, bs)
  end.

Section DecodeList.
Context (dec : wtype -> list Z -> option wire).

Fixpoint read_fields (ts : list wtype) (bs : list Z) : option (list (option wire) * list Z) :=
  match ts with
  | [] => Some ([], bs)
  | t :: ts =>
      '(c, bs) ← read_cell bs;
      o ← match c with None => Some None | Some c => Some <$> dec t c end;
      '(l, bs) ← read_fields ts bs; Some (o :: l, bs)
  end.

Fixpoint read_pairs (k v : wtype) (n : nat) (bs : list Z) : option (list (wire * wire) * list Z) :=
  match n with
  | O => Some ([], bs)
  | S n =>
      '(c, bs) ← read_cell bs; c ← c; a ← dec k c;
      '(c, bs) ← read_cell bs; c ← c; b ← dec v c;
      '(l, bs) ← read_pairs k v n bs; Some ((a, b) :: l, bs)
  end.
End DecodeList.

Fixpoint decode (t : wtype) (bs : list Z) : option wire :=
  match t with
  | TNative (Some n) => if (length bs =? n)%nat then Some (WNative bs) else None
  | TNative None => Some (WNative bs)
  | TSeq t => '(n, bs) ← read_count bs; WSeq <$> complete (read_cells (decode t) n bs)
  | TMap k v => '(n, bs) ← read_count bs; WMap <$> complete (read_pairs decode k v n bs)
  | TTuple ts => WTuple <$> complete (read_fields decode ts bs)
  | TVec n variable t =>
      WVec variable <$> complete
        (read_elements (decode t) (if variable then None else fixed_size t) n bs)
  end.

(** ** Well-formed wire values *)

Definition small (bs : list Z) : Prop := Z.of_nat (length bs) < 2 ^ 31.

(** Sizes and element counts fit the [i32] fields of the protocol. *)
Fixpoint all_small (w : wire) : Prop :=
  small (encode w) /\
  match w with
  | WNative _ => True
  | WSeq l => Z.of_nat (length l) < 2 ^ 31 /\ fold_right (fun x P => all_small x /\ P) True l
  | WMap l =>
      Z.of_nat (length l) < 2 ^ 31 /\
      fold_right (fun p P => (all_small p.1 /\ all_small p.2) /\ P) True l
  | WTuple l =>
      fold_right (fun o P => match o with Some x => all_small x | None => True end /\ P) True l
  | WVec _ l => fold_right (fun x P => all_small x /\ P) True l
  end.

Section HasTypes.
Context (has_type : wtype -> wire -> Prop).
Fixpoint has_types (ts : list wtype) (l : list (option wire)) : Prop :=
  match ts, l with
  | [], [] => True
  | t :: ts, o :: l => match o with Some w => has_type t w | None => True end /\ has_types ts l
  | _, _ => False
  end.
End HasTypes.

Fixpoint has_type (t : wtype) (w : wire) : Prop :=
  match t, w with
  | TNative (Some n), WNative bs => length bs = n
  | TNative None, WNative _ => True
  | TSeq t, WSeq l => Forall (has_type t) l
  | TMap k v, WMap l => Forall (fun p => has_type k p.1 /\ has_type v p.2) l
  | TTuple ts, WTuple l => has_types has_type ts l
  | TVec n variable t, WVec variable' l =>
      variable' = variable /\ length l = n /\ Forall (has_type t) l /\
      (variable = false -> fixed_size t <> None)
  | _, _ => False
  end.

(** ** Lemmas: decoding *)

Lemma fold_Forall {A} (P : A -> Prop) (l : list A) :
  fold_right (fun x Q => P x /\ Q) True l <-> Forall P l.
Proof. induction l as [|x l IH]; simpl; [split; auto|]. by rewrite IH, Forall_cons. Qed.

Lemma wtype_induction (P : wtype -> Prop) :
  (forall s, P (TNative s)) -> (forall t, P t -> P (TSeq t)) ->
  (forall k v, P k -> P v -> P (TMap k v)) -> (forall ts, Forall P ts -> P (TTuple ts)) ->
  (forall n b t, P t -> P (TVec n b t)) -> forall t, P t.
Proof.
  intros H1 H2 H3 H4 H5. fix IH 1. intros [s|t|k v|ts|n b t]; [apply H1|by apply H2|by apply H3| |by apply H5].
  apply H4. induction ts; constructor; auto.
Qed.

Lemma size_bytes n : (Z.of_nat n < 2 ^ 32) -> be_value (be_bytes 4 (Z.of_nat n)) = Z.of_nat n.
Proof. intros Hn. apply be_value_bytes_id. change (256 ^ Z.of_nat 4) with (2 ^ 32). lia. Qed.

Lemma read_cell_cell bs rest : small bs -> read_cell (cell bs ++ rest) = Some (Some bs, rest).
Proof.
  unfold small, read_cell, cell. intros Hs. rewrite <- app_assoc.
  rewrite length_app, length_be_bytes. destruct (Nat.ltb_spec (4 + length (bs ++ rest)) 4); [lia|].
  rewrite take_app_length', drop_app_length' by by rewrite length_be_bytes.
  rewrite size_bytes by lia. destruct (Z.leb_spec (2 ^ 31) (Z.of_nat (length bs))); [lia|].
  rewrite Nat2Z.id, length_app. destruct (Nat.ltb_spec (length bs + length rest) (length bs)); [lia|].
  by rewrite take_app_length, drop_app_length.
Qed.

Lemma read_cell_null rest : read_cell (null_cell ++ rest) = Some (None, rest).
Proof. reflexivity. Qed.

Lemma read_count_app n rest : Z.of_nat n < 2 ^ 31 ->
  read_count (be_bytes 4 (Z.of_nat n) ++ rest) = Some (n, rest).
Proof.
  intros Hn. unfold read_count. rewrite length_app, length_be_bytes.
  destruct (Nat.ltb_spec (4 + length rest) 4); [lia|].
  rewrite take_app_length', drop_app_length' by by rewrite length_be_bytes.
  by rewrite size_bytes, Nat2Z.id by lia.
Qed.

Lemma read_cells_encode dec l rest :
  Forall (fun w => small (encode w) /\ dec (encode w) = Some w) l ->
  read_cells dec (length l) (concat (map (fun x => cell (encode x)) l) ++ rest) = Some (l, rest).
Proof.
  induction 1 as [|w l [Hs Hd] Hl IH]; [done|]. cbn [map concat length read_cells].
  rewrite <- app_assoc, read_cell_cell by done. cbn [mbind option_bind]. rewrite Hd.
  cbn [mbind option_bind]. by rewrite IH.
Qed.

Lemma read_pairs_encode dec k v l rest :
  Forall (fun p => (small (encode p.1) /\ dec k (encode p.1) = Some p.1) /\
                   (small (encode p.2) /\ dec v (encode p.2) = Some p.2)) l ->
  read_pairs dec k v (length l)
    (concat (map (fun p => cell (encode p.1) ++ cell (encode p.2)) l) ++ rest) = Some (l, rest).
Proof.
  induction 1 as [|[a b] l [[Hs Hd] [Hs' Hd']] Hl IH]; [done|].
  cbn [map concat length read_pairs fst snd] in *.
  rewrite <- !app_assoc, read_cell_cell by done. cbn [mbind option_bind]. rewrite Hd.
  cbn [mbind option_bind]. rewrite read_cell_cell by done. cbn [mbind option_bind]. rewrite Hd'.
  cbn [mbind option_bind]. by rewrite IH.
Qed.

Lemma read_fields_encode dec ts l rest :
  has_types (fun t w => small (encode w) /\ dec t (encode w) = Some w) ts l ->
  read_fields dec ts
    (concat (map (fun o => match o with Some x => cell (encode x) | None => null_cell end) l) ++ rest)
  = Some (l, rest).
Proof.
  revert l. induction ts as [|t ts IH]; intros [|o l] Ho; try done.
  cbn [has_types] in Ho. destruct Ho as [Ho Hl]. cbn [map concat read_fields].
  destruct o as [w|]; rewrite <- app_assoc.
  - destruct Ho as [Hs Hd]. rewrite read_cell_cell by done. cbn [mbind option_bind].
    rewrite Hd. cbn. by rewrite IH.
  - rewrite read_cell_null. cbn [mbind option_bind]. by rewrite IH.
Qed.

Lemma read_elements_variable dec l rest :
  Forall (fun w => small (encode w) /\ dec (encode w) = Some w) l ->
  read_elements dec None (length l)
    (concat (map (fun x => unsigned_vint_encode (Z.of_nat (length (encode x))) ++ encode x) l) ++ rest)
  = Some (l, rest).
Proof.
  unfold small. induction 1 as [|w l [Hs Hd] Hl IH]; [done|]. cbn [map concat length read_elements].
  rewrite <- !app_assoc. rewrite vint_roundtrip by (unfold in_u; lia). cbn [mbind option_bind].
  rewrite Nat2Z.id, length_app. rewrite (proj2 (Nat.ltb_ge _ _)) by lia.
  rewrite take_app_length, drop_app_length, Hd. cbn [mbind option_bind]. by rewrite IH.
Qed.

Lemma read_elements_fixed dec size l rest :
  Forall (fun w => length (encode w) = size /\ dec (encode w) = Some w) l ->
  read_elements dec (Some size) (length l) (concat (map encode l) ++ rest) = Some (l, rest).
Proof.
  induction 1 as [|w l [Hs Hd] Hl IH]; [done|]. cbn [map concat length read_elements].
  rewrite <- !app_assoc. cbn [mbind option_bind].
  rewrite length_app. rewrite (proj2 (Nat.ltb_ge _ _)) by lia.
  rewrite take_app_length', drop_app_length', Hd by done. cbn [mbind option_bind]. by rewrite IH.
Qed.

Lemma all_small_inv w : all_small w -> small (encode w).
Proof. by destruct w; intros [? _]. Qed.

Lemma fixed_size_encode t w n :
  has_type t w -> fixed_size t = Some n -> length (encode w) = n.
Proof.
  revert w n. induction t as [s|t IH|k v IHk IHv|ts IH|m b t IH] using wtype_induction;
    intros w n Ht Hn; simpl in Hn; try done.
  - subst s. by destruct w.
  - destruct b; [done|]. destruct (fixed_size t) as [size|] eqn:E; simplify_eq/=.
    destruct w as [|l|l|l|b l]; try done. destruct Ht as (-> & <- & Hl & _).
    induction Hl as [|w l Hw Hl IHl]; [done|]. cbn [encode map concat] in *. rewrite length_app.
    rewrite (IH w size) by done. simpl. lia.
Qed.

Lemma decode_encode t w : has_type t w -> all_small w -> decode t (encode w) = Some w.
Proof.
  revert w. induction t as [s|t IH|k v IHk IHv|ts IH|m b t IH] using wtype_induction; intros w Ht Hs.
  - destruct s as [n|]; destruct w; try done. simpl in Ht. simpl. by rewrite Ht, Nat.eqb_refl.
  - destruct w as [|l|l|l|b l]; try done. destruct Hs as (_ & Hn & Hl). rewrite fold_Forall in Hl.
    cbn [decode encode]. rewrite read_count_app by done. cbn [mbind option_bind].
    rewrite <- (app_nil_r (concat _)), read_cells_encode; [done|].
    simpl in Ht. apply Forall_forall. intros x Hx. rewrite Forall_forall in Ht, Hl.
    split; [by apply all_small_inv, Hl|]. apply IH; auto.
  - destruct w as [|l|l|l|b l]; try done. destruct Hs as (_ & Hn & Hl). rewrite fold_Forall in Hl.
    cbn [decode encode]. rewrite read_count_app by done. cbn [mbind option_bind].
    rewrite <- (app_nil_r (concat _)), read_pairs_encode; [done|].
    simpl in Ht. apply Forall_forall. intros [x y] Hx. rewrite Forall_forall in Ht, Hl.
    destruct (Ht _ Hx), (Hl _ Hx). simpl in *.
    split; (split; [by apply all_small_inv|auto]).
  - destruct w as [|l|l|l|b l]; try done. destruct Hs as (_ & Hl). rewrite fold_Forall in Hl.
    cbn [decode encode]. rewrite <- (app_nil_r (concat _)), read_fields_encode; [done|].
    simpl in Ht. revert l Ht Hl. induction IH as [|t ts Ht0 IH IHts]; intros [|o l] Ht Hl; try done.
    cbn [has_types] in *. destruct Ht as [Ho Ht]. apply Forall_cons in Hl as [Hs Hl].
    split; [|by apply IHts]. destruct o as [w|]; [|done]. split; [by apply all_small_inv|auto].
  - destruct w as [|l|l|l|b' l]; try done. destruct Ht as (-> & <- & Ht & Hfix).
    destruct Hs as (_ & Hl). rewrite fold_Forall in Hl. rewrite Forall_forall in Ht, Hl.
    cbn [decode encode]. rewrite <- (app_nil_r (concat _)). destruct b.
    + rewrite read_elements_variable; [done|]. apply Forall_forall. intros x Hx.
      split; [by apply all_small_inv, Hl|]. apply IH; auto.
    + destruct (fixed_size t) as [size|] eqn:E; [|by destruct Hfix].
      change (fun x => encode x) with encode. rewrite read_elements_fixed; [done|].
      apply Forall_forall. intros x Hx. split; [|apply IH; auto].
      by apply (fixed_size_encode t); auto.
Qed.

(** ** Values and their wire form *)

Definition is_native {R} (v : CassCqlValue R) : bool :=
  match v with
  | Tuple _ _ | ListVal _ _ | MapVal _ _ | SetVal _ _ | Vector _ _ _ | UserDefinedType _ _ => false
  | _ => true
  end.

Definition wrap (with_size : bool) (bs : list Z) : list Z := if with_size then cell bs else bs.

(** What the Rust driver documents: native values are written as the bytes [raw],
    a writer with size puts an [i32] in front, sizes beyond an [i32] are refused,
    and null is the size -1. *)
Record writers_ok {R} (W : Writers R) (raw : CassCqlValue R -> list Z) : Prop := {
  native_ok : forall ws v, is_native v = true -> small (raw v) -> native W ws v = Ok (wrap ws (raw v));
  finish_ok : forall ws bs, small bs -> finish W ws bs = Ok (wrap ws bs);
  finish_err : forall ws bs, ~ small bs -> finish W ws bs = Err SizeOverflow;
  null_ok : set_null W = null_cell
}.

Section Erase.
Context {R : Type} `{DataTypes R} (raw : CassCqlValue R -> list Z).

(** The wire form of a value; [None] if a vector element is not set. *)
Fixpoint erase (v : CassCqlValue R) : option wire :=
  match v with
  | Tuple _ fields =>
      WTuple <$> mapM (fun o => match o with None => Some None | Some x => Some <$> erase x end) fields
  | ListVal _ values | SetVal _ values => WSeq <$> mapM erase values
  | MapVal _ values =>
      WMap <$> mapM (fun p => a ← erase p.1; b ← erase p.2; Some (a, b)) values
  | Vector _ element_type values =>
      match variable_in_vector element_type with
      | Ret variable =>
          WVec variable <$> mapM (fun o => match o with Some x => erase x | None => None end) values
      | _ => None
      end
  | UserDefinedType _ fields =>
      WTuple <$> mapM (fun f => match f.2 with None => Some None | Some x => Some <$> erase x end) fields
  | _ => Some (WNative (raw v))
  end.

End Erase.

Lemma value_induction {R} (P : CassCqlValue R -> Prop) :
  (forall v, is_native v = true -> P v) ->
  (forall dt fields, Forall (fun o => match o with Some x => P x | None => True end) fields ->
     P (Tuple dt fields)) ->
  (forall dt l, Forall P l -> P (ListVal dt l)) -> (forall dt l, Forall P l -> P (SetVal dt l)) ->
  (forall dt l, Forall (fun p => P p.1 /\ P p.2) l -> P (MapVal dt l)) ->
  (forall dt et l, Forall (fun o => match o with Some x => P x | None => True end) l ->
     P (Vector dt et l)) ->
  (forall dt l, Forall (fun f => match f.2 with Some x => P x | None => True end) l ->
     P (UserDefinedType dt l)) ->
  forall v, P v.
Proof.
  intros Hn Ht Hl Hs Hm Hv Hu. fix IH 1. intros v.
  destruct v as [| | | | | | | | | | | | | |dt l|dt l|dt l|dt l|dt et l|dt l];
    try (by apply Hn); [apply Ht|apply Hl|apply Hm|apply Hs|apply Hv|apply Hu];
    induction l as [|x l IHl]; constructor; auto.
  - destruct x; [apply IH|done].
  - destruct x as [x|]; [apply IH|done].
  - destruct x as [n [x|]]; [apply IH|done].
Qed.

Section Refinement.
Context {R : Type} `{DataTypes R} (W : Writers R) (raw : CassCqlValue R -> list Z).
Context (HW : writers_ok W raw).

(** One value written as the protocol says. *)
Definition writes (v : CassCqlValue R) : Prop :=
  forall w ws, erase raw v = Some w -> all_small w -> do_serialize W ws v = ok (wrap ws (encode w)).

Lemma element_count_small n : Z.of_nat n < 2 ^ 31 -> element_count n = ok (be_bytes 4 (Z.of_nat n)).
Proof.
  intros Hn. unfold element_count, try_i. change (32 - 1) with 31.
  destruct (Z.leb_spec (- 2 ^ 31) (Z.of_nat n)); [|lia].
  destruct (Z.ltb_spec (Z.of_nat n) (2 ^ 31)); [|lia]. cbn [andb]. unfold wrap_u.
  rewrite Z.mod_small by lia. done.
Qed.

Lemma finish_small ws bs : small bs -> with_size_finish W ws bs = ok (wrap ws bs).
Proof. intros Hs. unfold with_size_finish. by rewrite (finish_ok _ _ HW). Qed.

Lemma field_writes e o x :
  match o with Some v => writes v | None => True end ->
  match o with None => Some None | Some v => Some <$> erase raw v end = Some x ->
  match x with Some w => all_small w | None => True end ->
  serialize_field W (do_serialize W) e o
  = ok (match x with Some w => cell (encode w) | None => null_cell end).
Proof.
  destruct o as [v|]; simpl; intros Hv He Hs; [|simplify_eq; by rewrite (null_ok _ _ HW)].
  destruct (erase raw v) as [w|] eqn:E; simplify_eq/=. by rewrite (Hv w true).
Qed.

Lemma tuple_loop_writes i fields l :
  Forall (fun o => match o with Some x => writes x | None => True end) fields ->
  mapM (fun o => match o with None => Some None | Some x => Some <$> erase raw x end) fields = Some l ->
  Forall (fun o => match o with Some w => all_small w | None => True end) l ->
  tuple_loop W (do_serialize W) i fields = ok
    (concat (map (fun o => match o with Some x => cell (encode x) | None => null_cell end) l)).
Proof.
  intros Hf Hl%mapM_Some Hs. revert i. induction Hl as [|o x fields l Ho Hl IH]; intros i; [done|].
  apply Forall_cons in Hf as [Hv Hf]. apply Forall_cons in Hs as [Hx Hs]. cbn [tuple_loop map concat].
  rewrite (field_writes _ o x) by done. simpl. by rewrite IH.
Qed.

Lemma udt_loop_writes fields l :
  Forall (fun f => match f.2 with Some x => writes x | None => True end) fields ->
  mapM (fun f => match f.2 with None => Some None | Some x => Some <$> erase raw x end) fields = Some l ->
  Forall (fun o => match o with Some w => all_small w | None => True end) l ->
  udt_loop W (do_serialize W) fields = ok
    (concat (map (fun o => match o with Some x => cell (encode x) | None => null_cell end) l)).
Proof.
  intros Hf Hl%mapM_Some Hs. induction Hl as [|[n o] x fields l Ho Hl IH]; [done|].
  apply Forall_cons in Hf as [Hv Hf]. apply Forall_cons in Hs as [Hx Hs]. cbn [udt_loop map concat].
  rewrite (field_writes _ o x) by done. simpl. by rewrite IH.
Qed.

Lemma sequence_loop_writes values l :
  Forall writes values -> mapM (erase raw) values = Some l -> Forall all_small l ->
  sequence_loop (do_serialize W) values = ok (concat (map (fun x => cell (encode x)) l)).
Proof.
  intros Hf Hl%mapM_Some Hs. induction Hl as [|v w values l Ho Hl IH]; [done|].
  apply Forall_cons in Hf as [Hv Hf]. apply Forall_cons in Hs as [Hx Hs].
  cbn [sequence_loop map concat]. rewrite (Hv w true) by done. simpl. by rewrite IH.
Qed.

Lemma mapping_loop_writes values l :
  Forall (fun p => writes p.1 /\ writes p.2) values ->
  mapM (fun p => a ← erase raw p.1; b ← erase raw p.2; Some (a, b)) values = Some l ->
  Forall (fun p => all_small p.1 /\ all_small p.2) l ->
  mapping_loop (do_serialize W) values
  = ok (concat (map (fun p => cell (encode p.1) ++ cell (encode p.2)) l)).
Proof.
  intros Hf Hl%mapM_Some Hs. induction Hl as [|[k v] [a b] values l Ho Hl IH]; [done|].
  apply Forall_cons in Hf as [[Hk Hv] Hf]. apply Forall_cons in Hs as [[Ha Hb] Hs]. simpl in *.
  destruct (erase raw k) as [a'|] eqn:Ek; simplify_eq/=.
  destruct (erase raw v) as [b'|] eqn:Ev; simplify_eq/=.
  rewrite (Hk a true), (Hv b true) by done. simpl. rewrite IH by done. simpl. by rewrite <- app_assoc.
Qed.

Lemma vector_loop_writes variable i values l :
  Forall (fun o => match o with Some x => writes x | None => True end) values ->
  mapM (fun o => match o with Some x => erase raw x | None => None end) values = Some l ->
  Forall all_small l ->
  vector_loop (do_serialize W) variable i values
  = ok (concat (map (fun x =>
        if variable then unsigned_vint_encode (Z.of_nat (length (encode x))) ++ encode x
        else encode x) l)).
Proof.
  intros Hf Hl%mapM_Some Hs. revert i. induction Hl as [|o w values l Ho Hl IH]; intros i; [done|].
  apply Forall_cons in Hf as [Hv Hf]. apply Forall_cons in Hs as [Hx Hs].
  destruct o as [v|]; [|done]. cbn [vector_loop map concat]. rewrite (Hv w false) by done. simpl.
  by rewrite IH.
Qed.

Lemma serialize_writes v : writes v.
Proof.
  induction v as [v Hn|dt l IH|dt l IH|dt l IH|dt l IH|dt et l IH|dt l IH] using value_induction;
    intros w ws He Hs.
  - assert (w = WNative (raw v)) as -> by (destruct v; simplify_eq/=; done).
    destruct Hs as [Hs _]. simpl in *.
    replace (do_serialize W ws v) with (Ret (native W ws v)) by by destruct v.
    by rewrite (native_ok _ _ HW).
  - simpl in He. destruct (mapM _ l) as [l'|] eqn:E; simplify_eq/=. destruct Hs as [Hs Hl].
    rewrite fold_Forall in Hl. unfold serialize_tuple_like.
    rewrite (tuple_loop_writes 0 l l') by done. cbn [ser_bind ok]. by apply finish_small.
  - simpl in He. destruct (mapM _ l) as [l'|] eqn:E; simplify_eq/=. destruct Hs as (Hs & Hn & Hl).
    rewrite fold_Forall in Hl. unfold serialize_sequence.
    assert (length l = length l') as -> by (by eapply Forall2_length, mapM_Some, E).
    rewrite element_count_small by done. cbn [ser_bind ok].
    rewrite (sequence_loop_writes l l') by done. cbn [ser_bind ok]. by apply finish_small.
  - simpl in He. destruct (mapM _ l) as [l'|] eqn:E; simplify_eq/=. destruct Hs as (Hs & Hn & Hl).
    rewrite fold_Forall in Hl. unfold serialize_sequence.
    assert (length l = length l') as -> by (by eapply Forall2_length, mapM_Some, E).
    rewrite element_count_small by done. cbn [ser_bind ok].
    rewrite (sequence_loop_writes l l') by done. cbn [ser_bind ok]. by apply finish_small.
  - simpl in He. destruct (mapM _ l) as [l'|] eqn:E; simplify_eq/=. destruct Hs as (Hs & Hn & Hl).
    rewrite fold_Forall in Hl. unfold serialize_mapping.
    assert (length l = length l') as -> by (by eapply Forall2_length, mapM_Some, E).
    rewrite element_count_small by done. cbn [ser_bind ok].
    rewrite (mapping_loop_writes l l') by done. cbn [ser_bind ok]. by apply finish_small.
  - simpl in He. unfold do_serialize; fold (do_serialize W). unfold serialize_vector.
    destruct (variable_in_vector et) as [b| |]; [|done..].
    destruct (mapM _ l) as [l'|] eqn:E; simplify_eq/=. destruct Hs as [Hs Hl].
    rewrite fold_Forall in Hl. rewrite (vector_loop_writes b 0 l l') by done.
    cbn [ser_bind ok]. by apply finish_small.
  - simpl in He. destruct (mapM _ l) as [l'|] eqn:E; simplify_eq/=. destruct Hs as [Hs Hl].
    rewrite fold_Forall in Hl. unfold serialize_udt.
    rewrite (udt_loop_writes l l') by done. cbn [ser_bind ok]. by apply finish_small.
Qed.

End Refinement.

(** ** Properties *)

(** C15: serialization is correct on the wire.  For writers that behave as the Rust
    driver documents, a value whose vectors are completely set is written without
    error, and the type-directed decoder of the protocol reads back exactly its
    native values, with the nesting, the order, the nulls and the vector lengths;
    with a size prefix the same bytes are one protocol cell. *)
Theorem serialize_roundtrip {R : Type} `{DataTypes R} (W : Writers R)
    (raw : CassCqlValue R -> list Z) (v : CassCqlValue R) (w : wire) (t : wtype) :
  writers_ok W raw ->
  erase raw v = Some w -> has_type t w -> all_small w ->
  exists bytes,
    do_serialize W false v = Ret (Ok bytes) /\
    do_serialize W true v = Ret (Ok (cell bytes)) /\
    decode t bytes = Some w.
Proof.
  intros HW He Ht Hs. exists (encode w).
  rewrite (serialize_writes W raw HW v w false), (serialize_writes W raw HW v w true) by done.
  split_and!; [done..|by apply decode_encode].
Qed.

(** Native values for the examples: integers and blobs. *)
Definition sample_raw {R} (v : CassCqlValue R) : list Z :=
  match v with
  | Int n => be_bytes 4 (wrap_u 32 n)
  | Blob bs => bs
  | _ => []
  end.

Definition smallb (bs : list Z) : bool := Z.of_nat (length bs) <? 2 ^ 31.

Definition sample_writers {R} : Writers R := {|
  native ws v := if smallb (sample_raw v) then Ok (wrap ws (sample_raw v)) else Err NativeError;
  finish ws bs := if smallb bs then Ok (wrap ws bs) else Err SizeOverflow;
  set_null := null_cell
|}.

Lemma sample_writers_ok {R} : writers_ok (@sample_writers R) sample_raw.
Proof.
  split; unfold sample_writers, smallb, small; simpl; intros; try done;
    (destruct (Z.ltb_spec (Z.of_nat (length (sample_raw v))) (2 ^ 31)) ||
     destruct (Z.ltb_spec (Z.of_nat (length bs)) (2 ^ 31))); done || lia.
Qed.

Definition sample_types : DataTypes dtree :=
  tree_data_types (fun n => match n with NInt => Some 4%nat | _ => None end).

(** A map from an integer to a vector of two blobs. *)
Definition sample_value : CassCqlValue dtree :=
  MapVal None [(Int 7, Vector (Node (DVector (Node (DValue CASS_VALUE_TYPE_BLOB)) 2))
    (Node (DValue CASS_VALUE_TYPE_BLOB)) [Some (Blob [1; 2; 3]); Some (Blob [])])].

Lemma serialize_roundtrip_witness :
  exists bytes,
    @do_serialize dtree sample_types sample_writers false sample_value = Ret (Ok bytes) /\
    decode (TMap (TNative (Some 4%nat)) (TVec 2 true (TNative None))) bytes
    = Some (WMap [(WNative [0; 0; 0; 7], WVec true [WNative [1; 2; 3]; WNative []])]).
Proof.
  destruct (@serialize_roundtrip dtree sample_types sample_writers sample_raw sample_value
    (WMap [(WNative [0; 0; 0; 7], WVec true [WNative [1; 2; 3]; WNative []])])
    (TMap (TNative (Some 4%nat)) (TVec 2 true (TNative None))) sample_writers_ok)
    as (bytes & H1 & _ & H2).
  - reflexivity.
  - repeat constructor. discriminate.
  - repeat constructor; reflexivity.
  - exists bytes. split; [exact H1|exact H2].
Defined.

(** An unset element of a vector never reaches the wire: if the elements
    before it serialize, serialization fails with an error that names the index of
    the first unset element, at whatever index it is. *)
Theorem vector_unset_rejected {R : Type} `{DataTypes R} (W : Writers R) (dt et : R)
    (before : list (CassCqlValue R)) (after : list (option (CassCqlValue R))) (variable ws : bool) :
  variable_in_vector et = Ret variable ->
  Forall (fun v => exists bs, do_serialize W false v = Ret (Ok bs)) before ->
  do_serialize W ws (Vector dt et (map Some before ++ None :: after))
  = Ret (Err (VectorElementFailed (VectorElementNotSet (length before)))).
Proof.
  intros Hv Hb. unfold do_serialize; fold (do_serialize W). unfold serialize_vector. rewrite Hv.
  assert (Hloop : forall i, vector_loop (do_serialize W) variable i (map Some before ++ None :: after)
    = Ret (Err (VectorElementFailed (VectorElementNotSet (i + length before))))).
  { induction Hb as [|v before [bs Hbs] Hb IH]; intros i; simpl; [by rewrite Nat.add_0_r|].
    rewrite Hbs. simpl. rewrite IH. simpl. by rewrite Nat.add_succ_r. }
  by rewrite Hloop.
Qed.

Lemma vector_unset_rejected_witness :
  @do_serialize dtree sample_types sample_writers true
    (Vector (Node (DVector (Node (DValue CASS_VALUE_TYPE_INT)) 3)) (Node (DValue CASS_VALUE_TYPE_INT))
       [Some (Int 1); None; Some (Int 3)])
  = Ret (Err (VectorElementFailed (VectorElementNotSet 1))).
Proof.
  apply (@vector_unset_rejected dtree sample_types sample_writers _ _ [Int 1] [Some (Int 3)] false true).
  - reflexivity.
  - repeat constructor. eexists. reflexivity.
Defined.
