(* ===== verification/Containers.v ===== *)
(** * Collections, tuples, user types and vectors
      (cql_types/collection.rs, tuple.rs, user_type.rs, vector.rs) and the
      conversion of C arguments to values (binding.rs)

    The containers are mutable objects owned by the caller; each operation takes
    the container and returns its new contents.  Data types are used through the
    class [DataTypes] of Value.v. *)

From Stdlib Require Import ZArith Lia.
From stdpp Require Import base list gmap strings.
From S2P Require Import Prelude ArgConv Types DataType Uuid Inet Value.

Open Scope Z_scope.

(** ** Collections *)

Inductive CassCollectionType :=
| CASS_COLLECTION_TYPE_LIST | CASS_COLLECTION_TYPE_MAP | CASS_COLLECTION_TYPE_SET
| CassCollectionType_other (n : Z).

Inductive CollectionType := CtList | CtSet | CtMap.

Definition CollectionType_try_from (value : CassCollectionType) : option CollectionType :=
  match value with
  | CASS_COLLECTION_TYPE_LIST => Some CtList
  | CASS_COLLECTION_TYPE_SET => Some CtSet
  | CASS_COLLECTION_TYPE_MAP => Some CtMap
  | CassCollectionType_other _ => None
  end.

Definition CassCollectionType_from (value : CollectionType) : CassCollectionType :=
  match value with
  | CtList => CASS_COLLECTION_TYPE_LIST
  | CtSet => CASS_COLLECTION_TYPE_SET
  | CtMap => CASS_COLLECTION_TYPE_MAP
  end.

Record CassCollection (R : Type) := mkCollection {
  collection_type : CollectionType;
  collection_data_type : option R;
  collection_items : list (CassCqlValue R)
}.
Arguments mkCollection {R}.
Arguments collection_type {R}.
Arguments collection_data_type {R}.
Arguments collection_items {R}.

(** [as_chunks::<2>]: the pairs and what is left. *)
Fixpoint as_chunks2 {A} (l : list A) : list (A * A) * list A :=
  match l with
  | a :: b :: l => let '(pairs, remainder) := as_chunks2 l in ((a, b) :: pairs, remainder)
  | l => ([], l)
  end.

Section Collections.
Context {R : Type} `{DataTypes R}.

(** [if !is_type_compatible(..) { return INVALID_VALUE_TYPE }]. *)
Definition reject_unless (compatible : outcome bool) : outcome CassError :=
  ok ← compatible; Ret (if (ok : bool) then CASS_OK else CASS_ERROR_LIB_INVALID_VALUE_TYPE).

Definition typecheck_on_append (self : CassCollection R) (value : option (CassCqlValue R))
  : outcome CassError :=
  let index := length (collection_items self) in
  match collection_data_type self with
  | None => Ret CASS_OK
  | Some dt =>
      data_type ← get_unchecked dt;
      match data_type with
      | DList subtype _ | DSet subtype _ =>
          match subtype with
          | Some subtype => reject_unless (is_type_compatible value subtype)
          | None => Ret CASS_OK
          end
      | DMap (Key k_typ) _ =>
          if Nat.even index then reject_unless (is_type_compatible value k_typ) else Ret CASS_OK
      | DMap (KeyAndValue k_typ v_typ) _ =>
          if Nat.even index then reject_unless (is_type_compatible value k_typ)
          else reject_unless (is_type_compatible value v_typ)
      | DMap Untyped _ => Ret CASS_OK
      | _ => Ret CASS_ERROR_LIB_INVALID_VALUE_TYPE
      end
  end.

(** [Panic] is the [unwrap] of a null value. *)
Definition append_cql_value (self : CassCollection R) (value : option (CassCqlValue R))
  : outcome (CassError * CassCollection R) :=
  err ← typecheck_on_append self value;
  if bool_decide (err = CASS_OK) then
    match value with
    | Some value =>
        Ret (CASS_OK, mkCollection (collection_type self) (collection_data_type self)
                        (collection_items self ++ [value]))
    | None => Panic
    end
  else Ret (err, self).

(** [TryFrom<&CassCollection> for CassCqlValue]. *)
Definition collection_to_value (collection : CassCollection R) : result CassError (CassCqlValue R) :=
  let data_type := collection_data_type collection in
  match collection_type collection with
  | CtList => Ok (ListVal data_type (collection_items collection))
  | CtMap =>
      let '(pairs, remainder) := as_chunks2 (collection_items collection) in
      match remainder with
      | [] => Ok (MapVal data_type pairs)
      | _ => Err CASS_ERROR_LIB_INVALID_ITEM_COUNT
      end
  | CtSet => Ok (SetVal data_type (collection_items collection))
  end.

(** The capacity is only a reservation, but [item_count * 2] is computed first. *)
Definition cass_collection_new (checks : bool) (ty : CassCollectionType) (item_count : Z)
  : outcome (option (CassCollection R)) :=
  _ ← match ty with
      | CASS_COLLECTION_TYPE_MAP => arith_u checks 64 (item_count * 2)
      | _ => Ret item_count
      end;
  Ret ((fun ct => mkCollection ct None []) <$> CollectionType_try_from ty).

Definition cass_collection_new_from_data_type (checks : bool) (data_type : option R) (item_count : Z)
  : outcome (option (CassCollection R)) :=
  match data_type with
  | None => Ret None
  | Some dt =>
      inner ← get_unchecked dt;
      match inner with
      | DList _ _ => Ret (Some (mkCollection CtList (Some dt) []))
      | DSet _ _ => Ret (Some (mkCollection CtSet (Some dt) []))
      | DMap _ _ =>
          _ ← arith_u checks 64 (item_count * 2); Ret (Some (mkCollection CtMap (Some dt) []))
      | _ => Ret None
      end
  end.

(** ** Tuples *)

End Collections.

Record CassTuple (R : Type) := mkTuple {
  tuple_data_type : option R;
  tuple_items : list (option (CassCqlValue R))
}.
Arguments mkTuple {R}.
Arguments tuple_data_type {R}.
Arguments tuple_items {R}.

(** ** User types *)

Record CassUserType (R : Type) := mkUserType {
  user_data_type : R;
  field_values : list (option (CassCqlValue R))
}.
Arguments mkUserType {R}.
Arguments user_data_type {R}.
Arguments field_values {R}.

(** ** Vectors *)

Record CassVector (R : Type) := mkVector {
  vector_data_type : R;
  element_type : R;
  vector_items : list (option (CassCqlValue R))
}.
Arguments mkVector {R}.
Arguments vector_data_type {R}.
Arguments element_type {R}.
Arguments vector_items {R}.

Section Indexed.
Context {R : Type} `{DataTypes R}.

(** [CassTuple::get_types]; [Panic] is its [unreachable!]. *)
Definition get_types (self : CassTuple R) : outcome (option (list R)) :=
  match tuple_data_type self with
  | Some t => inner ← get_unchecked t; match inner with DTuple v => Ret (Some v) | _ => Panic end
  | None => Ret None
  end.

(** [CassTuple::bind_value]; indexing [inner_types] out of range panics. *)
Definition tuple_bind_value (self : CassTuple R) (index : nat) (v : option (CassCqlValue R))
  : outcome (CassError * CassTuple R) :=
  if (length (tuple_items self) <=? index)%nat then Ret (CASS_ERROR_LIB_INDEX_OUT_OF_BOUNDS, self)
  else
    types ← get_types self;
    compatible ← match types with
                 | Some inner_types =>
                     match inner_types !! index with
                     | Some t => is_type_compatible v t
                     | None => Panic
                     end
                 | None => Ret true
                 end;
    if (compatible : bool) then
      Ret (CASS_OK, mkTuple (tuple_data_type self) (<[index := v]> (tuple_items self)))
    else Ret (CASS_ERROR_LIB_INVALID_VALUE_TYPE, self).

Definition tuple_to_value (tuple : CassTuple R) : CassCqlValue R :=
  Tuple (tuple_data_type tuple) (tuple_items tuple).

Definition cass_tuple_new (item_count : nat) : CassTuple R := mkTuple None (replicate item_count None).

Definition cass_tuple_new_from_data_type (data_type : option R) : outcome (option (CassTuple R)) :=
  match data_type with
  | None => Ret None
  | Some dt =>
      inner ← get_unchecked dt;
      match inner with
      | DTuple v => Ret (Some (mkTuple (Some dt) (replicate (length v) None)))
      | _ => Ret None
      end
  end.

(** [get_udt_type] of a data type; it panics on anything but a user type. *)
Definition get_udt_type (dt : R) : outcome (UdtDataType R) :=
  inner ← get_unchecked dt; match inner with DUdt u => Ret u | _ => Panic end.

Definition set_field_by_index (self : CassUserType R) (index : nat)
    (value : option (CassCqlValue R)) : outcome (CassError * CassUserType R) :=
  if (length (field_values self) <=? index)%nat then Ret (CASS_ERROR_LIB_INDEX_OUT_OF_BOUNDS, self)
  else
    udt ← get_udt_type (user_data_type self);
    match field_types udt !! index with
    | None => Panic
    | Some (_, field_type) =>
        compatible ← is_type_compatible value field_type;
        if (compatible : bool) then
          Ret (CASS_OK, mkUserType (user_data_type self) (<[index := value]> (field_values self)))
        else Ret (CASS_ERROR_LIB_INVALID_VALUE_TYPE, self)
    end.

(** The loop of [set_field_by_name]: every field of the name is set in turn, and an
    error leaves the ones already set. *)
Fixpoint set_by_name_loop (name : string) (value : option (CassCqlValue R)) (index : nat)
    (fields : list (string * R)) (found : bool) (values : list (option (CassCqlValue R)))
  : outcome (CassError * list (option (CassCqlValue R))) :=
  match fields with
  | [] => Ret (if found then CASS_OK else CASS_ERROR_LIB_NAME_DOES_NOT_EXIST, values)
  | (field_name, field_type) :: fields =>
      if bool_decide (field_name = name) then
        if (length values <=? index)%nat then Ret (CASS_ERROR_LIB_INDEX_OUT_OF_BOUNDS, values)
        else
          compatible ← is_type_compatible value field_type;
          if (compatible : bool)
          then set_by_name_loop name value (S index) fields true (<[index := value]> values)
          else Ret (CASS_ERROR_LIB_INVALID_VALUE_TYPE, values)
      else set_by_name_loop name value (S index) fields found values
  end.

Definition set_field_by_name (self : CassUserType R) (name : string)
    (value : option (CassCqlValue R)) : outcome (CassError * CassUserType R) :=
  udt ← get_udt_type (user_data_type self);
  '(err, values) ← set_by_name_loop name value 0 (field_types udt) false (field_values self);
  Ret (err, mkUserType (user_data_type self) values).

Definition user_type_to_value (user_type : CassUserType R) : outcome (CassCqlValue R) :=
  udt ← get_udt_type (user_data_type user_type);
  Ret (UserDefinedType (user_data_type user_type)
    (map (fun p => (p.2.1, p.1)) (zip (field_values user_type) (field_types udt)))).

Definition cass_user_type_new_from_data_type (data_type : option R)
  : outcome (option (CassUserType R)) :=
  match data_type with
  | None => Ret None
  | Some dt =>
      inner ← get_unchecked dt;
      match inner with
      | DUdt udt => Ret (Some (mkUserType dt (replicate (length (field_types udt)) None)))
      | _ => Ret None
      end
  end.

(** [CassVector::bind_value]. *)
Definition vector_bind_value (self : CassVector R) (index : nat) (v : CassCqlValue R)
  : outcome (CassError * CassVector R) :=
  if (length (vector_items self) <=? index)%nat then Ret (CASS_ERROR_LIB_INDEX_OUT_OF_BOUNDS, self)
  else
    compatible ← value_is_type_compatible v (element_type self);
    if (compatible : bool) then
      Ret (CASS_OK, mkVector (vector_data_type self) (element_type self)
                      (<[index := Some v]> (vector_items self)))
    else Ret (CASS_ERROR_LIB_INVALID_VALUE_TYPE, self).

Definition vector_to_value (vector : CassVector R) : CassCqlValue R :=
  Vector (vector_data_type vector) (element_type vector) (vector_items vector).

Definition cass_vector_new_from_data_type (data_type : option R) : outcome (option (CassVector R)) :=
  match data_type with
  | None => Ret None
  | Some dt =>
      inner ← get_unchecked dt;
      match inner with
      | DVector typ dimensions =>
          Ret (Some (mkVector dt typ (replicate (Z.to_nat dimensions) None)))
      | _ => Ret None
      end
  end.

End Indexed.

(** [cass_vector_new] builds its data types on the heap: the element type, then the
    vector type, whose own handle is freed at the end. *)
Definition cass_vector_new (fixed_size : NativeType -> option nat) (fuel : nat)
    (value_type : CassValueType) (dimensions : Z) (h : heap)
  : outcome (heap * option (CassVector loc)) :=
  let '(h, element_type_ptr) := cass_data_type_new value_type h in
  match element_type_ptr with
  | None => Ret (h, None)
  | Some l =>
      deref h l (fun inner =>
        match inner with
        | DValue _ =>
            '(h, data_type) ← cass_data_type_new_vector fuel (Some l) dimensions h;
            vector ← @cass_vector_new_from_data_type _ (heap_data_types fixed_size fuel h) data_type;
            Ret (h, vector)
        | _ => Ret (h, None)
        end)
  end.

(** ** C arguments (binding.rs)

    One constructor per kind of binder; a byte array is a pointer to memory and a
    size, a container a pointer to the object. *)
Inductive bind_arg (R : Type) :=
| ANull
| AInt8 (v : Z) | AInt16 (v : Z) | AInt32 (v : Z) | AUint32 (v : Z) | AInt64 (v : Z)
| AFloat (bits : Z) | ADouble (bits : Z) | ABool (v : Z)
| AString (v : char_ptr)
| AStringN (v : char_ptr) (n : nat)
| ABytes (v : option (list Z)) (v_size : nat)
| AUuid (v : CassUuid)
| AInet (v : CassInet)
| ADuration (m d n : Z)
| ADecimal (v : option (list Z)) (v_size : nat) (scale : Z)
| ACollection (p : option (CassCollection R))
| ATuple (p : option (CassTuple R))
| AUserType (p : option (CassUserType R))
| AVector (p : option (CassVector R)).
Arguments ANull {R}. Arguments AInt8 {R}. Arguments AInt16 {R}. Arguments AInt32 {R}.
Arguments AUint32 {R}. Arguments AInt64 {R}. Arguments AFloat {R}. Arguments ADouble {R}.
Arguments ABool {R}. Arguments AString {R}. Arguments AStringN {R}. Arguments ABytes {R}.
Arguments AUuid {R}. Arguments AInet {R}. Arguments ADuration {R}. Arguments ADecimal {R}.
Arguments ACollection {R}. Arguments ATuple {R}. Arguments AUserType {R}. Arguments AVector {R}.

Section Binders.
Context {R : Type} `{DataTypes R}.

(** [invoke_binder_maker_macro_with_type]: the conversion of the arguments.
    [Panic] is the [unwrap] of a null container pointer. *)
Definition convert_arg (a : bind_arg R) : outcome (result CassError (option (CassCqlValue R))) :=
  match a with
  | ANull => Ret (Ok None)
  | AInt8 v => Ret (Ok (Some (TinyInt v)))
  | AInt16 v => Ret (Ok (Some (SmallInt v)))
  | AInt32 v => Ret (Ok (Some (Int v)))
  | AUint32 v => Ret (Ok (Some (DateVal v)))
  | AInt64 v => Ret (Ok (Some (BigInt v)))
  | AFloat v => Ret (Ok (Some (Float v)))
  | ADouble v => Ret (Ok (Some (Double v)))
  | ABool v => Ret (Ok (Some (Boolean (negb (v =? 0)))))
  | AString v =>
      Ret match nul_to_str v with
          | Ok s => Ok (Some (Text s))
          | Err NullPointer => Ok (Some (Text EmptyString))
          | Err InvalidUtf8 => Err CASS_ERROR_LIB_BAD_PARAMS
          end
  | AStringN v n =>
      Ret match to_str v n with
          | Ok s => Ok (Some (Text s))
          | Err NullPointer =>
              if (n =? 0)%nat then Ok (Some (Text EmptyString)) else Err CASS_ERROR_LIB_BAD_PARAMS
          | Err InvalidUtf8 => Err CASS_ERROR_LIB_BAD_PARAMS
          end
  | ABytes v v_size =>
      Ret match v with
          | None =>
              if negb (v_size =? 0)%nat then Err CASS_ERROR_LIB_BAD_PARAMS else Ok (Some (Blob []))
          | Some mem => Ok (Some (Blob (take v_size mem)))
          end
  | AUuid v => Ret (Ok (Some (UuidVal (Uuid_from v))))
  | AInet v =>
      Ret match IpAddr_try_from v with
          | Some ip => Ok (Some (InetVal ip))
          | None => Err CASS_ERROR_LIB_INVALID_VALUE_TYPE
          end
  | ADuration m d n => Ret (Ok (Some (DurationVal (mkCqlDuration m d n))))
  | ADecimal v v_size scale =>
      Ret match v with
          | None =>
              if negb (v_size =? 0)%nat then Err CASS_ERROR_LIB_BAD_PARAMS
              else Ok (Some (DecimalVal (mkCqlDecimal [] scale)))
          | Some mem => Ok (Some (DecimalVal (mkCqlDecimal (take v_size mem) scale)))
          end
  | ACollection p =>
      match p with
      | None => Panic
      | Some c => Ret match collection_to_value c with Ok v => Ok (Some v) | Err e => Err e end
      end
  | ATuple p => match p with None => Panic | Some t => Ret (Ok (Some (tuple_to_value t))) end
  | AUserType p =>
      match p with None => Panic | Some u => v ← user_type_to_value u; Ret (Ok (Some v)) end
  | AVector p => match p with None => Panic | Some v => Ret (Ok (Some (vector_to_value v))) end
  end.

Context {T : Type}.

(** [make_index_binder], for a structure [T] and its [consume_v]. *)
Definition index_binder (consume_v : T -> nat -> option (CassCqlValue R) -> outcome (CassError * T))
    (this : option T) (index : nat) (a : bind_arg R) : outcome (CassError * option T) :=
  match this with
  | None => Ret (CASS_ERROR_LIB_BAD_PARAMS, None)
  | Some this =>
      r ← convert_arg a;
      match r with
      | Ok v => '(err, this) ← consume_v this index v; Ret (err, Some this)
      | Err e => Ret (e, Some this)
      end
  end.

(** [make_appender]. *)
Definition appender (consume_v : T -> option (CassCqlValue R) -> outcome (CassError * T))
    (this : option T) (a : bind_arg R) : outcome (CassError * option T) :=
  match this with
  | None => Ret (CASS_ERROR_LIB_BAD_PARAMS, None)
  | Some this =>
      r ← convert_arg a;
      match r with
      | Ok v => '(err, this) ← consume_v this v; Ret (err, Some this)
      | Err e => Ret (e, Some this)
      end
  end.

(** [make_name_n_binder]: the name is checked before the value is converted. *)
Definition name_n_binder (consume_v : T -> string -> option (CassCqlValue R) -> outcome (CassError * T))
    (this : option T) (name : char_ptr) (name_length : nat) (a : bind_arg R)
  : outcome (CassError * option T) :=
  match this with
  | None => Ret (CASS_ERROR_LIB_BAD_PARAMS, None)
  | Some this =>
      match to_str name name_length with
      | Ok name =>
          if bool_decide (name = EmptyString) then Ret (CASS_ERROR_LIB_BAD_PARAMS, Some this)
          else
            r ← convert_arg a;
            match r with
            | Ok v => '(err, this) ← consume_v this name v; Ret (err, Some this)
            | Err e => Ret (e, Some this)
            end
      | Err NullPointer => Ret (CASS_ERROR_LIB_BAD_PARAMS, Some this)
      | Err InvalidUtf8 => Ret (CASS_ERROR_LIB_BAD_PARAMS, Some this)
      end
  end.

(** [make_name_binder]: the same with a NUL-terminated name. *)
Definition name_binder (consume_v : T -> string -> option (CassCqlValue R) -> outcome (CassError * T))
    (this : option T) (name : char_ptr) (a : bind_arg R) : outcome (CassError * option T) :=
  match this with
  | None => Ret (CASS_ERROR_LIB_BAD_PARAMS, None)
  | Some this =>
      match nul_to_str name with
      | Ok name =>
          if bool_decide (name = EmptyString) then Ret (CASS_ERROR_LIB_BAD_PARAMS, Some this)
          else
            r ← convert_arg a;
            match r with
            | Ok v => '(err, this) ← consume_v this name v; Ret (err, Some this)
            | Err e => Ret (e, Some this)
            end
      | Err NullPointer => Ret (CASS_ERROR_LIB_BAD_PARAMS, Some this)
      | Err InvalidUtf8 => Ret (CASS_ERROR_LIB_BAD_PARAMS, Some this)
      end
  end.

End Binders.

Section ContainerBinders.
Context {R : Type} `{DataTypes R}.

Definition cass_collection_append := appender append_cql_value.
Definition cass_tuple_set := index_binder tuple_bind_value.
Definition cass_user_type_set := index_binder set_field_by_index.
Definition cass_user_type_set_by_name_n := name_n_binder set_field_by_name.
Definition cass_user_type_set_by_name := name_binder set_field_by_name.

(** A vector element cannot be null; no setter passes [None]. *)
Definition cass_vector_set := index_binder (fun vector index v =>
  match v with
  | Some v => vector_bind_value vector index v
  | None => Ret (CASS_ERROR_LIB_BAD_PARAMS, vector)
  end).

End ContainerBinders.

(** ** Data types only grow

    How the contents of a data type may change under the calls of the C API. *)
Definition grows (i j : CassDataTypeInner loc) : Prop :=
  match i, j with
  | DValue t, DValue t' => t' = t
  | DUdt u, DUdt u' => field_types u `prefix_of` field_types u'
  | DList o _, DList o' _ | DSet o _, DSet o' _ => o = None \/ o' = o
  | DMap m _, DMap m' _ =>
      match m, m' with
      | Untyped, _ => True
      | Key k, (Key k' | KeyAndValue k' _) => k' = k
      | KeyAndValue k v, KeyAndValue k' v' => k' = k /\ v' = v
      | _, _ => False
      end
  | DTuple l, DTuple l' => l `prefix_of` l'
  | DVector t d, DVector t' d' => t' = t /\ d' = d
  | DCustom _, DCustom _ => True
  | _, _ => False
  end.

Definition heap_grows (h h' : heap) : Prop :=
  forall l i, h !! l = Some i -> exists j, h' !! l = Some j /\ grows i j.

Lemma grows_refl i : grows i i.
Proof. destruct i as [| | | |[]| | |]; simpl; auto. Qed.

Lemma grows_trans i j k : grows i j -> grows j k -> grows i k.
Proof.
  destruct i as [| |o fr|o fr|m fr| | |], j as [| |o' fr'|o' fr'|m' fr'| | |]; simpl; try done;
    destruct k as [| |o2 fr2|o2 fr2|m2 fr2| | |]; simpl; try done; try congruence.
  - by etrans.
  - intros [->| ->] [?|?]; subst; auto.
  - intros [->| ->] [?|?]; subst; auto.
  - destruct m, m', m2; try done; try congruence; intros; destruct_and?; subst; auto.
  - by etrans.
  - intros [-> ->] [-> ->]; auto.
Qed.

Lemma heap_grows_refl h : heap_grows h h.
Proof. intros l i Hl. exists i. split; [done|apply grows_refl]. Qed.

Lemma heap_grows_trans h1 h2 h3 : heap_grows h1 h2 -> heap_grows h2 h3 -> heap_grows h1 h3.
Proof.
  intros H1 H2 l i Hl. destruct (H1 l i Hl) as (j & Hj & Hg). destruct (H2 l j Hj) as (k & Hk & Hg').
  exists k. split; [done|by eapply grows_trans].
Qed.

Lemma heap_grows_insert h l i j : h !! l = Some i -> grows i j -> heap_grows h (<[l := j]> h).
Proof.
  intros Hl Hg l' i' Hl'. destruct (decide (l = l')) as [<-|].
  - rewrite lookup_insert_eq. exists j. split; [done|]. congruence.
  - rewrite lookup_insert_ne by done. exists i'. split; [done|apply grows_refl].
Qed.

Lemma heap_grows_alloc h i : heap_grows h (alloc h i).1.
Proof.
  intros l j Hl. simpl. destruct (decide (fresh (dom h) = l)) as [<-|].
  - pose proof (new_arced_fresh h i) as Hf. simpl in Hf. congruence.
  - rewrite lookup_insert_ne by done. exists j. split; [done|apply grows_refl].
Qed.

Lemma heap_grows_add_sub h dt sub : heap_grows h (cass_data_type_add_sub_type dt sub h).1.
Proof.
  unfold cass_data_type_add_sub_type.
  destruct dt as [l|], sub as [s|]; try apply heap_grows_refl.
  destruct (h !! l) as [i|] eqn:El; [|apply heap_grows_refl].
  destruct (add_sub_data_type i s) as [j|e] eqn:E; [|apply heap_grows_refl].
  eapply heap_grows_insert; [done|].
  destruct i as [|u|[]|[]|[]|ts| |]; simplify_eq/=; auto using prefix_app_r.
Qed.

Lemma heap_grows_add_sub_by_name h dt p n sub :
  heap_grows h (cass_data_type_add_sub_type_by_name_n dt p n sub h).1.
Proof.
  unfold cass_data_type_add_sub_type_by_name_n.
  destruct dt as [l|], sub as [s|]; try apply heap_grows_refl.
  destruct (to_str p n) as [str|]; [|apply heap_grows_refl].
  destruct (h !! l) as [[|u| | | | | |]|] eqn:El; try apply heap_grows_refl.
  eapply heap_grows_insert; [done|]. simpl. by apply prefix_app_r.
Qed.

Lemma api_step_grows h h' : api_step h h' -> heap_grows h h'.
Proof.
  intros Hstep. destruct Hstep.
  - unfold cass_data_type_new. repeat case_match; try apply heap_grows_refl; apply heap_grows_alloc.
  - unfold cass_data_type_new_from_existing. case_match; [apply heap_grows_alloc|apply heap_grows_refl].
  - apply heap_grows_alloc.
  - apply heap_grows_alloc.
  - unfold cass_data_type_new_vector in *. destruct e as [e|]; simplify_eq/=; [|apply heap_grows_refl].
    destruct (deref h e _) as [[|]| |]; simplify_eq/=; [|apply heap_grows_refl].
    destruct (d =? 0); simplify_eq/=; [apply heap_grows_refl|apply heap_grows_alloc].
  - unfold cass_data_type_set_type_name_n. repeat case_match; try apply heap_grows_refl.
    eapply heap_grows_insert; [done|simpl; reflexivity].
  - unfold cass_data_type_set_keyspace_n. repeat case_match; try apply heap_grows_refl.
    eapply heap_grows_insert; [done|simpl; reflexivity].
  - unfold cass_data_type_set_class_name_n. repeat case_match; try apply heap_grows_refl.
    by eapply heap_grows_insert.
  - apply heap_grows_add_sub.
  - apply heap_grows_add_sub_by_name.
  - eapply heap_grows_trans; [apply (heap_grows_alloc h (DValue t))|apply heap_grows_add_sub].
  - eapply heap_grows_trans; [apply (heap_grows_alloc h (DValue t))|apply heap_grows_add_sub_by_name].
Qed.

Lemma api_steps_grow h h' : rtc api_step h h' -> heap_grows h h'.
Proof.
  induction 1 as [|h1 h2 h3 Hs _ IH]; [apply heap_grows_refl|].
  eapply heap_grows_trans; [by apply api_step_grows|done].
Qed.

(** ** Invariants of the containers *)

(** A typed container has a type for each of its slots. *)
Definition tuple_slots (h : heap) (t : CassTuple loc) : Prop :=
  match tuple_data_type t with
  | None => True
  | Some l => exists types, h !! l = Some (DTuple types) /\ (length (tuple_items t) <= length types)%nat
  end.

Definition user_type_slots (h : heap) (u : CassUserType loc) : Prop :=
  exists udt, h !! user_data_type u = Some (DUdt udt) /\
    (length (field_values u) <= length (field_types udt))%nat.

Definition vector_slots (h : heap) (v : CassVector loc) : Prop :=
  exists d, h !! vector_data_type v = Some (DVector (element_type v) d) /\
    length (vector_items v) = Z.to_nat d.

Lemma tuple_slots_grow h h' t : heap_grows h h' -> tuple_slots h t -> tuple_slots h' t.
Proof.
  unfold tuple_slots. intros Hg. destruct (tuple_data_type t) as [l|]; [|done].
  intros (types & Hl & Hle). destruct (Hg l _ Hl) as (j & Hj & Hgj). destruct j; try done.
  exists sub. split; [done|]. apply prefix_length in Hgj. lia.
Qed.

Lemma user_type_slots_grow h h' u : heap_grows h h' -> user_type_slots h u -> user_type_slots h' u.
Proof.
  intros Hg (udt & Hl & Hle). destruct (Hg _ _ Hl) as (j & Hj & Hgj). destruct j; try done.
  eexists. split; [done|]. apply prefix_length in Hgj. lia.
Qed.

Lemma vector_slots_grow h h' v : heap_grows h h' -> vector_slots h v -> vector_slots h' v.
Proof.
  intros Hg (d & Hl & Hle). destruct (Hg _ _ Hl) as (j & Hj & Hgj). destruct j; try done.
  destruct Hgj as [-> ->]. by eexists.
Qed.

(** The type a collection wants for its [index]-th item. *)
Definition slot_type {R} (i : CassDataTypeInner R) (index : nat) : option R :=
  match i with
  | DList o _ | DSet o _ => o
  | DMap (Key k) _ => if Nat.even index then Some k else None
  | DMap (KeyAndValue k v) _ => if Nat.even index then Some k else Some v
  | _ => None
  end.

Definition is_collection {R} (i : CassDataTypeInner R) : bool :=
  match i with DList _ _ | DSet _ _ | DMap _ _ => true | _ => false end.

Section CollectionLemmas.
Context {R : Type} `{DataTypes R}.

Definition items_typed (c : CassCollection R) (inner : CassDataTypeInner R) : Prop :=
  forall i v ty, collection_items c !! i = Some v -> slot_type inner i = Some ty ->
    value_is_type_compatible v ty = Ret true.

Lemma typecheck_on_append_slot (c : CassCollection R) dt inner v :
  collection_data_type c = Some dt -> get_unchecked dt = Ret inner -> is_collection inner = true ->
  typecheck_on_append c (Some v) =
  match slot_type inner (length (collection_items c)) with
  | Some ty => reject_unless (value_is_type_compatible v ty)
  | None => Ret CASS_OK
  end.
Proof.
  intros Hdt Hi Hc. unfold typecheck_on_append. rewrite Hdt, Hi. simpl.
  destruct inner as [| |[]|[]|[]| | |]; simpl in *; try done; by destruct (Nat.even _).
Qed.

Lemma append_typed (c : CassCollection R) dt inner v err c' :
  collection_data_type c = Some dt -> get_unchecked dt = Ret inner -> is_collection inner = true ->
  items_typed c inner -> append_cql_value c (Some v) = Ret (err, c') ->
  items_typed c' inner /\
  (if bool_decide (err = CASS_OK) then collection_items c' = collection_items c ++ [v]
   else c' = c /\ err = CASS_ERROR_LIB_INVALID_VALUE_TYPE).
Proof.
  intros Hdt Hi Hc Hok. unfold append_cql_value.
  rewrite (typecheck_on_append_slot c dt inner v Hdt Hi Hc).
  destruct (slot_type inner (length (collection_items c))) as [ty|] eqn:Hs; simpl.
  - destruct (value_is_type_compatible v ty) as [[]| |] eqn:Hv; simpl; intros Happ; simplify_eq/=; [|done].
    split; [|done]. intros i w ty' Hw Hty. simpl in Hw.
    apply lookup_snoc_Some in Hw as [[_ Hw]|[-> ->]]; [by eapply Hok|]. congruence.
  - intros Happ; simplify_eq/=. split; [|done]. intros i w ty' Hw Hty. simpl in Hw.
    apply lookup_snoc_Some in Hw as [[_ Hw]|[-> ->]]; [by eapply Hok|]. congruence.
Qed.

End CollectionLemmas.

Lemma as_chunks2_spec {A} (l : list A) :
  let '(pairs, remainder) := as_chunks2 l in
  l = concat (map (fun p => [p.1; p.2]) pairs) ++ remainder /\
  (length remainder <= 1)%nat /\ (remainder = [] <-> Nat.even (length l) = true).
Proof.
  remember (length l) as n eqn:Hn. revert l Hn. induction n as [n IH] using lt_wf_ind; intros l ->.
  destruct l as [|a [|b l]].
  { simpl. split_and!; [done|lia|done]. }
  { simpl. split_and!; [done|lia|]. by split. }
  simpl.
  specialize (IH (length l) ltac:(simpl; lia) l eq_refl). destruct (as_chunks2 l) as [pairs rem].
  destruct IH as (-> & H1 & H2). split_and!; [done|done|exact H2].
Qed.

(** ** Properties *)

(** Data types only grow.  Whatever calls of the C API follow, a data type
    keeps its kind, a value type or vector keeps its contents, a list, set or map
    keeps the subtypes it has, and tuples and user types are only extended at the
    end. *)
Theorem data_types_only_grow (h h' : heap) :
  rtc api_step h h' -> heap_grows h h'.
Proof. apply api_steps_grow. Qed.

Lemma data_types_only_grow_witness :
  heap_grows (<[1%positive := DTuple []]> ∅)
    (cass_data_type_add_sub_type (Some 1%positive) (Some 1%positive) (<[1%positive := DTuple []]> ∅)).1.
Proof.
  apply data_types_only_grow. apply rtc_once, step_add_sub. vm_compute. by eexists.
Defined.

(** Setting a slot of a typed tuple or user type never indexes its data type
    out of range, even if the data type was extended through another handle after
    the container was created: below the number of slots the call does exactly the
    type check of that slot, and stores the value if it passes; from the number of
    slots on it reports INDEX_OUT_OF_BOUNDS. *)
Theorem container_slots_safe (fixed_size : NativeType -> option nat) (fuel : nat) (h h' : heap)
    (t : CassTuple loc) (l : loc) (u : CassUserType loc) (i : nat) (v : option (CassCqlValue loc)) :
  rtc api_step h h' -> tuple_data_type t = Some l -> tuple_slots h t -> user_type_slots h u ->
  let D := heap_data_types fixed_size fuel h' in
  (if (i <? length (tuple_items t))%nat then
     exists types ty, h' !! l = Some (DTuple types) /\ types !! i = Some ty /\
       @tuple_bind_value _ D t i v =
       (ok ← @is_type_compatible _ D v ty;
        Ret (if (ok : bool) then (CASS_OK, mkTuple (Some l) (<[i := v]> (tuple_items t)))
             else (CASS_ERROR_LIB_INVALID_VALUE_TYPE, t)))
   else @tuple_bind_value _ D t i v = Ret (CASS_ERROR_LIB_INDEX_OUT_OF_BOUNDS, t)) /\
  (if (i <? length (field_values u))%nat then
     exists udt name ty, h' !! user_data_type u = Some (DUdt udt) /\
       field_types udt !! i = Some (name, ty) /\
       @set_field_by_index _ D u i v =
       (ok ← @is_type_compatible _ D v ty;
        Ret (if (ok : bool) then (CASS_OK, mkUserType (user_data_type u) (<[i := v]> (field_values u)))
             else (CASS_ERROR_LIB_INVALID_VALUE_TYPE, u)))
   else @set_field_by_index _ D u i v = Ret (CASS_ERROR_LIB_INDEX_OUT_OF_BOUNDS, u)).
Proof.
  intros Hg%api_steps_grow Hdt Ht Hu D. rewrite !Nat.ltb_antisym. split.
  - apply (tuple_slots_grow h h' t Hg) in Ht. unfold tuple_slots in Ht. rewrite Hdt in Ht.
    destruct Ht as (types & Hl & Hle). unfold tuple_bind_value, get_types. rewrite Hdt. simpl.
    unfold deref. rewrite Hl. simpl.
    destruct (Nat.leb_spec (length (tuple_items t)) i); simpl; [done|].
    destruct (lookup_lt_is_Some_2 types i) as [ty Hty]; [lia|]. exists types, ty.
    split_and!; [done..|]. rewrite Hty. by destruct (is_type_compatible v ty) as [[]| |].
  - apply (user_type_slots_grow h h' u Hg) in Hu. destruct Hu as (udt & Hl & Hle).
    unfold set_field_by_index, get_udt_type. simpl. unfold deref. rewrite Hl. simpl.
    destruct (Nat.leb_spec (length (field_values u)) i); simpl; [done|].
    destruct (lookup_lt_is_Some_2 (field_types udt) i) as [[nm ty] Hty]; [lia|].
    exists udt, nm, ty. split_and!; [done..|]. rewrite Hty.
    by destruct (is_type_compatible v ty) as [[]| |].
Qed.

(** A tuple type of one int, a user type of one int, and the tuple type extended. *)
Definition slots_heap : heap :=
  <[1%positive := DTuple [2%positive]]>
    (<[2%positive := DValue CASS_VALUE_TYPE_INT]>
       (<[3%positive := DUdt (mkUdt [("a"%string, 2%positive)] EmptyString EmptyString false)]> ∅)).

Lemma container_slots_safe_witness :
  @tuple_bind_value _ (heap_data_types (fun _ => None) 5
      (cass_data_type_add_sub_type (Some 1%positive) (Some 2%positive) slots_heap).1)
    (mkTuple (Some 1%positive) [None]) 1 (Some (Int 5))
  = Ret (CASS_ERROR_LIB_INDEX_OUT_OF_BOUNDS, mkTuple (Some 1%positive) [None]).
Proof.
  refine (proj1 (container_slots_safe (fun _ => None) 5 slots_heap
    (cass_data_type_add_sub_type (Some 1%positive) (Some 2%positive) slots_heap).1
    (mkTuple (Some 1%positive) [None]) 1%positive (mkUserType 3%positive [None]) 1 (Some (Int 5))
    _ eq_refl _ _)).
  - apply rtc_once, step_add_sub. vm_compute. by eexists.
  - eexists. split; [reflexivity|]. simpl. lia.
  - eexists. split; [reflexivity|]. simpl. lia.
Defined.

(** Items of a typed collection match its data type.  Appending to a typed
    list, set or map keeps the invariant that every item is compatible with the
    type of its position (keys and values alternate in a map): a value is appended
    exactly when it passes, otherwise INVALID_VALUE_TYPE is reported and the
    collection is unchanged. *)
Theorem collection_append_typed {R : Type} `{DataTypes R} (c c' : CassCollection R) (dt : R)
    (inner : CassDataTypeInner R) (v : CassCqlValue R) (err : CassError) :
  collection_data_type c = Some dt -> get_unchecked dt = Ret inner -> is_collection inner = true ->
  items_typed c inner -> append_cql_value c (Some v) = Ret (err, c') ->
  items_typed c' inner /\
  (if bool_decide (err = CASS_OK) then collection_items c' = collection_items c ++ [v]
   else c' = c /\ err = CASS_ERROR_LIB_INVALID_VALUE_TYPE).
Proof. apply append_typed. Qed.

Lemma collection_append_typed_witness :
  @items_typed _ (tree_data_types (fun _ => None))
    (mkCollection CtList (Some (Node (DList (Some (Node (DValue CASS_VALUE_TYPE_INT))) false))) [Int 3])
    (DList (Some (Node (DValue CASS_VALUE_TYPE_INT))) false).
Proof.
  refine (proj1 (@collection_append_typed _ (tree_data_types (fun _ => None))
    (mkCollection CtList (Some (Node (DList (Some (Node (DValue CASS_VALUE_TYPE_INT))) false))) [])
    _ _ _ (Int 3) CASS_OK eq_refl eq_refl eq_refl _ eq_refl)).
  intros i v ty Hi. destruct i; discriminate Hi.
Defined.

(** A map collection becomes a CQL map exactly when it has an even number of
    items, and then lists the appended keys and values in order. *)
Theorem collection_map_pairs {R : Type} (c : CassCollection R) :
  collection_type c = CtMap ->
  match collection_to_value c with
  | Ok (MapVal dt pairs) =>
      dt = collection_data_type c /\
      collection_items c = concat (map (fun p => [p.1; p.2]) pairs) /\
      Nat.even (length (collection_items c)) = true
  | Err e =>
      e = CASS_ERROR_LIB_INVALID_ITEM_COUNT /\ Nat.even (length (collection_items c)) = false
  | _ => False
  end.
Proof.
  intros Hm. unfold collection_to_value. rewrite Hm.
  pose proof (as_chunks2_spec (collection_items c)) as Hs.
  destruct (as_chunks2 _) as [pairs rem]. destruct Hs as (-> & _ & Hiff). destruct rem as [|x rem].
  - rewrite app_nil_r in *. split_and!; [done|done|by apply Hiff].
  - split; [done|]. destruct (Nat.even _); [|done]. discriminate (proj2 Hiff eq_refl).
Qed.

Lemma collection_map_pairs_witness :
  exists e, collection_to_value (mkCollection (R := loc) CtMap None [Int 1; Text "x"; Int 2]) = Err e
    /\ e = CASS_ERROR_LIB_INVALID_ITEM_COUNT.
Proof.
  eexists. split; [reflexivity|].
  exact (proj1 (collection_map_pairs (mkCollection (R := loc) CtMap None [Int 1; Text "x"; Int 2]) eq_refl)).
Defined.

(** A container bound with its own type is accepted: the value of a typed
    collection, tuple, user type or vector is type compatible with any column of
    exactly the container's type, for types without custom parts. *)
Theorem container_self_compatible (fixed_size : NativeType -> option nat) (t : dtree)
    (c : CassCollection dtree) (tu : CassTuple dtree) (u : CassUserType dtree) (ve : CassVector dtree) :
  custom_free t = true ->
  let D := tree_data_types fixed_size in
  (collection_data_type c = Some t -> forall v, collection_to_value c = Ok v ->
     @value_is_type_compatible _ D v t = Ret true) /\
  (tuple_data_type tu = Some t -> @value_is_type_compatible _ D (tuple_to_value tu) t = Ret true) /\
  (user_data_type u = t -> forall v, @user_type_to_value _ D u = Ret v ->
     @value_is_type_compatible _ D v t = Ret true) /\
  (vector_data_type ve = t -> @value_is_type_compatible _ D (vector_to_value ve) t = Ret true).
Proof.
  intros Hc D. pose proof (typecheck_refl t Hc) as Hr. split_and!.
  - intros Hdt v. unfold collection_to_value. rewrite Hdt. destruct (collection_type c).
    + intros [= <-]. exact Hr.
    + intros [= <-]. exact Hr.
    + destruct (as_chunks2 _) as [pairs [|]]; intros [= <-]. exact Hr.
  - unfold tuple_to_value. intros ->. exact Hr.
  - intros <- v. unfold user_type_to_value. destruct (get_udt_type (user_data_type u)); simpl; try done.
    intros [= <-]. exact Hr.
  - unfold vector_to_value. intros <-. exact Hr.
Qed.

Lemma container_self_compatible_witness :
  @value_is_type_compatible _ (tree_data_types (fun _ => None))
    (tuple_to_value (mkTuple (Some (Node (DTuple [Node (DValue CASS_VALUE_TYPE_INT)]))) [Some (Int 3)]))
    (Node (DTuple [Node (DValue CASS_VALUE_TYPE_INT)])) = Ret true.
Proof.
  destruct (container_self_compatible (fun _ => None) (Node (DTuple [Node (DValue CASS_VALUE_TYPE_INT)]))
    (mkCollection CtList None []) (mkTuple (Some (Node (DTuple [Node (DValue CASS_VALUE_TYPE_INT)]))) [Some (Int 3)])
    (mkUserType (Node (DTuple [])) []) (mkVector (Node (DTuple [])) (Node (DTuple [])) []) eq_refl)
    as (_ & H & _). exact (H eq_refl).
Defined.

(** Setting a field of a user type by name is not atomic when a name occurs
    twice: the call can fail with INVALID_VALUE_TYPE after it changed the first of
    the two fields. *)
Theorem set_field_by_name_not_atomic :
  exists (u u' : CassUserType dtree) (name : string) (v : option (CassCqlValue dtree)),
    @set_field_by_name _ (tree_data_types (fun _ => None)) u name v
      = Ret (CASS_ERROR_LIB_INVALID_VALUE_TYPE, u') /\
    field_values u !! 0%nat = Some None /\ field_values u' !! 0%nat = Some v /\ v <> None.
Proof.
  exists (mkUserType (Node (DUdt (mkUdt
    [("a"%string, Node (DValue CASS_VALUE_TYPE_INT)); ("a"%string, Node (DValue CASS_VALUE_TYPE_TEXT))]
    EmptyString EmptyString false))) [None; None]).
  eexists _, "a"%string, (Some (Int 1)). by split_and!.
Qed.

(** Binding a null container pointer aborts the process: unlike every other
    null argument, which is reported as BAD_PARAMS or treated as an empty value, a
    null collection, tuple, user type or vector reaches an [unwrap]. *)
Theorem bind_null_container_panics {R : Type} `{DataTypes R} (t : CassTuple R) (i : nat)
    (a : bind_arg R) :
  (cass_tuple_set (Some t) i a = Panic <->
   match a with
   | ACollection None | ATuple None | AUserType None | AVector None => True
   | AUserType (Some u) => user_type_to_value u = Panic \/
       exists v, user_type_to_value u = Ret v /\ tuple_bind_value t i (Some v) = Panic
   | _ => exists v, convert_arg a = Ret (Ok v) /\ tuple_bind_value t i v = Panic
   end).
Proof.
  unfold cass_tuple_set, index_binder.
  assert (Hb : forall v, (('(err, this) ← tuple_bind_value t i v; Ret (err, Some this))
      : outcome (CassError * option (CassTuple R))) = Panic <-> tuple_bind_value t i v = Panic).
  { intros v. by destruct (tuple_bind_value t i v) as [[]| |]. }
  assert (Hc : forall r, ((r ← Ret r; match r with
      | Ok v => '(err, this) ← tuple_bind_value t i v; Ret (err, Some this)
      | Err e => Ret (e, Some t) end) : outcome (CassError * option (CassTuple R))) = Panic
      <-> exists v, (Ret r : outcome (result CassError (option (CassCqlValue R)))) = Ret (Ok v)
            /\ tuple_bind_value t i v = Panic).
  { intros [v|e]; simpl; [rewrite Hb|]; split; try done.
    - intros Hp. by exists v.
    - intros (v' & [= <-] & Hp). done.
    - by intros (v' & [= ] & _). }
  destruct a as [| | | | | | | | | | | | | | | |[c|]|[tu|]|[u|]|[v|]]; try apply Hc; try done.
  simpl. destruct (user_type_to_value u) as [v| |]; simpl.
  - rewrite Hb. split; [eauto|]. intros [[=]|(v' & [= <-] & Hp)]. done.
  - split; [auto|done].
  - split; [done|]. intros [[=]|(v' & [=] & _)].
Qed.
