(* ===== verification/Arc.v ===== *)
(** * Shared objects with copy-on-write (std::sync::Arc)

    Statements and batches keep their driver objects behind an [Arc] and change
    them through [Arc::make_mut].  An allocation is a strong count and a value;
    the crate takes no [Weak] reference to these objects.  [arc_ok] relates the
    counts to the owners of the references, and [arc_view] is what each owner
    reads; the lemmas say that every operation acts on the view of its owner
    only, whatever is shared underneath. *)

From Stdlib Require Import ZArith Lia.
From stdpp Require Import base list gmap.
From S2P Require Import Prelude.

Notation arc_store A := (gmap nat (nat * A)).

Section Operations.
Context {A : Type}.

(** [Arc::new]. *)
Definition arc_new (v : A) (h : arc_store A) : nat * arc_store A :=
  let l := fresh (dom h) in (l, <[l := (1, v)%nat]> h).

(** [Arc::clone]. *)
Definition arc_clone (l : nat) (h : arc_store A) : arc_store A :=
  alter (fun c => (S c.1, c.2)) l h.

(** [Drop for Arc]. *)
Definition arc_drop (l : nat) (h : arc_store A) : arc_store A :=
  match h !! l with
  | Some (S (S n), v) => <[l := (S n, v)]> h
  | Some _ => delete l h
  | None => h
  end.

Definition arc_get (l : nat) (h : arc_store A) : option A := snd <$> h !! l.

(** [f(Arc::make_mut(&mut l))]: in place when the reference is the only one, on a
    fresh clone that replaces the reference otherwise. *)
Definition arc_make_mut (f : A -> A) (l : nat) (h : arc_store A) : nat * arc_store A :=
  match h !! l with
  | Some (1%nat, v) => (l, <[l := (1%nat, f v)]> h)
  | Some (_, v) => arc_new (f v) (arc_drop l h)
  | None => (l, h)
  end.

End Operations.

Section Ownership.
Context {K A : Type} `{Countable K}.

(** The owners of a store: which reference each of them holds. *)
Definition owners_of (l : nat) (owners : gmap K nat) : nat :=
  size (filter (fun kl : K * nat => kl.2 = l) owners).

Definition arc_ok (owners : gmap K nat) (h : arc_store A) : Prop :=
  forall l, match h !! l with
            | Some (n, _) => n = owners_of l owners /\ n <> O
            | None => owners_of l owners = O
            end.

Definition arc_view (owners : gmap K nat) (h : arc_store A) : gmap K A :=
  omap (fun l => arc_get l h) owners.

(** ** Counting owners *)

Lemma owners_of_insert_new owners k l l' :
  owners !! k = None ->
  owners_of l' (<[k := l]> owners) = ((if decide (l = l') then 1 else 0) + owners_of l' owners)%nat.
Proof.
  intros Hk. unfold owners_of. destruct (decide (l = l')) as [->|Hne].
  - rewrite map_filter_insert_True by done. rewrite map_size_insert_None; [done|].
    apply map_lookup_filter_None. by left.
  - by rewrite map_filter_insert_False, delete_id.
Qed.

Lemma owners_of_delete owners k l l' :
  owners !! k = Some l ->
  owners_of l' owners = ((if decide (l = l') then 1 else 0) + owners_of l' (delete k owners))%nat.
Proof.
  intros Hk. rewrite <- (insert_delete_id owners k l Hk) at 1.
  apply owners_of_insert_new, lookup_delete_eq.
Qed.

Lemma owners_of_pos owners k l : owners !! k = Some l -> owners_of l owners <> O.
Proof. intros Hk. rewrite (owners_of_delete _ k l l Hk), decide_True by done. lia. Qed.

Lemma owners_of_one owners k k' l :
  owners_of l owners = 1%nat -> owners !! k = Some l -> owners !! k' = Some l -> k = k'.
Proof.
  intros H1 Hk Hk'. destruct (decide (k = k')) as [|Hne]; [done|exfalso].
  rewrite (owners_of_delete _ k l l Hk), decide_True in H1 by done.
  assert (Hd : delete k owners !! k' = Some l) by by rewrite lookup_delete_ne.
  apply owners_of_pos in Hd. lia.
Qed.

(** ** What the operations do to the owners' views *)

Lemma arc_ok_get owners h k l :
  arc_ok owners h -> owners !! k = Some l -> exists v, h !! l = Some (owners_of l owners, v).
Proof.
  intros Hok Hk. specialize (Hok l). pose proof (owners_of_pos _ _ _ Hk).
  destruct (h !! l) as [[n v]|]; [|done]. exists v. by destruct Hok as [-> _].
Qed.

Lemma arc_view_lookup owners h k : arc_view owners h !! k = owners !! k ≫= fun l => arc_get l h.
Proof. apply lookup_omap. Qed.

Lemma arc_ok_empty : arc_ok ∅ ∅.
Proof. intros l. by rewrite lookup_empty. Qed.

Lemma arc_new_ok owners h k v :
  arc_ok owners h -> owners !! k = None ->
  let '(l, h') := arc_new v h in
  arc_ok (<[k := l]> owners) h' /\ arc_view (<[k := l]> owners) h' = <[k := v]> (arc_view owners h).
Proof.
  intros Hok Hk. unfold arc_new. set (l := fresh (dom h)).
  assert (Hl : h !! l = None) by (apply not_elem_of_dom, is_fresh). split.
  - intros l'. rewrite owners_of_insert_new by done. specialize (Hok l') as Hl'.
    destruct (decide (l = l')) as [<-|Hne].
    + rewrite lookup_insert_eq. rewrite Hl in Hl'. lia.
    + by rewrite lookup_insert_ne.
  - apply map_eq. intros k'. rewrite arc_view_lookup.
    destruct (decide (k = k')) as [<-|Hne].
    + rewrite !lookup_insert_eq. simpl. unfold arc_get. by rewrite lookup_insert_eq.
    + rewrite !lookup_insert_ne, arc_view_lookup by done. destruct (owners !! k') as [l'|] eqn:Hk'; [|done].
      simpl. unfold arc_get. rewrite lookup_insert_ne; [done|]. intros <-.
      destruct (arc_ok_get _ _ _ _ Hok Hk'). congruence.
Qed.

Lemma arc_clone_ok owners h k k' l :
  arc_ok owners h -> owners !! k = Some l -> owners !! k' = None ->
  arc_ok (<[k' := l]> owners) (arc_clone l h) /\
  arc_view (<[k' := l]> owners) (arc_clone l h) =
    match arc_view owners h !! k with Some v => <[k' := v]> (arc_view owners h) | None => arc_view owners h end.
Proof.
  intros Hok Hk Hk'. destruct (arc_ok_get _ _ _ _ Hok Hk) as [v Hv].
  assert (Hget : forall l', arc_get l' (arc_clone l h) = arc_get l' h).
  { intros l'. unfold arc_get, arc_clone. destruct (decide (l = l')) as [<-|Hne].
    - rewrite lookup_alter_eq, Hv. done.
    - by rewrite lookup_alter_ne. }
  split.
  - intros l'. rewrite owners_of_insert_new by done. unfold arc_clone. specialize (Hok l').
    destruct (decide (l = l')) as [<-|Hne].
    + rewrite lookup_alter_eq, Hv in *. simpl. lia.
    + by rewrite lookup_alter_ne.
  - rewrite arc_view_lookup, Hk. simpl. unfold arc_get at 1. rewrite Hv. simpl.
    apply map_eq. intros k''. rewrite arc_view_lookup. destruct (decide (k' = k'')) as [<-|Hne].
    + rewrite !lookup_insert_eq. simpl. rewrite Hget. unfold arc_get. by rewrite Hv.
    + rewrite !lookup_insert_ne, arc_view_lookup by done. destruct (owners !! k''); [apply Hget|done].
Qed.

Lemma arc_drop_get l l' h : (forall v, h !! l = Some (1%nat, v) -> l' <> l) ->
  (forall v, h !! l <> Some (0%nat, v)) -> arc_get l' (arc_drop l h) = arc_get l' (A := A) h.
Proof.
  intros H1 H0. unfold arc_get, arc_drop. destruct (h !! l) as [[[|[|n]] v]|] eqn:Hl; try done.
  - by destruct (H0 v).
  - rewrite lookup_delete_ne; [done|]. intros ->. by destruct (H1 v).
  - destruct (decide (l = l')) as [<-|Hne]; [by rewrite lookup_insert_eq, Hl|by rewrite lookup_insert_ne].
Qed.

Lemma arc_drop_ok owners h k l :
  arc_ok owners h -> owners !! k = Some l ->
  arc_ok (delete k owners) (arc_drop l h) /\
  arc_view (delete k owners) (arc_drop l h) = delete k (arc_view owners h).
Proof.
  intros Hok Hk. destruct (arc_ok_get _ _ _ _ Hok Hk) as [v Hv].
  pose proof (owners_of_pos _ _ _ Hk) as Hpos. split.
  - intros l'. specialize (Hok l'). rewrite (owners_of_delete _ k l l' Hk) in Hok.
    rewrite (owners_of_delete _ k l l Hk), decide_True in Hv by done. unfold arc_drop. rewrite Hv.
    destruct (decide (l = l')) as [<-|Hne].
    + rewrite Hv in Hok. destruct (owners_of l (delete k owners)) as [|n]; simpl.
      * by rewrite lookup_delete_eq.
      * by rewrite lookup_insert_eq.
    + destruct (owners_of l (delete k owners)) as [|n]; simpl.
      * by rewrite lookup_delete_ne.
      * by rewrite lookup_insert_ne.
  - apply map_eq. intros k'. rewrite arc_view_lookup. destruct (decide (k = k')) as [<-|Hne].
    + by rewrite !lookup_delete_eq.
    + rewrite !lookup_delete_ne, arc_view_lookup by done. destruct (owners !! k') as [l'|] eqn:Hk'; [|done].
      simpl. apply arc_drop_get.
      * intros v' Hv' ->. apply Hne, (owners_of_one owners k k' l); [congruence|done|done].
      * intros v' Hv'. congruence.
Qed.

(** Copy-on-write: a change through one reference is seen by its owner alone. *)
Lemma arc_make_mut_ok (f : A -> A) owners h k l :
  arc_ok owners h -> owners !! k = Some l ->
  let '(l', h') := arc_make_mut f l h in
  arc_ok (<[k := l']> owners) h' /\
  arc_view (<[k := l']> owners) h' = alter f k (arc_view owners h).
Proof.
  intros Hok Hk. destruct (arc_ok_get _ _ _ _ Hok Hk) as [v Hv].
  assert (Hview : arc_view owners h !! k = Some v).
  { rewrite arc_view_lookup, Hk. simpl. unfold arc_get. by rewrite Hv. }
  assert (Halt : alter f k (arc_view owners h) = <[k := f v]> (delete k (arc_view owners h))).
  { rewrite insert_delete_eq. apply map_eq. intros k'. destruct (decide (k = k')) as [<-|Hne].
    - by rewrite lookup_alter_eq, lookup_insert_eq, Hview.
    - by rewrite lookup_alter_ne, lookup_insert_ne. }
  rewrite Halt. unfold arc_make_mut. rewrite Hv.
  destruct (owners_of l owners) as [|[|n]] eqn:Hn.
  - by apply owners_of_pos in Hk.
  - rewrite insert_id by done. split.
    + intros l'. specialize (Hok l'). destruct (decide (l = l')) as [<-|Hne].
      * rewrite lookup_insert_eq. lia.
      * by rewrite lookup_insert_ne.
    + rewrite insert_delete_eq. apply map_eq. intros k'. rewrite arc_view_lookup.
      destruct (decide (k = k')) as [<-|Hne].
      * rewrite Hk, lookup_insert_eq. simpl. unfold arc_get. by rewrite lookup_insert_eq.
      * rewrite lookup_insert_ne, arc_view_lookup by done. destruct (owners !! k') as [l'|] eqn:Hk'; [|done].
        simpl. unfold arc_get. rewrite lookup_insert_ne; [done|]. intros <-.
        by apply Hne, (owners_of_one owners k k' l).
  - destruct (arc_drop_ok _ _ _ _ Hok Hk) as [Hok' Hview'].
    pose proof (arc_new_ok _ _ k (f v) Hok' (lookup_delete_eq _ _)) as Hnew.
    destruct (arc_new (f v) (arc_drop l h)) as [l' h']. rewrite insert_delete_eq, Hview' in Hnew. done.
Qed.

End Ownership.
