(* ===== verification/Prepared.v ===== *)
(** * Prepared statements and their result metadata cache (statements/prepared.rs)

    [Statement] and [PreparedStatement] belong to the Rust driver; of them the
    crate uses the bind variables and the settings it stores with their setters,
    which are records here.  The column specifications of a result live at an
    address that the driver may replace at any time; [Cache] models the cache of
    the metadata made from them under concurrent requests. *)

From Stdlib Require Import ZArith Lia String.
From stdpp Require Import base list gmap strings relations.
From S2P Require Import Prelude ArgConv Types ConfigValue Inet LoadBalancing DataType Value.

Open Scope Z_scope.

(** A statement's target node, given by address or as the node itself. *)
Inductive NodeIdentifier :=
| NodeAddress (ip : IpAddr) (port : Z)
| NodeObject (node : LoadBalancing.Node).

(** The settings of a driver statement.  [None] in [s_consistency] and
    [s_serial_consistency] is "not set": the execution profile decides. *)
Record Settings (Handle : Type) := mkSettings {
  s_consistency : option Consistency;
  s_serial_consistency : option (option SerialConsistency);
  s_page_size : option Z;
  s_is_idempotent : bool;
  s_tracing : bool;
  s_timestamp : option Z;
  s_request_timeout : option Duration;
  s_retry_policy : option CassRetryPolicy;
  s_load_balancing_policy : option NodeIdentifier;
  s_execution_profile : option Handle
}.
Arguments mkSettings {Handle}.
Arguments s_consistency {Handle}.
Arguments s_serial_consistency {Handle}.
Arguments s_page_size {Handle}.
Arguments s_is_idempotent {Handle}.
Arguments s_tracing {Handle}.
Arguments s_timestamp {Handle}.
Arguments s_request_timeout {Handle}.
Arguments s_retry_policy {Handle}.
Arguments s_load_balancing_policy {Handle}.
Arguments s_execution_profile {Handle}.

#[export] Instance Settings_eta Handle : Eta (Settings Handle) := fun r =>
  mkSettings (s_consistency r) (s_serial_consistency r) (s_page_size r) (s_is_idempotent r)
    (s_tracing r) (s_timestamp r) (s_request_timeout r) (s_retry_policy r)
    (s_load_balancing_policy r) (s_execution_profile r).

Definition settings_default {Handle} : Settings Handle :=
  mkSettings None None None false false None None None None None.

(** [scylla::statement::unprepared::Statement]. *)
Record Statement (Handle : Type) := mkStatement {
  contents : string;
  st_settings : Settings Handle
}.
Arguments mkStatement {Handle}.
Arguments contents {Handle}.
Arguments st_settings {Handle}.

#[export] Instance Statement_eta Handle : Eta (Statement Handle) := fun r =>
  mkStatement (contents r) (st_settings r).

Notation ColumnSpec := (string * ColumnType)%type.

(** [scylla::statement::prepared::PreparedStatement]. *)
Record PreparedStatement (Handle : Type) := mkPreparedStatement {
  variable_col_specs : list ColumnSpec;
  use_cached_result_metadata : bool;
  ps_settings : Settings Handle
}.
Arguments mkPreparedStatement {Handle}.
Arguments variable_col_specs {Handle}.
Arguments use_cached_result_metadata {Handle}.
Arguments ps_settings {Handle}.

#[export] Instance PreparedStatement_eta Handle : Eta (PreparedStatement Handle) := fun r =>
  mkPreparedStatement (variable_col_specs r) (use_cached_result_metadata r) (ps_settings r).

(** [CassPrepared].  [result_metadata_cache] names the cache, which clones of the
    object share. *)
Record CassPrepared (R Handle : Type) := mkCassPrepared {
  variable_col_data_types : list R;
  result_metadata_cache : nat;
  prepared_statement : PreparedStatement Handle
}.
Arguments mkCassPrepared {R Handle}.
Arguments variable_col_data_types {R Handle}.
Arguments result_metadata_cache {R Handle}.
Arguments prepared_statement {R Handle}.

#[export] Instance CassPrepared_eta R Handle : Eta (CassPrepared R Handle) := fun r =>
  mkCassPrepared (variable_col_data_types r) (result_metadata_cache r) (prepared_statement r).

(** [CassPrepared::new_from_prepared_statement], which makes the new [cache];
    [column_data_type] is [Arc::new(get_column_type(..))]. *)
Definition new_from_prepared_statement {R Handle} (column_data_type : ColumnType -> R) (cache : nat)
    (statement : PreparedStatement Handle) : CassPrepared R Handle :=
  let statement := statement <| use_cached_result_metadata := true |> in
  mkCassPrepared (map (fun col_spec => column_data_type col_spec.2) (variable_col_specs statement))
    cache statement.

(** [Iterator::position]. *)
Fixpoint position {A} (p : A -> bool) (l : list A) : option nat :=
  match l with
  | [] => None
  | x :: l => if p x then Some O else S <$> position p l
  end.

Section Getters.
Context {R Handle : Type}.

(** [Panic] is the internal invariant violation the code reports. *)
Definition get_variable_data_type_by_name (self : CassPrepared R Handle) (name : string)
  : outcome (option R) :=
  match position (fun col_spec => bool_decide (col_spec.1 = name))
          (variable_col_specs (prepared_statement self)) with
  | None => Ret None
  | Some index =>
      match variable_col_data_types self !! index with
      | Some dt => Ret (Some dt)
      | None => Panic
      end
  end.

(** The result code, and the name written through the out parameters. *)
Definition cass_prepared_parameter_name (prepared : option (CassPrepared R Handle)) (index : nat)
  : CassError * option string :=
  match prepared with
  | None => (CASS_ERROR_LIB_BAD_PARAMS, None)
  | Some prepared =>
      match variable_col_specs (prepared_statement prepared) !! index with
      | None => (CASS_ERROR_LIB_INDEX_OUT_OF_BOUNDS, None)
      | Some col_spec => (CASS_OK, Some col_spec.1)
      end
  end.

Definition cass_prepared_parameter_data_type (prepared : option (CassPrepared R Handle)) (index : nat)
  : option R :=
  match prepared with
  | None => None
  | Some prepared => variable_col_data_types prepared !! index
  end.

Definition cass_prepared_parameter_data_type_by_name_n (prepared : option (CassPrepared R Handle))
    (name : char_ptr) (name_length : nat) : outcome (option R) :=
  match prepared with
  | None => Ret None
  | Some prepared =>
      match to_str name name_length with
      | Ok parameter_name => get_variable_data_type_by_name prepared parameter_name
      | Err NullPointer => Ret None
      | Err InvalidUtf8 => Ret None
      end
  end.

Definition cass_prepared_parameter_data_type_by_name (prepared : option (CassPrepared R Handle))
    (name : char_ptr) : outcome (option R) :=
  let '(name, name_length) := as_len_delimited name in
  cass_prepared_parameter_data_type_by_name_n prepared name name_length.

End Getters.

(** ** The result metadata cache

    An address stands for the slice of column specifications behind a
    [ColumnSpecsGuard]; [mem] holds the live ones.  A guard keeps its slice alive,
    and so do the result a request returned, a loaded [Arc] of the cache and the
    driver's current metadata.  The driver may free any other slice and later reuse
    its address, so comparing pointers is sound only for slices that are alive. *)

Record CassColumnSpec := mkColumnSpec { cs_name : string; cs_data_type : dtree }.

Definition CassResultMetadata : Type := list CassColumnSpec.

(** [CassResultMetadata::from_column_specs]. *)
Definition from_column_specs (col_specs : list ColumnSpec) : CassResultMetadata :=
  map (fun col_spec => mkColumnSpec col_spec.1 (get_column_type col_spec.2)) col_specs.

(** [CassResultMetadataCacheInner]. *)
Record CacheInner := mkInner { guard : nat; cass_result_metadata : CassResultMetadata }.

(** The slice behind a guard that is alive. *)
Definition slice (mem : gmap nat (list ColumnSpec)) (address : nat) : list ColumnSpec :=
  default [] (mem !! address).

(** [CassResultMetadataCache::new]. *)
Definition cache_new (mem : gmap nat (list ColumnSpec)) (g : nat) : CacheInner :=
  mkInner g (from_column_specs (slice mem g)).

(** [update_if_necessary] after its [load]: what is left to [store], if anything. *)
Definition update_if_necessary (mem : gmap nat (list ColumnSpec)) (loaded : CacheInner)
    (new_guard : nat) : option CacheInner :=
  if negb (guard loaded =? new_guard)%nat
  then Some (mkInner new_guard (from_column_specs (slice mem new_guard)))
  else None.

(** [get_metadata_unless_stale] after its [load]. *)
Definition get_metadata_unless_stale (loaded : CacheInner) (result_column_specs : nat)
  : option CassResultMetadata :=
  if (guard loaded =? result_column_specs)%nat then Some (cass_result_metadata loaded) else None.

(** The metadata of a result ([CassResult::from_result_payload]): the cached one, or
    one made from the result's own specifications. *)
Definition result_metadata (mem : gmap nat (list ColumnSpec)) (result_column_specs : nat)
    (cached : option CassResultMetadata) : CassResultMetadata :=
  match cached with Some m => m | None => from_column_specs (slice mem result_column_specs) end.

(** The progress of one call of [try_update_and_get_result_metadata], for a result
    whose specifications are at [r]. *)
Inductive call_pc :=
| Called (r : nat)
| GotGuard (r g : nat)
| Loaded (r g : nat) (inner : CacheInner)
| Storing (r : nat) (inner : CacheInner)
| Updated (r : nat)
| Returned (r : nat) (m : option CassResultMetadata).

Record cache_state := mkCacheState {
  mem : gmap nat (list ColumnSpec);
  current : nat;
  cache : CacheInner;
  calls : list call_pc
}.

#[export] Instance cache_state_eta : Eta cache_state := fun r =>
  mkCacheState (mem r) (current r) (cache r) (calls r).

(** The slices a call keeps alive. *)
Definition call_pins (c : call_pc) : list nat :=
  match c with
  | Called r | Updated r | Returned r _ => [r]
  | GotGuard r g => [r; g]
  | Loaded r g inner => [r; g; guard inner]
  | Storing r inner => [r; guard inner]
  end.

Definition pinned (s : cache_state) : list nat :=
  current s :: guard (cache s) :: concat (map call_pins (calls s)).

(** One atomic action of a call: taking the driver's current guard, loading the
    cache, storing into it, and loading it again for the answer. *)
Definition call_step (s : cache_state) (c : call_pc) : CacheInner * call_pc :=
  match c with
  | Called r => (cache s, GotGuard r (current s))
  | GotGuard r g => (cache s, Loaded r g (cache s))
  | Loaded r g inner =>
      (cache s, match update_if_necessary (mem s) inner g with
                | Some inner' => Storing r inner'
                | None => Updated r
                end)
  | Storing r inner => (inner, Updated r)
  | Updated r => (cache s, Returned r (get_metadata_unless_stale (cache s) r))
  | Returned r m => (cache s, Returned r m)
  end.

Inductive cache_next : cache_state -> cache_state -> Prop :=
| driver_receives s a specs :
    mem s !! a = None ->
    cache_next s (s <| mem := <[a := specs]> (mem s) |> <| current := a |>)
| driver_frees s a :
    a ∉ pinned s ->
    cache_next s (s <| mem := delete a (mem s) |>)
| request_returns s r :
    is_Some (mem s !! r) ->
    cache_next s (s <| calls := calls s ++ [Called r] |>)
| call_continues s i c :
    calls s !! i = Some c ->
    cache_next s (let '(inner, c') := call_step s c in
                  s <| cache := inner |> <| calls := <[i := c']> (calls s) |>).

Definition cache_init (a : nat) (specs : list ColumnSpec) : cache_state :=
  mkCacheState {[a := specs]} a (cache_new {[a := specs]} a) [].

(** ** Properties *)

(** An inner value was made from exactly the slice its guard keeps alive. *)
Definition inner_ok (m : gmap nat (list ColumnSpec)) (inner : CacheInner) : Prop :=
  exists specs, m !! guard inner = Some specs /\ cass_result_metadata inner = from_column_specs specs.

Definition call_ok (m : gmap nat (list ColumnSpec)) (c : call_pc) : Prop :=
  match c with
  | Called r | Updated r => is_Some (m !! r)
  | GotGuard r g => is_Some (m !! r) /\ is_Some (m !! g)
  | Loaded r g inner => is_Some (m !! r) /\ is_Some (m !! g) /\ inner_ok m inner
  | Storing r inner => is_Some (m !! r) /\ inner_ok m inner
  | Returned r res =>
      is_Some (m !! r) /\ forall x, res = Some x -> x = from_column_specs (slice m r)
  end.

Definition cache_ok (s : cache_state) : Prop :=
  is_Some (mem s !! current s) /\ inner_ok (mem s) (cache s) /\ Forall (call_ok (mem s)) (calls s).

(** What keeps the invariant of the pinned slices is all a memory change may do. *)
Definition agree_on (pins : list nat) (m m' : gmap nat (list ColumnSpec)) : Prop :=
  forall a, a ∈ pins -> is_Some (m !! a) -> m' !! a = m !! a.

Lemma inner_ok_agree m m' inner :
  agree_on [guard inner] m m' -> inner_ok m inner -> inner_ok m' inner.
Proof.
  intros Ha (specs & Hg & Hm). exists specs. split; [|done]. rewrite Ha; [done|set_solver|by eexists].
Qed.

Lemma call_ok_agree m m' c : agree_on (call_pins c) m m' -> call_ok m c -> call_ok m' c.
Proof.
  intros Ha. assert (Hs : forall a, a ∈ call_pins c -> is_Some (m !! a) -> is_Some (m' !! a)).
  { intros a Hin Hsome. by rewrite Ha. }
  destruct c; simpl in *.
  - intros Hr. apply Hs; [set_solver|done].
  - intros [Hr Hg]. split; (apply Hs; [set_solver|done]).
  - intros (Hr & Hg & Hi). split_and!; [apply Hs; [set_solver|done]..|].
    revert Hi. apply inner_ok_agree. intros a Hin. apply Ha. set_solver.
  - intros (Hr & Hi). split; [apply Hs; [set_solver|done]|].
    revert Hi. apply inner_ok_agree. intros a Hin. apply Ha. set_solver.
  - intros Hr. apply Hs; [set_solver|done].
  - intros [Hr Hm]. split; [apply Hs; [set_solver|done]|].
    intros x Hx. unfold slice. rewrite Ha; [by apply Hm|set_solver|done].
Qed.

Lemma cache_ok_agree s m' :
  agree_on (pinned s) (mem s) m' -> cache_ok s -> cache_ok (s <| mem := m' |>).
Proof.
  intros Ha (Hc & Hi & Hcalls). unfold pinned in Ha. split_and!; simpl.
  - rewrite Ha; [done|set_solver|done].
  - revert Hi. apply inner_ok_agree. intros a Hin. apply Ha. set_solver.
  - rewrite Forall_forall in *. intros c Hin. generalize (Hcalls c Hin). apply call_ok_agree.
    intros a Hpin. apply Ha. do 2 right. apply list_elem_of_In, in_concat.
    exists (call_pins c). split; [by apply in_map, list_elem_of_In|by apply list_elem_of_In].
Qed.

(** The answer of a call whose result and cached guard are both alive. *)
Lemma get_metadata_ok m inner r x :
  inner_ok m inner -> get_metadata_unless_stale inner r = Some x -> x = from_column_specs (slice m r).
Proof.
  intros (specs & Hg & Hm). unfold get_metadata_unless_stale.
  destruct (Nat.eqb_spec (guard inner) r) as [<-|]; [|done]. intros [= <-]. unfold slice. by rewrite Hg.
Qed.

Lemma call_step_ok s c :
  cache_ok s -> call_ok (mem s) c ->
  inner_ok (mem s) (call_step s c).1 /\ call_ok (mem s) (call_step s c).2.
Proof.
  intros (Hc & Hi & _) Hok. destruct c; simpl in *; try (split; [done|]); try done.
  - tauto.
  - unfold update_if_necessary. destruct (negb _); simpl; [|tauto].
    split; [tauto|]. destruct Hok as (_ & [specs Hg] & _). exists specs. simpl. unfold slice. by rewrite Hg.
  - tauto.
  - split; [done|]. intros x. by apply get_metadata_ok.
Qed.

Lemma cache_next_ok s s' : cache_ok s -> cache_next s s' -> cache_ok s'.
Proof.
  intros Hok Hn. revert Hok. destruct Hn as [s0 a specs Ha|s0 a Ha|s0 r Hr|s0 i c Hc]; intros Hok.
  - assert (Hok' : cache_ok (s0 <| mem := <[a := specs]> (mem s0) |>)).
    { apply cache_ok_agree; [|done]. intros b _ Hb. rewrite lookup_insert_ne; [done|].
      intros <-. rewrite Ha in Hb. by destruct Hb. }
    destruct Hok' as (_ & Hi & Hcalls). split_and!; [|done|done]. simpl. rewrite lookup_insert_eq. by eexists.
  - apply cache_ok_agree; [|done]. intros b Hb _. rewrite lookup_delete_ne; [done|]. by intros <-.
  - destruct Hok as (Hcur & Hi & Hcalls). split_and!; [done|done|]. simpl.
    apply Forall_app. split; [done|]. by constructor.
  - pose proof Hok as (Hcur & Hi & Hcalls). rewrite Forall_lookup in Hcalls.
    destruct (call_step_ok s0 c Hok (Hcalls i c Hc)) as [Hi' Hc'].
    destruct (call_step s0 c) as [inner c']. split_and!; [done|done|]. simpl.
    apply Forall_insert; [by apply Forall_lookup|done].
Qed.

(** C9: the metadata cache never serves stale metadata: however requests that share
    a prepared statement interleave, and whatever the driver receives, frees and
    reallocates between their steps, the metadata a call returns for a result is
    exactly what that result's own column specifications give, and so is the
    metadata the result is finally given. *)
Theorem result_metadata_never_stale (a : nat) (specs : list ColumnSpec) (s : cache_state)
    (r : nat) (m : option CassResultMetadata) :
  rtc cache_next (cache_init a specs) s ->
  Returned r m ∈ calls s ->
  (m = None \/ m = Some (from_column_specs (slice (mem s) r))) /\
  result_metadata (mem s) r m = from_column_specs (slice (mem s) r).
Proof.
  intros Hr Hin. assert (Hok : cache_ok s).
  { remember (cache_init a specs) as s0 eqn:E.
    assert (H0 : cache_ok s0).
    { subst. split_and!; simpl; [rewrite lookup_singleton_eq; by eexists| |done].
      exists specs. simpl. unfold slice. by rewrite lookup_singleton_eq. }
    clear E. induction Hr as [|x y z Hxy _ IH]; [done|]. apply IH; [done|]. by eapply cache_next_ok. }
  destruct Hok as (_ & _ & Hcalls). rewrite Forall_forall in Hcalls.
  destruct (Hcalls _ Hin) as [_ Hm]. destruct m as [x|]; [|auto].
  rewrite (Hm x eq_refl). auto.
Qed.

Definition int_column : list ColumnSpec := [("a"%string, CNative NInt)].
Definition text_column : list ColumnSpec := [("a"%string, CNative NText)].

Lemma result_metadata_never_stale_witness :
  exists s, rtc cache_next (cache_init 0 int_column) s /\
    Returned 1 (Some (from_column_specs text_column)) ∈ calls s /\
    result_metadata (mem s) 1 (Some (from_column_specs text_column))
      = from_column_specs (slice (mem s) 1).
Proof.
  assert (Hrun : exists s, rtc cache_next (cache_init 0 int_column) s /\
    Returned 1 (Some (from_column_specs text_column)) ∈ calls s).
  { eexists. split.
    - eapply rtc_l; [apply (driver_receives _ 1 text_column); reflexivity|].
      eapply rtc_l; [apply (request_returns _ 1); by eexists|].
      do 5 (eapply rtc_l; [eapply (call_continues _ 0); reflexivity|]). apply rtc_refl.
    - vm_compute. left. }
  destruct Hrun as (s & Hr & Hin). exists s. split_and!; [done|done|].
  exact (proj2 (result_metadata_never_stale _ _ s _ _ Hr Hin)).
Defined.

Lemma position_Some {A} (p : A -> bool) l i :
  position p l = Some i <->
  (exists x, l !! i = Some x /\ p x = true) /\ forall j x, (j < i)%nat -> l !! j = Some x -> p x = false.
Proof.
  revert i; induction l as [|a l IH]; intros i; simpl.
  { split; [done|]. intros [(x & Hx & _) _]. done. }
  destruct (p a) eqn:Hp.
  - split.
    + intros [= <-]. split; [by exists a|]. intros j x Hj. lia.
    + intros [_ Hf]. destruct i as [|i]; [done|]. rewrite (Hf O a) in Hp by (lia || done). done.
  - rewrite fmap_Some. split.
    + intros (j & (H1 & H2)%IH & ->). split; [done|]. intros [|k] x Hk; simpl; [by intros [= <-]|].
      apply H2. lia.
    + intros [(x & Hx & Hpx) Hf]. destruct i as [|i]; simpl in Hx; [congruence|].
      exists i. split; [|done]. apply IH. split; [eauto|]. intros j y Hj. apply (Hf (S j)). lia.
Qed.

Lemma position_None {A} (p : A -> bool) l : position p l = None <-> forall x, x ∈ l -> p x = false.
Proof.
  induction l as [|a l IH]; simpl; [split; [set_solver|done]|].
  destruct (p a) eqn:Hp.
  - split; [done|]. intros Hf. rewrite Hf in Hp by set_solver. done.
  - rewrite fmap_None, IH. split; [intros Hf x [->|]%elem_of_cons; auto|].
    intros Hf x Hx. apply Hf. set_solver.
Qed.

(** The parameters of a prepared statement agree however they are asked for:
    the lookup of a data type by name never hits the internal invariant violation,
    and finds the data type of the first parameter of that name, which is also what
    the lookup by index gives and is built from the type the server announced. *)
Theorem prepared_parameters_agree {R Handle : Type} (column_data_type : ColumnType -> R) (cache : nat)
    (statement : PreparedStatement Handle) (name : string) :
  let p := new_from_prepared_statement column_data_type cache statement in
  exists dt, get_variable_data_type_by_name p name = Ret dt /\
  match dt with
  | Some dt => exists i c, cass_prepared_parameter_name (Some p) i = (CASS_OK, Some name) /\
      cass_prepared_parameter_data_type (Some p) i = Some dt /\
      variable_col_specs statement !! i = Some (name, c) /\ dt = column_data_type c /\
      forall j, (j < i)%nat -> cass_prepared_parameter_name (Some p) j <> (CASS_OK, Some name)
  | None => forall i, cass_prepared_parameter_name (Some p) i <> (CASS_OK, Some name)
  end.
Proof.
  simpl. unfold get_variable_data_type_by_name. simpl.
  set (specs := variable_col_specs statement).
  destruct (position (fun col_spec => bool_decide (col_spec.1 = name)) specs) as [i|] eqn:Hpos.
  - apply position_Some in Hpos as [((n & c) & Hi & Hn%bool_decide_eq_true) Hbefore]. simpl in Hn. subst n.
    rewrite list_lookup_fmap, Hi. simpl. eexists. split; [done|].
    exists i, c. unfold cass_prepared_parameter_name, cass_prepared_parameter_data_type. simpl. fold specs.
    rewrite list_lookup_fmap, Hi. split_and!; [done..|].
    intros j Hj. destruct (specs !! j) as [[n' c']|] eqn:Hsj; simpl; [|done].
    intros [= ->]. specialize (Hbefore j _ Hj Hsj). simpl in Hbefore. by rewrite bool_decide_eq_false in Hbefore.
  - exists None. split; [done|]. intros i. unfold cass_prepared_parameter_name. simpl. fold specs. destruct (specs !! i) as [[n c]|] eqn:Hi; [|done]. simpl.
    intros [= ->]. rewrite position_None in Hpos.
    specialize (Hpos _ (list_elem_of_lookup_2 _ _ _ Hi)). simpl in Hpos. by rewrite bool_decide_eq_false in Hpos.
Qed.
