(* ===== verification/Statement.v ===== *)
(** * Statements (statements/statement.rs, statements/prepared.rs)

    A statement refers to its [CassPrepared] through a reference [P] into a store
    [S]; the class [PreparedStore] says how references are read and changed.  The
    code keeps the object behind an [Arc] and changes it with [Arc::make_mut]
    ([arc_prepared_store]); the value semantics, where each statement owns its
    object, is [owned_prepared_store].  All operations are defined once, over the
    class. *)

From Stdlib Require Import ZArith Lia String Ascii.
From stdpp Require Import base list gmap strings relations.
From S2P Require Import Prelude ArgConv Types ConfigValue Inet IpText LoadBalancing DataType.
From S2P Require Import ExecProfile Value Containers Arc Prepared.

Open Scope Z_scope.

(** [scylla::value::MaybeUnset]. *)
Inductive MaybeUnset (A : Type) := VUnset | VSet (a : A).
Arguments VUnset {A}.
Arguments VSet {A} a.

(** A bound value: unset, or set to null or to a value. *)
Notation bound R := (MaybeUnset (option (CassCqlValue R))).

(** ** References to prepared statements *)

Class PreparedStore (R Handle P S : Type) := {
  prepared_get : S -> P -> option (CassPrepared R Handle);
  prepared_modify : (CassPrepared R Handle -> CassPrepared R Handle) -> P -> S -> P * S;
  prepared_new : CassPrepared R Handle -> S -> P * S;
  prepared_clone : P -> S -> S;
  prepared_drop : P -> S -> S
}.

#[export] Instance arc_prepared_store (R Handle : Type) :
  PreparedStore R Handle nat (arc_store (CassPrepared R Handle)) := {|
  prepared_get h l := arc_get l h;
  prepared_modify := arc_make_mut;
  prepared_new := arc_new;
  prepared_clone := arc_clone;
  prepared_drop := arc_drop
|}.

#[export] Instance owned_prepared_store (R Handle : Type) :
  PreparedStore R Handle (CassPrepared R Handle) unit := {|
  prepared_get _ p := Some p;
  prepared_modify f p s := (f p, s);
  prepared_new p s := (p, s);
  prepared_clone _ s := s;
  prepared_drop _ s := s
|}.

(** ** Statement objects *)

Record BoundPreparedStatement (R P : Type) := mkBoundPrepared {
  bp_statement : P;
  bp_bound_values : list (bound R)
}.
Arguments mkBoundPrepared {R P}.
Arguments bp_statement {R P}.
Arguments bp_bound_values {R P}.

#[export] Instance BoundPrepared_eta R P : Eta (BoundPreparedStatement R P) := fun r =>
  mkBoundPrepared (bp_statement r) (bp_bound_values r).

Record BoundSimpleStatement (R Handle : Type) := mkBoundSimple {
  query : Statement Handle;
  bs_bound_values : list (bound R);
  name_to_bound_index : gmap string nat
}.
Arguments mkBoundSimple {R Handle}.
Arguments query {R Handle}.
Arguments bs_bound_values {R Handle}.
Arguments name_to_bound_index {R Handle}.

#[export] Instance BoundSimple_eta R Handle : Eta (BoundSimpleStatement R Handle) := fun r =>
  mkBoundSimple (query r) (bs_bound_values r) (name_to_bound_index r).

Inductive BoundStatement (R Handle P : Type) :=
| Simple (q : BoundSimpleStatement R Handle)
| Prepared (p : BoundPreparedStatement R P).
Arguments Simple {R Handle P}.
Arguments Prepared {R Handle P}.

(** [PagingState]: [None] is the start, otherwise the raw bytes. *)
Definition PagingState : Type := option (list Z).

Inductive PagingStateResponse := HasMorePages (state : PagingState) | NoMorePages.

Record CassStatement (R Handle P : Type) := mkCassStatement {
  statement : BoundStatement R Handle P;
  paging_state : PagingState;
  paging_enabled : bool;
  exec_profile : option (PerStatementExecProfile Handle)
}.
Arguments mkCassStatement {R Handle P}.
Arguments statement {R Handle P}.
Arguments paging_state {R Handle P}.
Arguments paging_enabled {R Handle P}.
Arguments exec_profile {R Handle P}.

#[export] Instance CassStatement_eta R Handle P : Eta (CassStatement R Handle P) := fun r =>
  mkCassStatement (statement r) (paging_state r) (paging_enabled r) (exec_profile r).

(** ** Names

    A name in double quotes is case sensitive. *)

(** The name without its quotes and whether it had them. *)
Definition unquote (name : string) : string * bool :=
  match strip_prefix quote name ≫= strip_suffix quote with
  | Some name_unquoted => (name_unquoted, true)
  | None => (name, false)
  end.

(** The filter of [BoundPreparedStatement::bind_cql_value_by_name]. *)
Definition name_matches (is_case_sensitive : bool) (name col_name : string) : bool :=
  is_case_sensitive && bool_decide (col_name = name)
  || negb is_case_sensitive && eq_ignore_ascii_case col_name name.

(** [enumerate().filter(..).map(|(i, _)| i)]. *)
Fixpoint matching_indices {A} (p : A -> bool) (i : nat) (l : list A) : list nat :=
  match l with
  | [] => []
  | x :: l => if p x then i :: matching_indices p (S i) l else matching_indices p (S i) l
  end.

(** ** Binding values *)

Section Bind.
Context {R Handle P S : Type} `{DataTypes R} `{!PreparedStore R Handle P S}.

(** [BoundPreparedStatement::bind_cql_value].  [Panic] is a dangling reference,
    which the ownership of the [Arc] excludes. *)
Definition prepared_bind_cql_value (s : S) (self : BoundPreparedStatement R P) (index : nat)
    (value : option (CassCqlValue R)) : outcome (CassError * BoundPreparedStatement R P) :=
  match prepared_get s (bp_statement self) with
  | None => Panic
  | Some prepared =>
      match bp_bound_values self !! index, variable_col_data_types prepared !! index with
      | Some _, Some dt =>
          compatible ← is_type_compatible value dt;
          if (compatible : bool) then
            Ret (CASS_OK, self <| bp_bound_values := <[index := VSet value]> (bp_bound_values self) |>)
          else Ret (CASS_ERROR_LIB_INVALID_VALUE_TYPE, self)
      | _, _ => Ret (CASS_ERROR_LIB_INDEX_OUT_OF_BOUNDS, self)
      end
  end.

Fixpoint bind_multiple_values_by_name (s : S) (self : BoundPreparedStatement R P)
    (indices : list nat) (value : option (CassCqlValue R))
  : outcome (CassError * BoundPreparedStatement R P) :=
  match indices with
  | [] => Ret (CASS_OK, self)
  | i :: indices =>
      '(bind_status, self) ← prepared_bind_cql_value s self i value;
      if bool_decide (bind_status = CASS_OK) then bind_multiple_values_by_name s self indices value
      else Ret (bind_status, self)
  end.

Definition prepared_bind_cql_value_by_name (s : S) (self : BoundPreparedStatement R P)
    (name : string) (is_case_sensitive : bool) (value : option (CassCqlValue R))
  : outcome (CassError * BoundPreparedStatement R P) :=
  match prepared_get s (bp_statement self) with
  | None => Panic
  | Some prepared =>
      let indices := matching_indices (fun col => name_matches is_case_sensitive name col.1) 0
                       (variable_col_specs (prepared_statement prepared)) in
      match indices with
      | [] => Ret (CASS_ERROR_LIB_NAME_DOES_NOT_EXIST, self)
      | _ => bind_multiple_values_by_name s self indices value
      end
  end.

(** [BoundSimpleStatement::bind_cql_value]. *)
Definition simple_bind_cql_value (self : BoundSimpleStatement R Handle) (index : nat)
    (value : option (CassCqlValue R)) : CassError * BoundSimpleStatement R Handle :=
  match bs_bound_values self !! index with
  | Some _ => (CASS_OK, self <| bs_bound_values := <[index := VSet value]> (bs_bound_values self) |>)
  | None => (CASS_ERROR_LIB_INDEX_OUT_OF_BOUNDS, self)
  end.

Definition simple_bind_cql_value_by_name (self : BoundSimpleStatement R Handle) (name : string)
    (value : option (CassCqlValue R)) : CassError * BoundSimpleStatement R Handle :=
  match name_to_bound_index self !! name with
  | Some idx => simple_bind_cql_value self idx value
  | None =>
      let free_index := size (name_to_bound_index self) in
      if (length (bs_bound_values self) <=? free_index)%nat
      then (CASS_ERROR_LIB_NAME_DOES_NOT_EXIST, self)
      else
        simple_bind_cql_value
          (self <| name_to_bound_index := <[name := free_index]> (name_to_bound_index self) |>)
          free_index value
  end.

Definition statement_new (b : BoundStatement R Handle P) : CassStatement R Handle P :=
  mkCassStatement b None false None.

(** [CassStatement::bind_cql_value]. *)
Definition bind_cql_value (s : S) (self : CassStatement R Handle P) (index : nat)
    (value : option (CassCqlValue R)) : outcome (CassError * CassStatement R Handle P) :=
  match statement self with
  | Simple simple =>
      let '(err, simple) := simple_bind_cql_value simple index value in
      Ret (err, self <| statement := Simple simple |>)
  | Prepared prepared =>
      '(err, prepared) ← prepared_bind_cql_value s prepared index value;
      Ret (err, self <| statement := Prepared prepared |>)
  end.

(** [CassStatement::bind_cql_value_by_name]. *)
Definition bind_cql_value_by_name (s : S) (self : CassStatement R Handle P) (name : string)
    (value : option (CassCqlValue R)) : outcome (CassError * CassStatement R Handle P) :=
  let '(name_unquoted, is_case_sensitive) := unquote name in
  match statement self with
  | Simple simple =>
      let '(err, simple) := simple_bind_cql_value_by_name simple name_unquoted value in
      Ret (err, self <| statement := Simple simple |>)
  | Prepared prepared =>
      '(err, prepared) ← prepared_bind_cql_value_by_name s prepared name_unquoted is_case_sensitive value;
      Ret (err, self <| statement := Prepared prepared |>)
  end.

Definition reset_bound_values (self : CassStatement R Handle P) (count : nat)
  : CassStatement R Handle P :=
  match statement self with
  | Simple simple =>
      self <| statement := Simple (simple <| bs_bound_values := replicate count VUnset |>
                                          <| name_to_bound_index := ∅ |>) |>
  | Prepared prepared =>
      self <| statement := Prepared (prepared <| bp_bound_values := replicate count VUnset |>) |>
  end.

End Bind.

(** ** Row serialization of unprepared statements

    [serialize_cell] serializes one bound value for a column and [serialize_vec] is
    the driver's [SerializeRow] of a vector; rows are lists of serialized cells. *)
Inductive RowError (E : Type) :=
| UnknownNamedParameter (name : string)
| CellError (e : E).
Arguments UnknownNamedParameter {E}.
Arguments CellError {E}.

Record SimpleQueryRowSerializer (R : Type) := mkRowSerializer {
  rs_bound_values : list (bound R);
  rs_name_to_bound_index : gmap string nat
}.
Arguments mkRowSerializer {R}.
Arguments rs_bound_values {R}.
Arguments rs_name_to_bound_index {R}.

Section Row.
Context {R Cell E : Type}.
Variable serialize_cell : bound R -> ColumnType -> result E Cell.
Variable serialize_vec : list (bound R) -> list ColumnSpec -> result E (list Cell).

(** The [try_for_each] over the columns; [Panic] is an index out of range. *)
Fixpoint serialize_named (self : SimpleQueryRowSerializer R) (columns : list ColumnSpec)
  : outcome (result (RowError E) (list Cell)) :=
  match columns with
  | [] => Ret (Ok [])
  | col_spec :: columns =>
      match rs_name_to_bound_index self !! col_spec.1 with
      | None => Ret (Err (UnknownNamedParameter col_spec.1))
      | Some bound_values_idx =>
          match rs_bound_values self !! bound_values_idx with
          | None => Panic
          | Some val =>
              match serialize_cell val col_spec.2 with
              | Err e => Ret (Err (CellError e))
              | Ok cell =>
                  r ← serialize_named self columns;
                  Ret (match r with Ok cells => Ok (cell :: cells) | Err e => Err e end)
              end
          end
      end
  end.

Definition row_serialize (self : SimpleQueryRowSerializer R) (columns : list ColumnSpec)
  : outcome (result (RowError E) (list Cell)) :=
  if (size (rs_name_to_bound_index self) =? 0)%nat then
    Ret (match serialize_vec (rs_bound_values self) columns with
         | Ok cells => Ok cells
         | Err e => Err (CellError e)
         end)
  else serialize_named self columns.

End Row.

(** ** The setters of the C API

    Each of them takes the object behind a statement pointer; [set_driver] is the
    [match] over the two kinds of statement that every setter ends with. *)

Section Setters.
Context {R Handle P S : Type} `{DataTypes R} `{!PreparedStore R Handle P S}.

Definition set_driver (f : Settings Handle -> Settings Handle) (self : CassStatement R Handle P) (s : S)
  : CassStatement R Handle P * S :=
  match statement self with
  | Simple inner =>
      (self <| statement := Simple (inner <| query := (query inner) <| st_settings ::= f |> |>) |>, s)
  | Prepared inner =>
      let '(p, s) :=
        prepared_modify
          (fun p => p <| prepared_statement := (prepared_statement p) <| ps_settings ::= f |> |>)
          (bp_statement inner) s in
      (self <| statement := Prepared (inner <| bp_statement := p |>) |>, s)
  end.

Notation stmt := (CassStatement R Handle P).
Notation setter := (outcome (CassError * (stmt * S))).

Definition fails (e : CassError) (self : stmt) (s : S) : setter := Ret (e, (self, s)).
Definition sets (f : Settings Handle -> Settings Handle) (self : stmt) (s : S) : setter :=
  Ret (CASS_OK, set_driver f self s).

Definition set_consistency (consistency : CassConsistency) (self : stmt) (s : S) : setter :=
  match from_c_value (T := Consistency) consistency with
  | Err _ => fails CASS_ERROR_LIB_BAD_PARAMS self s
  | Ok Unset => sets (fun q => q <| s_consistency := None |>) self s
  | Ok (SetTo consistency) => sets (fun q => q <| s_consistency := Some consistency |>) self s
  end.

Definition set_serial_consistency (serial_consistency : CassConsistency) (self : stmt) (s : S) : setter :=
  match from_c_value (T := option SerialConsistency) serial_consistency with
  | Err _ => fails CASS_ERROR_LIB_BAD_PARAMS self s
  | Ok Unset => sets (fun q => q <| s_serial_consistency := None |>) self s
  | Ok (SetTo sc) => sets (fun q => q <| s_serial_consistency := Some sc |>) self s
  end.

Definition set_paging_size (page_size : Z) (self : stmt) (s : S) : setter :=
  if page_size <=? 0 then Ret (CASS_OK, (self <| paging_enabled := false |>, s))
  else sets (fun q => q <| s_page_size := Some page_size |>) (self <| paging_enabled := true |>) s.

(** The argument is the [paging_state_response] of the result behind the pointer. *)
Definition set_paging_state (result : option PagingStateResponse) (self : stmt) (s : S) : setter :=
  match result with
  | None => fails CASS_ERROR_LIB_BAD_PARAMS self s
  | Some (HasMorePages state) => Ret (CASS_OK, (self <| paging_state := state |>, s))
  | Some NoMorePages => Ret (CASS_OK, (self <| paging_state := None |>, s))
  end.

Definition set_paging_state_token (token : option (list Z)) (paging_state_size : nat)
    (self : stmt) (s : S) : setter :=
  let state :=
    match token with
    | Some bytes => if (paging_state_size =? 0)%nat then None else Some (take paging_state_size bytes)
    | None => None
    end in
  Ret (CASS_OK, (self <| paging_state := state |>, s)).

Definition set_is_idempotent (is_idempotent : Z) (self : stmt) (s : S) : setter :=
  sets (fun q => q <| s_is_idempotent := negb (is_idempotent =? 0) |>) self s.

Definition set_tracing (enabled : Z) (self : stmt) (s : S) : setter :=
  sets (fun q => q <| s_tracing := negb (enabled =? 0) |>) self s.

Definition set_target (node : NodeIdentifier) (self : stmt) (s : S) : setter :=
  sets (fun q => q <| s_load_balancing_policy := Some node |>) self s.

Definition set_host_n (host : char_ptr) (host_length : nat) (port : Z) (self : stmt) (s : S) : setter :=
  match to_str host host_length with
  | Ok host =>
      match try_u 16 port with
      | None => fails CASS_ERROR_LIB_BAD_PARAMS self s
      | Some port =>
          match IpAddr_from_str (as_bytes host) with
          | Some ip_addr => set_target (NodeAddress ip_addr port) self s
          | None => fails CASS_ERROR_LIB_BAD_PARAMS self s
          end
      end
  | Err _ => fails CASS_ERROR_LIB_BAD_PARAMS self s
  end.

Definition set_host (host : char_ptr) (port : Z) (self : stmt) (s : S) : setter :=
  let '(host, host_length) := as_len_delimited host in set_host_n host host_length port self s.

Definition set_host_inet (host : option CassInet) (port : Z) (self : stmt) (s : S) : setter :=
  match host with
  | None => fails CASS_ERROR_LIB_BAD_PARAMS self s
  | Some host =>
      match IpAddr_try_from host with
      | None => fails CASS_ERROR_LIB_BAD_PARAMS self s
      | Some ip_addr =>
          match try_u 16 port with
          | None => fails CASS_ERROR_LIB_BAD_PARAMS self s
          | Some port => set_target (NodeAddress ip_addr port) self s
          end
      end
  end.

Definition set_node (node : option LoadBalancing.Node) (self : stmt) (s : S) : setter :=
  match node with
  | None => fails CASS_ERROR_LIB_BAD_PARAMS self s
  | Some node => set_target (NodeObject node) self s
  end.

Definition set_retry_policy (policy : option CassRetryPolicy) (self : stmt) (s : S) : setter :=
  p ← retry_policy_opt policy; sets (fun q => q <| s_retry_policy := p |>) self s.

Definition set_timestamp (timestamp : Z) (self : stmt) (s : S) : setter :=
  sets (fun q => q <| s_timestamp := Some timestamp |>) self s.

(** The timeout a driver statement is given: [None] defers to the execution profile,
    so "no timeout" is an infinite one. *)
Definition statement_timeout (timeout_ms : Z) : option Duration :=
  match from_c_value_infallible (T := RequestTimeout) timeout_ms with
  | Unset => None
  | SetTo timeout => Some (default INFINITE timeout)
  end.

Definition set_request_timeout (timeout_ms : Z) (self : stmt) (s : S) : setter :=
  sets (fun q => q <| s_request_timeout := statement_timeout timeout_ms |>) self s.

Definition reset_parameters (count : nat) (self : stmt) (s : S) : setter :=
  Ret (CASS_OK, (reset_bound_values self count, s)).

(** exec_profile.rs: [cass_statement_set_execution_profile_n]. *)
Definition statement_set_execution_profile_n (name : char_ptr) (name_length : nat) (self : stmt) (s : S)
  : setter :=
  let '(err, p) := set_execution_profile_n name name_length (exec_profile self) in
  Ret (err, (self <| exec_profile := p |>, s)).

(** The binders, by the macros of binding.rs. *)
Definition drop_ptr (old : stmt) (s : S) (r : outcome (CassError * option stmt)) : setter :=
  '(err, st) ← r; Ret (err, (default old st, s)).

Definition cass_statement_bind (index : nat) (a : bind_arg R) (self : stmt) (s : S) : setter :=
  drop_ptr self s (index_binder (bind_cql_value s) (Some self) index a).

Definition cass_statement_bind_by_name_n (name : char_ptr) (name_length : nat) (a : bind_arg R)
    (self : stmt) (s : S) : setter :=
  drop_ptr self s (name_n_binder (bind_cql_value_by_name s) (Some self) name name_length a).

Definition cass_statement_bind_by_name (name : char_ptr) (a : bind_arg R) (self : stmt) (s : S) : setter :=
  drop_ptr self s (name_binder (bind_cql_value_by_name s) (Some self) name a).

(** A call on a statement. *)
Inductive stmt_call :=
| SetConsistency (c : CassConsistency)
| SetSerialConsistency (c : CassConsistency)
| SetPagingSize (n : Z)
| SetPagingState (r : option PagingStateResponse)
| SetPagingStateToken (token : option (list Z)) (n : nat)
| SetIsIdempotent (b : Z)
| SetTracing (b : Z)
| SetHost (host : char_ptr) (port : Z)
| SetHostN (host : char_ptr) (n : nat) (port : Z)
| SetHostInet (host : option CassInet) (port : Z)
| SetNode (node : option LoadBalancing.Node)
| SetRetryPolicy (p : option CassRetryPolicy)
| SetTimestamp (t : Z)
| SetRequestTimeout (ms : Z)
| ResetParameters (count : nat)
| SetExecutionProfileN (name : char_ptr) (n : nat)
| Bind (index : nat) (a : bind_arg R)
| BindByNameN (name : char_ptr) (n : nat) (a : bind_arg R)
| BindByName (name : char_ptr) (a : bind_arg R).

Definition stmt_exec (c : stmt_call) : stmt -> S -> setter :=
  match c with
  | SetConsistency c => set_consistency c
  | SetSerialConsistency c => set_serial_consistency c
  | SetPagingSize n => set_paging_size n
  | SetPagingState r => set_paging_state r
  | SetPagingStateToken token n => set_paging_state_token token n
  | SetIsIdempotent b => set_is_idempotent b
  | SetTracing b => set_tracing b
  | SetHost host port => set_host host port
  | SetHostN host n port => set_host_n host n port
  | SetHostInet host port => set_host_inet host port
  | SetNode node => set_node node
  | SetRetryPolicy p => set_retry_policy p
  | SetTimestamp t => set_timestamp t
  | SetRequestTimeout ms => set_request_timeout ms
  | ResetParameters count => reset_parameters count
  | SetExecutionProfileN name n => statement_set_execution_profile_n name n
  | Bind index a => cass_statement_bind index a
  | BindByNameN name n a => cass_statement_bind_by_name_n name n a
  | BindByName name a => cass_statement_bind_by_name name a
  end.

End Setters.

Arguments stmt_call : clear implicits.

(** ** Objects and their owners

    What the caller and the request futures own: prepared statements, statements,
    and the clone of a statement that a request runs with.  Objects are numbered;
    a number that is not in use stands for the null pointer. *)
Inductive object (R Handle P : Type) :=
| OPrepared (p : P)
| OStatement (st : CassStatement R Handle P)
| ORunning (b : BoundStatement R Handle P).
Arguments OPrepared {R Handle P}.
Arguments OStatement {R Handle P}.
Arguments ORunning {R Handle P}.

Record world (R Handle P S : Type) := mkWorld {
  objects : gmap nat (object R Handle P);
  store : S
}.
Arguments mkWorld {R Handle P S}.
Arguments objects {R Handle P S}.
Arguments store {R Handle P S}.

Section World.
Context {R Handle P S : Type} `{DataTypes R} `{!PreparedStore R Handle P S}.

Definition bound_ref (b : BoundStatement R Handle P) : option P :=
  match b with Simple _ => None | Prepared p => Some (bp_statement p) end.

Definition object_ref (o : object R Handle P) : option P :=
  match o with
  | OPrepared p => Some p
  | OStatement st => bound_ref (statement st)
  | ORunning b => bound_ref b
  end.

(** [Clone for BoundStatement]: the values are copied, the prepared statement is
    shared. *)
Definition clone_bound (b : BoundStatement R Handle P) (s : S) : S :=
  match bound_ref b with Some p => prepared_clone p s | None => s end.

Definition add_object (o : object R Handle P) (s : S) (w : world R Handle P S) : world R Handle P S :=
  mkWorld (<[fresh (dom (objects w)) := o]> (objects w)) s.

(** [cass_statement_new_n]. *)
Definition cass_statement_new_n (q : char_ptr) (query_length parameter_count : nat)
    (w : world R Handle P S) : world R Handle P S :=
  match to_str q query_length with
  | Ok query_str =>
      add_object (OStatement (statement_new (Simple
        (mkBoundSimple (mkStatement query_str settings_default) (replicate parameter_count VUnset) ∅))))
        (store w) w
  | Err _ => w
  end.

(** [cass_prepared_bind]. *)
Definition cass_prepared_bind (id : nat) (w : world R Handle P S) : outcome (world R Handle P S) :=
  match objects w !! id with
  | Some (OPrepared p) =>
      let s := prepared_clone p (store w) in
      match prepared_get s p with
      | None => Panic
      | Some prepared =>
          let bound_values_size := length (variable_col_specs (prepared_statement prepared)) in
          Ret (add_object (OStatement (statement_new (Prepared
            (mkBoundPrepared p (replicate bound_values_size VUnset))))) s w)
      end
  | _ => Ret w
  end.

(** The clone a request future of [cass_session_execute] takes. *)
Definition session_execute_clone (id : nat) (w : world R Handle P S) : world R Handle P S :=
  match objects w !! id with
  | Some (OStatement st) =>
      add_object (ORunning (statement st)) (clone_bound (statement st) (store w)) w
  | _ => w
  end.

(** [set_execution_profile_handle] on the clone, inside the future. *)
Definition execute_set_handle (id : nat) (handle : option Handle) (w : world R Handle P S)
  : world R Handle P S :=
  match objects w !! id with
  | Some (ORunning b) =>
      let '(st, s) := set_driver (fun q => q <| s_execution_profile := handle |>)
                        (statement_new b) (store w) in
      mkWorld (<[id := ORunning (statement st)]> (objects w)) s
  | _ => w
  end.

(** [cass_session_prepare_from_existing] on a statement that is already prepared. *)
Definition prepare_from_existing (id : nat) (w : world R Handle P S) : world R Handle P S :=
  match objects w !! id with
  | Some (OStatement st) =>
      match bound_ref (statement st) with
      | Some p => add_object (OPrepared p) (prepared_clone p (store w)) w
      | None => w
      end
  | _ => w
  end.

(** A prepared statement arrives from the server. *)
Definition prepare_finishes (p : CassPrepared R Handle) (w : world R Handle P S) : world R Handle P S :=
  let '(p, s) := prepared_new p (store w) in add_object (OPrepared p) s w.

(** [cass_statement_free], [cass_prepared_free] and the end of a request. *)
Definition release (id : nat) (w : world R Handle P S) : world R Handle P S :=
  match objects w !! id with
  | Some o =>
      mkWorld (delete id (objects w))
        (match object_ref o with Some p => prepared_drop p (store w) | None => store w end)
  | None => w
  end.

Definition call_statement (id : nat) (c : stmt_call R) (w : world R Handle P S)
  : outcome (CassError * world R Handle P S) :=
  match objects w !! id with
  | Some (OStatement st) =>
      '(err, (st, s)) ← stmt_exec c st (store w);
      Ret (err, mkWorld (<[id := OStatement st]> (objects w)) s)
  | _ => Ret (CASS_ERROR_LIB_BAD_PARAMS, w)
  end.

Inductive world_call :=
| CallStatement (id : nat) (c : stmt_call R)
| StatementNew (q : char_ptr) (query_length parameter_count : nat)
| PreparedBind (id : nat)
| SessionExecute (id : nat)
| ExecuteSetHandle (id : nat) (handle : option Handle)
| PrepareFromExisting (id : nat)
| PrepareFinishes (p : CassPrepared R Handle)
| Release (id : nat).

Definition world_exec (c : world_call) (w : world R Handle P S)
  : outcome (CassError * world R Handle P S) :=
  match c with
  | CallStatement id c => call_statement id c w
  | StatementNew q n count => Ret (CASS_OK, cass_statement_new_n q n count w)
  | PreparedBind id => w ← cass_prepared_bind id w; Ret (CASS_OK, w)
  | SessionExecute id => Ret (CASS_OK, session_execute_clone id w)
  | ExecuteSetHandle id handle => Ret (CASS_OK, execute_set_handle id handle w)
  | PrepareFromExisting id => Ret (CASS_OK, prepare_from_existing id w)
  | PrepareFinishes p => Ret (CASS_OK, prepare_finishes p w)
  | Release id => Ret (CASS_OK, release id w)
  end.

(** A sequence of calls and the codes they return. *)
Fixpoint world_run (l : list world_call) (w : world R Handle P S)
  : outcome (list CassError * world R Handle P S) :=
  match l with
  | [] => Ret ([], w)
  | c :: l =>
      '(e, w) ← world_exec c w;
      '(es, w) ← world_run l w;
      Ret (e :: es, w)
  end.

End World.

Arguments world_call : clear implicits.

(** ** Copy-on-write implements value semantics *)

Section Refinement.
Context {R Handle : Type} `{DataTypes R}.

Notation prep := (CassPrepared R Handle).
Notation heap_of := (arc_store (CassPrepared R Handle)).

(** What a reference, a statement and an object stand for in a heap. *)
Definition view_bound (h : heap_of) (b : BoundStatement R Handle nat) : option (BoundStatement R Handle prep) :=
  match b with
  | Simple q => Some (Simple q)
  | Prepared p => (fun v => Prepared (mkBoundPrepared v (bp_bound_values p))) <$> arc_get (bp_statement p) h
  end.

Definition view_stmt (h : heap_of) (st : CassStatement R Handle nat) : option (CassStatement R Handle prep) :=
  (fun b => mkCassStatement b (paging_state st) (paging_enabled st) (exec_profile st))
    <$> view_bound h (statement st).

Definition view_object (h : heap_of) (o : object R Handle nat) : option (object R Handle prep) :=
  match o with
  | OPrepared p => OPrepared <$> arc_get p h
  | OStatement st => OStatement <$> view_stmt h st
  | ORunning b => ORunning <$> view_bound h b
  end.

Definition abstract (w : world R Handle nat heap_of) : world R Handle prep unit :=
  mkWorld (omap (view_object (store w)) (objects w)) tt.

(** The references the objects own are the ones the heap counts. *)
Definition owners (m : gmap nat (object R Handle nat)) : gmap nat nat := omap object_ref m.

Definition world_ok (w : world R Handle nat heap_of) : Prop := arc_ok (owners (objects w)) (store w).

(** *** A heap change that keeps what an object refers to keeps its view *)

Lemma view_object_get h h' o :
  (forall l, object_ref o = Some l -> arc_get l h' = arc_get l h) -> view_object h' o = view_object h o.
Proof.
  destruct o as [p|[[q|p] ? ? ?]|[q|p]]; simpl; intros Hg; try done; unfold view_stmt; simpl; by rewrite Hg.
Qed.

Lemma view_object_some h o :
  (forall l, object_ref o = Some l -> is_Some (arc_get l h)) -> is_Some (view_object h o).
Proof.
  destruct o as [p|[[q|p] ? ? ?]|[q|p]]; simpl; intros Hg; try (by eexists); unfold view_stmt; simpl;
    destruct (Hg _ eq_refl) as [v ->]; by eexists.
Qed.

Lemma world_ok_view w id o :
  world_ok w -> objects w !! id = Some o ->
  exists v, view_object (store w) o = Some v /\ objects (abstract w) !! id = Some v.
Proof.
  intros Hok Ho. destruct (view_object_some (store w) o) as [v Hv].
  { intros l Hl. destruct (arc_ok_get (owners (objects w)) (store w) id l Hok) as [x Hx].
    { unfold owners. by rewrite lookup_omap, Ho. }
    unfold arc_get. rewrite Hx. by eexists. }
  exists v. split; [done|]. simpl. by rewrite lookup_omap, Ho.
Qed.

Lemma world_ok_dom w : world_ok w -> dom (objects (abstract w)) = dom (objects w).
Proof.
  intros Hok. apply set_eq. intros id. rewrite !elem_of_dom. split.
  - intros [v Hv]. simpl in Hv. rewrite lookup_omap in Hv. destruct (objects w !! id); [by eexists|done].
  - intros [o Ho]. destruct (world_ok_view _ _ _ Hok Ho) as (v & _ & Hv). by eexists.
Qed.

(** *** Replacing one object

    The object [id] becomes [o], the heap [h']; every other owner reads what it
    read before. *)
Lemma world_replace w id o v h' :
  view_object h' o = Some v ->
  (forall id' l, id' <> id -> owners (objects w) !! id' = Some l -> arc_get l h' = arc_get l (store w)) ->
  abstract (mkWorld (<[id := o]> (objects w)) h') = mkWorld (<[id := v]> (objects (abstract w))) tt.
Proof.
  intros Hv Hother. unfold abstract. simpl. f_equal. apply map_eq. intros id'.
  rewrite lookup_omap. destruct (decide (id = id')) as [<-|Hne].
  - by rewrite !lookup_insert_eq.
  - rewrite !lookup_insert_ne, lookup_omap by done. destruct (objects w !! id') as [o'|] eqn:Ho'; [|done].
    simpl. apply view_object_get. intros l Hl. apply (Hother id'); [done|].
    unfold owners. by rewrite lookup_omap, Ho'.
Qed.

Lemma owners_insert m id o :
  owners (<[id := o]> m) =
  match object_ref o with Some l => <[id := l]> (owners m) | None => delete id (owners m) end.
Proof.
  apply map_eq. intros id'. unfold owners. rewrite lookup_omap.
  destruct (decide (id = id')) as [<-|Hne].
  - rewrite lookup_insert_eq. simpl. destruct (object_ref o); [by rewrite lookup_insert_eq|by rewrite lookup_delete_eq].
  - rewrite lookup_insert_ne by done.
    destruct (object_ref o); [rewrite lookup_insert_ne by done|rewrite lookup_delete_ne by done];
      by rewrite lookup_omap.
Qed.

Lemma owners_delete m id : owners (delete id m) = delete id (owners m).
Proof. unfold owners. apply omap_delete. Qed.

(** Views of the other owners after an operation, from the equation on views that
    the lemmas of Arc.v give. *)
Lemma view_other (o o' : gmap nat nat) (h h' : heap_of) (f : gmap nat prep -> gmap nat prep) id :
  arc_view o' h' = f (arc_view o h) ->
  (forall m id', id' <> id -> f m !! id' = m !! id') ->
  (forall id', id' <> id -> o' !! id' = o !! id') ->
  forall id' l, id' <> id -> o !! id' = Some l -> arc_get l h' = arc_get l h.
Proof.
  intros Hview Hf Ho id' l Hne Hl.
  assert (E : arc_view o' h' !! id' = arc_view o h !! id') by (rewrite Hview; by apply Hf).
  rewrite !arc_view_lookup, Ho, Hl in E by done. done.
Qed.

(** *** Calls on a statement *)

Definition setter_sim (o : gmap nat nat) (id : nat) (h : heap_of)
    (r : outcome (CassError * (CassStatement R Handle nat * heap_of)))
    (r' : outcome (CassError * (CassStatement R Handle prep * unit))) : Prop :=
  match r with
  | Ret (e, (st', h')) =>
      exists v, r' = Ret (e, (v, tt)) /\ view_stmt h' st' = Some v /\
        arc_ok (match bound_ref (statement st') with Some l => <[id := l]> o | None => delete id o end) h' /\
        (forall id' l, id' <> id -> o !! id' = Some l -> arc_get l h' = arc_get l h)
  | Panic => r' = Panic
  | Diverge => r' = Diverge
  end.

Section Simulation.
Variables (o : gmap nat nat) (id : nat) (h : heap_of).
Hypothesis Hok : arc_ok o h.

(** A statement [st] of the caller and its view. *)
Definition stands_for (st : CassStatement R Handle nat) (v : CassStatement R Handle prep) : Prop :=
  o !! id = bound_ref (statement st) /\ view_stmt h st = Some v.

Lemma sim_pure e st v : stands_for st v -> setter_sim o id h (Ret (e, (st, h))) (Ret (e, (v, tt))).
Proof.
  intros [Ho Hv]. exists v. split_and!; [done|done| |done].
  destruct (bound_ref (statement st)) as [l|].
  - by rewrite insert_id.
  - by rewrite delete_id.
Qed.

Lemma sim_sets f st v : stands_for st v -> setter_sim o id h (sets f st h) (sets f v tt).
Proof.
  intros [Ho Hv]. unfold sets, set_driver. destruct st as [[q|p] ps pe ep]; unfold view_stmt in Hv; simpl in *.
  - injection Hv as <-. simpl. by apply (sim_pure CASS_OK (mkCassStatement (Simple _) _ _ _)).
  - destruct (arc_get (bp_statement p) h) as [x|] eqn:Hx; simpl in Hv; [|done]. injection Hv as <-. simpl.
    set (g := fun p : prep => _). pose proof (arc_make_mut_ok g o h id _ Hok Ho) as Hm.
    destruct (arc_make_mut g (bp_statement p) h) as [l' h'] eqn:Em. destruct Hm as [Hok' Hview].
    assert (Hl : arc_get l' h' = Some (g x)).
    { assert (E : arc_view (<[id := l']> o) h' !! id = Some (g x)).
      { rewrite Hview, lookup_alter_eq, arc_view_lookup, Ho. simpl. by rewrite Hx. }
      rewrite arc_view_lookup, lookup_insert_eq in E. done. }
    simpl. eexists. split_and!; [done| |done|].
    + unfold view_stmt. simpl. by rewrite Hl.
    + eapply view_other; [exact Hview| |]; intros; [by rewrite lookup_alter_ne|by rewrite lookup_insert_ne].
Qed.

(** Binding reads the prepared statement and changes the values only. *)
Definition bind_sim {A B} (rel : A -> B -> Prop) (r : outcome (CassError * A)) (r' : outcome (CassError * B))
  : Prop :=
  match r with
  | Ret (e, a) => exists b, r' = Ret (e, b) /\ rel a b
  | Panic => r' = Panic
  | Diverge => r' = Diverge
  end.

Definition prepared_stands_for (p : BoundPreparedStatement R nat) (v : BoundPreparedStatement R prep) : Prop :=
  o !! id = Some (bp_statement p) /\ arc_get (bp_statement p) h = Some (bp_statement v) /\
  bp_bound_values v = bp_bound_values p.

Lemma prepared_bind_sim p v index value :
  prepared_stands_for p v ->
  bind_sim prepared_stands_for (prepared_bind_cql_value (Handle := Handle) h p index value)
    (prepared_bind_cql_value (Handle := Handle) tt v index value).
Proof.
  intros (Ho & Hg & Hb). unfold prepared_bind_cql_value. simpl. rewrite Hg, Hb.
  destruct (bp_bound_values p !! index); [|by exists v].
  destruct (variable_col_data_types (bp_statement v) !! index); [|by exists v].
  destruct (is_type_compatible value r) as [[]| |]; simpl; try done; by eexists.
Qed.

Lemma bind_multiple_sim indices value p v :
  prepared_stands_for p v ->
  bind_sim prepared_stands_for (bind_multiple_values_by_name (Handle := Handle) h p indices value)
    (bind_multiple_values_by_name (Handle := Handle) tt v indices value).
Proof.
  revert p v; induction indices as [|i indices IH]; intros p v Hp; simpl; [by exists v|].
  pose proof (prepared_bind_sim p v i value Hp) as Hs. unfold bind_sim in Hs.
  destruct (prepared_bind_cql_value h p i value) as [[e p']| |]; simpl in *; [|by rewrite Hs..].
  destruct Hs as (v' & -> & Hp'). simpl. destruct (bool_decide (e = CASS_OK)); [by apply IH|by exists v'].
Qed.

Lemma prepared_bind_name_sim p v name cs value :
  prepared_stands_for p v ->
  bind_sim prepared_stands_for (prepared_bind_cql_value_by_name (Handle := Handle) h p name cs value)
    (prepared_bind_cql_value_by_name (Handle := Handle) tt v name cs value).
Proof.
  intros Hp. pose proof Hp as (_ & Hg & _). unfold prepared_bind_cql_value_by_name. simpl. rewrite Hg.
  destruct (matching_indices _ _ _) as [|i l]; [by exists v|]. by apply bind_multiple_sim.
Qed.

Lemma stands_for_prepared (p : BoundPreparedStatement R nat) ps pe ep v :
  stands_for (mkCassStatement (Prepared p) ps pe ep) v <->
  exists q, v = mkCassStatement (Prepared q) ps pe ep /\ prepared_stands_for p q.
Proof.
  unfold stands_for, prepared_stands_for, view_stmt. simpl. split.
  - intros [Ho Hv]. destruct (arc_get _ h) as [x|]; [|done]. injection Hv as <-.
    exists (mkBoundPrepared x (bp_bound_values p)). done.
  - intros ([x vs] & -> & Ho & Hg & Hb). simpl in *. rewrite Hg. by subst vs.
Qed.

Lemma bind_cql_value_sim st v index value :
  stands_for st v -> bind_sim stands_for (bind_cql_value h st index value) (bind_cql_value tt v index value).
Proof.
  intros Hst. unfold bind_cql_value. destruct st as [[q|p] ps pe ep].
  - destruct Hst as [Ho Hv]. injection Hv as <-. simpl.
    destruct (simple_bind_cql_value q index value) as [e q']. simpl. by eexists.
  - apply stands_for_prepared in Hst as (q & -> & Hp). simpl.
    pose proof (prepared_bind_sim p q index value Hp) as Hs. unfold bind_sim in Hs.
    destruct (prepared_bind_cql_value h p index value) as [[e p']| |]; simpl in *; [|by rewrite Hs..].
    destruct Hs as (q' & -> & Hp'). simpl. eexists. split; [done|]. apply stands_for_prepared. by exists q'.
Qed.

Lemma bind_cql_value_by_name_sim st v name value :
  stands_for st v ->
  bind_sim stands_for (bind_cql_value_by_name h st name value) (bind_cql_value_by_name tt v name value).
Proof.
  intros Hst. unfold bind_cql_value_by_name. destruct (unquote name) as [n cs]. destruct st as [[q|p] ps pe ep].
  - destruct Hst as [Ho Hv]. injection Hv as <-. simpl.
    destruct (simple_bind_cql_value_by_name q n value) as [e q']. simpl. by eexists.
  - apply stands_for_prepared in Hst as (q & -> & Hp). simpl.
    pose proof (prepared_bind_name_sim p q n cs value Hp) as Hs. unfold bind_sim in Hs.
    destruct (prepared_bind_cql_value_by_name h p n cs value) as [[e p']| |]; simpl in *; [|by rewrite Hs..].
    destruct Hs as (q' & -> & Hp'). simpl. eexists. split; [done|]. apply stands_for_prepared. by exists q'.
Qed.

Lemma drop_ptr_sim st v k k' :
  bind_sim stands_for k k' ->
  setter_sim o id h (drop_ptr st h ('(err, this) ← k; Ret (err, Some this)))
    (drop_ptr v tt ('(err, this) ← k'; Ret (err, Some this))).
Proof.
  unfold bind_sim. destruct k as [[e st']| |]; simpl; [|by intros ->..].
  intros (v' & -> & Hst'). by apply (sim_pure e st' v').
Qed.

(** A binder converts its argument and then binds. *)
Lemma convert_sim st v (a : bind_arg R) k k' :
  stands_for st v -> (forall value, bind_sim stands_for (k value) (k' value)) ->
  setter_sim o id h
    (drop_ptr st h (r ← convert_arg a;
       match r with
       | Ok value => '(err, this) ← k value; Ret (err, Some this)
       | Err e => Ret (e, Some st)
       end))
    (drop_ptr v tt (r ← convert_arg a;
       match r with
       | Ok value => '(err, this) ← k' value; Ret (err, Some this)
       | Err e => Ret (e, Some v)
       end)).
Proof.
  intros Hst Hk. destruct (convert_arg a) as [[value|e]| |]; simpl; [|by apply sim_pure|done..].
  by apply drop_ptr_sim.
Qed.

Lemma stmt_exec_sim c st v :
  stands_for st v -> setter_sim o id h (stmt_exec c st h) (stmt_exec c v tt).
Proof.
  intros Hst. pose proof (fun e => sim_pure e st v Hst) as Hpure.
  pose proof (fun f => sim_sets f st v Hst) as Hsets.
  assert (Hview : forall x, view_stmt h st = Some x -> exists b, view_bound h (statement st) = Some b /\
    x = mkCassStatement b (paging_state st) (paging_enabled st) (exec_profile st)).
  { intros x Hx. unfold view_stmt in Hx. destruct (view_bound h (statement st)) as [b|]; [|done].
    injection Hx as <-. by exists b. }
  assert (Hupd : forall ps pe ep, stands_for (mkCassStatement (statement st) ps pe ep)
      (mkCassStatement (statement v) ps pe ep)).
  { intros ps pe ep. destruct Hst as [Ho Hv]. split; [done|]. destruct (Hview _ Hv) as (b & Hb & ->).
    unfold view_stmt. simpl. by rewrite Hb. }
  assert (Hfields : paging_state v = paging_state st /\ paging_enabled v = paging_enabled st /\
    exec_profile v = exec_profile st).
  { destruct Hst as [Ho Hv]. by destruct (Hview _ Hv) as (b & Hb & ->). }
  destruct Hfields as (Eps & Epe & Eep).
  destruct c; cbn [stmt_exec].
  - unfold set_consistency. destruct (from_c_value c) as [[|]|]; first [apply Hpure|apply Hsets].
  - unfold set_serial_consistency. destruct (from_c_value c) as [[|]|]; first [apply Hpure|apply Hsets].
  - unfold set_paging_size. destruct (n <=? 0); [apply sim_pure|apply sim_sets];
      unfold update; rewrite Eps, Eep; apply Hupd.
  - unfold set_paging_state. destruct r as [[state|]|]; [apply sim_pure..|first [apply Hpure|apply Hsets]];
      unfold update; rewrite Epe, Eep; apply Hupd.
  - unfold set_paging_state_token, update. cbv zeta. apply sim_pure. rewrite Epe, Eep. apply Hupd.
  - apply Hsets.
  - apply Hsets.
  - unfold set_host. destruct (as_len_delimited host) as [host' n]. unfold set_host_n.
    destruct (to_str host' n) as [s'|]; [|first [apply Hpure|apply Hsets]]. destruct (try_u 16 port); [|first [apply Hpure|apply Hsets]].
    destruct (IpAddr_from_str (as_bytes s')); first [apply Hpure|apply Hsets].
  - unfold set_host_n. destruct (to_str host n) as [s'|]; [|first [apply Hpure|apply Hsets]]. destruct (try_u 16 port); [|first [apply Hpure|apply Hsets]].
    destruct (IpAddr_from_str (as_bytes s')); first [apply Hpure|apply Hsets].
  - unfold set_host_inet. destruct host as [host|]; [|first [apply Hpure|apply Hsets]]. destruct (IpAddr_try_from host); [|first [apply Hpure|apply Hsets]].
    destruct (try_u 16 port); first [apply Hpure|apply Hsets].
  - unfold set_node. destruct node; first [apply Hpure|apply Hsets].
  - unfold set_retry_policy. destruct (retry_policy_opt p); [first [apply Hpure|apply Hsets]|done..].
  - apply Hsets.
  - apply Hsets.
  - unfold reset_parameters. apply sim_pure. destruct st as [[q|p] ps pe ep].
    + destruct Hst as [Ho Hv]. injection Hv as <-. done.
    + apply stands_for_prepared in Hst as (q & -> & (Ho & Hg & Hb)). apply stands_for_prepared.
      simpl. eexists. split; [done|]. done.
  - unfold statement_set_execution_profile_n. rewrite Eep.
    destruct (set_execution_profile_n name n (exec_profile st)) as [e p]. apply sim_pure.
    unfold update; rewrite Eps, Epe; apply Hupd.
  - apply convert_sim; [done|]. intros value. by apply bind_cql_value_sim.
  - unfold cass_statement_bind_by_name_n, name_n_binder. destruct (to_str name n) as [nm|[]]; [|first [apply Hpure|apply Hsets]..].
    destruct (bool_decide (nm = EmptyString)); [first [apply Hpure|apply Hsets]|].
    apply convert_sim; [done|]. intros value. by apply bind_cql_value_by_name_sim.
  - unfold cass_statement_bind_by_name, name_binder. destruct (nul_to_str name) as [nm|[]]; [|first [apply Hpure|apply Hsets]..].
    destruct (bool_decide (nm = EmptyString)); [first [apply Hpure|apply Hsets]|].
    apply convert_sim; [done|]. intros value. by apply bind_cql_value_by_name_sim.
Qed.

End Simulation.

(** *** Calls on the world *)

Definition world_sim (r : outcome (CassError * world R Handle nat heap_of))
    (r' : outcome (CassError * world R Handle prep unit)) : Prop :=
  match r with
  | Ret (e, w') => world_ok w' /\ r' = Ret (e, abstract w')
  | Panic => r' = Panic
  | Diverge => r' = Diverge
  end.

Lemma world_object_ref (w : world R Handle nat heap_of) id ob :
  objects w !! id = Some ob -> owners (objects w) !! id = object_ref ob.
Proof. intros Ho. unfold owners. by rewrite lookup_omap, Ho. Qed.

(** Adding an object that refers to [l], which no other owner is disturbed by. *)
Lemma add_object_sim w ob v l h' :
  world_ok w -> object_ref ob = Some l ->
  arc_ok (<[fresh (dom (objects w)) := l]> (owners (objects w))) h' ->
  (forall id l, owners (objects w) !! id = Some l -> arc_get l h' = arc_get l (store w)) ->
  view_object h' ob = Some v ->
  world_ok (add_object ob h' w) /\ abstract (add_object ob h' w) = add_object v tt (abstract w).
Proof.
  intros Hok Href Hok' Hget Hv. unfold add_object. split.
  - unfold world_ok. simpl. by rewrite owners_insert, Href.
  - rewrite world_ok_dom by done. rewrite (world_replace w _ ob v h'); [done|done|].
    intros id l' _. by apply Hget.
Qed.

Lemma fresh_owner (w : world R Handle nat heap_of) : owners (objects w) !! fresh (dom (objects w)) = None.
Proof.
  unfold owners. rewrite lookup_omap.
  assert (E : objects w !! fresh (dom (objects w)) = None) by apply not_elem_of_dom, is_fresh.
  by rewrite E.
Qed.

(** Adding an object that shares the reference [l] of the object [id]. *)
Lemma add_clone_sim w id l ob v :
  world_ok w -> owners (objects w) !! id = Some l -> object_ref ob = Some l ->
  view_object (store w) ob = Some v ->
  world_ok (add_object ob (arc_clone l (store w)) w) /\
  abstract (add_object ob (arc_clone l (store w)) w) = add_object v tt (abstract w).
Proof.
  intros Hok Hid Href Hv.
  destruct (arc_clone_ok _ _ _ (fresh (dom (objects w))) _ Hok Hid (fresh_owner w)) as [Hok' _].
  assert (Hget : forall l', arc_get l' (arc_clone l (store w)) = arc_get l' (store w)).
  { intros l'. unfold arc_get, arc_clone. destruct (decide (l = l')) as [<-|Hne].
    - rewrite lookup_alter_eq. by destruct (store w !! l) as [[]|].
    - by rewrite lookup_alter_ne. }
  apply (add_object_sim w ob v l); [done|done|done|done|].
  rewrite <- Hv. apply view_object_get. intros l' _. apply Hget.
Qed.

Lemma add_simple_sim w q ps pe ep b :
  world_ok w ->
  let ob := if (b : bool) then OStatement (mkCassStatement (Simple q) ps pe ep) else ORunning (Simple q) in
  let v := if (b : bool) then OStatement (mkCassStatement (Simple q) ps pe ep) else ORunning (Simple q) in
  world_ok (add_object ob (store w) w) /\
  abstract (add_object ob (store w) w) = add_object v tt (abstract w).
Proof.
  intros Hok ob v. assert (Href : object_ref ob = None) by by destruct b.
  unfold add_object. split.
  - unfold world_ok. simpl. rewrite owners_insert, Href, delete_id; [done|apply fresh_owner].
  - rewrite world_ok_dom by done. rewrite (world_replace w _ ob v (store w)); [done| |done].
    by destruct b.
Qed.

Lemma call_statement_sim id c w :
  world_ok w -> world_sim (call_statement id c w) (call_statement id c (abstract w)).
Proof.
  intros Hok. unfold call_statement. destruct (objects w !! id) as [ob|] eqn:Ho.
  2:{ simpl. rewrite lookup_omap, Ho. simpl. done. }
  destruct (world_ok_view _ _ _ Hok Ho) as (v & Hv & ->).
  pose proof (world_object_ref _ _ _ Ho) as Href.
  destruct ob as [p|st|b]; simpl in Hv.
  - destruct (arc_get p (store w)); [|done]. injection Hv as <-. done.
  - destruct (view_stmt (store w) st) as [vst|] eqn:Hvst; [|done]. injection Hv as <-.
    pose proof (stmt_exec_sim _ id _ Hok c st vst (conj Href Hvst)) as Hs. unfold setter_sim in Hs.
    simpl store. destruct (stmt_exec c st (store w)) as [[e [st' h']]| |]; simpl; [|by rewrite Hs..].
    destruct Hs as (v' & -> & Hv' & Hok' & Hother). simpl. split.
    + unfold world_ok. simpl. by rewrite owners_insert.
    + f_equal. f_equal. symmetry. apply world_replace; [|done]. simpl. by rewrite Hv'.
  - destruct (view_bound (store w) b); [|done]. injection Hv as <-. done.
Qed.

Lemma prepared_bind_world_sim id w :
  world_ok w ->
  world_sim (world_exec (PreparedBind id) w) (world_exec (PreparedBind id) (abstract w)).
Proof.
  intros Hok. simpl. unfold cass_prepared_bind. destruct (objects w !! id) as [ob|] eqn:Ho.
  2:{ simpl. rewrite lookup_omap, Ho. simpl. done. }
  destruct (world_ok_view _ _ _ Hok Ho) as (v & Hv & ->).
  pose proof (world_object_ref _ _ _ Ho) as Href. destruct ob as [p|st|b]; simpl in Hv.
  - destruct (arc_get p (store w)) as [x|] eqn:Hp; [|done]. injection Hv as <-. simpl.
    assert (E : arc_get p (arc_clone p (store w)) = Some x).
    { unfold arc_get, arc_clone in *. rewrite lookup_alter_eq. by destruct (store w !! p) as [[]|]. }
    rewrite E. simpl. set (ob := OStatement _).
    destruct (add_clone_sim w id p ob (OStatement (statement_new (Prepared (mkBoundPrepared x
      (replicate (length (variable_col_specs (prepared_statement x))) VUnset)))))
      Hok Href eq_refl) as [Hok' ->]; [|done].
    simpl. unfold view_stmt. simpl. by rewrite Hp.
  - destruct (view_stmt (store w) st); [|done]. injection Hv as <-. done.
  - destruct (view_bound (store w) b); [|done]. injection Hv as <-. done.
Qed.

Lemma session_execute_sim id w :
  world_ok w ->
  world_ok (session_execute_clone id w) /\
  session_execute_clone id (abstract w) = abstract (session_execute_clone id w).
Proof.
  intros Hok. unfold session_execute_clone. destruct (objects w !! id) as [ob|] eqn:Ho.
  2:{ simpl. by rewrite lookup_omap, Ho. }
  destruct (world_ok_view _ _ _ Hok Ho) as (v & Hv & ->).
  pose proof (world_object_ref _ _ _ Ho) as Href. destruct ob as [p|[[q|p] ps pe ep]|b]; simpl in Hv.
  - destruct (arc_get p (store w)); [|done]. injection Hv as <-. done.
  - injection Hv as <-. simpl. destruct (add_simple_sim w q ps pe ep false Hok) as [? E]. split; [done|]. symmetry. exact E.
  - unfold view_stmt in Hv. simpl in Hv. destruct (arc_get (bp_statement p) (store w)) as [x|] eqn:Hx; [|done].
    injection Hv as <-. simpl.
    destruct (add_clone_sim w id _ (ORunning (Prepared p)) (ORunning (Prepared (mkBoundPrepared x (bp_bound_values p))))
      Hok Href eq_refl) as [? E]; [simpl; by rewrite Hx|].
    split; [done|]. symmetry. exact E.
  - destruct (view_bound (store w) b); [|done]. injection Hv as <-. done.
Qed.

Lemma execute_set_handle_sim id handle w :
  world_ok w ->
  world_ok (execute_set_handle id handle w) /\
  execute_set_handle id handle (abstract w) = abstract (execute_set_handle id handle w).
Proof.
  intros Hok. unfold execute_set_handle. destruct (objects w !! id) as [ob|] eqn:Ho.
  2:{ simpl. by rewrite lookup_omap, Ho. }
  destruct (world_ok_view _ _ _ Hok Ho) as (v & Hv & ->).
  pose proof (world_object_ref _ _ _ Ho) as Href. destruct ob as [p|st|b]; simpl in Hv.
  - destruct (arc_get p (store w)); [|done]. injection Hv as <-. done.
  - destruct (view_stmt (store w) st); [|done]. injection Hv as <-. done.
  - destruct (view_bound (store w) b) as [vb|] eqn:Hvb; [|done]. injection Hv as <-.
    assert (Hst : stands_for (owners (objects w)) id (store w) (statement_new b) (statement_new vb)).
    { split; [done|]. unfold view_stmt. simpl. by rewrite Hvb. }
    pose proof (sim_sets _ _ _ Hok (fun q => q <| s_execution_profile := handle |>) _ _ Hst) as Hs.
    unfold sets in Hs. simpl store.
    destruct (set_driver _ (statement_new b) (store w)) as [st' h'].
    destruct Hs as (v' & Ev & Hv' & Hok' & Hother). injection Ev as Ev. rewrite Ev. split.
    + unfold world_ok. simpl. by rewrite owners_insert.
    + symmetry. apply world_replace; [|done]. simpl. unfold view_stmt in Hv'.
      destruct (view_bound h' (statement st')); [|done]. by injection Hv' as <-.
Qed.

Lemma prepare_from_existing_sim id w :
  world_ok w ->
  world_ok (prepare_from_existing id w) /\
  prepare_from_existing id (abstract w) = abstract (prepare_from_existing id w).
Proof.
  intros Hok. unfold prepare_from_existing. destruct (objects w !! id) as [ob|] eqn:Ho.
  2:{ simpl. by rewrite lookup_omap, Ho. }
  destruct (world_ok_view _ _ _ Hok Ho) as (v & Hv & ->).
  pose proof (world_object_ref _ _ _ Ho) as Href. destruct ob as [p|[[q|p] ps pe ep]|b]; simpl in Hv.
  - destruct (arc_get p (store w)); [|done]. injection Hv as <-. done.
  - injection Hv as <-. done.
  - unfold view_stmt in Hv. simpl in Hv. destruct (arc_get (bp_statement p) (store w)) as [x|] eqn:Hx; [|done].
    injection Hv as <-. simpl.
    destruct (add_clone_sim w id _ (OPrepared (bp_statement p)) (OPrepared x) Hok Href eq_refl)
      as [? E]; [simpl; by rewrite Hx|].
    split; [done|]. symmetry. exact E.
  - destruct (view_bound (store w) b); [|done]. injection Hv as <-. done.
Qed.

Lemma prepare_finishes_sim p w :
  world_ok w ->
  world_ok (prepare_finishes p w) /\
  prepare_finishes p (abstract w) = abstract (prepare_finishes p w).
Proof.
  intros Hok. unfold prepare_finishes. cbn [prepared_new arc_prepared_store owned_prepared_store].
  pose proof (arc_new_ok _ _ (fresh (dom (objects w))) p Hok (fresh_owner w)) as Hnew.
  destruct (arc_new p (store w)) as [l h'] eqn:En. destruct Hnew as [Hok' Hview].
  destruct (add_object_sim w (OPrepared l) (OPrepared p) l h') as [? E]; try done.
  - intros id l' Hid. assert (Hne : id <> fresh (dom (objects w))).
    { intros ->. rewrite fresh_owner in Hid. done. }
    eapply view_other; [exact Hview| | |exact Hne|exact Hid]; intros; by rewrite lookup_insert_ne.
  - simpl. assert (E' : arc_view (<[fresh (dom (objects w)) := l]> (owners (objects w))) h'
      !! fresh (dom (objects w)) = Some p) by by rewrite Hview, lookup_insert_eq.
    rewrite arc_view_lookup, lookup_insert_eq in E'. simpl in E'. by rewrite E'.
Qed.

Lemma release_sim id w :
  world_ok w -> world_ok (release id w) /\ release id (abstract w) = abstract (release id w).
Proof.
  intros Hok. unfold release. destruct (objects w !! id) as [ob|] eqn:Ho.
  2:{ simpl. by rewrite lookup_omap, Ho. }
  destruct (world_ok_view _ _ _ Hok Ho) as (v & Hv & ->).
  pose proof (world_object_ref _ _ _ Ho) as Href.
  set (h' := match object_ref ob with Some p => _ | None => _ end).
  assert (Hrel : arc_ok (delete id (owners (objects w))) h' /\
    forall id' l, id' <> id -> owners (objects w) !! id' = Some l -> arc_get l h' = arc_get l (store w)).
  { subst h'. destruct (object_ref ob) as [l|].
    - destruct (arc_drop_ok _ _ _ _ Hok Href) as [Hok' Hview]. split; [done|].
      eapply view_other; [exact Hview| |]; intros; by rewrite lookup_delete_ne.
    - split; [|done]. by rewrite delete_id. }
  destruct Hrel as [Hok' Hother]. split; [unfold world_ok; simpl; by rewrite owners_delete|].
  unfold abstract. simpl. f_equal; [|by destruct (object_ref v)].
  apply map_eq. intros id'. rewrite lookup_omap. destruct (decide (id = id')) as [<-|Hne].
  - by rewrite !lookup_delete_eq.
  - rewrite !lookup_delete_ne, lookup_omap by done. destruct (objects w !! id') as [o'|] eqn:Ho'; [|done].
    simpl. symmetry. apply view_object_get. intros l Hl. apply (Hother id'); [done|].
    by rewrite (world_object_ref _ _ _ Ho').
Qed.

Lemma world_exec_sim c w : world_ok w -> world_sim (world_exec c w) (world_exec c (abstract w)).
Proof.
  intros Hok. destruct c; simpl world_exec.
  - by apply call_statement_sim.
  - unfold cass_statement_new_n. destruct (to_str q query_length) as [qs|]; [|done]. simpl.
    destruct (add_simple_sim w (mkBoundSimple (mkStatement qs settings_default)
      (replicate parameter_count VUnset) ∅) None false None true Hok) as [? E]. split; [done|]. f_equal. f_equal. symmetry. exact E.
  - by apply prepared_bind_world_sim.
  - destruct (session_execute_sim id w Hok) as [? ->]. done.
  - destruct (execute_set_handle_sim id handle w Hok) as [? ->]. done.
  - destruct (prepare_from_existing_sim id w Hok) as [? ->]. done.
  - destruct (prepare_finishes_sim p w Hok) as [? ->]. done.
  - destruct (release_sim id w Hok) as [? ->]. done.
Qed.

End Refinement.

(** C7: copy-on-write of prepared statements implements value semantics.  Statements
    bound from one prepared statement, the clones that running requests use and the
    prepared statement itself share one reference-counted object; for any sequence
    of calls that prepares, binds, configures, executes and frees them, the codes
    returned and what every object reads are those of the semantics in which each
    object owns its own copy, so no call is ever seen through another object. *)
Theorem statements_copy_on_write {R Handle : Type} `{DataTypes R} (l : list (world_call R Handle)) :
  match world_run l (mkWorld ∅ (∅ : arc_store (CassPrepared R Handle))) with
  | Ret (es, w) =>
      world_ok w /\ world_run l (mkWorld ∅ tt) = Ret (es, abstract w)
  | Panic => world_run (R := R) (Handle := Handle) l (mkWorld ∅ tt) = Panic
  | Diverge => world_run (R := R) (Handle := Handle) l (mkWorld ∅ tt) = Diverge
  end.
Proof.
  assert (Hgen : forall w, world_ok w ->
    match world_run l w with
    | Ret (es, w') => world_ok w' /\ world_run l (abstract w) = Ret (es, abstract w')
    | Panic => world_run l (abstract w) = Panic
    | Diverge => world_run l (abstract w) = Diverge
    end).
  { induction l as [|c l IH]; intros w Hok; simpl; [done|].
    pose proof (world_exec_sim c w Hok) as Hs. unfold world_sim in Hs.
    destruct (world_exec c w) as [[e w1]| |]; simpl; [|by rewrite Hs..].
    destruct Hs as [Hok1 ->]. simpl. specialize (IH w1 Hok1).
    destruct (world_run l w1) as [[es w2]| |]; simpl; [|by rewrite IH..].
    destruct IH as [Hok2 ->]. done. }
  assert (E : abstract (mkWorld ∅ ∅ : world R Handle nat (arc_store (CassPrepared R Handle)))
    = mkWorld ∅ tt) by (unfold abstract; simpl; by rewrite omap_empty).
  rewrite <- E. apply Hgen. unfold world_ok, owners. simpl. rewrite omap_empty. apply arc_ok_empty.
Qed.

(** ** Values bound by name to an unprepared statement *)

Section Named.
Context {R Handle : Type}.

(** Names are numbered without gaps in the order they first appear. *)
Definition names_ok (q : BoundSimpleStatement R Handle) : Prop :=
  (forall n i, name_to_bound_index q !! n = Some i -> (i < size (name_to_bound_index q))%nat) /\
  (forall n n' i, name_to_bound_index q !! n = Some i -> name_to_bound_index q !! n' = Some i -> n = n') /\
  (size (name_to_bound_index q) <= length (bs_bound_values q))%nat.

(** The values bound by name, as a map. *)
Definition named_view (q : BoundSimpleStatement R Handle) : gmap string (bound R) :=
  omap (fun i => bs_bound_values q !! i) (name_to_bound_index q).

Lemma named_view_lookup q n :
  named_view q !! n = name_to_bound_index q !! n ≫= fun i => bs_bound_values q !! i.
Proof. apply lookup_omap. Qed.

Lemma named_view_total q n :
  names_ok q -> is_Some (named_view q !! n) <-> is_Some (name_to_bound_index q !! n).
Proof.
  intros (Hlt & _ & Hlen). rewrite named_view_lookup.
  destruct (name_to_bound_index q !! n) as [i|] eqn:Hn; simpl; [|by split; intros []].
  split; [by eexists|]. intros _. apply lookup_lt_is_Some. specialize (Hlt _ _ Hn). lia.
Qed.

Lemma simple_bind_names_ok q i v : names_ok q -> names_ok (simple_bind_cql_value q i v).2.
Proof.
  intros (H1 & H2 & H3). unfold simple_bind_cql_value.
  destruct (bs_bound_values q !! i); [|done]. split_and!; simpl; [done|done|].
  by rewrite length_insert.
Qed.

Lemma simple_bind_view q n i v :
  names_ok q -> name_to_bound_index q !! n = Some i ->
  (simple_bind_cql_value q i v).1 = CASS_OK /\
  named_view (simple_bind_cql_value q i v).2 = <[n := VSet v]> (named_view q).
Proof.
  intros (Hlt & Hinj & Hlen) Hn. unfold simple_bind_cql_value.
  assert (Hi : (i < length (bs_bound_values q))%nat) by (specialize (Hlt _ _ Hn); lia).
  destruct (lookup_lt_is_Some_2 _ _ Hi) as [x Hx]. rewrite Hx. split; [done|].
  apply map_eq. intros n'. rewrite named_view_lookup. simpl. destruct (decide (n = n')) as [<-|Hne].
  - rewrite Hn, lookup_insert_eq. simpl. by rewrite list_lookup_insert_eq.
  - rewrite lookup_insert_ne, named_view_lookup by done.
    destruct (name_to_bound_index q !! n') as [j|] eqn:Hj; [|done]. simpl.
    rewrite list_lookup_insert_ne; [done|]. intros ->. by apply Hne, (Hinj _ _ j).
Qed.

Lemma simple_bind_length (q : BoundSimpleStatement R Handle) i v :
  length (bs_bound_values (simple_bind_cql_value q i v).2) = length (bs_bound_values q).
Proof. unfold simple_bind_cql_value. destruct (_ !! i); [|done]. apply length_insert. Qed.

(** A new name takes the next index. *)
Lemma new_name_ok (q : BoundSimpleStatement R Handle) name :
  names_ok q -> name_to_bound_index q !! name = None ->
  (size (name_to_bound_index q) < length (bs_bound_values q))%nat ->
  let q' := q <| name_to_bound_index := <[name := size (name_to_bound_index q)]> (name_to_bound_index q) |> in
  names_ok q' /\ forall v, <[name := v]> (named_view q') = <[name := v]> (named_view q).
Proof.
  intros (Hlt & Hinj & Hlen) Hn Hfree q'.
  assert (Hsize : size (name_to_bound_index q') = S (size (name_to_bound_index q))).
  { simpl. by apply map_size_insert_None. }
  split.
  - split_and!; [|intros n n' i|rewrite Hsize; simpl; lia].
    + intros n i. rewrite Hsize. simpl. destruct (decide (name = n)) as [<-|Hne].
      * rewrite lookup_insert_eq. intros [= <-]. lia.
      * rewrite lookup_insert_ne by done. intros Hi. specialize (Hlt _ _ Hi). lia.
    + simpl. destruct (decide (name = n)) as [<-|Hne], (decide (name = n')) as [<-|Hne']; [done|..];
        rewrite ?lookup_insert_eq, ?lookup_insert_ne by done; intros H1 H2; simplify_eq; try done.
      * specialize (Hlt _ _ H2). lia.
      * specialize (Hlt _ _ H1). lia.
      * by eapply Hinj.
  - intros v. apply map_eq. intros n. destruct (decide (name = n)) as [<-|Hne].
    + by rewrite !lookup_insert_eq.
    + rewrite !lookup_insert_ne, !named_view_lookup by done. simpl. by rewrite lookup_insert_ne.
Qed.

Lemma bind_by_name_map (q : BoundSimpleStatement R Handle) (name : string) (v : option (CassCqlValue R)) :
  names_ok q ->
  let '(err, q') := simple_bind_cql_value_by_name q name v in
  names_ok q' /\ length (bs_bound_values q') = length (bs_bound_values q) /\
  if bool_decide (is_Some (named_view q !! name)) || (size (name_to_bound_index q) <? length (bs_bound_values q))%nat
  then err = CASS_OK /\ named_view q' = <[name := VSet v]> (named_view q)
  else err = CASS_ERROR_LIB_NAME_DOES_NOT_EXIST /\ q' = q.
Proof.
  intros Hok. pose proof (named_view_total q name Hok) as Htot. unfold simple_bind_cql_value_by_name.
  destruct (name_to_bound_index q !! name) as [i|] eqn:Hn.
  - rewrite bool_decide_eq_true_2 by (apply Htot; by eexists). simpl.
    pose proof (simple_bind_view q name i v Hok Hn) as Hv. pose proof (simple_bind_names_ok q i v Hok) as Hok'.
    pose proof (simple_bind_length q i v). destruct (simple_bind_cql_value q i v) as [e q']. done.
  - rewrite bool_decide_eq_false_2 by (rewrite Htot; by intros []). simpl.
    destruct (Nat.leb_spec (length (bs_bound_values q)) (size (name_to_bound_index q))) as [Hfull|Hfree].
    + rewrite (proj2 (Nat.ltb_ge _ _)) by lia. done.
    + rewrite (proj2 (Nat.ltb_lt _ _)) by lia. destruct (new_name_ok q name Hok Hn Hfree) as [Hok1 Hview].
      set (q1 := q <| name_to_bound_index := _ |>) in *. set (i := size (name_to_bound_index q)).
      assert (Hn1 : name_to_bound_index q1 !! name = Some i) by apply lookup_insert_eq.
      pose proof (simple_bind_view q1 name i v Hok1 Hn1) as [He Hv].
      pose proof (simple_bind_names_ok q1 i v Hok1) as Hok'.
      pose proof (simple_bind_length q1 i v) as Hlen. destruct (simple_bind_cql_value q1 i v) as [e q'].
      simpl in *. split_and!; [done|done|done|]. by rewrite Hv, Hview.
Qed.

End Named.

(** Binding by name to an unprepared statement is insertion into a finite map:
    a name bound before, or a new one while parameters are left, succeeds and
    changes the value of that name alone; otherwise the call fails with
    NAME_DOES_NOT_EXIST and changes nothing.  The numbering of names stays
    injective, without gaps and within the declared parameters. *)
Theorem simple_bind_by_name_map {R Handle : Type} (q : BoundSimpleStatement R Handle) (name : string)
    (v : option (CassCqlValue R)) :
  names_ok q ->
  let '(err, q') := simple_bind_cql_value_by_name q name v in
  names_ok q' /\ length (bs_bound_values q') = length (bs_bound_values q) /\
  if bool_decide (is_Some (named_view q !! name)) || (size (name_to_bound_index q) <? length (bs_bound_values q))%nat
  then err = CASS_OK /\ named_view q' = <[name := VSet v]> (named_view q)
  else err = CASS_ERROR_LIB_NAME_DOES_NOT_EXIST /\ q' = q.
Proof. apply bind_by_name_map. Qed.

Lemma simple_bind_by_name_map_witness :
  named_view (simple_bind_cql_value_by_name (R := dtree) (Handle := unit)
    (mkBoundSimple (mkStatement EmptyString settings_default) [VUnset] ∅) "a" (Some (Int 1))).2
  = {["a"%string := VSet (Some (Int 1))]}.
Proof.
  refine (proj2 (proj2 (proj2 (simple_bind_by_name_map (R := dtree) (Handle := unit)
    (mkBoundSimple (mkStatement EmptyString settings_default) [VUnset] ∅) "a" (Some (Int 1)) _)))).
  split_and!; [intros n i Hn; discriminate Hn|intros n n' i Hn; discriminate Hn|vm_compute; lia].
Defined.

(** ** Sequences of calls on one statement *)

Section Calls.
Context {R Handle P S : Type} `{DataTypes R} `{!PreparedStore R Handle P S}.

Fixpoint stmt_run (l : list (stmt_call R)) (st : CassStatement R Handle P) (s : S)
  : outcome (list CassError * (CassStatement R Handle P * S)) :=
  match l with
  | [] => Ret ([], (st, s))
  | c :: l =>
      '(e, (st, s)) ← stmt_exec c st s;
      '(es, r) ← stmt_run l st s;
      Ret (e :: es, r)
  end.

(** A property of statements that no setter and no binder breaks. *)
Record stable (I : CassStatement R Handle P -> S -> Prop) : Prop := {
  stable_driver f st s : I st s -> I (set_driver f st s).1 (set_driver f st s).2;
  stable_fields st s ps pe ep : I st s -> I (mkCassStatement (statement st) ps pe ep) s;
  stable_reset st s n : I st s -> I (reset_bound_values st n) s;
  stable_bind st s i v e st' : I st s -> bind_cql_value s st i v = Ret (e, st') -> I st' s;
  stable_bind_name st s n v e st' : I st s -> bind_cql_value_by_name s st n v = Ret (e, st') -> I st' s
}.

Lemma stable_binder (I : CassStatement R Handle P -> S -> Prop) st s (a : bind_arg R) k e st' s' :
  I st s -> (forall v e st', k v = Ret (e, st') -> I st' s) ->
  drop_ptr st s (r ← convert_arg a;
    match r with
    | Ok value => '(err, this) ← k value; Ret (err, Some this)
    | Err e => Ret (e, Some st)
    end) = Ret (e, (st', s')) -> I st' s'.
Proof.
  intros HI Hk. destruct (convert_arg a) as [[v|e']| |]; simpl; try done.
  - destruct (k v) as [[e'' st'']| |] eqn:Ek; simpl; try done. intros [= <- <- <-]. by eapply Hk.
  - by intros [= <- <- <-].
Qed.

Lemma stable_exec (I : CassStatement R Handle P -> S -> Prop) c st s e st' s' :
  stable I -> I st s -> stmt_exec c st s = Ret (e, (st', s')) -> I st' s'.
Proof.
  intros HS HI.
  assert (Hfail : forall e0, fails e0 st s = Ret (e, (st', s')) -> I st' s') by by intros e0 [= <- <- <-].
  assert (Hsets : forall f st0, I st0 s -> sets f st0 s = Ret (e, (st', s')) -> I st' s').
  { intros f st0 HI0. unfold sets. pose proof (stable_driver I HS f st0 s HI0) as Hd.
    destruct (set_driver f st0 s). by intros [= <- <- <-]. }
  pose proof (fun f => Hsets f st HI) as Hset.
  pose proof (stable_fields I HS st s) as Hf.
  assert (Hbind : forall a i, cass_statement_bind i a st s = Ret (e, (st', s')) -> I st' s').
  { intros a i. apply stable_binder; [done|]. intros v e0 st0. by apply (stable_bind I HS). }
  assert (Hname : forall a nm, drop_ptr st s (r ← convert_arg a;
    match r with
    | Ok value => '(err, this) ← bind_cql_value_by_name s st nm value; Ret (err, Some this)
    | Err e => Ret (e, Some st)
    end) = Ret (e, (st', s')) -> I st' s').
  { intros a nm. apply stable_binder; [done|]. intros v e0 st0. by apply (stable_bind_name I HS). }
  destruct c; cbn [stmt_exec]; try apply Hset.
  - unfold set_consistency. destruct (from_c_value c) as [[|]|]; eauto.
  - unfold set_serial_consistency. destruct (from_c_value c) as [[|]|]; eauto.
  - unfold set_paging_size. destruct (n <=? 0); [intros [= <- <- <-]; by apply Hf|apply Hsets; by apply Hf].
  - unfold set_paging_state. destruct r as [[state|]|]; [intros [= <- <- <-]; by apply Hf..|apply Hfail].
  - intros [= <- <- <-]. by apply Hf.
  - unfold set_host. destruct (as_len_delimited host) as [host' n]. unfold set_host_n.
    destruct (to_str host' n) as [nm|]; [|eauto]. destruct (try_u 16 port); [|eauto].
    destruct (IpAddr_from_str (as_bytes nm)); eauto.
  - unfold set_host_n. destruct (to_str host n) as [nm|]; [|eauto]. destruct (try_u 16 port); [|eauto].
    destruct (IpAddr_from_str (as_bytes nm)); eauto.
  - unfold set_host_inet. destruct host as [host|]; [|eauto]. destruct (IpAddr_try_from host); [|eauto].
    destruct (try_u 16 port); eauto.
  - unfold set_node. destruct node; eauto.
  - unfold set_retry_policy. destruct (retry_policy_opt p); simpl; eauto; done.
  - intros [= <- <- <-]. by apply (stable_reset I HS).
  - unfold statement_set_execution_profile_n. destruct (set_execution_profile_n name n (exec_profile st)).
    intros [= <- <- <-]. by apply Hf.
  - apply Hbind.
  - unfold cass_statement_bind_by_name_n, name_n_binder. destruct (to_str name n) as [nm|[]]; eauto.
    destruct (bool_decide (nm = EmptyString)); eauto.
  - unfold cass_statement_bind_by_name, name_binder. destruct (nul_to_str name) as [nm|[]]; eauto.
    destruct (bool_decide (nm = EmptyString)); eauto.
Qed.

Lemma stable_run (I : CassStatement R Handle P -> S -> Prop) l st s es st' s' :
  stable I -> I st s -> stmt_run l st s = Ret (es, (st', s')) -> I st' s'.
Proof.
  intros HS. revert st s es. induction l as [|c l IH]; intros st s es HI; simpl; [by intros [= <- <- <-]|].
  destruct (stmt_exec c st s) as [[e [st1 s1]]| |] eqn:Ec; simpl; try done.
  destruct (stmt_run l st1 s1) as [[es1 [st2 s2]]| |] eqn:El; simpl; try done.
  intros [= <- <- <-]. eapply IH; [|done]. by eapply stable_exec.
Qed.

End Calls.

(** ** What reaches the server *)

Section RowSpec.
Context {R Cell E : Type} (serialize_cell : bound R -> ColumnType -> result E Cell).

(** The row of values bound by name: the columns in order, each with its value. *)
Fixpoint named_cells (m : gmap string (bound R)) (columns : list ColumnSpec)
  : result (RowError E) (list Cell) :=
  match columns with
  | [] => Ok []
  | (name, typ) :: columns =>
      match m !! name with
      | None => Err (UnknownNamedParameter name)
      | Some val =>
          match serialize_cell val typ with
          | Err e => Err (CellError e)
          | Ok cell => match named_cells m columns with Ok cells => Ok (cell :: cells) | Err e => Err e end
          end
      end
  end.

Lemma serialize_named_spec {Handle} (q : BoundSimpleStatement R Handle) columns :
  names_ok q ->
  serialize_named serialize_cell (mkRowSerializer (bs_bound_values q) (name_to_bound_index q)) columns
    = Ret (named_cells (named_view q) columns).
Proof.
  intros Hok. induction columns as [|[name typ] columns IH]; simpl; [done|].
  pose proof (named_view_total q name Hok) as Htot. rewrite named_view_lookup in *.
  destruct (name_to_bound_index q !! name) as [i|]; simpl in *; [|done].
  destruct (proj2 Htot) as [x ->]; [by eexists|]. destruct (serialize_cell x typ); [|done].
  rewrite IH. done.
Qed.

End RowSpec.

Section Invariants.
Context {R Handle P S : Type} `{DataTypes R} `{!PreparedStore R Handle P S}.

Definition stmt_names_ok (st : CassStatement R Handle P) (_ : S) : Prop :=
  match statement st with Simple q => names_ok q | Prepared _ => False end.

Lemma stmt_names_ok_stable : stable stmt_names_ok.
Proof.
  split; unfold stmt_names_ok.
  - intros f [[q|b] ? ? ?] s; simpl; done.
  - intros [[q|b] ? ? ?] s; simpl; done.
  - intros [[q|b] ? ? ?] s n; simpl; [|done]. intros _. split_and!; simpl; try (intros *; by rewrite lookup_empty).
    rewrite map_size_empty. lia.
  - intros [[q|b] ? ? ?] s i v e st'; simpl; [|done]. unfold bind_cql_value. simpl. intros Hq.
    pose proof (simple_bind_names_ok q i v Hq). destruct (simple_bind_cql_value q i v). by intros [= <- <-].
  - intros [[q|b] ? ? ?] s n v e st'; simpl; [|done]. unfold bind_cql_value_by_name.
    destruct (unquote n) as [nm cs]. simpl. intros Hq.
    pose proof (bind_by_name_map q nm v Hq) as Hm. destruct (simple_bind_cql_value_by_name q nm v).
    intros [= <- <-]. simpl. by destruct Hm.
Qed.

(** The prepared statement has the parameter types [types], and every value that is
    set is compatible with the type of its parameter. *)
Definition stmt_typed (types : list R) (st : CassStatement R Handle (CassPrepared R Handle)) (_ : unit) : Prop :=
  match statement st with
  | Simple _ => False
  | Prepared b =>
      variable_col_data_types (bp_statement b) = types /\
      forall i v, bp_bound_values b !! i = Some (VSet v) ->
        exists dt, types !! i = Some dt /\ is_type_compatible v dt = Ret true
  end.

Definition bound_typed (types : list R) (b : BoundPreparedStatement R (CassPrepared R Handle)) : Prop :=
  variable_col_data_types (bp_statement b) = types /\
  forall i v, bp_bound_values b !! i = Some (VSet v) ->
    exists dt, types !! i = Some dt /\ is_type_compatible v dt = Ret true.

Lemma bound_typed_bind types b i v e b' :
  bound_typed types b -> prepared_bind_cql_value (Handle := Handle) tt b i v = Ret (e, b') ->
  bound_typed types b'.
Proof.
  intros [Ht Hv]. unfold prepared_bind_cql_value. simpl. rewrite Ht.
  destruct (bp_bound_values b !! i) as [x|] eqn:Hx; [|by intros [= <- <-]].
  destruct (types !! i) as [dt|] eqn:Hdt; [|by intros [= <- <-]].
  destruct (is_type_compatible v dt) as [[]| |] eqn:Hc; simpl; try done; intros [= <- <-]; [|done].
  split; [done|]. simpl. intros j w. destruct (decide (i = j)) as [<-|Hne].
  - rewrite list_lookup_insert_eq by (by eapply lookup_lt_Some). intros [= <-]. eauto.
  - rewrite list_lookup_insert_ne by done. apply Hv.
Qed.

Lemma bound_typed_multiple types indices v b e b' :
  bound_typed types b -> bind_multiple_values_by_name (Handle := Handle) tt b indices v = Ret (e, b') ->
  bound_typed types b'.
Proof.
  revert b; induction indices as [|i indices IH]; intros b Hb; simpl; [by intros [= <- <-]|].
  destruct (prepared_bind_cql_value tt b i v) as [[e1 b1]| |] eqn:E1; simpl; try done.
  pose proof (bound_typed_bind _ _ _ _ _ _ Hb E1) as Hb1.
  destruct (bool_decide (e1 = CASS_OK)); [by apply IH|by intros [= <- <-]].
Qed.

Lemma stmt_typed_stable types : stable (S := unit) (stmt_typed types).
Proof.
  split; unfold stmt_typed.
  - intros f [[q|b] ? ? ?] s; simpl; done.
  - intros [[q|b] ? ? ?] s; simpl; done.
  - intros [[q|b] ? ? ?] s n; simpl; [done|]. intros [Ht _]. split; [done|].
    intros i v Hv. apply lookup_replicate_1 in Hv as [? _]. done.
  - intros [[q|b] ? ? ?] [] i v e st'; simpl; [done|]. unfold bind_cql_value. simpl. intros Hb.
    destruct (prepared_bind_cql_value tt b i v) as [[e1 b1]| |] eqn:E1; simpl; try done.
    intros [= <- <-]. simpl. by eapply bound_typed_bind.
  - intros [[q|b] ? ? ?] [] n v e st'; simpl; [done|]. unfold bind_cql_value_by_name.
    destruct (unquote n) as [nm cs]. simpl. intros Hb. unfold prepared_bind_cql_value_by_name. simpl.
    destruct (matching_indices _ _ _) as [|i l]; [by intros [= <- <-]|].
    destruct (bind_multiple_values_by_name tt b (i :: l) v) as [[e1 b1]| |] eqn:E1; [|done..].
    intros [= <- <-]. simpl. by eapply bound_typed_multiple.
Qed.

End Invariants.

(** The row of an unprepared statement.  After any sequence of calls on a new
    unprepared statement, serializing it never indexes out of range; if no value was
    bound by name the driver serializes the values by position, and otherwise the
    row has, for each column in order, the value last bound to that column's name,
    failing at the first column whose name was never bound. *)
Theorem simple_row_by_name {R Handle P S Cell E : Type} `{DataTypes R} `{!PreparedStore R Handle P S}
    (serialize_cell : bound R -> ColumnType -> result E Cell)
    (serialize_vec : list (bound R) -> list ColumnSpec -> result E (list Cell))
    (q : Statement Handle) (n : nat) (s : S) (l : list (stmt_call R)) es st s' :
  stmt_run l (statement_new (Simple (mkBoundSimple q (replicate n VUnset) ∅))) s = Ret (es, (st, s')) ->
  exists q', statement st = Simple q' /\ names_ok q' /\
  forall columns,
    row_serialize serialize_cell serialize_vec
      (mkRowSerializer (bs_bound_values q') (name_to_bound_index q')) columns =
    Ret (if bool_decide (name_to_bound_index q' = ∅)
         then match serialize_vec (bs_bound_values q') columns with
              | Ok cells => Ok cells
              | Err e => Err (CellError e)
              end
         else named_cells serialize_cell (named_view q') columns).
Proof.
  intros Hrun. assert (Hok : stmt_names_ok st s').
  { eapply stable_run; [apply stmt_names_ok_stable| |exact Hrun]. simpl.
    split_and!; simpl; try (intros *; by rewrite lookup_empty). rewrite map_size_empty. lia. }
  unfold stmt_names_ok in Hok. destruct (statement st) as [q'|]; [|done]. exists q'. split_and!; [done|done|].
  intros columns. unfold row_serialize. simpl. destruct (Nat.eqb_spec (size (name_to_bound_index q')) 0) as [Hz|Hnz].
  - apply map_size_empty_inv in Hz. by rewrite bool_decide_eq_true_2.
  - rewrite bool_decide_eq_false_2 by (intros Hz; by rewrite Hz, map_size_empty in Hnz).
    by apply serialize_named_spec.
Qed.

Lemma simple_row_by_name_witness :
  exists q', names_ok (R := dtree) (Handle := unit) q' /\
    row_serialize (Cell := option (CassCqlValue dtree)) (E := unit)
      (fun v _ => match v with VSet v => Ok v | VUnset => Err tt end) (fun _ _ => Err tt)
      (mkRowSerializer (bs_bound_values q') (name_to_bound_index q'))
      [("a"%string, CNative NInt); ("b"%string, CNative NInt)]
    = Ret (Ok [Some (Int 1); Some (Int 2)]).
Proof.
  destruct (simple_row_by_name (H := tree_data_types (fun _ => None))
    (PreparedStore0 := owned_prepared_store dtree unit)
    (fun v _ => match v with VSet v => Ok v | VUnset => Err tt end) (fun _ _ => Err tt)
    (mkStatement EmptyString settings_default) 2 tt
    [BindByName (Some "b"%string) (AInt32 2); BindByName (Some "a"%string) (AInt32 1)]
    _ _ _ eq_refl) as (q' & Hq & Hok & Hrow).
  exists q'. split; [done|]. rewrite Hrow. injection Hq as <-. vm_compute. reflexivity.
Defined.

(** C29: a prepared statement never holds a value of the wrong type: after any
    sequence of calls on a freshly bound statement, resets with a wrong parameter
    count included, every value that is set is compatible with the type the server
    announced for its parameter. *)
Theorem prepared_values_typed {R Handle : Type} `{DataTypes R} (p : CassPrepared R Handle) (n : nat)
    (l : list (stmt_call R)) es st :
  stmt_run l (statement_new (Prepared (mkBoundPrepared p (replicate n VUnset)))) tt = Ret (es, (st, tt)) ->
  exists b, statement st = Prepared b /\
    variable_col_data_types (bp_statement b) = variable_col_data_types p /\
    forall i v, bp_bound_values b !! i = Some (VSet v) ->
      exists dt, variable_col_data_types p !! i = Some dt /\ is_type_compatible v dt = Ret true.
Proof.
  intros Hrun. assert (Hok : stmt_typed (variable_col_data_types p) st tt).
  { eapply stable_run; [apply stmt_typed_stable| |exact Hrun]. split; [done|]. simpl.
    intros i v Hv. apply lookup_replicate_1 in Hv as [? _]. done. }
  unfold stmt_typed in Hok. destruct (statement st) as [|b]; [done|]. by exists b.
Qed.

Definition int_prepared : CassPrepared dtree unit :=
  new_from_prepared_statement get_column_type 0
    (mkPreparedStatement [("a"%string, CNative NInt)] false settings_default).

Lemma prepared_values_typed_witness :
  exists b v, bp_bound_values (R := dtree) (P := CassPrepared dtree unit) b !! 0%nat = Some (VSet v) /\
    exists dt, variable_col_data_types int_prepared !! 0%nat = Some dt /\
      @is_type_compatible _ (tree_data_types (fun _ => None)) v dt = Ret true.
Proof.
  destruct (prepared_values_typed (H := tree_data_types (fun _ => None)) int_prepared 1
    [Bind 0 (AInt64 7); Bind 0 (AInt32 7)] _ _ eq_refl) as (b & Hb & _ & Hv).
  exists b, (Some (Int 7)). assert (E : bp_bound_values b !! 0%nat = Some (VSet (Some (Int 7)))).
  { injection Hb as <-. reflexivity. }
  split; [exact E|]. exact (Hv _ _ E).
Defined.

(** ** Binding by name to a prepared statement *)

Lemma matching_indices_spec {A} (p : A -> bool) l k i :
  i ∈ matching_indices p k l <-> exists j x, i = (k + j)%nat /\ l !! j = Some x /\ p x = true.
Proof.
  revert k; induction l as [|a l IH]; intros k; simpl.
  { split; [set_solver|]. by intros (j & x & _ & ? & _). }
  assert (Hrest : i ∈ matching_indices p (Datatypes.S k) l <->
    exists j x, i = (k + Datatypes.S j)%nat /\ l !! j = Some x /\ p x = true).
  { rewrite IH. by setoid_rewrite Nat.add_succ_r. }
  assert (Hsplit : (exists j x, i = (k + j)%nat /\ (a :: l) !! j = Some x /\ p x = true) <->
    (i = k /\ p a = true) \/ i ∈ matching_indices p (Datatypes.S k) l).
  { rewrite Hrest. split.
    - intros ([|j] & x & -> & Hx & Hp); simpl in Hx; [injection Hx as <-; left; split; [lia|done]|].
      right. by exists j, x.
    - intros [[-> Hp]|(j & x & -> & Hx & Hp)]; [exists O, a|exists (Datatypes.S j), x]; by rewrite ?Nat.add_0_r. }
  rewrite Hsplit. destruct (p a); [rewrite elem_of_cons|]; naive_solver.
Qed.

Section PreparedByName.
Context {R Handle : Type} `{DataTypes R}.

Notation own := (BoundPreparedStatement R (CassPrepared R Handle)).

(** A bind either sets its slot or leaves the statement as it was. *)
Lemma prepared_bind_spec (b : own) i v e b' :
  prepared_bind_cql_value (Handle := Handle) tt b i v = Ret (e, b') ->
  bp_statement b' = bp_statement b /\ length (bp_bound_values b') = length (bp_bound_values b) /\
  if bool_decide (e = CASS_OK)
  then (i < length (bp_bound_values b))%nat /\ bp_bound_values b' = <[i := VSet v]> (bp_bound_values b)
  else b' = b.
Proof.
  unfold prepared_bind_cql_value. simpl. destruct (bp_bound_values b !! i) as [x|] eqn:Hx; [|by intros [= <- <-]].
  destruct (variable_col_data_types (bp_statement b) !! i) as [dt|]; [|by intros [= <- <-]].
  destruct (is_type_compatible v dt) as [[]| |]; simpl; try done; intros [= <- <-]; simpl; [|done].
  rewrite length_insert. split_and!; [done|done|by eapply lookup_lt_Some|done].
Qed.

Lemma bind_multiple_spec indices v (b : own) e b' :
  bind_multiple_values_by_name (Handle := Handle) tt b indices v = Ret (e, b') ->
  bp_statement b' = bp_statement b /\
  exists done_, done_ `prefix_of` indices /\
    (e = CASS_OK -> done_ = indices) /\
    forall i, bp_bound_values b' !! i = if decide (i ∈ done_) then Some (VSet v) else bp_bound_values b !! i.
Proof.
  revert b; induction indices as [|i indices IH]; intros b; simpl.
  { intros [= <- <-]. split; [done|]. exists []. split_and!; done. }
  destruct (prepared_bind_cql_value tt b i v) as [[e1 b1]| |] eqn:E1; simpl; try done.
  apply prepared_bind_spec in E1 as (Hst & Hlen & Hb1). destruct (bool_decide (e1 = CASS_OK)) eqn:He.
  - destruct Hb1 as [Hi Hb1]. intros Hrest. destruct (IH _ Hrest) as (Hst' & d & Hpre & Hall & Hvals).
    split; [congruence|]. exists (i :: d). split_and!.
    + by apply prefix_cons.
    + intros Hok. by rewrite Hall.
    + intros j. rewrite Hvals, Hb1. destruct (decide (j ∈ d)) as [Hj|Hj].
      { rewrite decide_True by set_solver. done. }
      destruct (decide (i = j)) as [<-|Hne].
      * rewrite decide_True, list_lookup_insert_eq by (done || set_solver). done.
      * rewrite decide_False, list_lookup_insert_ne by set_solver. done.
  - subst b1. intros [= <- <-]. split; [done|]. exists []. split_and!; [apply prefix_nil| |done].
    intros ->. by rewrite bool_decide_eq_false in He.
Qed.

End PreparedByName.

(** Binding a value by name to a prepared statement.  The call fails with
    NAME_DOES_NOT_EXIST exactly when no parameter has the name (compared exactly if
    the name was quoted, and without case otherwise).  When it succeeds, the
    parameters of that name, all of them, hold the new value and the others are
    unchanged; when it fails, only parameters of that name may have been changed. *)
Theorem prepared_bind_by_name_spec {R Handle : Type} `{DataTypes R}
    (b b' : BoundPreparedStatement R (CassPrepared R Handle)) (name : string) (cs : bool)
    (v : option (CassCqlValue R)) (e : CassError) :
  prepared_bind_cql_value_by_name (Handle := Handle) tt b name cs v = Ret (e, b') ->
  let specs := variable_col_specs (prepared_statement (bp_statement b)) in
  let named i := exists n c, specs !! i = Some (n, c) /\ name_matches cs name n = true in
  bp_statement b' = bp_statement b /\
  ((forall i, ~ named i) -> e = CASS_ERROR_LIB_NAME_DOES_NOT_EXIST) /\
  (e = CASS_OK -> (exists i, named i) /\ forall i, named i -> bp_bound_values b' !! i = Some (VSet v)) /\
  forall i, ~ named i -> bp_bound_values b' !! i = bp_bound_values b !! i.
Proof.
  unfold prepared_bind_cql_value_by_name. simpl.
  set (p := fun col : ColumnSpec => name_matches cs name col.1).
  set (specs := variable_col_specs (prepared_statement (bp_statement b))).
  assert (Hmi : forall i, i ∈ matching_indices p 0 specs <->
    exists n c, specs !! i = Some (n, c) /\ name_matches cs name n = true).
  { intros i. rewrite matching_indices_spec. split.
    - intros (j & [n c] & -> & Hj & Hp). by exists n, c.
    - intros (n & c & Hi & Hp). by exists i, (n, c). }
  destruct (matching_indices p 0 specs) as [|i0 l] eqn:El.
  - intros [= <- <-]. split_and!; [done|done|done|done].
  - intros Hb. apply bind_multiple_spec in Hb as (Hst & d & Hpre & Hall & Hvals). split_and!.
    + done.
    + intros Hno. destruct (Hno i0). apply Hmi. set_solver.
    + intros Hok. split; [exists i0; apply Hmi; set_solver|]. intros i Hi%Hmi.
      rewrite Hvals, decide_True; [done|]. by rewrite Hall.
    + intros i Hno. rewrite Hvals, decide_False; [done|]. intros Hd. apply Hno, Hmi.
      destruct Hpre as [k ->]. set_solver.
Qed.

Lemma prepared_bind_by_name_spec_witness :
  exists b', prepared_bind_cql_value_by_name (Handle := unit) (H := tree_data_types (fun _ => None))
      tt (mkBoundPrepared int_prepared [VUnset]) "A" false (Some (Int 7)) = Ret (CASS_OK, b') /\
    bp_bound_values b' !! 0%nat = Some (VSet (Some (Int 7))).
Proof.
  eexists. split; [reflexivity|].
  refine (proj2 (proj1 (proj2 (proj2 (prepared_bind_by_name_spec (H := tree_data_types (fun _ => None))
    (mkBoundPrepared int_prepared [VUnset]) _ "A" false (Some (Int 7)) CASS_OK eq_refl))) eq_refl) 0%nat _).
  exists "a"%string, (CNative NInt). split; reflexivity.
Defined.
