(* ===== verification/Batch.v ===== *)
(** * Batches (statements/batch.rs)

    A batch keeps its statements and their values behind an [Arc] that running
    requests clone; every setter goes through [Arc::make_mut].  Statements are the
    ones of Statement.v, in the semantics where each owns its prepared statement. *)

From Stdlib Require Import ZArith Lia String.
From stdpp Require Import base list gmap strings.
From S2P Require Import Prelude ArgConv Types ConfigValue LoadBalancing DataType ExecProfile Value.
From S2P Require Import Containers Arc Prepared Statement.

Open Scope Z_scope.

Section Batches.
Context {R Handle : Type}.

(** A statement of the driver's [Batch]. *)
Inductive BatchStatement :=
| BatchQuery (q : Prepared.Statement Handle)
| BatchPrepared (p : PreparedStatement Handle).

(** [scylla::statement::batch::Batch]. *)
Record Batch := mkBatch {
  batch_type : BatchType;
  batch_statements : list BatchStatement;
  batch_settings : Settings Handle
}.

Record CassBatchState := mkBatchState {
  batch : Batch;
  batch_bound_values : list (list (bound R))
}.

#[export] Instance Batch_eta : Eta Batch := fun r =>
  mkBatch (batch_type r) (batch_statements r) (batch_settings r).
#[export] Instance CassBatchState_eta : Eta CassBatchState := fun r =>
  mkBatchState (batch r) (batch_bound_values r).

Record CassBatch := mkCassBatch {
  state : nat;
  batch_exec_profile : option (PerStatementExecProfile Handle)
}.

#[export] Instance CassBatch_eta : Eta CassBatch := fun r =>
  mkCassBatch (state r) (batch_exec_profile r).

Notation batches := (arc_store CassBatchState).
Notation setter := (outcome (CassError * (CassBatch * arc_store CassBatchState))).

Definition cass_batch_new (typ : CassBatchType) (h : batches) : option CassBatch * batches :=
  match make_batch_type typ with
  | None => (None, h)
  | Some batch_type =>
      let '(l, h) := arc_new (mkBatchState (mkBatch batch_type [] settings_default) []) h in
      (Some (mkCassBatch l None), h)
  end.

(** [Arc::make_mut(&mut batch.state)] and a change of the state. *)
Definition modify_state (f : CassBatchState -> CassBatchState) (self : CassBatch) (h : batches)
  : CassBatch * batches :=
  let '(l, h) := arc_make_mut f (state self) h in (self <| state := l |>, h).

Definition modify_settings (f : Settings Handle -> Settings Handle) (self : CassBatch) (h : batches)
  : CassBatch * batches :=
  modify_state (fun st => st <| batch := (batch st) <| batch_settings ::= f |> |>) self h.

Definition batch_set_consistency (consistency : CassConsistency) (self : CassBatch) (h : batches) : setter :=
  match from_c_value (T := Consistency) consistency with
  | Err _ => Ret (CASS_ERROR_LIB_BAD_PARAMS, (self, h))
  | Ok Unset => Ret (CASS_OK, modify_settings (fun q => q <| s_consistency := None |>) self h)
  | Ok (SetTo c) => Ret (CASS_OK, modify_settings (fun q => q <| s_consistency := Some c |>) self h)
  end.

Definition batch_set_serial_consistency (serial_consistency : CassConsistency) (self : CassBatch)
    (h : batches) : setter :=
  match from_c_value (T := option SerialConsistency) serial_consistency with
  | Err _ => Ret (CASS_ERROR_LIB_BAD_PARAMS, (self, h))
  | Ok Unset => Ret (CASS_OK, modify_settings (fun q => q <| s_serial_consistency := None |>) self h)
  | Ok (SetTo c) => Ret (CASS_OK, modify_settings (fun q => q <| s_serial_consistency := Some c |>) self h)
  end.

Definition batch_set_retry_policy (policy : option CassRetryPolicy) (self : CassBatch) (h : batches) : setter :=
  p ← retry_policy_opt policy;
  Ret (CASS_OK, modify_settings (fun q => q <| s_retry_policy := p |>) self h).

Definition batch_set_timestamp (timestamp : Z) (self : CassBatch) (h : batches) : setter :=
  Ret (CASS_OK, modify_settings (fun q => q <| s_timestamp := Some timestamp |>) self h).

Definition batch_set_request_timeout (timeout_ms : Z) (self : CassBatch) (h : batches) : setter :=
  Ret (CASS_OK, modify_settings (fun q => q <| s_request_timeout := statement_timeout timeout_ms |>) self h).

Definition batch_set_is_idempotent (is_idempotent : Z) (self : CassBatch) (h : batches) : setter :=
  Ret (CASS_OK, modify_settings (fun q => q <| s_is_idempotent := negb (is_idempotent =? 0) |>) self h).

Definition batch_set_tracing (enabled : Z) (self : CassBatch) (h : batches) : setter :=
  Ret (CASS_OK, modify_settings (fun q => q <| s_tracing := negb (enabled =? 0) |>) self h).

(** exec_profile.rs: [cass_batch_set_execution_profile_n]. *)
Definition batch_set_execution_profile_n (name : char_ptr) (name_length : nat) (self : CassBatch)
    (h : batches) : setter :=
  let '(err, p) := set_execution_profile_n name name_length (batch_exec_profile self) in
  Ret (err, (self <| batch_exec_profile := p |>, h)).

(** The statement and the values that [cass_batch_add_statement] copies. *)
Definition appended (st : CassStatement R Handle (CassPrepared R Handle))
  : BatchStatement * list (bound R) :=
  match statement st with
  | Simple q => (BatchQuery (query q), bs_bound_values q)
  | Prepared p => (BatchPrepared (prepared_statement (bp_statement p)), bp_bound_values p)
  end.

Definition append_to (st : CassStatement R Handle (CassPrepared R Handle)) (s : CassBatchState)
  : CassBatchState :=
  let '(q, values) := appended st in
  s <| batch := (batch s) <| batch_statements := batch_statements (batch s) ++ [q] |> |>
    <| batch_bound_values := batch_bound_values s ++ [values] |>.

Definition batch_add_statement (st : option (CassStatement R Handle (CassPrepared R Handle)))
    (self : CassBatch) (h : batches) : setter :=
  match st with
  | None => Ret (CASS_ERROR_LIB_BAD_PARAMS, (self, h))
  | Some st => Ret (CASS_OK, modify_state (append_to st) self h)
  end.

Inductive batch_call :=
| BSetConsistency (c : CassConsistency)
| BSetSerialConsistency (c : CassConsistency)
| BSetRetryPolicy (p : option CassRetryPolicy)
| BSetTimestamp (t : Z)
| BSetRequestTimeout (ms : Z)
| BSetIsIdempotent (b : Z)
| BSetTracing (b : Z)
| BSetExecutionProfileN (name : char_ptr) (n : nat)
| BAddStatement (st : option (CassStatement R Handle (CassPrepared R Handle))).

Definition batch_exec (c : batch_call) : CassBatch -> batches -> setter :=
  match c with
  | BSetConsistency c => batch_set_consistency c
  | BSetSerialConsistency c => batch_set_serial_consistency c
  | BSetRetryPolicy p => batch_set_retry_policy p
  | BSetTimestamp t => batch_set_timestamp t
  | BSetRequestTimeout ms => batch_set_request_timeout ms
  | BSetIsIdempotent b => batch_set_is_idempotent b
  | BSetTracing b => batch_set_tracing b
  | BSetExecutionProfileN name n => batch_set_execution_profile_n name n
  | BAddStatement st => batch_add_statement st
  end.

(** ** Batches and the requests that run them

    The numbered owners are the caller's batches and the running requests, which
    hold a clone of the batch's [Arc]. *)
Inductive batch_object :=
| BatchObject (b : CassBatch)
| RunningBatch (l : nat).

Definition batch_ref (o : batch_object) : nat :=
  match o with BatchObject b => state b | RunningBatch l => l end.

Record batch_world := mkBatchWorld {
  batch_objects : gmap nat batch_object;
  batch_store : arc_store CassBatchState
}.

Inductive batch_step :=
| BatchNew (typ : CassBatchType)
| BatchCall (id : nat) (c : batch_call)
| BatchExecute (id : nat)
| BatchSetHandle (id : nat) (handle : option Handle)
| BatchRelease (id : nat).

(** [BatchExecute] and [BatchSetHandle] are the clone [cass_session_execute_batch]
    takes and the profile its future sets on the clone. *)
Definition batch_world_exec (c : batch_step) (w : batch_world) : outcome (CassError * batch_world) :=
  let new := fresh (dom (batch_objects w)) in
  match c with
  | BatchNew typ =>
      match cass_batch_new typ (batch_store w) with
      | (Some b, h) => Ret (CASS_OK, mkBatchWorld (<[new := BatchObject b]> (batch_objects w)) h)
      | (None, _) => Ret (CASS_OK, w)
      end
  | BatchCall id c =>
      match batch_objects w !! id with
      | Some (BatchObject b) =>
          '(e, (b, h)) ← batch_exec c b (batch_store w);
          Ret (e, mkBatchWorld (<[id := BatchObject b]> (batch_objects w)) h)
      | _ => Ret (CASS_ERROR_LIB_BAD_PARAMS, w)
      end
  | BatchExecute id =>
      match batch_objects w !! id with
      | Some (BatchObject b) =>
          Ret (CASS_OK, mkBatchWorld (<[new := RunningBatch (state b)]> (batch_objects w))
                          (arc_clone (state b) (batch_store w)))
      | _ => Ret (CASS_OK, w)
      end
  | BatchSetHandle id handle =>
      match batch_objects w !! id with
      | Some (RunningBatch l) =>
          let '(b, h) := modify_settings (fun q => q <| s_execution_profile := handle |>)
                           (mkCassBatch l None) (batch_store w) in
          Ret (CASS_OK, mkBatchWorld (<[id := RunningBatch (state b)]> (batch_objects w)) h)
      | _ => Ret (CASS_OK, w)
      end
  | BatchRelease id =>
      match batch_objects w !! id with
      | Some o =>
          Ret (CASS_OK, mkBatchWorld (delete id (batch_objects w)) (arc_drop (batch_ref o) (batch_store w)))
      | None => Ret (CASS_OK, w)
      end
  end.

Fixpoint batch_world_run (l : list batch_step) (w : batch_world) : outcome (list CassError * batch_world) :=
  match l with
  | [] => Ret ([], w)
  | c :: l =>
      '(e, w) ← batch_world_exec c w;
      '(es, w) ← batch_world_run l w;
      Ret (e :: es, w)
  end.

(** ** The specification: every owner has a batch state of its own *)

(** What a setter does to the state, if it is accepted. *)
Definition batch_effect (c : batch_call) : option (CassBatchState -> CassBatchState) :=
  let on_settings f := Some (fun st => st <| batch := (batch st) <| batch_settings ::= f |> |>) in
  match c with
  | BSetConsistency c =>
      match from_c_value (T := Consistency) c with
      | Err _ => None
      | Ok Unset => on_settings (fun q => q <| s_consistency := None |>)
      | Ok (SetTo c) => on_settings (fun q => q <| s_consistency := Some c |>)
      end
  | BSetSerialConsistency c =>
      match from_c_value (T := option SerialConsistency) c with
      | Err _ => None
      | Ok Unset => on_settings (fun q => q <| s_serial_consistency := None |>)
      | Ok (SetTo c) => on_settings (fun q => q <| s_serial_consistency := Some c |>)
      end
  | BSetRetryPolicy p => on_settings (fun q => q <| s_retry_policy := p |>)
  | BSetTimestamp t => on_settings (fun q => q <| s_timestamp := Some t |>)
  | BSetRequestTimeout ms => on_settings (fun q => q <| s_request_timeout := statement_timeout ms |>)
  | BSetIsIdempotent b => on_settings (fun q => q <| s_is_idempotent := negb (b =? 0) |>)
  | BSetTracing b => on_settings (fun q => q <| s_tracing := negb (b =? 0) |>)
  | BSetExecutionProfileN name n =>
      match to_str name n with Err InvalidUtf8 => None | _ => Some (fun st => st) end
  | BAddStatement None => None
  | BAddStatement (Some st) => Some (append_to st)
  end.

End Batches.

Arguments CassBatchState : clear implicits.
Arguments batch_world : clear implicits.
Arguments batch_step : clear implicits.
Arguments batch_call : clear implicits.
Arguments batch_object : clear implicits.
Arguments CassBatch : clear implicits.

Section BatchSpec.
Context {R Handle : Type}.

Definition batch_owners (w : batch_world R Handle) : gmap nat nat := batch_ref <$> batch_objects w.

(** What each owner reads. *)
Definition batch_view (w : batch_world R Handle) : gmap nat (CassBatchState R Handle) :=
  arc_view (batch_owners w) (batch_store w).

Definition batch_spec (c : batch_step R Handle) (w : batch_world R Handle)
  : CassError * gmap nat (CassBatchState R Handle) :=
  let v := batch_view w in
  let new := fresh (dom (batch_objects w)) in
  match c with
  | BatchNew typ =>
      (CASS_OK, match make_batch_type typ with
                | Some t => <[new := mkBatchState (mkBatch t [] settings_default) []]> v
                | None => v
                end)
  | BatchCall id c =>
      match batch_objects w !! id, batch_effect c with
      | Some (BatchObject _), Some f => (CASS_OK, alter f id v)
      | _, _ => (CASS_ERROR_LIB_BAD_PARAMS, v)
      end
  | BatchExecute id =>
      (CASS_OK, match batch_objects w !! id, v !! id with
                | Some (BatchObject _), Some st => <[new := st]> v
                | _, _ => v
                end)
  | BatchSetHandle id handle =>
      (CASS_OK, match batch_objects w !! id with
                | Some (RunningBatch _) =>
                    alter (fun st => st <| batch := (batch st)
                      <| batch_settings ::= (fun q => q <| s_execution_profile := handle |>) |> |>) id v
                | _ => v
                end)
  | BatchRelease id => (CASS_OK, delete id v)
  end.

Definition batch_ok (w : batch_world R Handle) : Prop := arc_ok (batch_owners w) (batch_store w).

Lemma batch_owners_lookup (w : batch_world R Handle) id o :
  batch_objects w !! id = Some o -> batch_owners w !! id = Some (batch_ref o).
Proof. intros Ho. unfold batch_owners. by rewrite lookup_fmap, Ho. Qed.

Lemma batch_fresh (w : batch_world R Handle) : batch_owners w !! fresh (dom (batch_objects w)) = None.
Proof.
  unfold batch_owners. rewrite lookup_fmap.
  assert (E : batch_objects w !! fresh (dom (batch_objects w)) = None) by apply not_elem_of_dom, is_fresh.
  by rewrite E.
Qed.

(** The owner [id] changes its state through [make_mut]. *)
Lemma batch_modify_ok (w : batch_world R Handle) id o f l h (mk : nat -> batch_object Handle) :
  batch_ok w -> batch_objects w !! id = Some o -> (forall l, batch_ref (mk l) = l) ->
  arc_make_mut f (batch_ref o) (batch_store w) = (l, h) ->
  let w' := mkBatchWorld (<[id := mk l]> (batch_objects w)) h in
  batch_ok w' /\ batch_view w' = alter f id (batch_view w).
Proof.
  intros Hok Ho Hmk E. pose proof (arc_make_mut_ok f _ _ _ _ Hok (batch_owners_lookup _ _ _ Ho)) as Hm.
  rewrite E in Hm. unfold batch_ok, batch_view, batch_owners in *. simpl. rewrite fmap_insert, Hmk. done.
Qed.

(** The case of a setter that changes the state through [make_mut]. *)
Ltac by_make_mut Hset :=
  edestruct Hset as (? & ? & E & ?); eexists _, _; split;
  [unfold batch_set_timestamp, batch_set_request_timeout, batch_set_is_idempotent, batch_set_tracing,
     batch_add_statement, modify_settings; rewrite E; reflexivity|left; eassumption].

(** A setter either changes the state through [make_mut] or fails without a change. *)
Lemma batch_exec_effect (c : batch_call R Handle) b h :
  exists b' h', batch_exec c b h =
    Ret (match batch_effect c with Some _ => CASS_OK | None => CASS_ERROR_LIB_BAD_PARAMS end, (b', h')) /\
  match batch_effect c with
  | Some f => arc_make_mut f (state b) h = (state b', h') \/
      (state b' = state b /\ h' = h /\ forall x, f x = x)
  | None => b' = b /\ h' = h
  end.
Proof.
  assert (Hset : forall f, exists b' h', modify_state (Handle := Handle) (R := R) f b h = (b', h') /\
    arc_make_mut f (state b) h = (state b', h')).
  { intros f. unfold modify_state. destruct (arc_make_mut f (state b) h) as [l' h']. by eexists _, _. }
  destruct c; simpl.
  - unfold batch_set_consistency. destruct (from_c_value c) as [[|c']|]; [by_make_mut Hset..|by eexists _, _].
  - unfold batch_set_serial_consistency.
    destruct (from_c_value c) as [[|c']|]; [by_make_mut Hset..|by eexists _, _].
  - unfold batch_set_retry_policy. assert (Hp : retry_policy_opt p = Ret p) by by destruct p.
    rewrite Hp. simpl. by_make_mut Hset.
  - by_make_mut Hset.
  - by_make_mut Hset.
  - by_make_mut Hset.
  - by_make_mut Hset.
  - unfold batch_set_execution_profile_n, set_execution_profile_n.
    destruct (to_str name n) as [nm|[]]; eexists _, _; (split; [done|]); simpl; [right; done..|].
    by destruct b.
  - destruct st as [st|]; simpl; [|by eexists _, _]. by_make_mut Hset.
Qed.

Definition aligned (st : CassBatchState R Handle) : Prop :=
  length (batch_statements (batch st)) = length (batch_bound_values st).

Lemma batch_effect_aligned (c : batch_call R Handle) f st : batch_effect c = Some f -> aligned st -> aligned (f st).
Proof.
  unfold aligned. destruct c as [c|c|p|t|ms|b|b|name n|[s|]]; simpl; intros Hf Hst.
  - destruct (from_c_value c) as [[|]|]; [injection Hf as <-; exact Hst..|discriminate].
  - destruct (from_c_value c) as [[|]|]; [injection Hf as <-; exact Hst..|discriminate].
  - injection Hf as <-. exact Hst.
  - injection Hf as <-. exact Hst.
  - injection Hf as <-. exact Hst.
  - injection Hf as <-. exact Hst.
  - injection Hf as <-. exact Hst.
  - destruct (to_str name n) as [|[]]; [injection Hf as <-; exact Hst..|discriminate].
  - injection Hf as <-. unfold append_to. destruct (appended s). simpl. rewrite !length_app. simpl. lia.
  - discriminate.
Qed.

(** One step: the owners' views change as the specification says. *)
Lemma batch_step_ok (c : batch_step R Handle) w :
  batch_ok w ->
  exists w', batch_world_exec c w = Ret ((batch_spec c w).1, w') /\ batch_ok w' /\
    batch_view w' = (batch_spec c w).2.
Proof.
  intros Hok. destruct c as [typ|id c|id|id handle|id]; simpl.
  - unfold cass_batch_new. destruct (make_batch_type typ) as [t|]; [|by exists w].
    pose proof (arc_new_ok _ _ (fresh (dom (batch_objects w)))
      (mkBatchState (mkBatch t [] settings_default) []) Hok (batch_fresh w)) as Hn.
    destruct (arc_new _ (batch_store w)) as [l h]. eexists. split; [done|].
    unfold batch_ok, batch_view, batch_owners in *. simpl. rewrite fmap_insert. exact Hn.
  - destruct (batch_objects w !! id) as [[b|l]|] eqn:Ho; [|by exists w..].
    destruct (batch_exec_effect c b (batch_store w)) as (b' & h' & -> & Heff).
    destruct (batch_effect c) as [f|]; simpl; eexists; (split; [done|]).
    + destruct Heff as [Em|(Es & -> & Hid)].
      * destruct b' as [l' ep'].
        exact (batch_modify_ok w id (BatchObject b) f l' h' (fun l => BatchObject (mkCassBatch l ep'))
          Hok Ho (fun _ => eq_refl) Em).
      * assert (Eo : batch_owners (mkBatchWorld (<[id := BatchObject b']> (batch_objects w)) (batch_store w))
          = batch_owners w).
        { unfold batch_owners. simpl. rewrite fmap_insert. simpl. rewrite Es.
          apply insert_id. by rewrite lookup_fmap, Ho. }
        unfold batch_ok, batch_view. rewrite Eo. split; [done|]. simpl.
        symmetry. apply map_eq. intros k. destruct (decide (id = k)) as [<-|Hne].
        -- rewrite lookup_alter_eq.
           destruct (arc_view (batch_owners w) (batch_store w) !! id); simpl; [by rewrite Hid|done].
        -- by rewrite lookup_alter_ne.
    + destruct Heff as [-> ->]. rewrite insert_id by done. by destruct w.
  - destruct (batch_objects w !! id) as [[b|l]|] eqn:Ho; [|by exists w..].
    pose proof (batch_owners_lookup _ _ _ Ho) as Hl.
    pose proof (arc_clone_ok _ _ _ _ _ Hok Hl (batch_fresh w)) as Hc. eexists. split; [done|].
    unfold batch_ok, batch_view, batch_owners in *. simpl in *. rewrite fmap_insert. exact Hc.
  - destruct (batch_objects w !! id) as [[b|l]|] eqn:Ho; [by exists w| |by exists w].
    unfold modify_settings, modify_state. simpl.
    match goal with |- context [arc_make_mut ?f _ _] => set (g := f) end.
    destruct (arc_make_mut g l (batch_store w)) as [l' h'] eqn:Em. eexists. split; [done|].
    exact (batch_modify_ok w id (RunningBatch l) g l' h' RunningBatch Hok Ho (fun _ => eq_refl) Em).
  - destruct (batch_objects w !! id) as [o|] eqn:Ho.
    + destruct (arc_drop_ok _ _ _ _ Hok (batch_owners_lookup _ _ _ Ho)) as [Hok' Hv].
      eexists. split; [done|]. unfold batch_ok, batch_view, batch_owners in *. simpl. by rewrite fmap_delete.
    + exists w. split_and!; [done|done|]. symmetry. apply delete_id. unfold batch_view.
      rewrite arc_view_lookup. unfold batch_owners. by rewrite lookup_fmap, Ho.
Qed.

Lemma batch_spec_aligned (c : batch_step R Handle) w :
  map_Forall (fun _ => aligned) (batch_view w) -> map_Forall (fun _ => aligned) (batch_spec c w).2.
Proof.
  intros Hall.
  assert (Halter : forall id f, (forall st, aligned st -> aligned (f st)) ->
    map_Forall (fun _ => aligned) (alter f id (batch_view w))).
  { intros id f Hf k st. destruct (decide (id = k)) as [<-|Hne].
    - rewrite lookup_alter_eq. destruct (batch_view w !! id) as [x|] eqn:Hx; simpl; [|done].
      intros [= <-]. by apply Hf, (Hall id).
    - rewrite lookup_alter_ne by done. apply Hall. }
  destruct c as [typ|id c|id|id handle|id]; simpl.
  - destruct (make_batch_type typ); [|done]. by apply map_Forall_insert_2.
  - destruct (batch_objects w !! id) as [[]|]; [|done..]. destruct (batch_effect c) eqn:Hc; simpl; [|done].
    apply Halter. intros st. by apply batch_effect_aligned with c.
  - destruct (batch_objects w !! id) as [[]|]; [|done..]. destruct (batch_view w !! id) eqn:Hv; [|done].
    apply map_Forall_insert_2; [|done]. by apply (Hall id).
  - destruct (batch_objects w !! id) as [[]|]; [done| |done]. by apply Halter.
  - by apply map_Forall_delete.
Qed.

End BatchSpec.

(** Batches are copied on write.  No sequence of calls on batches panics; after
    any such sequence, each further call returns the specified code and changes what
    the owners read exactly as specified: a setter changes the batch it is given and
    nothing else, and a running request keeps the batch as it was when it was
    executed.  Each statement of a batch has its own list of values. *)
Theorem batches_copy_on_write {R Handle : Type} (l : list (batch_step R Handle)) :
  exists es w, batch_world_run l (mkBatchWorld ∅ ∅) = Ret (es, w) /\ batch_ok w /\
    map_Forall (fun _ => aligned) (batch_view w) /\
    forall c, exists w', batch_world_exec c w = Ret ((batch_spec c w).1, w') /\
      batch_view w' = (batch_spec c w).2.
Proof.
  assert (Hgen : forall w0 : batch_world R Handle, batch_ok w0 -> map_Forall (fun _ => aligned) (batch_view w0) ->
    exists es w, batch_world_run l w0 = Ret (es, w) /\ batch_ok w /\ map_Forall (fun _ => aligned) (batch_view w)).
  { induction l as [|c l IH]; intros w0 Hok Hal; simpl; [by eexists _, _|].
    destruct (batch_step_ok c w0 Hok) as (w1 & -> & Hok1 & Hv1). simpl.
    destruct (IH w1 Hok1) as (es & w & -> & Hw); [rewrite Hv1; by apply batch_spec_aligned|].
    by eexists _, _. }
  destruct (Hgen (mkBatchWorld ∅ ∅)) as (es & w & Hrun & Hok & Hal).
  - unfold batch_ok, batch_owners. simpl. rewrite fmap_empty. apply arc_ok_empty.
  - unfold batch_view, batch_owners, arc_view. simpl. rewrite fmap_empty, omap_empty. apply map_Forall_empty.
  - exists es, w. split_and!; try done. intros c. destruct (batch_step_ok c w Hok) as (w' & H1 & _ & H2). eauto.
Qed.

(** A batch forgets names.  An unprepared statement whose values were bound by
    name serializes them in the order of the columns when it is executed alone, but
    a batch takes its values in the order in which their names were first bound. *)
Theorem batch_ignores_names :
  exists (st : CassStatement dtree unit (CassPrepared dtree unit)) q values columns,
    stmt_run (H := tree_data_types (fun _ => None))
      [BindByName (Some "b"%string) (AInt32 2); BindByName (Some "a"%string) (AInt32 1)]
      (statement_new (Simple (mkBoundSimple (mkStatement EmptyString settings_default) [VUnset; VUnset] ∅))) tt
      = Ret ([CASS_OK; CASS_OK], (st, tt)) /\
    appended st = (BatchQuery q, values) /\ values = [VSet (Some (Int 2)); VSet (Some (Int 1))] /\
    forall serialize_vec, exists names,
      statement st = Simple (mkBoundSimple q values names) /\
      row_serialize (E := unit) (fun v _ => Ok v) serialize_vec (mkRowSerializer values names) columns
        = Ret (Ok [VSet (Some (Int 1)); VSet (Some (Int 2))]).
Proof.
  eexists _, _, _, [("a"%string, CNative NInt); ("b"%string, CNative NInt)].
  split; [reflexivity|]. split; [reflexivity|]. split; [reflexivity|]. intros serialize_vec.
  eexists. split; [reflexivity|]. vm_compute. reflexivity.
Qed.
