(* ===== verification/Future.v ===== *)
(** * Futures (future.rs)

    A resolvable future is shared by the tokio task that resolves it and by any
    number of caller threads that wait for it, with or without a timeout, or set its
    callback.  [future_state] is the shared state and the position of each of them;
    a section of code that holds the mutex is one atomic action, as is a read of the
    write-once result.  With a current-thread runtime nobody runs the task unless a
    thread is inside [block_on], which is why waiting threads hand the join handle to
    each other. *)

From Stdlib Require Import ZArith Lia String.
From stdpp Require Import base list gmap strings relations.
From S2P Require Import Prelude Types Uuid.

Section Futures.
Context {V C : Type}.

(** [waited_result], or [waited_result_timed] with a deadline that can or cannot be
    represented. *)
Inductive wait_mode := Untimed | Timed (overflows : bool).

Inductive wait_result := Got (v : V) | TimeoutError | InvalidDuration.

(** Where a caller thread is. *)
Inductive pc :=
| Start (m : wait_mode)          (* before the check without the lock *)
| Locking (m : wait_mode)        (* about to lock the state and enter the loop *)
| Waiting (m : wait_mode)        (* blocked on the condition variable *)
| Awake (m : wait_mode)          (* woken up, about to lock and check the condition *)
| Blocking (m : wait_mode)       (* in [block_on], owning the join handle *)
| Joined                         (* [block_on] returned, about to read the result *)
| ReturnHandle                   (* timed out, about to put the handle back *)
| Finished (r : wait_result)
| CbStart (cb : C)               (* about to lock the state in [set_callback] *)
| CbInvoke (cb : C)
| CbDone (e : CassError)
| Panicked.

(** Where the task is: awaiting its future; the result is set and the callback it
    read is to be invoked; waiters are to be notified; completed. *)
Inductive task_pc := Running | Invoking (cb : option C) | Notifying | Completed | TaskPanicked.

Record future_state := mkFuture {
  result : option V;
  callback : option C;
  join_handle : bool;
  created : bool;
  task : task_pc;
  threads : list pc;
  invoked : list C
}.

#[export] Instance future_state_eta : Eta future_state := fun r =>
  mkFuture (result r) (callback r) (join_handle r) (created r) (task r) (threads r) (invoked r).

(** [new_from_future] up to the spawn. *)
Definition new_from_future : future_state := mkFuture None None false false Running [] [].

(** The loop body under the lock: the new position, and whether the handle is still
    in the state. *)
Definition loop_body (m : wait_mode) (s : future_state) : pc * bool :=
  match result s with
  | Some v => (Finished (Got v), join_handle s)
  | None => if join_handle s then (Blocking m, false) else (Waiting m, join_handle s)
  end.

(** [wait_while] and [wait_timeout_while] after a wake-up: the condition is checked
    first, and only then the deadline. *)
Definition recheck (m : wait_mode) (elapsed : bool) (s : future_state) : pc * bool :=
  match result s, join_handle s with
  | None, false =>
      match m with
      | Timed _ => if elapsed then (Finished TimeoutError, false) else (Waiting m, false)
      | Untimed => (Waiting m, false)
      end
  | _, _ => loop_body m s
  end.

Definition timed (m : wait_mode) : bool := match m with Timed _ => true | Untimed => false end.

(** [ResolvableFuture::set_callback] under the lock. *)
Definition set_callback_locked (cb : C) (s : future_state) : pc * option C :=
  match callback s with
  | Some _ => (CbDone CASS_ERROR_LIB_CALLBACK_ALREADY_SET, callback s)
  | None => (match result s with Some _ => CbInvoke cb | None => CbDone CASS_OK end, Some cb)
  end.

Definition put (i : nat) (p : pc) (s : future_state) : future_state :=
  s <| threads := <[i := p]> (threads s) |>.

(** One action of thread [i] at [p]; [elapsed] says whether its deadline has passed.
    [None]: it is blocked, finished, or returns the handle ([returns_handle]). *)
Definition thread_step (elapsed : bool) (i : nat) (p : pc) (s : future_state) : option future_state :=
  match p with
  | Start m =>
      Some (put i (match result s with Some v => Finished (Got v) | None => Locking m end) s)
  | Locking (Timed true) => Some (put i (Finished InvalidDuration) s)
  | Locking m => let '(p', jh) := loop_body m s in Some (put i p' (s <| join_handle := jh |>))
  | Waiting m => if elapsed && timed m then Some (put i (Awake m) s) else None
  | Awake m => let '(p', jh) := recheck m elapsed s in Some (put i p' (s <| join_handle := jh |>))
  | Blocking m =>
      if elapsed && timed m then Some (put i ReturnHandle s)
      else match task s with Completed => Some (put i Joined s) | _ => None end
  | Joined => Some (put i (match result s with Some v => Finished (Got v) | None => Panicked end) s)
  | CbStart cb =>
      let '(p', c) := set_callback_locked cb s in Some (put i p' (s <| callback := c |>))
  | CbInvoke cb => Some (put i (CbDone CASS_OK) (s <| invoked := invoked s ++ [cb] |>))
  | ReturnHandle | Finished _ | CbDone _ | Panicked => None
  end.

(** [notify_one] wakes a waiting thread if there is one. *)
Inductive notify_one : list pc -> list pc -> Prop :=
| notify_some l j m : l !! j = Some (Waiting m) -> notify_one l (<[j := Awake m]> l)
| notify_none l : (forall j m, l !! j <> Some (Waiting m)) -> notify_one l l.

Definition wake (p : pc) : pc := match p with Waiting m => Awake m | p => p end.

(** The task after [fut.await]: the section under the lock. *)
Definition resolve (r : V) (s : future_state) : future_state :=
  match result s with
  | None => s <| result := Some r |> <| task := Invoking (callback s) |>
  | Some _ => s <| task := TaskPanicked |>
  end.

Definition blocking (s : future_state) : Prop := exists i m, threads s !! i = Some (Blocking m).

(** The steps the program takes by itself.  [multi] is a multi-thread runtime; with
    a current-thread runtime the task is only polled inside some [block_on].  Once
    the awaited future is ready, the rest of the task runs without a suspension. *)
Inductive progress (multi : bool) : future_state -> future_state -> Prop :=
| stores_handle s :
    created s = false -> progress multi s (s <| join_handle := true |> <| created := true |>)
| task_resolves s r :
    task s = Running -> (multi = true \/ blocking s) -> progress multi s (resolve r s)
| task_invokes s cb :
    task s = Invoking cb ->
    progress multi s (s <| invoked := invoked s ++ option_list cb |> <| task := Notifying |>)
| task_notifies s :
    task s = Notifying ->
    progress multi s (s <| threads := map wake (threads s) |> <| task := Completed |>)
| thread_acts s i p s' :
    threads s !! i = Some p -> thread_step false i p s = Some s' -> progress multi s s'
| returns_handle s i l :
    threads s !! i = Some ReturnHandle -> notify_one (threads s) l ->
    progress multi s (s <| join_handle := true |> <| threads := <[i := Finished TimeoutError]> l |>).

(** What the environment does: deadlines pass, waits end spuriously, and the task is
    polled by a [block_on] of another future of the same runtime. *)
Inductive environment : future_state -> future_state -> Prop :=
| deadline_passes s i p s' :
    threads s !! i = Some p -> thread_step true i p s = Some s' -> environment s s'
| spurious_wakeup s i m :
    threads s !! i = Some (Waiting m) -> environment s (put i (Awake m) s)
| resolved_elsewhere s r :
    task s = Running -> environment s (resolve r s).

(** A thread calls a function on the future, which it can only after its creation. *)
Inductive call_starts : future_state -> future_state -> Prop :=
| starts s p :
    created s = true -> (exists m, p = Start m) \/ (exists cb, p = CbStart cb) ->
    call_starts s (s <| threads := threads s ++ [p] |>).

Definition runs (multi : bool) (s s' : future_state) : Prop := progress multi s s' \/ environment s s'.

Definition next (multi : bool) (s s' : future_state) : Prop := runs multi s s' \/ call_starts s s'.

Definition reachable (multi : bool) (s : future_state) : Prop := rtc (next multi) new_from_future s.

End Futures.

Arguments pc : clear implicits.
Arguments task_pc : clear implicits.
Arguments future_state : clear implicits.
Arguments wait_result : clear implicits.

(** ** The result of a future *)

(** [CassResultValue] and [CassFutureResult]; [QR], [QE] and [PR] are the shared
    result, error and prepared statement objects. *)
Inductive CassResultValue (QR QE PR : Type) :=
| Empty
| QueryResult (r : QR)
| QueryError (e : QE)
| PreparedResult (p : PR).
Arguments Empty {QR QE PR}.
Arguments QueryResult {QR QE PR}.
Arguments QueryError {QR QE PR}.
Arguments PreparedResult {QR QE PR}.

Section Results.
Context {QR QE PR Node : Type}.
Variables (to_cass_error : QE -> CassError) (msg : QE -> string).
Variables (tracing_id : QR -> option Z) (coordinator : QR -> option Node).

Notation future_result := (Prelude.result (CassError * string) (CassResultValue QR QE PR)).

Definition cass_future_error_code (r : future_result) : CassError :=
  match r with
  | Ok (QueryError err) => to_cass_error err
  | Err (err, _) => err
  | _ => CASS_OK
  end.

Definition cass_future_error_message (r : future_result) : string :=
  match r with
  | Ok (QueryError err) => msg err
  | Err (_, s) => s
  | _ => EmptyString
  end.

Definition cass_future_get_result (r : future_result) : option QR :=
  match r with Ok (QueryResult qr) => Some qr | _ => None end.

Definition cass_future_get_error_result (r : future_result) : option QE :=
  match r with Ok (QueryError qe) => Some qe | _ => None end.

Definition cass_future_get_prepared (r : future_result) : option PR :=
  match r with Ok (PreparedResult p) => Some p | _ => None end.

(** The code and what is written through the out parameter. *)
Definition cass_future_tracing_id (r : future_result) : CassError * option CassUuid :=
  match r with
  | Ok (QueryResult qr) =>
      match tracing_id qr with
      | Some id => (CASS_OK, Some (CassUuid_from id))
      | None => (CASS_ERROR_LIB_NO_TRACING_ID, None)
      end
  | _ => (CASS_ERROR_LIB_INVALID_FUTURE_TYPE, None)
  end.

(** [Panic] is the [unwrap] of a missing coordinator. *)
Definition cass_future_coordinator (r : future_result) : outcome (option Node) :=
  match r with
  | Ok (QueryResult qr) => match coordinator qr with Some n => Ret (Some n) | None => Panic end
  | _ => Ret None
  end.

End Results.

(** ** Counting threads *)

Section Counting.
Context {A : Type}.

Definition count (f : A -> bool) (l : list A) : nat := length (List.filter f l).

Definition b2n (b : bool) : nat := if b then 1 else 0.

Lemma count_cons f x l : count f (x :: l) = (b2n (f x) + count f l)%nat.
Proof. unfold count. simpl. by destruct (f x). Qed.

Lemma count_app f l k : count f (l ++ k) = (count f l + count f k)%nat.
Proof. induction l as [|x l IH]; [done|]. simpl. rewrite !count_cons, IH. lia. Qed.

Lemma count_insert f l i x y :
  l !! i = Some x -> (count f (<[i := y]> l) + b2n (f x) = count f l + b2n (f y))%nat.
Proof.
  revert i; induction l as [|a l IH]; intros [|i]; simpl; try done.
  - intros [= ->]. rewrite !count_cons. lia.
  - intros Hi. specialize (IH _ Hi). rewrite !count_cons. lia.
Qed.

Lemma count_lookup f l i x : l !! i = Some x -> f x = true -> (0 < count f l)%nat.
Proof.
  revert i; induction l as [|a l IH]; intros [|i]; simpl; try done.
  - intros [= ->] Hf. rewrite count_cons, Hf. simpl. lia.
  - intros Hi Hf. specialize (IH _ Hi Hf). rewrite count_cons. lia.
Qed.

Lemma count_pos f l : (0 < count f l)%nat -> exists i x, l !! i = Some x /\ f x = true.
Proof.
  induction l as [|a l IH]; [unfold count; simpl; lia|]. rewrite count_cons. destruct (f a) eqn:Hf; simpl.
  - intros _. by exists O, a.
  - intros (i & x & Hi & Hx)%IH. by exists (S i), x.
Qed.

Lemma count_map f g l : count f (map g l) = count (fun x => f (g x)) l.
Proof. induction l as [|x l IH]; [done|]. simpl. by rewrite !count_cons, IH. Qed.

Lemma count_ext f g l : (forall x, f x = g x) -> count f l = count g l.
Proof. intros Hfg. induction l as [|x l IH]; [done|]. by rewrite !count_cons, IH, Hfg. Qed.

Lemma count_false l : count (fun _ => false) l = 0%nat.
Proof. induction l as [|x l IH]; [done|]. by rewrite count_cons, IH. Qed.

End Counting.

Section Invariant.
Context {V C : Type}.
Notation pc := (pc V C).
Notation state := (future_state V C).

Definition holds_handle (p : pc) : bool :=
  match p with Blocking _ | ReturnHandle => true | _ => false end.
Definition is_waiting (p : pc) : bool := match p with Waiting _ => true | _ => false end.
Definition is_awake (p : pc) : bool := match p with Awake _ => true | _ => false end.
Definition is_invoking (p : pc) : bool := match p with CbInvoke _ => true | _ => false end.
(** The callers whose callback was accepted. *)
Definition accepted (p : pc) : bool :=
  match p with CbInvoke _ => true | CbDone e => bool_decide (e = CASS_OK) | _ => false end.

Definition pc_ok (r : option V) (c : option C) (p : pc) : Prop :=
  match p with
  | Joined => is_Some r
  | Finished (Got v) => r = Some v
  | CbInvoke cb => is_Some r /\ c = Some cb
  | Panicked => False
  | _ => True
  end.

Definition task_pending (t : task_pc C) : nat := match t with Invoking (Some _) => 1 | _ => 0 end.

(** The task and its result; the join handle is in exactly one place until the task
    has completed; no waiter is forgotten; the callback is invoked once. *)
Record future_inv (s : state) : Prop := {
  inv_task : task s <> TaskPanicked /\ (result s = None <-> task s = Running);
  inv_created : created s = false -> threads s = [] /\ join_handle s = false;
  inv_handle : (count holds_handle (threads s) + b2n (join_handle s) <= 1)%nat /\
    (created s = true -> task s <> Completed ->
     (count holds_handle (threads s) + b2n (join_handle s) = 1)%nat);
  inv_pcs : Forall (pc_ok (result s) (callback s)) (threads s);
  inv_wake : join_handle s = true -> result s = None ->
    (0 < count is_waiting (threads s))%nat -> (0 < count is_awake (threads s))%nat;
  inv_done : task s = Completed -> count is_waiting (threads s) = 0%nat;
  inv_invoked : Forall (fun c => callback s = Some c) (invoked s);
  inv_task_cb : forall cb, task s = Invoking (Some cb) -> callback s = Some cb;
  inv_once : (length (invoked s) + count is_invoking (threads s) + task_pending (task s) =
    match callback s, result s with Some _, Some _ => 1 | _, _ => 0 end)%nat;
  inv_accepted : count accepted (threads s) = b2n (bool_decide (is_Some (callback s)))
}.

Lemma future_inv_init : future_inv new_from_future.
Proof. split; simpl; try done. split; [unfold count; simpl; lia|done]. Qed.

(** The counts after thread [i] moved from [p] to [p']. *)
Lemma counts_put (l : list pc) i p p' :
  l !! i = Some p ->
  (count holds_handle (<[i := p']> l) + b2n (holds_handle p) = count holds_handle l + b2n (holds_handle p') /\
   count is_waiting (<[i := p']> l) + b2n (is_waiting p) = count is_waiting l + b2n (is_waiting p') /\
   count is_awake (<[i := p']> l) + b2n (is_awake p) = count is_awake l + b2n (is_awake p') /\
   count is_invoking (<[i := p']> l) + b2n (is_invoking p) = count is_invoking l + b2n (is_invoking p') /\
   count accepted (<[i := p']> l) + b2n (accepted p) = count accepted l + b2n (accepted p'))%nat.
Proof. intros Hi. split_and!; by apply count_insert. Qed.

(** A move of one thread that leaves the shared state alone. *)
Lemma inv_put s i p p' :
  future_inv s -> threads s !! i = Some p ->
  holds_handle p' = holds_handle p -> is_invoking p' = is_invoking p -> accepted p' = accepted p ->
  pc_ok (result s) (callback s) p' ->
  (is_waiting p' = true -> is_waiting p = true) ->
  (is_awake p = true -> is_awake p' = true \/ join_handle s = false \/ is_Some (result s)) ->
  future_inv (put i p' s).
Proof.
  intros [H1 H2 H3 H4 H5 H6 H7 H8 H9 H10] Hi Eh Ei Ea Hpc Hw Hk.
  destruct (counts_put (threads s) i p p' Hi) as (C1 & C2 & C3 & C4 & C5).
  rewrite Eh in C1. rewrite Ei in C4. rewrite Ea in C5.
  split; unfold put, update; simpl; try done.
  - intros Hc. destruct (H2 Hc) as [Hn _]. rewrite Hn in Hi. done.
  - replace (count holds_handle (<[i:=p']> (threads s))) with (count holds_handle (threads s)) by lia. done.
  - by apply Forall_insert.
  - intros Hj Hr Hc. assert (Hc' : (0 < count is_waiting (threads s))%nat).
    { destruct (is_waiting p') eqn:Ew; [|simpl in C2; lia]. rewrite (Hw eq_refl) in C2. simpl in C2. lia. }
    specialize (H5 Hj Hr Hc'). destruct (is_awake p) eqn:Ek; [|simpl in C3; lia].
    destruct (Hk eq_refl) as [Hk'|[Hj'|[v Hv]]]; [rewrite Hk' in C3; simpl in C3; lia|congruence..].
  - intros Ht. specialize (H6 Ht). destruct (is_waiting p') eqn:Ew; [rewrite (Hw eq_refl) in C2|]; simpl in C2; lia.
  - replace (count is_invoking (<[i:=p']> (threads s))) with (count is_invoking (threads s)) by lia. done.
  - replace (count accepted (<[i:=p']> (threads s))) with (count accepted (threads s)) by lia. done.
Qed.

(** A thread enters the loop body: it returns the result, takes the handle, or
    waits because the handle is gone. *)
Lemma inv_loop_body s i p m :
  future_inv s -> threads s !! i = Some p -> p = Locking m \/ p = Awake m ->
  let '(p', jh) := loop_body m s in future_inv (put i p' (s <| join_handle := jh |>)).
Proof.
  intros Hinv Hi Hp. unfold loop_body. destruct (result s) as [v|] eqn:Hr.
  - assert (E : s <| join_handle := join_handle s |> = s) by by destruct s.
    rewrite E. apply (inv_put s i p); [done|done|..].
    1-3: by destruct Hp as [-> | ->].
    + by rewrite Hr.
    + done.
    + intros _. right. right. rewrite Hr. by eexists.
  - destruct Hinv as [H1 H2 H3 H4 H5 H6 H7 H8 H9 H10].
    assert (Hrun : task s = Running) by by apply H1.
    assert (Hcre : created s = true).
    { destruct (created s) eqn:Hc; [done|]. destruct (H2 eq_refl) as [Hn _]. rewrite Hn in Hi. done. }
    destruct (join_handle s) eqn:Hj.
    + destruct (counts_put (threads s) i p (Blocking m) Hi) as (C1 & C2 & C3 & C4 & C5).
      assert (Hp' : holds_handle p = false /\ is_waiting p = false /\ is_invoking p = false /\ accepted p = false)
        by by destruct Hp as [-> | ->].
      destruct Hp' as (P1 & P2 & P3 & P4). rewrite P1 in C1. rewrite P2 in C2. rewrite P3 in C4. rewrite P4 in C5.
      simpl in *. split; unfold put, update; simpl; try done.
      * intros Hc. congruence.
      * destruct H3 as [H3a H3b]. specialize (H3b Hcre). rewrite Hrun in *. specialize (H3b ltac:(done)). split; intros; lia.
      * by apply Forall_insert.
      * intros Ht. specialize (H6 Ht). lia.
      * rewrite <- H9. lia.
      * rewrite <- H10. lia.
    + destruct (counts_put (threads s) i p (Waiting m) Hi) as (C1 & C2 & C3 & C4 & C5).
      assert (Hp' : holds_handle p = false /\ is_waiting p = false /\ is_invoking p = false /\ accepted p = false)
        by by destruct Hp as [-> | ->].
      destruct Hp' as (P1 & P2 & P3 & P4). rewrite P1 in C1. rewrite P2 in C2. rewrite P3 in C4. rewrite P4 in C5.
      simpl in *. split; unfold put, update; simpl; try done.
      * intros Hc. congruence.
      * replace (count holds_handle (<[i:=Waiting m]> (threads s))) with (count holds_handle (threads s)) by lia. done.
      * by apply Forall_insert.
      * intros Ht. congruence.
      * rewrite <- H9. lia.
      * rewrite <- H10. lia.
Qed.

(** The join handle is consumed when the task has completed. *)
Lemma inv_join s i m :
  future_inv s -> threads s !! i = Some (Blocking m) -> task s = Completed -> future_inv (put i Joined s).
Proof.
  intros [H1 H2 H3 H4 H5 H6 H7 H8 H9 H10] Hi Ht.
  destruct (counts_put (threads s) i _ Joined Hi) as (C1 & C2 & C3 & C4 & C5). simpl in *.
  split; unfold put, update; simpl; try done.
  - intros Hc. destruct (H2 Hc) as [Hn _]. rewrite Hn in Hi. done.
  - split; [lia|congruence].
  - apply Forall_insert; [done|]. simpl. destruct (result s) eqn:Hr; [by eexists|].
    assert (task s = Running) by by apply H1. congruence.
  - intros Hj Hr. assert (task s = Running) by by apply H1. congruence.
  - intros _. specialize (H6 Ht). lia.
  - rewrite <- H9. lia.
  - rewrite <- H10. lia.
Qed.

(** A callback is refused, or stored and then invoked by whoever comes second: the
    caller if the result is there, the task otherwise. *)
Lemma inv_set_callback s i cb :
  future_inv s -> threads s !! i = Some (CbStart cb) ->
  let '(p', c) := set_callback_locked cb s in future_inv (put i p' (s <| callback := c |>)).
Proof.
  intros Hinv Hi. unfold set_callback_locked. destruct (callback s) as [c|] eqn:Hcb.
  - assert (E : s <| callback := Some c |> = s) by (destruct s; simpl in *; by subst).
    rewrite E. by eapply inv_put.
  - destruct Hinv as [H1 H2 H3 H4 H5 H6 H7 H8 H9 H10]. rewrite Hcb in *.
    assert (Hinv0 : invoked s = []).
    { destruct (invoked s) as [|x l]; [done|]. by inversion H7. }
    rewrite Hinv0 in *. simpl in H9.
    assert (Hpcs : Forall (pc_ok (result s) (Some cb)) (threads s)).
    { eapply Forall_impl; [exact H4|]. intros []; simpl; try done. by intros [_ ?]. }
    set (p' := match result s with Some _ => CbInvoke cb | None => CbDone CASS_OK end).
    destruct (counts_put (threads s) i _ p' Hi) as (C1 & C2 & C3 & C4 & C5).
    assert (Hp' : holds_handle p' = false /\ is_waiting p' = false /\ is_awake p' = false /\
      is_invoking p' = bool_decide (is_Some (result s)) /\ accepted p' = true).
    { subst p'. by destruct (result s). }
    destruct Hp' as (P1 & P2 & P3 & P4 & P5). rewrite P1, P2, P3, P4, P5 in *. simpl in *.
    split; unfold put, update; simpl; try done.
    + intros Hc. destruct (H2 Hc) as [Hn _]. rewrite Hn in Hi. done.
    + replace (count holds_handle (<[i:=p']> (threads s))) with (count holds_handle (threads s)) by lia. done.
    + apply Forall_insert; [done|]. subst p'. destruct (result s); simpl; [|done]. split; [by eexists|done].
    + intros Hj Hr. specialize (H5 Hj Hr). lia.
    + intros Ht. specialize (H6 Ht). lia.
    + by rewrite Hinv0.
    + intros cb' Ht. specialize (H8 _ Ht). done.
    + rewrite Hinv0. simpl. destruct (result s); simpl in *; lia.
    + lia.
Qed.

Lemma inv_invoke s i cb :
  future_inv s -> threads s !! i = Some (CbInvoke cb) ->
  future_inv (put i (CbDone CASS_OK) (s <| invoked := invoked s ++ [cb] |>)).
Proof.
  intros [H1 H2 H3 H4 H5 H6 H7 H8 H9 H10] Hi.
  destruct (counts_put (threads s) i _ (CbDone CASS_OK) Hi) as (C1 & C2 & C3 & C4 & C5). simpl in *.
  rewrite Forall_lookup in H4. destruct (H4 _ _ Hi) as [_ Hcb].
  split; unfold put, update; simpl; try done.
  - intros Hc. destruct (H2 Hc) as [Hn _]. rewrite Hn in Hi. done.
  - replace (count holds_handle (<[i:=CbDone CASS_OK]> (threads s))) with (count holds_handle (threads s)) by lia. done.
  - apply Forall_insert; [by apply Forall_lookup|done].
  - intros Hj Hr. specialize (H5 Hj Hr). lia.
  - intros Ht. specialize (H6 Ht). lia.
  - apply Forall_app. split; [done|]. by constructor.
  - rewrite length_app. simpl. rewrite <- H9. lia.
  - rewrite <- H10. lia.
Qed.

Lemma inv_thread elapsed s i p s' :
  future_inv s -> threads s !! i = Some p -> thread_step elapsed i p s = Some s' -> future_inv s'.
Proof.
  intros Hinv Hi. assert (Hok : pc_ok (result s) (callback s) p).
  { destruct Hinv as [_ _ _ H4 _ _ _ _ _ _]. rewrite Forall_lookup in H4. by apply (H4 i). }
  destruct p as [m|m|m|m|m| | |r|cb|cb|e|]; simpl; try done.
  - intros [= <-]. destruct (result s) as [v|] eqn:Hr; by eapply inv_put.
  - destruct m as [|[]]; [| by intros [= <-]; eapply inv_put|].
    + pose proof (inv_loop_body s i _ Untimed Hinv Hi (or_introl eq_refl)) as Hl.
      destruct (loop_body Untimed s). by intros [= <-].
    + pose proof (inv_loop_body s i _ (Timed false) Hinv Hi (or_introl eq_refl)) as Hl.
      destruct (loop_body (Timed false) s). by intros [= <-].
  - destruct (elapsed && timed m); [|done]. intros [= <-]. by eapply inv_put.
  - pose proof (inv_loop_body s i _ m Hinv Hi (or_intror eq_refl)) as Hl.
    unfold recheck. destruct (result s) eqn:Hr; [destruct (loop_body m s); by intros [= <-]|].
    destruct (join_handle s) eqn:Hj; [destruct (loop_body m s); by intros [= <-]|].
    unfold loop_body in Hl. rewrite Hr, Hj in Hl.
    assert (Htimeout : future_inv (put i (Finished TimeoutError) (s <| join_handle := false |>))).
    { assert (E : s <| join_handle := false |> = s) by (destruct s; simpl in *; by subst).
      rewrite E. eapply inv_put; [done|done|done|done|done|done|done|]. intros _. by right; left. }
    destruct m as [|o], elapsed; by intros [= <-].
  - destruct (elapsed && timed m); [intros [= <-]; by eapply inv_put|].
    destruct (task s) eqn:Ht; try done. intros [= <-]. by eapply inv_join.
  - intros [= <-]. destruct Hok as [v Hr]. rewrite Hr. by eapply inv_put.
  - pose proof (inv_set_callback s i cb Hinv Hi) as Hl. destruct (set_callback_locked cb s). by intros [= <-].
  - intros [= <-]. by apply inv_invoke.
Qed.

Lemma pc_ok_result v c p : pc_ok None c p -> pc_ok (Some v) c p.
Proof. destruct p as [| | | | | | |[]| | | |]; simpl; try done. intros [[? [=]] _]. Qed.

Lemma inv_resolve s r : future_inv s -> task s = Running -> future_inv (resolve r s).
Proof.
  intros [H1 H2 H3 H4 H5 H6 H7 H8 H9 H10] Ht. unfold resolve.
  assert (Hr : result s = None) by by apply H1. rewrite Hr in *.
  split; unfold update; simpl; try done.
  - destruct H3 as [H3a H3b]. split; [done|]. intros Hc _. apply H3b; [done|congruence].
  - eapply Forall_impl; [exact H4|]. intros p. apply pc_ok_result.
  - intros cb [= <-]. done.
  - rewrite Ht in H9. simpl in H9. destruct (callback s); simpl; lia.
Qed.

Lemma inv_task_invokes s cb :
  future_inv s -> task s = Invoking cb ->
  future_inv (s <| invoked := invoked s ++ option_list cb |> <| task := Notifying |>).
Proof.
  intros [H1 H2 H3 H4 H5 H6 H7 H8 H9 H10] Ht. rewrite Ht in *.
  assert (Hr : result s <> None) by by intros ?%H1.
  split; unfold update; simpl; try done.
  - split; [apply H3|]. intros Hc _. by apply H3.
  - apply Forall_app. split; [done|]. destruct cb as [c|]; [|constructor]. constructor; [by apply H8|constructor].
  - rewrite length_app, <- H9. destruct cb; simpl; lia.
Qed.

Lemma count_wake_waiting (l : list pc) : count is_waiting (map wake l) = 0%nat.
Proof. rewrite count_map, (count_ext _ (fun _ => false)), count_false; [done|]. by intros []. Qed.

Lemma inv_task_notifies s :
  future_inv s -> task s = Notifying ->
  future_inv (s <| threads := map wake (threads s) |> <| task := Completed |>).
Proof.
  intros [H1 H2 H3 H4 H5 H6 H7 H8 H9 H10] Ht. rewrite Ht in *.
  assert (Hr : result s <> None) by by intros ?%H1.
  assert (Ecount : forall f : pc -> bool, (forall p, f (wake p) = f p) ->
    count f (map wake (threads s)) = count f (threads s)).
  { intros f Hf. rewrite count_map. by apply count_ext. }
  split; unfold update; simpl; try done.
  - intros Hc. destruct (H2 Hc) as [-> ?]. done.
  - rewrite Ecount by (by intros []). split; [apply H3|done].
  - apply Forall_fmap. eapply Forall_impl; [exact H4|]. by intros [].
  - intros _. apply count_wake_waiting.
  - rewrite Ecount by (by intros []). by rewrite <- H9.
  - rewrite Ecount by (by intros []). done.
Qed.

(** Handing the handle back wakes a waiter, so somebody takes it over. *)
Lemma inv_returns_handle s i l :
  future_inv s -> threads s !! i = Some ReturnHandle -> notify_one (threads s) l ->
  future_inv (s <| join_handle := true |> <| threads := <[i := Finished TimeoutError]> l |>).
Proof.
  intros [H1 H2 H3 H4 H5 H6 H7 H8 H9 H10] Hi Hn.
  assert (Hl : l !! i = Some ReturnHandle /\ count holds_handle l = count holds_handle (threads s) /\
    count is_invoking l = count is_invoking (threads s) /\ count accepted l = count accepted (threads s) /\
    (count is_waiting l <= count is_waiting (threads s))%nat /\
    Forall (pc_ok (result s) (callback s)) l /\
    ((0 < count is_waiting l)%nat -> (0 < count is_awake l)%nat)).
  { destruct Hn as [l j m Hj|l Hnone].
    - destruct (counts_put l j _ (Awake m) Hj) as (C1 & C2 & C3 & C4 & C5). simpl in *.
      split_and!; try lia.
      + rewrite list_lookup_insert_ne; [done|]. intros ->. congruence.
      + by apply Forall_insert.
    - split_and!; try done. intros (j & p & Hj & Hp)%count_pos. destruct p; try done. by destruct (Hnone j m). }
  destruct Hl as (Li & L1 & L2 & L3 & L4 & L5 & L6).
  destruct (counts_put l i _ (Finished TimeoutError) Li) as (C1 & C2 & C3 & C4 & C5). simpl in *.
  pose proof (count_lookup holds_handle (threads s) i _ Hi eq_refl) as Hpos.
  assert (Hj : join_handle s = false) by (destruct (join_handle s); simpl in H3; [lia|done]).
  rewrite Hj in H3. simpl in H3.
  split; unfold update; simpl; try done.
  - intros Hc. destruct (H2 Hc) as [Hn' _]. rewrite Hn' in Hi. done.
  - split; intros; lia.
  - by apply Forall_insert.
  - intros _ Hr Hw. lia.
  - intros Ht. specialize (H6 Ht). lia.
  - rewrite <- H9. lia.
  - rewrite <- H10. lia.
Qed.

Lemma inv_start s p :
  future_inv s -> created s = true -> (exists m, p = Start m) \/ (exists cb, p = CbStart cb) ->
  future_inv (s <| threads := threads s ++ [p] |>).
Proof.
  intros [H1 H2 H3 H4 H5 H6 H7 H8 H9 H10] Hc Hp.
  assert (Hf : forall f : pc -> bool, f p = false -> count f (threads s ++ [p]) = count f (threads s)).
  { intros f Hf. rewrite count_app, count_cons, Hf. unfold count. simpl. lia. }
  assert (P : holds_handle p = false /\ is_waiting p = false /\ is_awake p = false /\ is_invoking p = false /\
    accepted p = false /\ pc_ok (result s) (callback s) p).
  { by destruct Hp as [[m ->]|[cb ->]]. }
  destruct P as (P1 & P2 & P3 & P4 & P5 & P6).
  split; unfold update; simpl; rewrite ?(Hf _ P1), ?(Hf _ P2), ?(Hf _ P3), ?(Hf _ P4), ?(Hf _ P5); try done.
  - congruence.
  - apply Forall_app. split; [done|]. by constructor.
Qed.

Lemma inv_next multi s s' : future_inv s -> next multi s s' -> future_inv s'.
Proof.
  intros Hinv [[Hp|He]|Hs].
  - destruct Hp as [s Hc|s r Ht _|s cb Ht|s Ht|s i p s' Hi Hs|s i l Hi Hn].
    + destruct Hinv as [H1 H2 H3 H4 H5 H6 H7 H8 H9 H10]. destruct (H2 Hc) as [Hn Hj].
      split; unfold update; simpl; try done.
      * rewrite Hn. unfold count. simpl. split; [lia|done].
      * rewrite Hn. unfold count. simpl. lia.
    + by apply inv_resolve.
    + by apply inv_task_invokes.
    + by apply inv_task_notifies.
    + by eapply inv_thread.
    + by apply inv_returns_handle.
  - destruct He as [s i p s' Hi Hs|s i m Hi|s r Ht].
    + by eapply inv_thread.
    + by eapply inv_put.
    + by apply inv_resolve.
  - destruct Hs as [s p Hc Hp]. by apply inv_start.
Qed.

Lemma inv_reachable multi (s : state) : reachable multi s -> future_inv s.
Proof.
  intros Hr. unfold reachable in Hr. remember new_from_future as s0 eqn:E.
  assert (H0 : future_inv s0) by (subst; apply future_inv_init). clear E.
  induction Hr as [|x y z Hxy _ IH]; [done|]. apply IH. by eapply inv_next.
Qed.

End Invariant.

(** ** Progress *)

Section Progress.
Context {V C : Type}.
Notation pc := (pc V C).
Notation state := (future_state V C).

(** The call has returned to its caller. *)
Definition call_done (p : pc) : bool :=
  match p with Finished _ | CbDone _ => true | _ => false end.

(** How many more actions a thread and the task can take once the result is set. *)
Definition rank (p : pc) : nat :=
  match p with
  | Start _ | CbStart _ | Waiting _ | Blocking _ => 2
  | Locking _ | Awake _ | Joined | ReturnHandle | CbInvoke _ => 1
  | Finished _ | CbDone _ | Panicked => 0
  end.

Definition task_rank (t : task_pc C) : nat :=
  match t with Invoking _ => 2 | Notifying => 1 | _ => 0 end.

Definition measure (s : state) : nat :=
  sum_list_with rank (threads s) + task_rank (task s) + b2n (negb (created s)).

Lemma rank_insert (l : list pc) i p p' :
  l !! i = Some p -> (sum_list_with rank (<[i := p']> l) + rank p = sum_list_with rank l + rank p')%nat.
Proof.
  revert i; induction l as [|a l IH]; intros [|i]; simpl; try done.
  - intros [= ->]. lia.
  - intros Hi. specialize (IH _ Hi). lia.
Qed.

Lemma rank_wake (l : list pc) : (sum_list_with rank (map wake l) <= sum_list_with rank l)%nat.
Proof. induction l as [|p l IH]; simpl; [done|]. destruct p; simpl; lia. Qed.

Lemma measure_put s i p p' s0 :
  threads s !! i = Some p -> (rank p' < rank p)%nat ->
  threads s0 = threads s -> task s0 = task s -> created s0 = created s ->
  (measure (put i p' s0) < measure s)%nat.
Proof.
  intros Hi Hr Et Ek Ec. unfold measure, put, update. simpl. rewrite Et, Ek, Ec.
  pose proof (rank_insert (threads s) i p p' Hi). lia.
Qed.

Lemma measure_thread elapsed s i p s' :
  is_Some (result s) -> threads s !! i = Some p -> thread_step elapsed i p s = Some s' ->
  (measure s' < measure s)%nat.
Proof.
  intros [v Hv] Hi. destruct p as [m|m|m|m|m| | |r|cb|cb|e|]; simpl; try done.
  - rewrite Hv. intros [= <-]. eapply measure_put; [done|simpl; lia|done..].
  - unfold loop_body. rewrite Hv.
    destruct m as [|[]]; intros [= <-]; (eapply measure_put; [done|simpl; lia|done..]).
  - destruct (elapsed && timed m); intros [= <-]. eapply measure_put; [done|simpl; lia|done..].
  - unfold recheck, loop_body. rewrite Hv. intros [= <-]. eapply measure_put; [done|simpl; lia|done..].
  - destruct (elapsed && timed m); [intros [= <-]; eapply measure_put; [done|simpl; lia|done..]|].
    destruct (task s); intros [= <-]. eapply measure_put; [done|simpl; lia|done..].
  - rewrite Hv. intros [= <-]. eapply measure_put; [done|simpl; lia|done..].
  - unfold set_callback_locked. rewrite Hv.
    destruct (callback s); intros [= <-]; (eapply measure_put; [done|simpl; lia|done..]).
  - intros [= <-]. eapply measure_put; [done|simpl; lia|done..].
Qed.

(** Once the result is set, every step brings the calls closer to their end. *)
Lemma measure_decreases multi s s' :
  future_inv s -> is_Some (result s) -> runs multi s s' -> (measure s' < measure s)%nat.
Proof.
  intros Hinv Hr. assert (Hnr : task s <> Running).
  { intros Ht. destruct Hinv as [[_ H1] _ _ _ _ _ _ _ _ _]. apply H1 in Ht. rewrite Ht in Hr. by destruct Hr. }
  intros [Hp|He].
  - destruct Hp as [s Hc|s r Ht _|s cb Ht|s Ht|s i p s' Hi Hs|s i l Hi Hn]; [..|by eapply measure_thread|].
    + unfold measure, update. simpl. rewrite Hc. simpl. lia.
    + done.
    + unfold measure, update. simpl. rewrite Ht. simpl. lia.
    + unfold measure, update. simpl. rewrite Ht. simpl. pose proof (rank_wake (threads s)). lia.
    + unfold measure, update. simpl.
      assert (Hl : l !! i = Some ReturnHandle /\ (sum_list_with rank l <= sum_list_with rank (threads s))%nat).
      { destruct Hn as [l j m Hj|l _]; [|done]. split.
        - rewrite list_lookup_insert_ne; [done|]. intros ->. congruence.
        - pose proof (rank_insert l j _ (Awake m) Hj). simpl in *. lia. }
      destruct Hl as [Hli Hle]. pose proof (rank_insert l i _ (Finished TimeoutError) Hli). simpl in *. lia.
  - destruct He as [s i p s' Hi Hs|s i m Hi|s r Ht]; [by eapply measure_thread| |done].
    eapply measure_put; [done|simpl; lia|done..].
Qed.

(** Work left without the environment, before and after the result is set.  A thread that
    wakes up in vain waits again, and each that hands the handle back wakes one. *)
Definition effort (r : option V) (p : pc) : nat :=
  match p with
  | Start _ => 6
  | Locking _ => 5
  | Awake _ => match r with None => 4 | Some _ => 1 end
  | Waiting _ | Blocking _ => match r with None => 3 | Some _ => 2 end
  | ReturnHandle | CbStart _ => 2
  | Joined | CbInvoke _ => 1
  | Finished _ | CbDone _ | Panicked => 0
  end.

Definition task_effort (t : task_pc C) : nat :=
  match t with Running => 3 | Invoking _ => 2 | Notifying => 1 | _ => 0 end.

Definition work_left (s : state) : nat :=
  sum_list_with (effort (result s)) (threads s) + task_effort (task s) + b2n (negb (created s)).

Lemma effort_insert r (l : list pc) i p p' :
  l !! i = Some p ->
  (sum_list_with (effort r) (<[i := p']> l) + effort r p = sum_list_with (effort r) l + effort r p')%nat.
Proof.
  revert i; induction l as [|a l IH]; intros [|i]; simpl; try done.
  - intros [= ->]. lia.
  - intros Hi. specialize (IH _ Hi). lia.
Qed.

Lemma effort_resolved v (l : list pc) :
  (sum_list_with (effort (Some v)) l <= sum_list_with (effort None) l)%nat.
Proof. induction l as [|p l IH]; simpl; [done|]. destruct p; simpl; lia. Qed.

Lemma effort_wake v (l : list pc) :
  (sum_list_with (effort (Some v)) (map wake l) <= sum_list_with (effort (Some v)) l)%nat.
Proof. induction l as [|p l IH]; simpl; [done|]. destruct p; simpl; lia. Qed.

Lemma work_put (s s0 : state) i p p' :
  threads s !! i = Some p -> (effort (result s) p' < effort (result s) p)%nat ->
  result s0 = result s -> threads s0 = threads s -> task s0 = task s -> created s0 = created s ->
  (work_left (put i p' s0) < work_left s)%nat.
Proof.
  intros Hi Hr Er Et Ek Ec. unfold work_left, put, update. simpl. rewrite Er, Et, Ek, Ec.
  pose proof (effort_insert (result s) (threads s) i p p' Hi). lia.
Qed.

(** Without deadlines, spurious wake-ups and new calls a future comes to rest. *)
Lemma progress_decreases multi (s s' : state) :
  future_inv s -> progress multi s s' -> (work_left s' < work_left s)%nat.
Proof.
  intros Hinv Hp. pose proof (inv_task s Hinv) as [_ Htask].
  destruct Hp as [s Hc|s r Ht _|s cb Ht|s Ht|s i p s' Hi Hs|s i l Hi Hn].
  - unfold work_left, update. simpl. rewrite Hc. simpl. lia.
  - assert (Hr : result s = None) by by apply Htask. unfold resolve. rewrite Hr.
    unfold work_left, update. simpl. rewrite Ht, Hr. pose proof (effort_resolved r (threads s)). simpl. lia.
  - unfold work_left, update. simpl. rewrite Ht. simpl. lia.
  - destruct (result s) as [v|] eqn:Hr; [|pose proof (proj1 Htask eq_refl); congruence].
    unfold work_left, update. simpl. rewrite Ht, Hr. pose proof (effort_wake v (threads s)). simpl. lia.
  - destruct p as [m|m|m|m|m| | |r|cb|cb|e|]; simpl in Hs; try done.
    + injection Hs as <-. eapply work_put; [done| |done..]. destruct (result s); simpl; lia.
    + unfold loop_body in Hs. destruct m as [|[]], (result s) eqn:Hr; simpl in Hs; try destruct (join_handle s);
        injection Hs as <-; (eapply work_put; [done| |done..]); rewrite Hr; simpl; lia.
    + unfold recheck, loop_body in Hs. destruct (result s) eqn:Hr; [|destruct (join_handle s); [|destruct m]];
        injection Hs as <-; (eapply work_put; [done| |done..]); rewrite Hr; simpl; lia.
    + destruct (task s) eqn:Ht; try done. injection Hs as <-. eapply work_put; [done| |done..].
      destruct (result s); simpl; lia.
    + injection Hs as <-. eapply work_put; [done| |done..]. destruct (result s); simpl; lia.
    + unfold set_callback_locked in Hs. destruct (callback s), (result s) eqn:Hr; injection Hs as <-;
        (eapply work_put; [done| |done..]); rewrite Hr; simpl; lia.
    + injection Hs as <-. eapply work_put; [done| |done..]. simpl. lia.
  - unfold work_left, update. simpl.
    assert (Hl : l !! i = Some ReturnHandle /\
      (sum_list_with (effort (result s)) l <= 1 + sum_list_with (effort (result s)) (threads s))%nat).
    { destruct Hn as [l j m Hj|l _]; [|split; [done|lia]]. split.
      - rewrite list_lookup_insert_ne; [done|]. intros ->. congruence.
      - pose proof (effort_insert (result s) l j _ (Awake m) Hj). destruct (result s); simpl in *; lia. }
    destruct Hl as [Hli Hle]. pose proof (effort_insert (result s) l i _ (Finished TimeoutError) Hli).
    simpl in *. lia.
Qed.

Lemma runs_result multi (s s' : state) v :
  future_inv s -> result s = Some v -> next multi s s' -> result s' = Some v.
Proof.
  intros Hinv Hv. assert (Hnr : task s <> Running).
  { intros Ht. destruct Hinv as [[_ H1] _ _ _ _ _ _ _ _ _]. apply H1 in Ht. congruence. }
  assert (Hthread : forall elapsed i p s', thread_step elapsed i p s = Some s' -> result s' = result s).
  { intros elapsed i p s0. destruct p as [m|m|m|m|m| | |r|cb|cb|e|]; simpl; try done; repeat case_match; congruence || by intros [= <-]. }
  intros [[Hp|He]|Hs].
  - destruct Hp as [s Hc|s r Ht _|s cb Ht|s Ht|s i p s' Hi Hs|s i l Hi Hn]; try done. by rewrite (Hthread _ _ _ _ Hs).
  - destruct He as [s i p s' Hi Hs|s i m Hi|s r Ht]; [by rewrite (Hthread _ _ _ _ Hs)|done|done].
  - by destruct Hs.
Qed.

(** How a call that is at [p] when the result [v] is set can return.  Only a wait with a
    timeout times out, and only one whose deadline cannot be represented is refused. *)
Definition returns_as (v : V) (p q : pc) : Prop :=
  match p with
  | Start m | Locking m =>
      q = Finished (Got v) \/ timed m = true /\ q = Finished TimeoutError \/
      m = Timed true /\ q = Finished InvalidDuration
  | Waiting m | Awake m | Blocking m => q = Finished (Got v) \/ timed m = true /\ q = Finished TimeoutError
  | Joined => q = Finished (Got v)
  | ReturnHandle => q = Finished TimeoutError
  | CbStart _ => q = CbDone CASS_OK \/ q = CbDone CASS_ERROR_LIB_CALLBACK_ALREADY_SET
  | CbInvoke _ => q = CbDone CASS_OK
  | Finished _ | CbDone _ => q = p
  | Panicked => False
  end.

Lemma returns_as_done v p : p <> Panicked -> call_done p = true -> returns_as v p p.
Proof. by destruct p. Qed.

(** What one thread does leaves the others in their places. *)
Lemma thread_step_put elapsed i p (s s' : state) :
  thread_step elapsed i p s = Some s' -> exists p', threads s' = <[i := p']> (threads s) /\
    (forall v, result s = Some v -> forall q, returns_as v p' q -> returns_as v p q).
Proof.
  destruct p as [m|m|m|m|m| | |r|cb|cb|e|]; simpl; try done.
  - intros [= <-]. eexists; split; [reflexivity|]. intros v ->. simpl. naive_solver.
  - destruct m as [|[]]; [| |]; try destruct (loop_body _ s) as [p' jh] eqn:E; intros [= <-];
      (eexists; split; [reflexivity|]); intros v Hv; unfold loop_body in *; simplify_eq/=;
      rewrite ?Hv in *; simplify_eq/=; naive_solver.
  - destruct (elapsed && timed m); intros [= <-]. eexists; split; [reflexivity|]. naive_solver.
  - destruct (recheck m elapsed s) as [p' jh] eqn:E. intros [= <-]. eexists; split; [reflexivity|].
    intros v Hv. unfold recheck, loop_body in E. rewrite Hv in E. simplify_eq/=. naive_solver.
  - destruct (elapsed && timed m) eqn:E.
    + intros [= <-]. eexists; split; [reflexivity|]. apply andb_true_iff in E as [_ E]. simpl. naive_solver.
    + destruct (task s); intros [= <-]. eexists; split; [reflexivity|]. simpl. naive_solver.
  - intros [= <-]. eexists; split; [reflexivity|]. intros v ->. simpl. naive_solver.
  - destruct (set_callback_locked cb s) as [p' c] eqn:E. intros [= <-]. eexists; split; [reflexivity|].
    intros v Hv. unfold set_callback_locked in E. rewrite Hv in E.
    destruct (callback s); simplify_eq/=; naive_solver.
  - intros [= <-]. eexists; split; [reflexivity|]. simpl. naive_solver.
Qed.

(** Two lists of positions at which the same calls are, the second closer to returning. *)
Definition closer (v : V) (l l' : list pc) : Prop :=
  Forall2 (fun p p' => forall q, returns_as v p' q -> returns_as v p q) l l'.

#[global] Instance closer_preorder v : PreOrder (closer v).
Proof.
  split.
  - intros l. apply Forall_Forall2_diag, Forall_forall. auto.
  - intros l1 l2 l3 H12. revert l3. induction H12 as [|p p' l1 l2 Hp _ IH]; intros l3 H23;
      inversion_clear H23; constructor; [eauto|by apply IH].
Qed.

Lemma closer_insert v l i p p' :
  l !! i = Some p -> (forall q, returns_as v p' q -> returns_as v p q) -> closer v l (<[i := p']> l).
Proof.
  intros Hi Hp. unfold closer. rewrite <- (list_insert_id l i p Hi) at 1.
  apply Forall2_insert; [|done]. apply Forall_Forall2_diag, Forall_forall. auto.
Qed.

Lemma closer_wake v l : closer v l (map wake l).
Proof. apply Forall2_fmap_r, Forall_Forall2_diag, Forall_forall. intros [] _ q Hq; exact Hq. Qed.

Lemma runs_closer multi (s s' : state) v :
  task s <> Running -> result s = Some v -> runs multi s s' -> closer v (threads s) (threads s').
Proof.
  intros Hnr Hv.
  assert (Hthread : forall elapsed i p s', threads s !! i = Some p -> thread_step elapsed i p s = Some s' ->
    closer v (threads s) (threads s')).
  { intros elapsed i p s0 Hi Hs. destruct (thread_step_put _ _ _ _ _ Hs) as (p' & -> & Hp).
    apply (closer_insert v _ i p p' Hi). by apply Hp. }
  intros [Hp|He].
  - destruct Hp as [s Hc|s r Ht _|s cb Ht|s Ht|s i p s' Hi Hs|s i l Hi Hn]; simpl; try done.
    + apply closer_wake.
    + by eapply Hthread.
    + destruct Hn as [l j m Hj|l _].
      * etrans; [by apply (closer_insert v l j _ (Awake m) Hj)|]. eapply closer_insert.
        -- rewrite list_lookup_insert_ne; [exact Hi|]. intros ->. congruence.
        -- by intros q ->.
      * eapply closer_insert; [exact Hi|]. by intros q ->.
  - destruct He as [s i p s' Hi Hs|s i m Hi|s r Ht]; [by eapply Hthread| |done].
    simpl. by apply (closer_insert v _ i _ _ Hi).
Qed.

(** A thread that is neither blocked nor done can act. *)
Lemma thread_can_act multi (s : state) i p :
  threads s !! i = Some p ->
  match p with Waiting _ | Blocking _ | Finished _ | CbDone _ | Panicked => False | _ => True end ->
  exists s', progress multi s s'.
Proof.
  intros Hi Hp.
  assert (Hstep : forall s', thread_step false i p s = Some s' -> exists s', progress multi s s').
  { intros s' Hs. exists s'. by eapply thread_acts. }
  destruct p as [m|m|m|m|m| | |r|cb|cb|e|]; try done; simpl in Hstep.
  - by eapply Hstep.
  - destruct m as [|[]]; [destruct (loop_body Untimed s)| |destruct (loop_body (Timed false) s)]; by eapply Hstep.
  - destruct (recheck m false s); by eapply Hstep.
  - by eapply Hstep.
  - assert (Hn : exists l, notify_one (threads s) l).
    { destruct (count is_waiting (threads s)) as [|n] eqn:Hc.
      - exists (threads s). constructor. intros j m Hj.
        pose proof (count_lookup is_waiting _ _ _ Hj eq_refl). lia.
      - destruct (count_pos is_waiting (threads s)) as (j & p & Hj & Hw); [lia|].
        destruct p; try done. eexists. by econstructor. }
    destruct Hn as [l Hn]. eexists. by eapply returns_handle.
  - destruct (set_callback_locked cb s); by eapply Hstep.
  - by eapply Hstep.
Qed.

(** While the task is not completed but driven, it can act. *)
Lemma task_can_act multi (s : state) (v : V) :
  future_inv s -> task s <> Completed -> multi = true \/ blocking s \/ task s <> Running ->
  exists s', progress multi s s'.
Proof.
  intros [[Hnp _] _ _ _ _ _ _ _ _ _] Hc Hd. destruct (task s) eqn:Ht; try done.
  - eexists. apply (task_resolves multi s v); [done|]. tauto.
  - eexists. by eapply task_invokes.
  - eexists. by eapply task_notifies.
Qed.

(** A thread that is not blocked. *)
Definition ready (p : pc) : bool :=
  match p with Waiting _ | Blocking _ | Finished _ | CbDone _ | Panicked => false | _ => true end.

#[local] Instance completed_dec (t : task_pc C) : Decision (t = Completed).
Proof. destruct t; (by left) || (by right). Defined.
#[local] Instance running_dec (t : task_pc C) : Decision (t = Running).
Proof. destruct t; (by left) || (by right). Defined.

Lemma progress_or_done multi (s : state) (v : V) :
  future_inv s ->
  (exists s', progress multi s s') \/ (created s = true /\ Forall (fun p => call_done p = true) (threads s)).
Proof.
  intros Hinv. destruct (created s) eqn:Hc; [|left; eexists; by apply stores_handle].
  destruct (decide (Forall (fun p => call_done p = true) (threads s))) as [Hd|Hnd]; [by right|left].
  apply not_Forall_Exists, Exists_exists in Hnd as (p & Hin & Hnd); [|apply _].
  apply list_elem_of_lookup in Hin as [i Hi].
  assert (Hpan : forall j, threads s !! j <> Some Panicked).
  { intros j Hj. pose proof (inv_pcs s Hinv) as Hp. rewrite Forall_lookup in Hp. exact (Hp _ _ Hj). }
  destruct (count ready (threads s)) as [|n] eqn:Hready.
  2:{ destruct (count_pos ready (threads s)) as (j & q & Hj & Hq); [lia|].
      apply (thread_can_act multi s j q Hj). by destruct q. }
  assert (Hno : forall j q, threads s !! j = Some q -> ready q = false).
  { intros j q Hj. destruct (ready q) eqn:Hq; [|done]. pose proof (count_lookup ready _ _ _ Hj Hq). lia. }
  destruct (decide (task s = Completed)) as [Ht|Ht].
  - pose proof (Hno _ _ Hi) as Hp. destruct p; try discriminate Hp; try (by destruct (Hnd eq_refl)); try (by destruct (Hpan _ Hi)).
    + pose proof (count_lookup is_waiting _ _ _ Hi eq_refl). rewrite (inv_done s Hinv Ht) in *. lia.
    + eexists. eapply thread_acts; [exact Hi|]. simpl. by rewrite Ht.
  - destruct (decide (task s = Running)) as [Hrun|Hrun]; [|apply (task_can_act multi s v); auto].
    destruct (count holds_handle (threads s)) as [|n] eqn:Hh.
    + assert (Hr : result s = None) by by apply (inv_task s Hinv).
      pose proof (proj2 (inv_handle s Hinv) Hc Ht) as Hj. rewrite Hh in Hj.
      destruct (join_handle s) eqn:Ej; [|done].
      pose proof (Hno _ _ Hi) as Hp. destruct p; try discriminate Hp; try (by destruct (Hnd eq_refl)); try (by destruct (Hpan _ Hi)).
      * pose proof (count_lookup is_waiting _ _ _ Hi eq_refl) as Hw.
        destruct (count_pos is_awake (threads s)) as (j & q & Hj' & Hq); [by apply (inv_wake s Hinv)|].
        specialize (Hno _ _ Hj'). by destruct q.
      * pose proof (count_lookup holds_handle _ _ _ Hi eq_refl). lia.
    + destruct (count_pos holds_handle (threads s)) as (j & q & Hj & Hq); [lia|].
      specialize (Hno _ _ Hj). destruct q as [| | | |m| | | | | | |]; try done.
      apply (task_can_act multi s v); [done|done|]. right. left. by exists j, m.
Qed.

End Progress.

(** ** Properties *)

(** Results of futures.  However the task, waiters with and without timeouts and
    callback setters interleave, on either kind of runtime: the result is never set
    twice, no unwrap of the result fails, the result never changes once it is set,
    and every wait that returns a result returns that one. *)
Theorem future_results_agree {V C : Type} (multi : bool) (s : future_state V C) :
  reachable multi s ->
  task s <> TaskPanicked /\
  (forall i p, threads s !! i = Some p -> p <> Panicked /\ forall v, p = Finished (Got v) -> result s = Some v) /\
  (forall s' v, next multi s s' -> result s = Some v -> result s' = Some v).
Proof.
  intros Hr%inv_reachable. split_and!.
  - apply (inv_task s Hr).
  - intros i p Hi. pose proof (inv_pcs s Hr) as Hp. rewrite Forall_lookup in Hp. specialize (Hp _ _ Hi).
    split; [by intros ->|]. by intros v ->.
  - intros s' v Hn Hv. by eapply runs_result.
Qed.

(** C8: a callback is invoked exactly once.  In every reachable state at most one
    caller has had its callback accepted, only that callback has been invoked, at
    most once and after the result was set; and once the task is past the invocation
    and no caller is about to invoke it, an accepted callback has been invoked. *)
Theorem callback_exactly_once {V C : Type} (multi : bool) (s : future_state V C) :
  reachable multi s ->
  (count accepted (threads s) <= 1)%nat /\ (length (invoked s) <= 1)%nat /\
  (forall c, c ∈ invoked s -> callback s = Some c /\ is_Some (result s)) /\
  (forall c, callback s = Some c -> task s = Notifying \/ task s = Completed ->
     count is_invoking (threads s) = 0%nat -> invoked s = [c]).
Proof.
  intros Hr%inv_reachable. destruct Hr as [H1 _ _ _ _ _ H7 _ H9 H10]. split_and!.
  - rewrite H10. destruct (bool_decide _); simpl; lia.
  - destruct (callback s), (result s); lia.
  - intros c Hin. rewrite Forall_forall in H7. rewrite (H7 c Hin) in *. split; [done|].
    destruct (result s); [by eexists|]. destruct (invoked s); [set_solver|simpl in H9; lia].
  - intros c Hc Ht Hn. rewrite Hc, Hn in H9. assert (Hres : is_Some (result s)).
    { destruct (result s) eqn:Hr; [by eexists|]. pose proof (proj1 (proj2 H1) eq_refl). destruct Ht; congruence. }
    destruct Hres as [v Hv]. rewrite Hv in H9. assert (Htp : task_pending (task s) = 0%nat) by by destruct Ht as [-> | ->].
    rewrite Htp in H9. destruct (invoked s) as [|x [|y l]]; simpl in H9; [lia| |lia].
    rewrite Forall_cons in H7. rewrite Hc in H7. destruct H7 as [[= ->] _]. done.
Qed.

(** C6: no lost wake-up.  In every reachable state with a call that has not
    returned, some thread or the task can act without waiting for a timeout or a
    spurious wake-up, even on a current-thread runtime, where the task only runs
    while one of the future's own waiters is inside [block_on]. *)
Theorem future_no_deadlock {V C : Type} (multi : bool) (s : future_state V C) (output : V) :
  reachable multi s ->
  (exists s', progress multi s s') \/
  (created s = true /\ Forall (fun p => call_done p = true) (threads s)).
Proof. intros Hr%inv_reachable. by apply progress_or_done. Qed.

(** C16: waits end.  Once the result is set, every execution without new calls has at
    most [measure s] steps, whatever the scheduler, the deadlines and spurious
    wake-ups do; and when it stops, every call has returned and none has panicked: a wait
    with the result, one with a timeout with the result or a timeout, and setting a
    callback with success or the error that there is one. *)
Theorem future_waits_end {V C : Type} (multi : bool) (s s' : future_state V C) (v : V) (n : nat) :
  reachable multi s -> result s = Some v -> nsteps (runs multi) n s s' ->
  (n <= measure s)%nat /\
  ((forall s'', ~ progress multi s' s'') ->
   length (threads s') = length (threads s) /\
   forall i p q, threads s !! i = Some p -> threads s' !! i = Some q ->
     returns_as v p q /\ call_done q = true /\ forall x, q = Finished (Got x) -> x = v).
Proof.
  intros Hr%inv_reachable Hv Hn.
  assert (Hgen : future_inv s' /\ result s' = Some v /\ (n + measure s' <= measure s)%nat /\
    closer v (threads s) (threads s')).
  { clear -Hr Hv Hn. revert Hr Hv. induction Hn as [|n x y z Hxy _ IH]; intros Hr Hv; [split_and!; [done|done|lia|reflexivity]|].
    pose proof (measure_decreases multi x y Hr (mk_is_Some _ _ Hv) Hxy) as Hm.
    assert (Hnr : task x <> Running) by (intros Ht%(inv_task x Hr); congruence).
    destruct IH as (H1 & H2 & H3 & H4); [by eapply inv_next; [|left]|by eapply runs_result; [| |left]|].
    split_and!; [done|done|lia|]. etrans; [by eapply runs_closer|done]. }
  destruct Hgen as (Hinv & Hv' & Hm & Hcl). split; [lia|]. intros Hstop.
  destruct (progress_or_done multi s' v Hinv) as [[s'' Hs]|[_ Hd]]; [by destruct (Hstop s'')|].
  split; [symmetry; by eapply Forall2_length|]. intros i p q Hi Hq. rewrite Forall_lookup in Hd.
  pose proof (inv_pcs s' Hinv) as Hp. rewrite Forall_lookup in Hp. specialize (Hp _ _ Hq).
  split_and!; [|by apply (Hd i)|intros x ->; simpl in Hp; congruence].
  unfold closer in Hcl. rewrite Forall2_lookup in Hcl. specialize (Hcl i). rewrite Hi, Hq in Hcl. inversion_clear Hcl as [? ? Hpq|].
  apply Hpq, returns_as_done; [by intros ->|by apply (Hd i)].
Qed.
(** *** A run: a timed waiter gives up, another thread takes over and resolves the
    future, and the callback is invoked *)

Definition demo_resolved : future_state nat nat :=
  mkFuture (Some 7%nat) (Some 3%nat) false true (Invoking (Some 3%nat))
    [Finished TimeoutError; Blocking Untimed; CbDone CASS_OK] [].

Definition demo : future_state nat nat :=
  mkFuture (Some 7%nat) (Some 3%nat) false true Completed
    [Finished TimeoutError; Finished (Got 7%nat); CbDone CASS_OK] [3%nat].

(** Steps of the run, with the state computed after each of them. *)
Ltac demo_norm :=
  lazymatch goal with
  | |- rtc _ ?s _ => let s' := eval vm_compute in s in change s with s'
  | |- nsteps _ _ ?s _ => let s' := eval vm_compute in s in change s with s'
  end.
Ltac demo_step tac := eapply rtc_l; [tac|]; demo_norm.
Ltac demo_thread i := demo_step ltac:(left; left; eapply (thread_acts _ _ i); reflexivity).

Lemma demo_resolved_reachable : reachable false demo_resolved.
Proof.
  unfold reachable. demo_norm.
  demo_step ltac:(left; left; by apply stores_handle).
  demo_step ltac:(right; apply starts; [reflexivity|left; exists (Timed false); reflexivity]).
  demo_step ltac:(right; apply starts; [reflexivity|left; exists Untimed; reflexivity]).
  demo_step ltac:(right; apply starts; [reflexivity|right; exists 3%nat; reflexivity]).
  demo_thread 0%nat. demo_thread 0%nat. demo_thread 1%nat. demo_thread 1%nat. demo_thread 2%nat.
  demo_step ltac:(left; right; eapply (deadline_passes _ 0%nat); reflexivity).
  demo_step ltac:(left; left; eapply (returns_handle _ _ 0%nat); [reflexivity|];
    by apply (notify_some _ 1%nat Untimed)).
  demo_thread 1%nat.
  demo_step ltac:(left; left; apply (task_resolves false _ 7%nat); [reflexivity|right; by exists 1%nat, Untimed]).
  apply rtc_refl.
Qed.

Lemma demo_finishes : nsteps (runs false) 4 demo_resolved demo.
Proof.
  eapply nsteps_l; [left; by eapply task_invokes|]. demo_norm.
  eapply nsteps_l; [left; by eapply task_notifies|]. demo_norm.
  eapply nsteps_l; [left; eapply (thread_acts _ _ 1%nat); reflexivity|]. demo_norm.
  eapply nsteps_l; [left; eapply (thread_acts _ _ 1%nat); reflexivity|]. demo_norm. apply nsteps_O.
Qed.

Lemma demo_reachable : reachable false demo.
Proof.
  unfold reachable. etrans; [apply demo_resolved_reachable|].
  eapply rtc_subrel; [|by eapply rtc_nsteps_2, demo_finishes]. by left.
Qed.

Lemma demo_stops s : ~ progress false demo s.
Proof.
  inversion 1 as [ | | | |? i p ? Hi Hs|? i ? Hi]; simplify_eq/=;
    destruct i as [|[|[|i]]]; simplify_eq/=.
Qed.

Lemma future_results_agree_witness : task demo <> TaskPanicked.
Proof. exact (proj1 (future_results_agree false demo demo_reachable)). Defined.

Lemma callback_exactly_once_witness : invoked demo = [3%nat].
Proof.
  refine (proj2 (proj2 (proj2 (callback_exactly_once false demo demo_reachable))) 3%nat eq_refl _ eq_refl).
  right. reflexivity.
Defined.

Lemma future_no_deadlock_witness :
  (exists s', progress false demo s') \/ (created demo = true /\ Forall (fun p => call_done p = true) (threads demo)).
Proof. exact (future_no_deadlock false demo 7%nat demo_reachable). Defined.

Lemma future_waits_end_witness : (4 <= measure demo_resolved)%nat /\
  returns_as 7%nat (Blocking Untimed : pc nat nat) (Finished (Got 7%nat)).
Proof.
  destruct (future_waits_end false demo_resolved demo 7%nat 4 demo_resolved_reachable eq_refl demo_finishes)
    as [Hm Hstop].
  split; [exact Hm|]. apply (proj2 (Hstop demo_stops) 1%nat); reflexivity.
Defined.
(** The accessors of a resolved future exclude each other: at most one of the
    result, the error and the prepared statement is there, the error code is OK
    with an empty message exactly as long as the future holds no error, and tracing
    data is only asked of a query result. *)
Theorem future_accessors_exclusive {QR QE PR : Type} (to_cass_error : QE -> CassError) (msg : QE -> string)
    (tracing_id : QR -> option Z) (r : Prelude.result (CassError * string) (CassResultValue QR QE PR)) :
  (is_Some (cass_future_get_result r) \/ is_Some (cass_future_get_prepared r) ->
     cass_future_error_code to_cass_error r = CASS_OK /\ cass_future_error_message msg r = EmptyString /\
     cass_future_get_error_result r = None) /\
  (forall qr, cass_future_get_result r = Some qr -> cass_future_get_prepared r = None) /\
  (forall qe, cass_future_get_error_result r = Some qe ->
     cass_future_error_code to_cass_error r = to_cass_error qe /\ cass_future_error_message msg r = msg qe) /\
  ((cass_future_tracing_id tracing_id r).1 <> CASS_ERROR_LIB_INVALID_FUTURE_TYPE <->
     is_Some (cass_future_get_result r)).
Proof.
  destruct r as [[|qr|qe|p]|[e s]]; simpl; split_and!; try (intros; by simplify_eq);
    try (by intros [[? ?]|[? ?]]); try (split; [done|by intros [? ?]]).
  destruct (tracing_id qr); simpl; by split; [eexists|].
Qed.
