(* ===== verification/FutureApi.v ===== *)
(** * The functions of the C API on futures (future.rs)

    A future is either resolved by a task, as modelled in Future, or ready from the
    start ([FutureKind]).  The functions a client calls on it from any number of threads
    are terms of [body], which say how a function waits; [step] runs the calls, the task
    and the waits of one future, and records what the client can see as events.

    The contract is a [promise]: a value that is set once, one callback, and calls that
    are answered from the value.  Every future refines it, of either kind and with any
    runtime. *)

From Stdlib Require Import ZArith Lia String.
From stdpp Require Import base list gmap strings relations.
From S2P Require Import Prelude Types Uuid Future.

(** ** Traces *)

Section Traces.
Context {St Ev : Type} (step : St -> list Ev -> St -> Prop).

Inductive trace : St -> list Ev -> St -> Prop :=
| trace_nil s : trace s [] s
| trace_cons s l s' ls s'' : step s l s' -> trace s' ls s'' -> trace s (l ++ ls) s''.

Lemma trace_one s l s' : step s l s' -> trace s l s'.
Proof. intros H. rewrite <- (app_nil_r l). eapply trace_cons; [exact H|constructor]. Qed.

Lemma trace_app s l s' l' s'' : trace s l s' -> trace s' l' s'' -> trace s (l ++ l') s''.
Proof.
  induction 1 as [|s l s' ls s1 Hs _ IH]; [done|]. intros H. rewrite <- app_assoc.
  eapply trace_cons; [exact Hs|by apply IH].
Qed.

End Traces.

(** A relation that every step keeps, with steps of the contract that show the same
    events, carries traces over. *)
Lemma forward_simulation {St Sp Ev : Type} (step : St -> list Ev -> St -> Prop)
    (spec : Sp -> list Ev -> Sp -> Prop) (R : St -> Sp -> Prop) :
  (forall s p l s', R s p -> step s l s' -> exists p', trace spec p l p' /\ R s' p') ->
  forall s l s', trace step s l s' -> forall p, R s p -> exists p', trace spec p l p' /\ R s' p'.
Proof.
  intros Hsim s l s' Ht. induction Ht as [s|s l s' ls s'' Hs _ IH]; intros p Hr; [by exists p; split; [constructor|]|].
  destruct (Hsim _ _ _ _ Hr Hs) as (p1&Hp1&Hr1). destruct (IH _ Hr1) as (p2&Hp2&Hr2).
  exists p2. split; [by eapply trace_app|done].
Qed.

Record BoundCallback := mkBound { cb : Z; data : Z }.

(** A pointer argument of type [CassBorrowedSharedPtr<CassFuture>]. *)
Inductive future_ptr := NullFuture | TheFuture.

(** [FutureError] *)
Inductive FutureError := FutureTimeout | FutureInvalidDuration.

Section Api.
Context {QR QE PR Node : Type}.
Variables (to_cass_error : QE -> CassError) (msg : QE -> string).
Variables (tracing_id : QR -> option Z) (coordinator : QR -> option Node).

Notation future_result := (Prelude.result (CassError * string) (CassResultValue QR QE PR)).
Notation future_state := (future_state future_result BoundCallback).
Notation pc := (pc future_result BoundCallback).

(** What a call gives back: its return value or what it writes through its out
    parameters, if anything; [RAborted] is a panic. *)
Inductive reply :=
| RVoid
| RBool (b : bool)
| RCode (e : CassError)
| RMessage (message : option string)
| RResult (p : option QR)
| RErrorResult (p : option QE)
| RPrepared (p : option PR)
| RTracingId (e : CassError) (id : option CassUuid)
| RNode (p : option Node)
| RAborted.

(** The body of a function: it returns, waits for the result and goes on with it and
    with the place for the error message, tests for the result, or sets a callback. *)
Inductive body :=
| Return (r : reply)
| WaitedResult (k : future_result -> option string -> option string * reply)
| WaitedResultTimed (timeout_us : Z) (k : Prelude.result FutureError future_result -> reply)
| ResultIsSome (k : bool -> reply)
| SetBoundCallback (bound_cb : BoundCallback).

(** Waiting for the result without using the place for the message. *)
Definition waited_result (k : future_result -> reply) : body :=
  WaitedResult (fun r err_string => (err_string, k r)).

Definition cass_future_set_callback (future_raw : future_ptr) (callback : option Z) (data : Z) : body :=
  match future_raw with
  | NullFuture => Return (RCode CASS_ERROR_LIB_BAD_PARAMS)
  | TheFuture =>
      match callback with
      | None => Return (RCode CASS_ERROR_LIB_BAD_PARAMS)
      | Some callback => SetBoundCallback (mkBound callback data)
      end
  end.

Definition cass_future_wait (future_raw : future_ptr) : body :=
  match future_raw with
  | NullFuture => Return RVoid
  | TheFuture => waited_result (fun _ => RVoid)
  end.

Definition cass_future_wait_timed (future_raw : future_ptr) (timeout_us : Z) : body :=
  match future_raw with
  | NullFuture => Return (RBool false)
  | TheFuture =>
      WaitedResultTimed timeout_us (fun r => RBool match r with Ok _ => true | Err _ => false end)
  end.

Definition cass_future_ready (future_raw : future_ptr) : body :=
  match future_raw with
  | NullFuture => Return (RBool false)
  | TheFuture => ResultIsSome RBool
  end.

Definition cass_future_error_code (future_raw : future_ptr) : body :=
  match future_raw with
  | NullFuture => Return (RCode CASS_ERROR_LIB_BAD_PARAMS)
  | TheFuture => waited_result (fun r => RCode (Future.cass_future_error_code to_cass_error r))
  end.

(** [err_string.get_or_init] keeps the message of the first call. *)
Definition cass_future_error_message (future : future_ptr) : body :=
  match future with
  | NullFuture => Return (RMessage None)
  | TheFuture =>
      WaitedResult (fun r err_string =>
        match r with
        | Ok (QueryError err) =>
            let s := default (msg err) err_string in (Some s, RMessage (Some s))
        | Err (_, s) => (err_string, RMessage (Some s))
        | _ => (err_string, RMessage (Some EmptyString))
        end)
  end.

Definition cass_future_get_result (future_raw : future_ptr) : body :=
  match future_raw with
  | NullFuture => Return (RResult None)
  | TheFuture => waited_result (fun r => RResult (Future.cass_future_get_result r))
  end.

Definition cass_future_get_error_result (future_raw : future_ptr) : body :=
  match future_raw with
  | NullFuture => Return (RErrorResult None)
  | TheFuture => waited_result (fun r => RErrorResult (Future.cass_future_get_error_result r))
  end.

Definition cass_future_get_prepared (future_raw : future_ptr) : body :=
  match future_raw with
  | NullFuture => Return (RPrepared None)
  | TheFuture => waited_result (fun r => RPrepared (Future.cass_future_get_prepared r))
  end.

Definition cass_future_tracing_id (future : future_ptr) : body :=
  match future with
  | NullFuture => Return (RTracingId CASS_ERROR_LIB_BAD_PARAMS None)
  | TheFuture =>
      waited_result (fun r =>
        let '(e, id) := Future.cass_future_tracing_id tracing_id r in RTracingId e id)
  end.

Definition cass_future_coordinator (future_raw : future_ptr) : body :=
  match future_raw with
  | NullFuture => Return (RNode None)
  | TheFuture =>
      waited_result (fun r =>
        match Future.cass_future_coordinator coordinator r with Ret n => RNode n | _ => RAborted end)
  end.

(** The functions and their arguments. *)
Inductive api_call :=
| Wait (p : future_ptr)
| WaitTimed (p : future_ptr) (timeout_us : Z)
| Ready (p : future_ptr)
| ErrorCode (p : future_ptr)
| ErrorMessage (p : future_ptr)
| GetResult (p : future_ptr)
| GetErrorResult (p : future_ptr)
| GetPrepared (p : future_ptr)
| TracingId (p : future_ptr)
| Coordinator (p : future_ptr)
| SetCallback (p : future_ptr) (callback : option Z) (data : Z).

Definition body_of (c : api_call) : body :=
  match c with
  | Wait p => cass_future_wait p
  | WaitTimed p t => cass_future_wait_timed p t
  | Ready p => cass_future_ready p
  | ErrorCode p => cass_future_error_code p
  | ErrorMessage p => cass_future_error_message p
  | GetResult p => cass_future_get_result p
  | GetErrorResult p => cass_future_get_error_result p
  | GetPrepared p => cass_future_get_prepared p
  | TracingId p => cass_future_tracing_id p
  | Coordinator p => cass_future_coordinator p
  | SetCallback p callback data => cass_future_set_callback p callback data
  end.

(** ** One future and the calls on it *)

Inductive FutureKind :=
| Resolvable (fut : future_state)
| Immediate (res : future_result) (callback_set : bool).

(** Where a call is: before its body; in a wait or in [ResolvableFuture::set_callback],
    as a thread of the resolvable future; about to invoke the callback of a ready future;
    about to return; done. *)
Inductive call_state :=
| Entered (c : api_call)
| OnThread (c : api_call) (thread : nat)
| InvokingBound (bound_cb : BoundCallback)
| Returning (r : reply)
| Returned.

Record CassFuture := mkCassFuture {
  kind : FutureKind;
  err_string : option string;
  calls : list call_state
}.

(** [make_raw] up to the spawn of the task; its last step is [stores_handle]. *)
Definition make_raw : CassFuture := mkCassFuture (Resolvable new_from_future) None [].

Definition make_ready_raw (res : future_result) : CassFuture :=
  mkCassFuture (Immediate res false) None [].

Definition call_put (i : nat) (c : call_state) (f : CassFuture) : CassFuture :=
  mkCassFuture (kind f) (err_string f) (<[i := c]> (calls f)).

(** Call [i] goes on with the result of the future. *)
Definition go_on (i : nat) (k : option string -> option string * reply) (f : CassFuture) : CassFuture :=
  let '(err, r) := k (err_string f) in mkCassFuture (kind f) err (<[i := Returning r]> (calls f)).

(** Call [i] starts a wait, or the setting of a callback, on a resolvable future. *)
Definition on_thread (i : nat) (c : api_call) (p : pc) (fut : future_state) (f : CassFuture) : CassFuture :=
  mkCassFuture (Resolvable (fut <| threads := threads fut ++ [p] |>)) (err_string f)
    (<[i := OnThread c (length (threads fut))]> (calls f)).

(** The body of call [i] up to the first point where other threads matter; [overflows]
    says whether the deadline of a timed wait cannot be represented. *)
Definition enter (overflows : bool) (i : nat) (c : api_call) (f : CassFuture) : CassFuture :=
  match body_of c, kind f with
  | Return r, _ => call_put i (Returning r) f
  | WaitedResult k, Immediate res _ => go_on i (k res) f
  | WaitedResult _, Resolvable fut => on_thread i c (Start Untimed) fut f
  | WaitedResultTimed _ k, Immediate res _ => call_put i (Returning (k (Ok res))) f
  | WaitedResultTimed _ _, Resolvable fut => on_thread i c (Start (Timed overflows)) fut f
  | ResultIsSome k, Immediate _ _ => call_put i (Returning (k true)) f
  | ResultIsSome k, Resolvable fut => call_put i (Returning (k (bool_decide (is_Some (result fut))))) f
  | SetBoundCallback cb, Resolvable fut => on_thread i c (CbStart cb) fut f
  | SetBoundCallback cb, Immediate res callback_set =>
      if callback_set then call_put i (Returning (RCode CASS_ERROR_LIB_CALLBACK_ALREADY_SET)) f
      else mkCassFuture (Immediate res true) (err_string f) (<[i := InvokingBound cb]> (calls f))
  end.

(** Call [i] goes on when its thread has left the wait or [set_callback]. *)
Definition leave (i : nat) (c : api_call) (p : pc) (f : CassFuture) : option CassFuture :=
  match body_of c, p with
  | WaitedResult k, Finished (Got v) => Some (go_on i (k v) f)
  | WaitedResultTimed _ k, Finished (Got v) => Some (call_put i (Returning (k (Ok v))) f)
  | WaitedResultTimed _ k, Finished TimeoutError =>
      Some (call_put i (Returning (k (Err FutureTimeout))) f)
  | WaitedResultTimed _ k, Finished InvalidDuration =>
      Some (call_put i (Returning (k (Err FutureInvalidDuration))) f)
  | SetBoundCallback _, CbDone e => Some (call_put i (Returning (RCode e)) f)
  | _, _ => None
  end.

(** What a client sees. *)
Inductive event :=
| Called (c : api_call)
| Invoked (bound_cb : BoundCallback)
| Replied (call : nat) (r : reply).

(** A client has the pointer only after the future was created. *)
Definition is_created (k : FutureKind) : bool :=
  match k with Resolvable fut => created fut | Immediate _ _ => true end.

Inductive step (multi : bool) : CassFuture -> list event -> CassFuture -> Prop :=
| step_call f c :
    is_created (kind f) = true ->
    step multi f [Called c] (mkCassFuture (kind f) (err_string f) (calls f ++ [Entered c]))
| step_enter f i c overflows :
    calls f !! i = Some (Entered c) -> step multi f [] (enter overflows i c f)
| step_runs f fut fut' l :
    kind f = Resolvable fut -> runs multi fut fut' -> invoked fut' = invoked fut ++ l ->
    step multi f (Invoked <$> l) (mkCassFuture (Resolvable fut') (err_string f) (calls f))
| step_leave f fut i c t p f' :
    kind f = Resolvable fut -> calls f !! i = Some (OnThread c t) -> threads fut !! t = Some p ->
    leave i c p f = Some f' -> step multi f [] f'
| step_invoke f i cb :
    calls f !! i = Some (InvokingBound cb) ->
    step multi f [Invoked cb] (call_put i (Returning (RCode CASS_OK)) f)
| step_return f i r :
    calls f !! i = Some (Returning r) -> step multi f [Replied i r] (call_put i Returned f).

(** ** The contract *)

(** A call of a promise: made, when the promise was [resolved] or not; invoking the
    callback it has set; about to give its reply; done. *)
Inductive pcall :=
| PCalled (c : api_call) (resolved : bool)
| PInvoking (bound_cb : BoundCallback)
| PReplies (r : reply)
| PDone.

(** [due] is the callback to invoke because the value has come. *)
Record promise := mkPromise {
  value : option future_result;
  registered : option BoundCallback;
  due : option BoundCallback;
  pcalls : list pcall
}.

Definition new_promise (v : option future_result) : promise := mkPromise v None None [].

(** The reply of a function that needs the value, and of one that does not. *)
Definition value_reply (v : future_result) (c : api_call) : option reply :=
  match c with
  | Wait TheFuture => Some RVoid
  | WaitTimed TheFuture _ => Some (RBool true)
  | ErrorCode TheFuture => Some (RCode (Future.cass_future_error_code to_cass_error v))
  | ErrorMessage TheFuture => Some (RMessage (Some (Future.cass_future_error_message msg v)))
  | GetResult TheFuture => Some (RResult (Future.cass_future_get_result v))
  | GetErrorResult TheFuture => Some (RErrorResult (Future.cass_future_get_error_result v))
  | GetPrepared TheFuture => Some (RPrepared (Future.cass_future_get_prepared v))
  | TracingId TheFuture =>
      Some (let '(e, id) := Future.cass_future_tracing_id tracing_id v in RTracingId e id)
  | Coordinator TheFuture =>
      Some match Future.cass_future_coordinator coordinator v with Ret n => RNode n | _ => RAborted end
  | _ => None
  end.

Definition null_reply (c : api_call) : option reply :=
  match c with
  | Wait NullFuture => Some RVoid
  | WaitTimed NullFuture _ | Ready NullFuture => Some (RBool false)
  | ErrorCode NullFuture | SetCallback NullFuture _ _ | SetCallback TheFuture None _ =>
      Some (RCode CASS_ERROR_LIB_BAD_PARAMS)
  | ErrorMessage NullFuture => Some (RMessage None)
  | GetResult NullFuture => Some (RResult None)
  | GetErrorResult NullFuture => Some (RErrorResult None)
  | GetPrepared NullFuture => Some (RPrepared None)
  | TracingId NullFuture => Some (RTracingId CASS_ERROR_LIB_BAD_PARAMS None)
  | Coordinator NullFuture => Some (RNode None)
  | _ => None
  end.

(** The replies to [c]; only a timed wait may fail, and not if the value was there when
    it was called. *)
Inductive answers (v : option future_result) (resolved : bool) (c : api_call) : reply -> Prop :=
| answer_null r : null_reply c = Some r -> answers v resolved c r
| answer_value x r : v = Some x -> value_reply x c = Some r -> answers v resolved c r
| answer_ready : c = Ready TheFuture -> answers v resolved c (RBool (bool_decide (is_Some v)))
| answer_late t : c = WaitTimed TheFuture t -> resolved = false -> answers v resolved c (RBool false).

Definition pcall_put (i : nat) (q : pcall) (p : promise) : promise :=
  mkPromise (value p) (registered p) (due p) (<[i := q]> (pcalls p)).

Inductive promise_step : promise -> list event -> promise -> Prop :=
| promise_call p c :
    promise_step p [Called c]
      (mkPromise (value p) (registered p) (due p) (pcalls p ++ [PCalled c (bool_decide (is_Some (value p)))]))
| promise_resolve p v :
    value p = None -> promise_step p [] (mkPromise (Some v) (registered p) (registered p) (pcalls p))
| promise_fire p cb :
    due p = Some cb ->
    promise_step p [Invoked cb] (mkPromise (value p) (registered p) None (pcalls p))
| promise_answer p i c b r :
    pcalls p !! i = Some (PCalled c b) -> answers (value p) b c r ->
    promise_step p [] (pcall_put i (PReplies r) p)
| promise_refuse p i callback data b cb :
    pcalls p !! i = Some (PCalled (SetCallback TheFuture (Some callback) data) b) ->
    registered p = Some cb ->
    promise_step p [] (pcall_put i (PReplies (RCode CASS_ERROR_LIB_CALLBACK_ALREADY_SET)) p)
| promise_register p i callback data b :
    pcalls p !! i = Some (PCalled (SetCallback TheFuture (Some callback) data) b) ->
    registered p = None ->
    let cb := mkBound callback data in
    promise_step p [] (mkPromise (value p) (Some cb) (due p)
      (<[i := match value p with Some _ => PInvoking cb | None => PReplies (RCode CASS_OK) end]> (pcalls p)))
| promise_invoke p i cb :
    pcalls p !! i = Some (PInvoking cb) ->
    promise_step p [Invoked cb] (pcall_put i (PReplies (RCode CASS_OK)) p)
| promise_reply p i r :
    pcalls p !! i = Some (PReplies r) -> promise_step p [Replied i r] (pcall_put i PDone p).

(** ** The relation between a future and its promise *)

(** Whether the function waits, and if so with a timeout. *)
Definition wait_of (c : api_call) : option bool :=
  match body_of c with WaitedResult _ => Some false | WaitedResultTimed _ _ => Some true | _ => None end.

Definition sets_callback (c : api_call) : Prop := exists cb, body_of c = SetBoundCallback cb.

(** A call made when the promise was resolved finds it resolved. *)
Definition called (v : option future_result) (c : api_call) (q : pcall) : Prop :=
  exists b, q = PCalled c b /\ (b = true -> is_Some v).

(** The call of the promise for a call whose thread is at [p]. *)
Definition pos_rel (v : option future_result) (c : api_call) (p : pc) (q : pcall) : Prop :=
  match p with
  | Start m => wait_of c = Some (timed m) /\ called v c q
  | Locking m | Waiting m | Awake m | Blocking m => wait_of c = Some (timed m) /\ q = PCalled c false
  | Joined => is_Some (wait_of c) /\ q = PCalled c false
  | Finished (Got _) => is_Some (wait_of c) /\ called v c q
  | ReturnHandle | Finished _ => wait_of c = Some true /\ q = PCalled c false
  | CbStart cb => body_of c = SetBoundCallback cb /\ called v c q
  | CbInvoke cb => sets_callback c /\ q = PInvoking cb
  | CbDone e => sets_callback c /\ q = PReplies (RCode e)
  | Panicked => False
  end.

Definition call_rel (thr : list pc) (v : option future_result) (c : call_state) (q : pcall) : Prop :=
  match c with
  | Entered c => called v c q
  | OnThread c t => exists p, thr !! t = Some p /\ pos_rel v c p q
  | InvokingBound cb => q = PInvoking cb
  | Returning r => q = PReplies r
  | Returned => q = PDone
  end.

Definition task_due (fut : future_state) : option BoundCallback :=
  match task fut with Invoking cb => cb | _ => None end.

Definition kind_rel (k : FutureKind) (p : promise) : Prop :=
  match k with
  | Resolvable fut =>
      future_inv fut /\ value p = result fut /\ registered p = callback fut /\ due p = task_due fut
  | Immediate res callback_set =>
      value p = Some res /\ callback_set = bool_decide (is_Some (registered p)) /\ due p = None
  end.

Definition thr (k : FutureKind) : list pc :=
  match k with Resolvable fut => threads fut | Immediate _ _ => [] end.

(** Every thread that has not finished belongs to one call. *)
Definition owned (l : list pc) (cs : list call_state) : Prop :=
  (forall t p, l !! t = Some p -> call_done p = true \/ exists i c, cs !! i = Some (OnThread c t)) /\
  (forall i j c d t, cs !! i = Some (OnThread c t) -> cs !! j = Some (OnThread d t) -> i = j).

Definition message_ok (v : option future_result) (err : option string) : Prop :=
  forall s, err = Some s -> exists e, v = Some (Ok (QueryError e)) /\ s = msg e.

Record keeps_promise (f : CassFuture) (p : promise) : Prop := {
  keeps_kind : kind_rel (kind f) p;
  keeps_calls : Forall2 (call_rel (thr (kind f)) (value p)) (calls f) (pcalls p);
  keeps_owned : owned (thr (kind f)) (calls f);
  keeps_message : message_ok (value p) (err_string f)
}.

Lemma called_value v c q x : called v c q -> called (Some x) c q.
Proof. intros (b&->&_). exists b. split; [done|]. by eexists. Qed.

Lemma called_new v c : called v c (PCalled c (bool_decide (is_Some v))).
Proof. eexists. split; [done|]. by intros H%bool_decide_eq_true. Qed.

Lemma call_rel_value l v c q x : call_rel l v c q -> call_rel l (Some x) c q.
Proof.
  destruct c as [c|c t| | |]; simpl; [apply called_value| |done..]. intros (p&Hp&Hq).
  exists p. split; [done|]. destruct p as [| | | | | | |[]| | | |]; simpl in *; intuition eauto using called_value.
Qed.

(** A thread that moves within its wait: the promise does not notice. *)
Definition moves (v : option future_result) (p p' : pc) : Prop :=
  (forall c q, pos_rel v c p q -> pos_rel v c p' q) /\ (call_done p = true -> call_done p' = true).

Lemma moves_refl v p : moves v p p.
Proof. by split. Qed.

Lemma moves_insert v l t p p' : l !! t = Some p -> moves v p p' -> Forall2 (moves v) l (<[t := p']> l).
Proof.
  intros Ht Hm. rewrite <- (list_insert_id l t p Ht) at 1.
  apply Forall2_insert; [|done]. apply Forall_Forall2_diag, Forall_true. apply moves_refl.
Qed.

Lemma calls_move l l' v cs qs :
  Forall2 (moves v) l l' -> Forall2 (call_rel l v) cs qs -> Forall2 (call_rel l' v) cs qs.
Proof.
  intros Hl Hcs. eapply Forall2_impl; [exact Hcs|]. intros [c|c t| | |] q; simpl; try done. intros (p&Hp&Hq).
  destruct (Forall2_lookup_l _ _ _ _ _ Hl Hp) as (p'&Hp'&Himp&_). eauto.
Qed.

Lemma owned_move l l' v cs : Forall2 (moves v) l l' -> owned l cs -> owned l' cs.
Proof.
  intros Hl [Ho Hu]. split; [|done]. intros t p' Hp'.
  destruct (Forall2_lookup_r _ _ _ _ _ Hl Hp') as (p&Hp&_&Hd). destruct (Ho t p Hp); auto.
Qed.

(** The thread of call [i] moves, and the call of the promise with it. *)
Lemma calls_put l v cs qs i c t p' q' :
  Forall2 (call_rel l v) cs qs -> owned l cs -> cs !! i = Some (OnThread c t) ->
  pos_rel v c p' q' -> Forall2 (call_rel (<[t := p']> l) v) cs (<[i := q']> qs).
Proof.
  intros Hcs [_ Hu] Hi Hq. apply Forall2_same_length_lookup_2.
  { rewrite length_insert. by eapply Forall2_length. }
  intros j d q Hj Hjq. destruct (decide (j = i)) as [->|Hne].
  - assert (d = OnThread c t) as -> by congruence.
    destruct (Forall2_lookup_l _ _ _ _ _ Hcs Hi) as (q0&Hq0&p&Hp&_).
    rewrite list_lookup_insert_eq in Hjq by (by eapply lookup_lt_Some). injection Hjq as <-.
    exists p'. split; [|done]. apply list_lookup_insert_eq. by eapply lookup_lt_Some.
  - rewrite list_lookup_insert_ne in Hjq by done.
    pose proof (Forall2_lookup_lr _ _ _ _ _ _ Hcs Hj Hjq) as Hd.
    destruct d as [d|d t'| | |]; simpl in *; try done. destruct Hd as (p&Hp&Hd). exists p. split; [|done].
    rewrite list_lookup_insert_ne; [done|]. intros ->. apply Hne. by eapply Hu.
Qed.

Lemma owned_put l cs i c t p' :
  owned l cs -> cs !! i = Some (OnThread c t) -> owned (<[t := p']> l) cs.
Proof.
  intros [Ho Hu] Hi. split; [|done]. intros t' x Hx. destruct (decide (t' = t)) as [->|Hne]; [by eauto|].
  rewrite list_lookup_insert_ne in Hx by done. by apply Ho.
Qed.

(** ** The simulation *)

(** Steps of a resolvable future in which only threads move. *)
Lemma keeps_silent fut fut' err cs p :
  keeps_promise (mkCassFuture (Resolvable fut) err cs) p ->
  future_inv fut' -> result fut' = result fut -> callback fut' = callback fut ->
  task_due fut' = task_due fut -> Forall2 (moves (result fut)) (threads fut) (threads fut') ->
  keeps_promise (mkCassFuture (Resolvable fut') err cs) p.
Proof.
  intros [(Hi&Hv&Hc&Hd) Hcs Ho Hm] Hi' Er Ec Ed Hl. simpl in *. rewrite <- Hv in Hl.
  split; simpl; [split_and!; congruence|by eapply calls_move|by eapply owned_move|done].
Qed.

Definition setting_callback (p : pc) : bool :=
  match p with CbStart _ | CbInvoke _ => true | _ => false end.

(** A wait for which the promise still owes the reply. *)
Lemma owed_called v c : called v c (PCalled c false).
Proof. by exists false. Qed.

Lemma loop_moves p m fut :
  p = Locking m \/ p = Awake m -> moves (result fut) p (loop_body m fut).1.
Proof.
  intros Hp. split; [|by destruct Hp as [-> | ->]]. intros c q Hq.
  assert (H : wait_of c = Some (timed m) /\ q = PCalled c false) by by destruct Hp as [-> | ->].
  destruct H as [Hw ->]. unfold loop_body. destruct (result fut), (join_handle fut); simpl; try done;
    (split; [by rewrite Hw|apply owed_called]).
Qed.

Lemma wait_moves elapsed t p fut fut' :
  future_inv fut -> threads fut !! t = Some p -> thread_step elapsed t p fut = Some fut' ->
  setting_callback p = false ->
  exists p' jh, fut' = put t p' (fut <| join_handle := jh |>) /\ moves (result fut) p p'.
Proof.
  intros Hinv Ht Hs Hcb.
  assert (Eq : fut <| join_handle := join_handle fut |> = fut) by by destruct fut.
  assert (Hput : forall p', moves (result fut) p p' -> exists p0 jh,
    put t p' fut = put t p0 (fut <| join_handle := jh |>) /\ moves (result fut) p p0).
  { intros p' Hm. exists p', (join_handle fut). by rewrite Eq. }
  pose proof (inv_pcs fut Hinv) as Hpcs. rewrite Forall_lookup in Hpcs. specialize (Hpcs _ _ Ht).
  destruct p as [m|m|m|m|m| | |r|cb|cb|e|]; simpl in Hs, Hpcs; try done.
  - injection Hs as <-. apply Hput. split; [|done]. intros c q (Hw&b&->&Hb).
    destruct (result fut) as [v|]; simpl; [split; [by rewrite Hw|]; exists b; by split; [|eexists]|].
    split; [done|]. destruct b; [|done]. by destruct (Hb eq_refl).
  - assert (Hl : (m = Timed true /\ put t (Finished InvalidDuration) fut = fut') \/
      put t (loop_body m fut).1 (fut <| join_handle := (loop_body m fut).2 |>) = fut').
    { destruct m as [|[]]; [right|left|right]; try (by injection Hs);
        destruct (loop_body _ fut); by injection Hs. }
    destruct Hl as [[-> <-]|<-]; [by apply Hput|].
    eexists _, _. split; [done|]. apply loop_moves. by left.
  - destruct (elapsed && timed m); [|done]. injection Hs as <-. by apply Hput.
  - assert (Hl : (timed m = true /\ put t (Finished TimeoutError) (fut <| join_handle := false |>) = fut') \/
      put t (loop_body m fut).1 (fut <| join_handle := (loop_body m fut).2 |>) = fut' \/
      put t (Waiting m) (fut <| join_handle := false |>) = fut').
    { unfold recheck in Hs. destruct (result fut), (join_handle fut), m, elapsed; destruct (loop_body _ fut);
        injection Hs as <-; simpl; auto. }
    destruct Hl as [[Hm <-]|[<-|<-]]; (eexists _, _; split; [done|]).
    + split; [|done]. intros c q. simpl. by rewrite Hm.
    + apply loop_moves. by right.
    + done.
  - destruct (elapsed && timed m) eqn:He.
    + injection Hs as <-. apply andb_true_iff in He as [_ Hm]. apply Hput. split; [|done].
      intros c q. simpl. by rewrite Hm.
    + destruct (task fut); try done. injection Hs as <-. apply Hput. split; [|done].
      intros c q [Hw ->]. simpl. by rewrite Hw.
  - injection Hs as <-. destruct Hpcs as [v Hv]. apply Hput. rewrite Hv. split; [|done].
    intros c q [Hw ->]. split; [done|apply owed_called].
Qed.

(** The call a thread belongs to, and the call of the promise. *)
Lemma keeps_owner fut err cs p t x :
  keeps_promise (mkCassFuture (Resolvable fut) err cs) p ->
  threads fut !! t = Some x -> call_done x = false ->
  exists i c q, cs !! i = Some (OnThread c t) /\ pcalls p !! i = Some q /\ pos_rel (value p) c x q.
Proof.
  intros [_ Hcs [Ho _] _] Ht Hd. simpl in *. destruct (Ho t x Ht) as [|(i&c&Hi)]; [congruence|].
  destruct (Forall2_lookup_l _ _ _ _ _ Hcs Hi) as (q&Hq&x'&Hx'&Hp).
  exists i, c, q. split_and!; [done..|]. congruence.
Qed.

(** The thread of call [i] moves, and so does the promise. *)
Lemma keeps_owner_moves fut fut' err cs p p' i c t x q :
  keeps_promise (mkCassFuture (Resolvable fut) err cs) p -> future_inv fut' ->
  cs !! i = Some (OnThread c t) -> threads fut' = <[t := x]> (threads fut) -> pos_rel (value p) c x q ->
  result fut' = result fut -> registered p' = callback fut' -> due p' = task_due fut' ->
  value p' = value p -> pcalls p' = <[i := q]> (pcalls p) ->
  keeps_promise (mkCassFuture (Resolvable fut') err cs) p'.
Proof.
  intros [(_&Hv&_) Hcs Ho Hm] Hi' Hi Ht Hq Hr Hreg Hdue Hval Hpc. simpl in *.
  split; simpl; rewrite ?Ht, ?Hval, ?Hpc; [split_and!; congruence|by eapply calls_put|by eapply owned_put|done].
Qed.

Lemma sets_callback_inv c bound_cb :
  body_of c = SetBoundCallback bound_cb -> c = SetCallback TheFuture (Some (cb bound_cb)) (data bound_cb).
Proof. destruct c as [[]|[]|[]|[]|[]|[]|[]|[]|[]|[]|[] []]; simpl; try done. by intros [= <-]. Qed.

Lemma keeps_set_callback fut err cs p t bound_cb :
  keeps_promise (mkCassFuture (Resolvable fut) err cs) p -> threads fut !! t = Some (CbStart bound_cb) ->
  let '(x, c) := set_callback_locked bound_cb fut in
  exists p', promise_step p [] p' /\
    keeps_promise (mkCassFuture (Resolvable (put t x (fut <| callback := c |>))) err cs) p'.
Proof.
  intros Hk Ht. destruct (keeps_owner _ _ _ _ _ _ Hk Ht eq_refl) as (i&c&q&Hi&Hq&Hb&b&->&Hbv).
  pose proof (keeps_kind _ _ Hk) as (Hinv&Hv&Hreg&Hdue). pose proof (inv_set_callback _ _ _ Hinv Ht) as Hinv'.
  assert (Hset : sets_callback c) by (by eexists).
  pose proof (sets_callback_inv _ _ Hb) as ->. unfold set_callback_locked in *.
  destruct (callback fut) as [cb0|] eqn:Ec.
  - eexists. split; [by eapply promise_refuse|]. by eapply keeps_owner_moves.
  - eexists. split; [by eapply promise_register|]. destruct bound_cb as [a d].
    eapply keeps_owner_moves; try done. rewrite Hv. by destruct (result fut).
Qed.

Lemma keeps_invoke fut err cs p t bound_cb :
  keeps_promise (mkCassFuture (Resolvable fut) err cs) p -> threads fut !! t = Some (CbInvoke bound_cb) ->
  exists p', promise_step p [Invoked bound_cb] p' /\
    keeps_promise (mkCassFuture (Resolvable (put t (CbDone CASS_OK)
      (fut <| invoked := invoked fut ++ [bound_cb] |>))) err cs) p'.
Proof.
  intros Hk Ht. destruct (keeps_owner _ _ _ _ _ _ Hk Ht eq_refl) as (i&c&q&Hi&Hq&Hset&->).
  pose proof (keeps_kind _ _ Hk) as (Hinv&Hv&Hreg&Hdue). pose proof (inv_invoke _ _ _ Hinv Ht) as Hinv'.
  eexists. split; [by eapply promise_invoke|]. by eapply keeps_owner_moves.
Qed.

(** The new invocations of a step. *)
Lemma same_invoked (l k : list BoundCallback) : l = l ++ k -> k = [].
Proof. intros H. by apply (app_inv_head l); rewrite app_nil_r. Qed.

Lemma keeps_thread_step elapsed t x fut fut' err cs p l :
  keeps_promise (mkCassFuture (Resolvable fut) err cs) p ->
  threads fut !! t = Some x -> thread_step elapsed t x fut = Some fut' -> invoked fut' = invoked fut ++ l ->
  exists p', trace promise_step p (Invoked <$> l) p' /\ keeps_promise (mkCassFuture (Resolvable fut') err cs) p'.
Proof.
  intros Hk Ht Hs Hl. pose proof (keeps_kind _ _ Hk) as (Hinv&_).
  pose proof (inv_thread _ _ _ _ _ Hinv Ht Hs) as Hinv'. destruct (setting_callback x) eqn:Hx.
  - destruct x as [| | | | | | | |bound_cb|bound_cb| |]; try done; simpl in Hs.
    + pose proof (keeps_set_callback _ _ _ _ _ _ Hk Ht) as H. destruct (set_callback_locked bound_cb fut) as [y c].
      injection Hs as <-. apply same_invoked in Hl as ->. destruct H as (p'&Hp'&H).
      exists p'. split; [by apply trace_one|done].
    + injection Hs as <-. apply app_inv_head in Hl as <-.
      destruct (keeps_invoke _ _ _ _ _ _ Hk Ht) as (p'&Hp'&H). exists p'. split; [by apply trace_one|done].
  - destruct (wait_moves _ _ _ _ _ Hinv Ht Hs Hx) as (y&jh&->&Hm). apply same_invoked in Hl as ->.
    exists p. split; [constructor|]. eapply keeps_silent; try done. by eapply moves_insert.
Qed.

Lemma keeps_resolve fut err cs p r :
  keeps_promise (mkCassFuture (Resolvable fut) err cs) p -> task fut = Running ->
  exists p', promise_step p [] p' /\ keeps_promise (mkCassFuture (Resolvable (resolve r fut)) err cs) p'.
Proof.
  intros Hk Ht. destruct Hk as [(Hinv&Hv&Hreg&Hdue) Hcs Ho Hm]. simpl in *.
  pose proof (inv_resolve fut r Hinv Ht) as Hinv'. unfold resolve in *.
  assert (Hr : result fut = None) by by apply (inv_task fut Hinv). rewrite Hr in *.
  eexists. split; [by apply (promise_resolve p r)|]. split; simpl; [by split_and!| |done|].
  - eapply Forall2_impl; [exact Hcs|]. intros c q. apply call_rel_value.
  - intros s (e&He&_)%Hm. congruence.
Qed.

Lemma moves_wake v l : Forall2 (moves v) l (map wake l).
Proof. induction l as [|x l IH]; constructor; [by destruct x|done]. Qed.

Lemma moves_returns_handle v l t l' :
  l !! t = Some ReturnHandle -> notify_one l l' -> Forall2 (moves v) l (<[t := Finished TimeoutError]> l').
Proof.
  intros Ht Hn. destruct Hn as [l j m Hj|l _]; [|by eapply moves_insert].
  rewrite <- (list_insert_id l t ReturnHandle Ht) at 1.
  apply Forall2_insert; [by eapply moves_insert|done].
Qed.

(** Every step of the task, of a waiting thread and of the environment. *)
Lemma keeps_runs multi fut fut' err cs p l :
  keeps_promise (mkCassFuture (Resolvable fut) err cs) p -> runs multi fut fut' -> invoked fut' = invoked fut ++ l ->
  exists p', trace promise_step p (Invoked <$> l) p' /\ keeps_promise (mkCassFuture (Resolvable fut') err cs) p'.
Proof.
  intros Hk Hr Hl. pose proof (keeps_kind _ _ Hk) as (Hinv&Hv&Hreg&Hdue).
  assert (Hinv' : future_inv fut') by (eapply inv_next; [exact Hinv|by left]).
  assert (Hres : forall r, task fut = Running -> fut' = resolve r fut ->
    exists p', trace promise_step p (Invoked <$> l) p' /\ keeps_promise (mkCassFuture (Resolvable fut') err cs) p').
  { intros r Ht ->. destruct (keeps_resolve _ _ _ _ r Hk Ht) as (p'&Hp'&H). exists p'. split; [|done].
    assert (l = []) as ->; [|by apply trace_one].
    unfold resolve in Hl. destruct (result fut); by apply same_invoked in Hl. }
  destruct Hr as [Hp|He].
  - destruct Hp as [fut Hc|fut r Ht _|fut cb Ht|fut Ht|fut t x fut' Ht Hs|fut t l' Ht Hn]; simpl in Hl.
    + apply same_invoked in Hl as ->. exists p. split; [constructor|]. eapply keeps_silent; try done.
      apply Forall_Forall2_diag, Forall_true. apply moves_refl.
    + by eapply Hres.
    + apply app_inv_head in Hl as <-. unfold task_due in Hdue. rewrite Ht in Hdue.
      destruct Hk as [_ Hcs Ho Hm]. destruct cb as [cb|].
      * eexists. split; [by apply trace_one, promise_fire|]. by split.
      * exists p. split; [constructor|]. by split.
    + apply same_invoked in Hl as ->. exists p. split; [constructor|].
      eapply keeps_silent; try done; [unfold task_due; by rewrite Ht|apply moves_wake].
    + by eapply keeps_thread_step.
    + apply same_invoked in Hl as ->. exists p. split; [constructor|].
      eapply keeps_silent; try done. by eapply moves_returns_handle.
  - destruct He as [fut t x fut' Ht Hs|fut t m Ht|fut r Ht].
    + by eapply keeps_thread_step.
    + apply same_invoked in Hl as ->. exists p. split; [constructor|].
      eapply keeps_silent; try done. by eapply moves_insert.
    + by eapply Hres.
Qed.

(** Calls are only made on a future that was created. *)
Definition created_ok (f : CassFuture) : Prop := is_created (kind f) = true \/ calls f = [].

Lemma resolve_created r (fut : future_state) : created (resolve r fut) = created fut.
Proof. unfold resolve. by destruct (result fut). Qed.

Lemma thread_step_created elapsed t x (fut fut' : future_state) :
  thread_step elapsed t x fut = Some fut' -> created fut' = created fut.
Proof.
  destruct x as [|[|[]]| | | | | | | | | |]; simpl; repeat case_match; naive_solver.
Qed.

Lemma runs_created multi (fut fut' : future_state) :
  runs multi fut fut' -> created fut = true -> created fut' = true.
Proof.
  intros [Hp|He] Hc.
  - destruct Hp; try done; [by rewrite resolve_created|by erewrite thread_step_created].
  - destruct He; try done; [by erewrite thread_step_created|by rewrite resolve_created].
Qed.

(** A call leaves its thread, or never was on one. *)
Definition leaves (l : list pc) (c : call_state) : Prop :=
  match c with OnThread _ t => exists x, l !! t = Some x /\ call_done x = true | _ => True end.

Definition off_thread (c : call_state) : Prop := match c with OnThread _ _ => False | _ => True end.

Lemma owned_off l cs i c c' :
  owned l cs -> cs !! i = Some c -> leaves l c -> off_thread c' -> owned l (<[i := c']> cs).
Proof.
  intros [Ho Hu] Hi Hl Hoff. split.
  - intros t x Ht. destruct (Ho t x Ht) as [|(j&d&Hj)]; [by left|].
    destruct (decide (j = i)) as [->|]; [|right; exists j, d; by rewrite list_lookup_insert_ne].
    assert (c = OnThread d t) as -> by congruence. destruct Hl as (y&Hy&Hd). left. congruence.
  - assert (H : forall j d t, <[i := c']> cs !! j = Some (OnThread d t) -> cs !! j = Some (OnThread d t)).
    { intros j d t [(<-&->&_)|[_ ?]]%list_lookup_insert_Some; [done|done]. }
    intros j k d e t Hj%H Hk%H. by eapply Hu.
Qed.

(** Call [i] goes on where only the promise of it changes. *)
Lemma keeps_off f p i c c' q err :
  keeps_promise f p -> calls f !! i = Some c -> leaves (thr (kind f)) c -> off_thread c' ->
  call_rel (thr (kind f)) (value p) c' q -> message_ok (value p) err ->
  keeps_promise (mkCassFuture (kind f) err (<[i := c']> (calls f))) (pcall_put i q p).
Proof.
  intros [Hk Hcs Ho Hm] Hi Hl Hoff Hq Herr. split; simpl; [by destruct (kind f)| |by eapply owned_off|done].
  by apply Forall2_insert.
Qed.

Lemma call_rel_push l x v c q : call_rel l v c q -> call_rel (l ++ [x]) v c q.
Proof.
  destruct c; simpl; try done. intros (y&Hy&Hq). exists y. split; [|done]. by apply lookup_app_l_Some.
Qed.

Lemma owned_push l cs i c d x :
  owned l cs -> cs !! i = Some (Entered c) ->
  (forall j d t, cs !! j = Some (OnThread d t) -> (t < length l)%nat) ->
  owned (l ++ [x]) (<[i := OnThread d (length l)]> cs).
Proof.
  intros [Ho Hu] Hi Hlt. split.
  - intros t y [Ht|[Ht Hy]]%lookup_app_Some.
    + destruct (Ho t y Ht) as [|(j&e&Hj)]; [by left|]. right. exists j, e.
      rewrite list_lookup_insert_ne; [done|]. intros ->. congruence.
    + apply list_lookup_singleton_Some in Hy as [Hz <-]. right. exists i, d.
      replace t with (length l) by lia. apply list_lookup_insert_eq. by eapply lookup_lt_Some.
  - intros j k e e' t Hj Hk.
    apply list_lookup_insert_Some in Hj as [(<-&Hj&_)|[Hj' Hj]];
      apply list_lookup_insert_Some in Hk as [(<-&Hk&_)|[Hk' Hk]]; simplify_eq; try done.
    + apply Hlt in Hk. lia.
    + apply Hlt in Hj. lia.
    + by eapply Hu.
Qed.

(** Call [i] starts on a new thread. *)
Lemma keeps_on_thread fut err cs p i c x q :
  keeps_promise (mkCassFuture (Resolvable fut) err cs) p -> created fut = true ->
  cs !! i = Some (Entered c) -> pcalls p !! i = Some q -> pos_rel (value p) c x q ->
  (exists m, x = Start m) \/ (exists cb, x = CbStart cb) ->
  keeps_promise (on_thread i c x fut (mkCassFuture (Resolvable fut) err cs)) p.
Proof.
  intros [(Hinv&Hv&Hreg&Hdue) Hcs Ho Hm] Hc Hi Hq Hx Hstart. simpl in *. split; simpl; [|..|done].
  - split_and!; try done. by apply inv_start.
  - rewrite <- (list_insert_id (pcalls p) i q Hq). apply Forall2_insert.
    + eapply Forall2_impl; [exact Hcs|]. intros ? ?. apply call_rel_push.
    + exists x. split; [by apply list_lookup_middle|done].
  - eapply owned_push; [done..|]. intros j d t Hj.
    destruct (Forall2_lookup_l _ _ _ _ _ Hcs Hj) as (?&_&y&Hy&_). by eapply lookup_lt_Some.
Qed.

(** The bodies reply what the contract says. *)
Lemma return_answers v b c r : body_of c = Return r -> answers v b c r.
Proof.
  intros H. apply answer_null. destruct c as [[]|[]|[]|[]|[]|[]|[]|[]|[]|[]|[] []]; by simplify_eq/=.
Qed.

Lemma waited_answers x b c k err :
  body_of c = WaitedResult k -> message_ok (Some x) err ->
  answers (Some x) b c (k x err).2 /\ message_ok (Some x) (k x err).1.
Proof.
  intros H Herr.
  destruct c as [[]|[]|[]|[]|[]|[]|[]|[]|[]|[]|[] []]; simpl in H; try done; injection H as <-; simpl.
  all: try (split; [by eapply answer_value|done]).
  destruct x as [[]|[]]; simpl; try (split; [by eapply answer_value|done]).
  destruct err as [s|]; simpl.
  - destruct (Herr s eq_refl) as (e'&[= <-]&->). split; [by eapply answer_value|done].
  - split; [by eapply answer_value|]. intros s [= <-]. by eexists.
Qed.

Lemma timed_answers v b c t k :
  body_of c = WaitedResultTimed t k ->
  (forall x, v = Some x -> answers v b c (k (Ok x))) /\ (forall e, b = false -> answers v b c (k (Err e))).
Proof.
  intros H. destruct c as [[]|[]|[]|[]|[]|[]|[]|[]|[]|[]|[] []]; simpl in H; try done. injection H as <- <-.
  split; [intros x ->; by eapply answer_value|]. intros _ ->. by eapply answer_late.
Qed.

Lemma ready_answers v b c k : body_of c = ResultIsSome k -> answers v b c (k (bool_decide (is_Some v))).
Proof.
  intros H. destruct c as [[]|[]|[]|[]|[]|[]|[]|[]|[]|[]|[] []]; simpl in H; try done. injection H as <-.
  by apply answer_ready.
Qed.

(** Call [i] is answered. *)
Lemma keeps_answer f p i c0 c b r err :
  keeps_promise f p -> calls f !! i = Some c0 -> leaves (thr (kind f)) c0 ->
  pcalls p !! i = Some (PCalled c b) -> answers (value p) b c r -> message_ok (value p) err ->
  exists p', trace promise_step p [] p' /\
    keeps_promise (mkCassFuture (kind f) err (<[i := Returning r]> (calls f))) p'.
Proof.
  intros Hk Hi Hl Hq Ha Herr. exists (pcall_put i (PReplies r) p).
  split; [by apply trace_one; eapply promise_answer|]. by eapply keeps_off.
Qed.

Lemma keeps_enter overflows i c f p :
  keeps_promise f p -> created_ok f -> calls f !! i = Some (Entered c) ->
  exists p', trace promise_step p [] p' /\ keeps_promise (enter overflows i c f) p'.
Proof.
  intros Hk Hc Hi. pose proof Hk as [Hkind Hcs Ho Hm].
  destruct (Forall2_lookup_l _ _ _ _ _ Hcs Hi) as (q&Hq&b&->&Hb).
  assert (Hans : forall r, answers (value p) b c r -> exists p', trace promise_step p [] p' /\
    keeps_promise (call_put i (Returning r) f) p') by (intros r Hr; by eapply keeps_answer).
  assert (Hthread : forall fut x, kind f = Resolvable fut -> pos_rel (value p) c x (PCalled c b) ->
    (exists m, x = Start m) \/ (exists cb, x = CbStart cb) ->
    exists p', trace promise_step p [] p' /\ keeps_promise (on_thread i c x fut f) p').
  { intros fut x Hf Hx Hst. exists p. split; [constructor|]. destruct f as [k err cs]; simpl in *; subst k.
    eapply keeps_on_thread; try done. destruct Hc as [Hc|Hc]; [done|]. simpl in Hc. by subst cs. }
  unfold enter. destruct (body_of c) as [r|k|t k|k|bound_cb] eqn:Hbody.
  - by apply Hans, return_answers.
  - destruct (kind f) as [fut|res set] eqn:Hf.
    + apply (Hthread fut); [done| |by eauto]. split; [by unfold wait_of; rewrite Hbody|by exists b].
    + destruct Hkind as (Hv&_). rewrite Hv in Hm. destruct (waited_answers res b c k _ Hbody Hm) as [Ha Hm'].
      unfold go_on. destruct (k res (err_string f)) as [err r]. eapply keeps_answer; [done..| |]; by rewrite Hv.
  - destruct (timed_answers (value p) b c t k Hbody) as [Hok _]. destruct (kind f) as [fut|res set] eqn:Hf.
    + apply (Hthread fut); [done| |by eauto]. split; [by unfold wait_of; rewrite Hbody|by exists b].
    + destruct Hkind as (Hv&_). by apply Hans, Hok.
  - pose proof (ready_answers (value p) b c k Hbody) as Ha. destruct (kind f) as [fut|res set] eqn:Hf.
    + destruct Hkind as (_&Hv&_). apply Hans. by rewrite <- Hv.
    + destruct Hkind as (Hv&_). apply Hans. by rewrite Hv in Ha |- *.
  - destruct (kind f) as [fut|res set] eqn:Hf.
    + apply (Hthread fut); [done| |by eauto]. split; [done|by exists b].
    + pose proof (sets_callback_inv _ _ Hbody) as ->. destruct Hkind as (Hv&->&Hdue).
      destruct (registered p) as [cb0|] eqn:Hreg; simpl.
      * eexists. split; [by eapply trace_one, promise_refuse|]. by eapply keeps_off.
      * eexists. split; [by eapply trace_one, promise_register|]. destruct bound_cb as [a d]. rewrite Hv.
        split; simpl; [done| |by eapply owned_off|by rewrite <- Hv].
        by apply Forall2_insert; [rewrite <- Hv|].
Qed.

Lemma keeps_leave i c t x fut f f' p :
  keeps_promise f p -> kind f = Resolvable fut -> calls f !! i = Some (OnThread c t) ->
  threads fut !! t = Some x -> leave i c x f = Some f' ->
  exists p', trace promise_step p [] p' /\ keeps_promise f' p'.
Proof.
  intros Hk Hf Hi Ht Hl. pose proof Hk as [Hkind Hcs Ho Hm]. rewrite Hf in Hkind.
  destruct Hkind as (Hinv&Hv&_). pose proof (inv_pcs fut Hinv) as Hpcs. rewrite Forall_lookup in Hpcs.
  specialize (Hpcs _ _ Ht).
  destruct (Forall2_lookup_l _ _ _ _ _ Hcs Hi) as (q&Hq&x'&Hx'&Hpos).
  assert (x' = x) as -> by (rewrite Hf in Hx'; simpl in Hx'; congruence).
  assert (Hdone : call_done x = true -> leaves (thr (kind f)) (OnThread c t)) by (intros; by exists x).
  unfold leave in Hl. destruct (body_of c) as [r|k|t' k|k|bound_cb] eqn:Hbody; try done.
  - destruct x as [| | | | | | |[v| |]| | | |]; try done. injection Hl as <-.
    destruct Hpos as [_ (b&->&_)]. simpl in Hpcs. rewrite <- Hv in Hpcs. rewrite Hpcs in Hm.
    destruct (waited_answers v b c k _ Hbody Hm) as [Ha Hm'].
    unfold go_on. destruct (k v (err_string f)) as [err r]. eapply keeps_answer; eauto; by rewrite Hpcs.
  - destruct x as [| | | | | | |[v| |]| | | |]; try done; injection Hl as <-.
    + destruct Hpos as [_ (b&->&_)]. simpl in Hpcs. rewrite <- Hv in Hpcs.
      destruct (timed_answers (value p) b c t' k Hbody) as [Ha _]. eapply keeps_answer; eauto.
    + destruct Hpos as [_ ->]. destruct (timed_answers (value p) false c t' k Hbody) as [_ Ha].
      eapply keeps_answer; eauto.
    + destruct Hpos as [_ ->]. destruct (timed_answers (value p) false c t' k Hbody) as [_ Ha].
      eapply keeps_answer; eauto.
  - destruct x as [| | | | | | | | | |e|]; try done. injection Hl as <-. destruct Hpos as [_ ->].
    exists (pcall_put i (PReplies (RCode e)) p). split; [|by eapply keeps_off; eauto].
    unfold pcall_put. rewrite list_insert_id by done. destruct p. constructor.
Qed.

Definition simulates (f : CassFuture) (p : promise) : Prop := keeps_promise f p /\ created_ok f.

Lemma created_step multi f l f' : step multi f l f' -> created_ok f -> created_ok f'.
Proof.
  intros Hs Hc.
  assert (Hi : forall i c, calls f !! i = Some c -> is_created (kind f) = true).
  { intros i c H. destruct Hc as [|Hn]; [done|]. by rewrite Hn in H. }
  destruct Hs as [f c H|f i c o H|f fut fut' l Hf Hr _|f fut i c t x f' Hf H _ Hl|f i cb H|f i r H];
    [by left|..|left; by eapply Hi|left; by eapply Hi].
  - left. apply Hi in H. unfold enter, on_thread, call_put, go_on.
    destruct (body_of c), (kind f) as [fut|res []]; simpl in *; try done; by destruct (k _ _).
  - unfold created_ok in *. rewrite Hf in Hc. simpl in *. destruct Hc; [|by right]. left. by eapply runs_created.
  - left. apply Hi in H. unfold leave, go_on, call_put in Hl.
    destruct (body_of c), x as [| | | | | | |[]| | | |]; simplify_eq/=; try done; by destruct (k _ _).
Qed.

Lemma step_simulated multi f p l f' :
  simulates f p -> step multi f l f' -> exists p', trace promise_step p l p' /\ simulates f' p'.
Proof.
  intros [Hk Hc] Hs. pose proof (created_step _ _ _ _ Hs Hc) as Hc'.
  cut (exists p', trace promise_step p l p' /\ keeps_promise f' p').
  { intros (p'&Hp'&Hk'). by exists p'. }
  destruct Hs as [f c H|f i c o H|f fut fut' l Hf Hr Hl|f fut i c t x f' Hf H Hx Hl|f i cb H|f i r H].
  - eexists. split; [by apply trace_one, promise_call|]. destruct Hk as [Hkind Hcs [Ho Hu] Hm].
    split; simpl; [by destruct (kind f)| | |done].
    + apply Forall2_app; [done|]. constructor; [apply called_new|done].
    + split.
      * intros t x Ht. destruct (Ho t x Ht) as [|(i&d&Hi)]; [by left|]. right. exists i, d. by apply lookup_app_l_Some.
      * intros i j d e t Hi Hj. apply (Hu i j d e t).
        -- by apply lookup_app_Some in Hi as [|[_ [_ ?]%list_lookup_singleton_Some]].
        -- by apply lookup_app_Some in Hj as [|[_ [_ ?]%list_lookup_singleton_Some]].
  - by apply keeps_enter.
  - destruct f as [kd err cs]; simpl in *; subst kd. by eapply keeps_runs.
  - by eapply keeps_leave.
  - destruct (Forall2_lookup_l _ _ _ _ _ (keeps_calls _ _ Hk) H) as (q&Hq&->).
    eexists. split; [by eapply trace_one, promise_invoke|]. eapply keeps_off; try done. apply Hk.
  - destruct (Forall2_lookup_l _ _ _ _ _ (keeps_calls _ _ Hk) H) as (q&Hq&->).
    eexists. split; [by eapply trace_one, promise_reply|]. eapply keeps_off; try done. apply Hk.
Qed.

(** The futures the driver creates, and the promises they make. *)
Definition initial (f : CassFuture) : Prop := f = make_raw \/ exists res, f = make_ready_raw res.

Definition promise_of (f : CassFuture) : promise :=
  new_promise match kind f with Resolvable fut => result fut | Immediate res _ => Some res end.

Lemma initial_simulates f : initial f -> simulates f (promise_of f).
Proof.
  assert (Ho : owned [] []) by by split.
  intros [->|[res ->]]; (split; [|by right]); split; simpl; try done. split_and!; try done. apply future_inv_init.
Qed.

Lemma progress_invoked multi (fut fut' : future_state) :
  runs multi fut fut' -> exists l, invoked fut' = invoked fut ++ l.
Proof.
  assert (Hsame : forall f f' : future_state, invoked f' = invoked f -> exists l, invoked f' = invoked f ++ l).
  { intros f f' ->. exists []. by rewrite app_nil_r. }
  assert (Hthread : forall e t x (f f' : future_state),
    thread_step e t x f = Some f' -> exists l, invoked f' = invoked f ++ l).
  { intros e t x f f' H. destruct x as [|[|[]]| | | | | | | |cb| |]; simpl in H; repeat case_match;
      simplify_eq; try (by apply Hsame). by exists [cb]. }
  assert (Hresolve : forall r (f : future_state), invoked (resolve r f) = invoked f).
  { intros r f. unfold resolve. by destruct (result f). }
  intros [Hp|He].
  - destruct Hp; try (by apply Hsame); eauto.
  - destruct He; try (by apply Hsame); eauto.
Qed.

(** The result of a future, if it has one. *)
Definition future_value (f : CassFuture) : option future_result :=
  match kind f with Resolvable fut => result fut | Immediate res _ => Some res end.

(** A call that has not returned can go on when its thread has finished. *)
Lemma done_leaves v i c x q f :
  pos_rel v c x q -> call_done x = true -> is_Some (leave i c x f).
Proof.
  destruct x as [| | | | | | |[]| | | |]; simpl; try done; unfold leave, wait_of, sets_callback; intros Hp _.
  - destruct Hp as [[? Hw] _]. by destruct (body_of c).
  - destruct Hp as [Hw _]. by destruct (body_of c).
  - destruct Hp as [Hw _]. by destruct (body_of c).
  - destruct Hp as [[? ->] _]. done.
Qed.

Lemma go_on_value i k f : future_value (go_on i k f) = future_value f.
Proof. unfold go_on. by destruct (k (err_string f)). Qed.

Lemma enter_value overflows i c f : future_value (enter overflows i c f) = future_value f.
Proof.
  unfold enter. destruct (body_of c), (kind f) as [fut|res []] eqn:Hf; rewrite ?go_on_value; try done;
    unfold future_value, on_thread; simpl; by rewrite Hf.
Qed.

Lemma leave_value i c x f f' : leave i c x f = Some f' -> future_value f' = future_value f.
Proof.
  unfold leave. destruct (body_of c), x as [| | | | | | |[]| | | |]; intros; simplify_eq/=; by rewrite ?go_on_value.
Qed.

(** The steps a future takes by itself: no new call, no deadline that passes, no spurious
    wake-up. *)
Inductive advances (multi : bool) : CassFuture -> list event -> CassFuture -> Prop :=
| advance_enter f i c overflows :
    calls f !! i = Some (Entered c) -> advances multi f [] (enter overflows i c f)
| advance_runs f fut fut' l :
    kind f = Resolvable fut -> progress multi fut fut' -> invoked fut' = invoked fut ++ l ->
    advances multi f (Invoked <$> l) (mkCassFuture (Resolvable fut') (err_string f) (calls f))
| advance_leave f fut i c t p f' :
    kind f = Resolvable fut -> calls f !! i = Some (OnThread c t) -> threads fut !! t = Some p ->
    leave i c p f = Some f' -> advances multi f [] f'
| advance_invoke f i cb :
    calls f !! i = Some (InvokingBound cb) ->
    advances multi f [Invoked cb] (call_put i (Returning (RCode CASS_OK)) f)
| advance_return f i r :
    calls f !! i = Some (Returning r) -> advances multi f [Replied i r] (call_put i Returned f).

Lemma advances_step multi f l f' : advances multi f l f' -> step multi f l f'.
Proof.
  intros [f0 i c o H|f0 fut fut' k Hf Hp Hi|f0 fut i c t p f1 Hf Hi Ht Hl|f0 i cb H|f0 i r H].
  - by apply step_enter.
  - eapply step_runs; [done|by left|done].
  - by eapply step_leave.
  - by apply step_invoke.
  - by apply step_return.
Qed.

(** The work left of the calls made so far. *)
Definition call_effort (c : call_state) : nat :=
  match c with
  | Entered _ => 9
  | OnThread _ _ | InvokingBound _ => 2
  | Returning _ => 1
  | Returned => 0
  end.

Definition calls_left (f : CassFuture) : nat :=
  sum_list_with call_effort (calls f) +
  match kind f with Resolvable fut => work_left fut | Immediate _ _ => 0 end.

Lemma call_effort_insert (l : list call_state) i c c' :
  l !! i = Some c ->
  (sum_list_with call_effort (<[i := c']> l) + call_effort c = sum_list_with call_effort l + call_effort c')%nat.
Proof.
  revert i; induction l as [|a l IH]; intros [|i]; simpl; try done.
  - intros [= ->]. lia.
  - intros Hi. specialize (IH _ Hi). lia.
Qed.

Lemma calls_left_put f i c c' kd err :
  calls f !! i = Some c ->
  (call_effort c' + match kd with Resolvable fut => work_left fut | Immediate _ _ => 0 end <
   call_effort c + match kind f with Resolvable fut => work_left fut | Immediate _ _ => 0 end)%nat ->
  (calls_left (mkCassFuture kd err (<[i := c']> (calls f))) < calls_left f)%nat.
Proof. intros Hi H. unfold calls_left. simpl. pose proof (call_effort_insert (calls f) i c c' Hi). lia. Qed.

Lemma calls_left_go_on f i c k :
  calls f !! i = Some c -> (1 < call_effort c)%nat -> (calls_left (go_on i k f) < calls_left f)%nat.
Proof.
  intros Hi Hc. unfold go_on. destruct (k (err_string f)). eapply calls_left_put; [done|]. simpl. lia.
Qed.

Lemma calls_left_enter f i c overflows :
  calls f !! i = Some (Entered c) -> (calls_left (enter overflows i c f) < calls_left f)%nat.
Proof.
  intros Hi.
  assert (Hthread : forall fut p, kind f = Resolvable fut -> (effort (result fut) p <= 6)%nat ->
    (calls_left (on_thread i c p fut f) < calls_left f)%nat).
  { intros fut p Hf Hp. unfold on_thread. eapply calls_left_put; [done|]. rewrite Hf. unfold work_left, update.
    simpl. rewrite sum_list_with_app. simpl. lia. }
  unfold enter. destruct (body_of c), (kind f) as [fut|res b] eqn:Hf;
    try (eapply calls_left_go_on; [done|simpl; lia]); try (apply Hthread; [done|simpl; lia]);
    try (eapply calls_left_put; [done|rewrite ?Hf; simpl; lia]).
  destruct b; (eapply calls_left_put; [done|rewrite ?Hf; simpl; lia]).
Qed.

(** Every step brings the calls closer to their end. *)
Lemma advances_decrease multi f p l f' :
  simulates f p -> advances multi f l f' -> (calls_left f' < calls_left f)%nat.
Proof.
  intros [[Hk _ _ _] _] Hs.
  destruct Hs as [f i c o H|f fut fut' k Hf Hp Hi|f fut i c t x f1 Hf Hi Ht Hl|f i cb H|f i r H].
  - by apply calls_left_enter.
  - rewrite Hf in Hk. destruct Hk as (Hinv&_). unfold calls_left. simpl. rewrite Hf.
    pose proof (progress_decreases multi fut fut' Hinv Hp). lia.
  - unfold leave in Hl. destruct (body_of c), x as [| | | | | | |[]| | | |]; simplify_eq/=;
      first [eapply calls_left_go_on; [done|simpl; lia] | eapply calls_left_put; [done|simpl; lia]].
  - eapply calls_left_put; [done|simpl; lia].
  - eapply calls_left_put; [done|simpl; lia].
Qed.

(** A step after which the result is as before or [output]. *)
Definition goes_on (multi : bool) (output : future_result) (f : CassFuture) : Prop :=
  exists l f', advances multi f l f' /\
    (future_value f' = future_value f \/ (future_value f = None /\ future_value f' = Some output)).

Lemma call_can_go_on multi output f p i c :
  simulates f p -> calls f !! i = Some c -> c <> Returned ->
  (forall fut, kind f = Resolvable fut -> Forall (fun x => call_done x = true) (threads fut)) ->
  goes_on multi output f.
Proof.
  intros [Hk Hc] Hi Hne Hdone. destruct c as [c|c t|cb|r|]; [..|done].
  - eexists [], _. split; [by apply (advance_enter multi f i c false)|]. left. apply enter_value.
  - destruct (Forall2_lookup_l _ _ _ _ _ (keeps_calls _ _ Hk) Hi) as (q&_&x&Hx&Hpos).
    destruct (kind f) as [fut|] eqn:Hf; [|done]. specialize (Hdone fut eq_refl). rewrite Forall_lookup in Hdone.
    destruct (done_leaves _ i c x q f Hpos (Hdone _ _ Hx)) as [f' Hf']. eexists [], f'.
    split; [by eapply advance_leave|]. left. by eapply leave_value.
  - eexists _, _. split; [by eapply advance_invoke|]. by auto.
  - eexists _, _. split; [by eapply advance_return|]. by auto.
Qed.

Lemma thread_step_result elapsed t x (fut fut' : future_state) :
  thread_step elapsed t x fut = Some fut' -> result fut' = result fut.
Proof. destruct x as [|[|[]]| | | | | | | | | |]; simpl; repeat case_match; naive_solver. Qed.

(** Whoever resolves a future can do it with the given value. *)
Lemma progress_with multi v (fut fut' : future_state) :
  future_inv fut -> progress multi fut fut' ->
  exists fut'', progress multi fut fut'' /\
    (result fut'' = result fut \/ (result fut = None /\ result fut'' = Some v)).
Proof.
  intros Hinv Hp. destruct Hp as [fut H|fut r Ht Hm|fut cb H|fut H|fut i p fut' Hi Hs|fut i l Hi Hn].
  - eexists. split; [by apply stores_handle|by left].
  - exists (resolve v fut). split; [by apply task_resolves|]. unfold resolve.
    assert (Hr : result fut = None) by by apply (inv_task fut Hinv). rewrite Hr. by right.
  - eexists. split; [by eapply task_invokes|by left].
  - eexists. split; [by eapply task_notifies|by left].
  - eexists. split; [by eapply thread_acts|]. left. by eapply thread_step_result.
  - eexists. split; [by eapply returns_handle|by left].
Qed.

Definition has_returned (c : call_state) : bool := match c with Returned => true | _ => false end.

Lemma goes_on_or_returned multi output f p :
  simulates f p -> goes_on multi output f \/ Forall (fun c => c = Returned) (calls f).
Proof.
  intros Hsim.
  assert (Hd : (exists fut fut', kind f = Resolvable fut /\ progress multi fut fut') \/
    (forall fut, kind f = Resolvable fut -> Forall (fun x => call_done x = true) (threads fut))).
  { destruct Hsim as [[Hkind _ _ _] _]. destruct (kind f) as [fut|] eqn:Hf; [|by right]. destruct Hkind as (Hinv&_).
    destruct (progress_or_done multi fut output Hinv) as [[fut' Hp]|[_ Hd]]; [left; eauto|right]. by intros ? [= <-]. }
  destruct Hd as [(fut&fut'&Hf&Hp)|Hd].
  - left. pose proof (keeps_kind _ _ (proj1 Hsim)) as Hinv. rewrite Hf in Hinv. destruct Hinv as (Hinv&_).
    destruct (progress_with multi output fut fut' Hinv Hp) as (fut''&Hp'&Hv).
    destruct (progress_invoked multi fut fut'' (or_introl Hp')) as [l Hl].
    eexists _, _. split; [by eapply advance_runs|].
    unfold future_value. simpl. by rewrite Hf.
  - destruct (decide (Forall (fun c => has_returned c = true) (calls f))) as [Hall|He].
    + right. eapply Forall_impl; [exact Hall|]. by intros [].
    + left. apply not_Forall_Exists, Exists_exists in He as (c&Hin&Hc); [|apply _].
      apply list_elem_of_lookup in Hin as [i Hi]. eapply call_can_go_on; try done. intros ->. by apply Hc.
Qed.

(** ** What a trace of a promise says about the replies *)

(** The functions that have been called. *)
Definition called_fns (evs : list event) : list api_call :=
  omap (fun e => match e with Called c => Some c | _ => None end) evs.

(** The functions that read the value. *)
Definition reads_value (c : api_call) : bool :=
  match c with
  | ErrorCode TheFuture | ErrorMessage TheFuture | GetResult TheFuture | GetErrorResult TheFuture
  | GetPrepared TheFuture | TracingId TheFuture | Coordinator TheFuture => true
  | _ => false
  end.

Definition read_from (v : option future_result) (c : api_call) (r : reply) : Prop :=
  exists x, v = Some x /\ value_reply x c = Some r.

Lemma answers_read v b c r : reads_value c = true -> answers v b c r -> read_from v c r.
Proof.
  intros Hc Ha. destruct Ha as [r H|x r Hv H|H|t H]; subst; try done; [|by exists x].
  destruct c as [[]|[]|[]|[]|[]|[]|[]|[]|[]|[]|[] []]; done.
Qed.

(** The call of a function that reads the value. *)
Definition reader_ok (v : option future_result) (c : api_call) (q : pcall) : Prop :=
  match q with
  | PCalled d _ => d = c
  | PReplies r => read_from v c r
  | PInvoking _ => False
  | PDone => True
  end.

Record replies_ok (evs : list event) (p : promise) : Prop := {
  replies_length : length (called_fns evs) = length (pcalls p);
  replies_bound j r : Replied j r ∈ evs -> (j < length (pcalls p))%nat;
  replies_called j c q : called_fns evs !! j = Some c -> reads_value c = true -> pcalls p !! j = Some q ->
    reader_ok (value p) c q;
  replies_read j c r : called_fns evs !! j = Some c -> reads_value c = true ->
    Replied j r ∈ evs -> read_from (value p) c r
}.

Lemma called_fns_app l k : called_fns (l ++ k) = called_fns l ++ called_fns k.
Proof. apply omap_app. Qed.

Lemma replies_call evs p c b :
  replies_ok evs p ->
  replies_ok (evs ++ [Called c]) (mkPromise (value p) (registered p) (due p) (pcalls p ++ [PCalled c b])).
Proof.
  intros [Hlen Hbound Hcalled Hread].
  assert (Hin : forall j r, Replied j r ∈ evs ++ [Called c] -> Replied j r ∈ evs).
  { by intros j r [?|?%list_elem_of_singleton]%elem_of_app. }
  split; simpl; rewrite ?called_fns_app; simpl.
  - rewrite !length_app. simpl. lia.
  - intros j r H%Hin%Hbound. rewrite length_app. lia.
  - intros j d q Hj Hd Hq. apply lookup_app_Some in Hq as [Hq|[Hle Hq]].
    + rewrite lookup_app_l in Hj by (apply lookup_lt_Some in Hq; lia). by eapply Hcalled.
    + apply list_lookup_singleton_Some in Hq as [Hz <-].
      rewrite lookup_app_r in Hj by lia. apply list_lookup_singleton_Some in Hj as [_ <-]. done.
  - intros j d r Hj Hd H%Hin. pose proof (Hbound _ _ H). rewrite lookup_app_l in Hj by lia. by eapply Hread.
Qed.

(** A step without a new call moves one call. *)
Lemma replies_put evs p i q q' l reg d :
  replies_ok evs p -> called_fns l = [] -> (forall j r, Replied j r ∈ l -> j = i /\ q = PReplies r) ->
  pcalls p !! i = Some q ->
  (forall c, reads_value c = true -> reader_ok (value p) c q -> reader_ok (value p) c q') ->
  replies_ok (evs ++ l) (mkPromise (value p) reg d (<[i := q']> (pcalls p))).
Proof.
  intros [Hlen Hbound Hcalled Hread] Hl Hrep Hi Hq.
  split; simpl; rewrite ?called_fns_app, ?Hl, ?app_nil_r, ?length_insert; [done|..].
  - intros j r [Hin|Hin]%elem_of_app; [by eapply Hbound|].
    destruct (Hrep _ _ Hin) as [-> _]. by eapply lookup_lt_Some.
  - intros j c x Hj Hc Hx. apply list_lookup_insert_Some in Hx as [(<-&<-&_)|[_ Hx]]; [|by eapply Hcalled].
    apply Hq; [done|]. by eapply Hcalled.
  - intros j c r Hj Hc [Hin|Hin]%elem_of_app; [by eapply Hread|].
    destruct (Hrep _ _ Hin) as [-> ->]. by apply (Hcalled i c _ Hj Hc Hi).
Qed.

Lemma read_from_value v v' c r :
  (forall x, v = Some x -> v' = Some x) -> read_from v c r -> read_from v' c r.
Proof. intros H (x&Hx&Hr). exists x. auto. Qed.

(** A step of the value or of the callback. *)
Lemma replies_value evs p l v reg d :
  replies_ok evs p -> called_fns l = [] -> (forall j r, ~ Replied j r ∈ l) ->
  (forall x, value p = Some x -> v = Some x) -> replies_ok (evs ++ l) (mkPromise v reg d (pcalls p)).
Proof.
  intros [Hlen Hbound Hcalled Hread] Hl Hrep Hv.
  assert (Hin : forall j r, Replied j r ∈ evs ++ l -> Replied j r ∈ evs).
  { intros j r [?|?]%elem_of_app; [done|]. by destruct (Hrep j r). }
  split; simpl; rewrite ?called_fns_app, ?Hl, ?app_nil_r; [done|eauto|..].
  - intros j c q Hj Hc Hq. specialize (Hcalled j c q Hj Hc Hq). destruct q; simpl in *; eauto using read_from_value.
  - intros j c r Hj Hc H. eauto using read_from_value.
Qed.

Lemma replies_step evs p l p' : replies_ok evs p -> promise_step p l p' -> replies_ok (evs ++ l) p'.
Proof.
  intros Hok Hs. destruct Hs as [p c|p v Hv|p cb Hd|p i c b r Hi Ha|p i callback data b cb Hi Hreg
    |p i callback data b Hi Hreg cb|p i cb Hi|p i r Hi].
  - by apply replies_call.
  - apply replies_value; [done|done|by intros ? ? ?%elem_of_nil|congruence].
  - apply replies_value; [done|done| |done]. by intros ? ? ?%list_elem_of_singleton.
  - eapply replies_put; try done; [by intros ? ? ?%elem_of_nil|]. intros d Hd ->. by apply (answers_read _ b).
  - eapply replies_put; try done; [by intros ? ? ?%elem_of_nil|]. by intros d Hd <-.
  - eapply replies_put; try done; [by intros ? ? ?%elem_of_nil|]. by intros d Hd <-.
  - eapply replies_put; try done. by intros ? ? ?%list_elem_of_singleton.
  - eapply replies_put; try done. by intros ? ? [= -> ->]%list_elem_of_singleton.
Qed.

(** What calls read from a promise is its value. *)
Lemma promise_replies v evs p j c r :
  trace promise_step (new_promise v) evs p ->
  called_fns evs !! j = Some c -> reads_value c = true -> Replied j r ∈ evs -> read_from (value p) c r.
Proof.
  intros Ht. assert (Hok : replies_ok evs p); [|apply Hok].
  assert (H0 : replies_ok [] (new_promise v)).
  { split; simpl; [done|by intros ? ? ?%elem_of_nil|done|done]. }
  assert (Hgen : forall p0 ls p1, trace promise_step p0 ls p1 -> forall es, replies_ok es p0 -> replies_ok (es ++ ls) p1).
  { intros p0 ls p1 H. induction H as [s|s l s' ls s'' Hs _ IH]; intros es He; [by rewrite app_nil_r|].
    rewrite app_assoc. apply IH. by eapply replies_step. }
  exact (Hgen _ _ _ Ht [] H0).
Qed.

(** C1: futures keep their promise.  Whatever functions client threads call on a future, of
    either kind and with either runtime, and however the task, the waits, their timeouts and
    the callback interleave, the client sees what a promise allows: one value, from which
    every function answers, waits that return only when it is there, timeouts only for calls
    made before it was, the callback invoked once both it and the value are set, all other
    callbacks refused, and null pointers reported without touching the future. *)
Theorem future_refines_promise (multi : bool) (f0 f : CassFuture) (evs : list event) :
  initial f0 -> trace (step multi) f0 evs f -> exists p, trace promise_step (promise_of f0) evs p.
Proof.
  intros H0%initial_simulates Ht.
  destruct (forward_simulation _ _ simulates (step_simulated multi) _ _ _ Ht _ H0) as (p&Hp&_). by exists p.
Qed.

(** Calls on a future return.  Without new calls, deadlines and spurious wake-ups a future
    takes at most [calls_left] further steps, whatever the scheduler does; and when it has
    come to rest every call made so far has returned to the client, given that the request
    behind the future can be completed, with some [output]. *)
Theorem future_calls_return (multi : bool) (f0 f f' : CassFuture) (evs : list event) (n : nat)
    (output : future_result) :
  initial f0 -> trace (step multi) f0 evs f ->
  nsteps (fun f f' => exists l, advances multi f l f') n f f' ->
  (n <= calls_left f)%nat /\
  ((forall l f'', ~ advances multi f' l f'') -> Forall (fun c => c = Returned) (calls f')).
Proof.
  intros H0%initial_simulates Ht Hn.
  destruct (forward_simulation _ _ simulates (step_simulated multi) _ _ _ Ht _ H0) as (p&_&Hsim).
  assert (Hgen : exists p', simulates f' p' /\ (n + calls_left f' <= calls_left f)%nat).
  { clear -Hn Hsim. revert p Hsim. induction Hn as [|n x y z [l Hxy] _ IH]; intros p Hsim; [by exists p|].
    pose proof (advances_decrease multi x p l y Hsim Hxy).
    destruct (step_simulated multi x p l y Hsim (advances_step _ _ _ _ Hxy)) as (p1&_&Hp1).
    destruct (IH _ Hp1) as (p2&Hp2&?). exists p2. split; [done|lia]. }
  destruct Hgen as (p'&Hsim'&Hm). split; [lia|]. intros Hstop.
  destruct (goes_on_or_returned multi output f' p' Hsim') as [(l&f''&Hs&_)|]; [by destruct (Hstop l f'')|done].
Qed.

End Api.

(** ** A run: a callback is set, the error code asked for, and the request fails *)

Notation demo_api_step := (step (QR := nat) (PR := nat) (fun e : CassError => e) (fun _ => "failed"%string)
  (fun _ => None) (fun _ => Some 1%nat) true).

Ltac api_norm :=
  lazymatch goal with |- trace _ ?s _ _ => let s' := eval vm_compute in s in change s with s' end.
Ltac api_step tac := eapply trace_cons; [tac|]; api_norm.
Ltac api_thread t :=
  api_step ltac:(eapply (step_runs _ _ _ _ _ _ _ _ []);
    [reflexivity|left; eapply (thread_acts _ _ t); reflexivity|reflexivity]).
Ltac api_leave i t :=
  api_step ltac:(eapply (step_leave _ _ _ _ _ _ _ i _ t); reflexivity).

Definition demo_events : list (@event nat CassError nat nat) :=
  [Called (SetCallback TheFuture (Some 5) 6); Replied 0 (RCode CASS_OK);
   Called (ErrorCode TheFuture); Invoked (mkBound 5 6);
   Replied 1 (RCode CASS_ERROR_SERVER_OVERLOADED)].

Lemma demo_api_run : exists f, trace demo_api_step make_raw demo_events f.
Proof.
  cut (exists evs f, trace demo_api_step make_raw evs f /\ evs = demo_events).
  { intros (evs&f&H&<-). by exists f. }
  eexists _, _. split.
  - api_step ltac:(eapply (step_runs _ _ _ _ _ _ _ _ []); [reflexivity|left; by apply stores_handle|reflexivity]).
    api_step ltac:(apply (step_call _ _ _ _ _ _ (SetCallback TheFuture (Some 5) 6)); reflexivity).
    api_step ltac:(apply (step_enter _ _ _ _ _ _ 0 (SetCallback TheFuture (Some 5) 6) false); reflexivity).
    api_thread 0%nat. api_leave 0%nat 0%nat.
    api_step ltac:(eapply (step_return _ _ _ _ _ _ 0); reflexivity).
    api_step ltac:(apply (step_call _ _ _ _ _ _ (ErrorCode TheFuture)); reflexivity).
    api_step ltac:(apply (step_enter _ _ _ _ _ _ 1 (ErrorCode TheFuture) false); reflexivity).
    api_step ltac:(eapply (step_runs _ _ _ _ _ _ _ _ []); [reflexivity|left;
      apply (task_resolves _ _ (Ok (QueryError CASS_ERROR_SERVER_OVERLOADED))); [reflexivity|by left]|reflexivity]).
    api_step ltac:(eapply (step_runs _ _ _ _ _ _ _ _ [mkBound 5 6]);
      [reflexivity|left; by eapply task_invokes|reflexivity]).
    api_thread 1%nat. api_leave 1%nat 1%nat.
    api_step ltac:(eapply (step_return _ _ _ _ _ _ 1); reflexivity).
    constructor.
  - reflexivity.
Qed.

Lemma future_refines_promise_witness :
  exists p, trace (promise_step (fun e : CassError => e) (fun _ => "failed"%string) (fun _ => None)
    (fun _ => Some 1%nat)) (new_promise None) demo_events p.
Proof.
  destruct demo_api_run as [f Hf].
  exact (future_refines_promise _ _ _ _ true make_raw f demo_events (or_introl eq_refl) Hf).
Defined.

(** A ready future on which one thread has waited. *)
Definition waited : CassFuture (QR := nat) (QE := CassError) (PR := nat) (Node := nat) :=
  mkCassFuture (Immediate (Ok Empty) false) None [Returned].

Lemma waited_run : exists evs, trace demo_api_step (make_ready_raw (Ok Empty)) evs waited.
Proof.
  eexists.
  api_step ltac:(apply (step_call _ _ _ _ _ _ (Wait TheFuture)); reflexivity).
  api_step ltac:(apply (step_enter _ _ _ _ _ _ 0 (Wait TheFuture) false); reflexivity).
  api_step ltac:(eapply (step_return _ _ _ _ _ _ 0); reflexivity). constructor.
Qed.

Lemma future_calls_return_witness : Forall (fun c => c = Returned) (calls waited).
Proof.
  destruct waited_run as [evs Hrun].
  refine (proj2 (future_calls_return (QE := CassError) (fun e => e) (fun _ => "failed"%string) (fun _ => None)
    (fun _ => Some 1%nat) true _ waited waited evs 0 (Ok Empty)
    (or_intror (ex_intro _ (Ok Empty) eq_refl)) Hrun (nsteps_O _ _)) _).
  intros l f' Hs. inversion Hs as [? [|[]] ? ? H|? ? ? ? H|? ? ? ? ? ? ? H|? [|[]] ? H|? [|[]] ? H]; simplify_eq/=.
Defined.
