(* ===== verification/Results.v ===== *)
(** * Query results, rows and values (query_result.rs)

    Frames are lists of bytes.  What the row iterators of the Rust driver yield is
    data of the model: a result holds, for each row, either an error or the items
    of its [ColumnIterator].  The driver's [DeserializeValue] implementations are
    the fields of [NativeReaders]; the ones of this crate ([CassRawValue],
    [CassRawRow]) are definitions.  The data types of a result come from its
    metadata, which is immutable, so they are trees. *)

From Stdlib Require Import ZArith Lia String Ascii.
From stdpp Require Import base list gmap strings.
From S2P Require Import Prelude ArgConv Types Errors DataType Uuid Inet Value Prepared Statement.

Open Scope Z_scope.

(** ** Raw values *)

Inductive CollectionLengthDeserializationError :=
| TooFewBytes (len : nat)
| NegativeLength (length : Z).

(** [DriverError]: raised inside the Rust driver. *)
Inductive DeserializationError :=
| DriverError
| CollectionLength (e : CollectionLengthDeserializationError)
| ColumnDeserializationFailed (column_index : nat) (column_name : string) (err : DeserializationError)
| RawCqlBytesReadError
| TupleMissingValue (pos : nat).

(** [cass_raw_value::CassRawValue]. *)
Record CassRawValue := mkRawValue {
  typ : ColumnType;
  raw_slice : option (list Z);
  item_count : option Z
}.

Definition determine_value_item_count (typ : ColumnType) (slice : option (list Z))
  : result CollectionLengthDeserializationError (option Z) :=
  match slice with
  | None => Ok None
  | Some bs =>
      match typ with
      | CList _ _ | CSet _ _ | CMap _ _ _ =>
          if (length bs <? 4)%nat then Err (TooFewBytes (length bs))
          else
            let i32_length := wrap_i 32 (be_value (take 4 bs)) in
            if i32_length <? 0 then Err (NegativeLength i32_length) else Ok (Some i32_length)
      | CTuple types => Ok (Some (Z.of_nat (length types)))
      | CVector _ dimensions => Ok (Some dimensions)
      | CUdt field_types _ _ _ => Ok (Some (Z.of_nat (length field_types)))
      | _ => Ok None
      end
  end.

(** The types whose empty values are kept; for the others they become null. *)
Definition keeps_empty (typ : ColumnType) : bool :=
  match typ with
  | CList _ _ | CSet _ _ | CMap _ _ _ | CUdt _ _ _ _ => true
  | CNative (NDuration | NCounter | NAscii | NText | NBlob) => true
  | _ => false
  end.

(** [DeserializeValue for CassRawValue]. *)
Definition raw_deserialize (typ : ColumnType) (v : option (list Z))
  : result DeserializationError CassRawValue :=
  let slice := if keeps_empty typ then v else match v with Some [] => None | _ => v end in
  match determine_value_item_count typ slice with
  | Ok item_count => Ok (mkRawValue typ slice item_count)
  | Err e => Err (CollectionLength e)
  end.

Record CassValue := mkValue { cv_value : CassRawValue; cv_type : dtree }.

(** ** Deserialization of non-null values *)

Record Deserializer (T : Type) := mkDeserializer {
  type_check : ColumnType -> bool;
  (** on a slice that is not null *)
  deserialize : ColumnType -> list Z -> outcome (result DeserializationError T)
}.
Arguments mkDeserializer {T}.
Arguments type_check {T}.
Arguments deserialize {T}.

Inductive NonNullDeserializationError :=
| IsNull
| Typecheck
| Deserialization (e : DeserializationError).

Definition get_non_null {T} (D : Deserializer T) (self : CassValue)
  : outcome (result NonNullDeserializationError T) :=
  match raw_slice (cv_value self) with
  | None => Ret (Err IsNull)
  | Some bs =>
      if type_check D (typ (cv_value self)) then
        r ← deserialize D (typ (cv_value self)) bs;
        Ret match r with Ok v => Ok v | Err e => Err (Deserialization e) end
      else Ret (Err Typecheck)
  end.

Definition get_bytes_non_null (self : CassValue) : result NonNullDeserializationError (list Z) :=
  match raw_slice (cv_value self) with None => Err IsNull | Some bs => Ok bs end.

(** [ToCassError for NonNullDeserializationError]. *)
Definition non_null_to_cass_error (e : NonNullDeserializationError) : CassError :=
  match e with
  | IsNull => CASS_ERROR_LIB_NULL_VALUE
  | Typecheck => CASS_ERROR_LIB_INVALID_VALUE_TYPE
  | Deserialization _ => CASS_ERROR_LIB_INVALID_DATA
  end.

(** ** Rows *)

(** An item of [ColumnIterator]. *)
Record RawColumn := mkRawColumn {
  rc_index : nat;
  rc_spec : ColumnSpec;
  rc_slice : option (list Z)
}.

Definition CassRawRow : Type := list (result DeserializationError RawColumn).

Record CassRow := mkRow { columns : list CassValue; row_metadata : CassResultMetadata }.

(** The loop over the columns zipped with the column specifications. *)
Fixpoint row_loop (raw_columns : CassRawRow) (col_specs : CassResultMetadata)
  : result DeserializationError (list CassValue) :=
  match raw_columns, col_specs with
  | raw_column :: raw_columns, cass_col_spec :: col_specs =>
      raw_column ← raw_column;
      match raw_deserialize (rc_spec raw_column).2 (rc_slice raw_column) with
      | Err err =>
          Err (ColumnDeserializationFailed (rc_index raw_column) (rc_spec raw_column).1 err)
      | Ok raw_value =>
          columns ← row_loop raw_columns col_specs;
          Ok (mkValue raw_value (cs_data_type cass_col_spec) :: columns)
      end
  | _, _ => Ok []
  end.

(** [CassRow::from_raw_row_and_metadata]; the vector of an old row is cleared and
    used again. *)
Definition from_raw_row_and_metadata (raw_row : CassRawRow) (result_metadata : CassResultMetadata)
    (old_row : option CassRow) : result DeserializationError CassRow :=
  let old_vec := match old_row with Some row => take 0 (columns row) | None => [] end in
  columns ← row_loop raw_row result_metadata;
  Ok (mkRow (old_vec ++ columns) result_metadata).

(** ** Results *)

(** [DeserializedMetadataAndRawRows] of the driver: the number of rows its header
    gives and what [rows_iter] yields. *)
Record RawRows := mkRawRows {
  rows_count : Z;
  rows_iter : list (result DeserializationError CassRawRow)
}.

Record CassRowsResult := mkRowsResult {
  raw_rows : RawRows;
  metadata : CassResultMetadata;
  first_row : option CassRow
}.

Inductive CassResultKind := NonRows | Rows (r : CassRowsResult).

Record CassResult (Coord : Type) := mkResult {
  res_tracing_id : option Z;
  paging_state_response : PagingStateResponse;
  kind : CassResultKind;
  res_coordinator : option Coord
}.
Arguments mkResult {Coord}.
Arguments res_tracing_id {Coord}.
Arguments paging_state_response {Coord}.
Arguments kind {Coord}.
Arguments res_coordinator {Coord}.

(** [QueryResult::into_rows_result]. *)
Inductive QueryResponse (Coord : Type) :=
| RowsResult (column_specs : list ColumnSpec) (raw_rows : RawRows) (tracing_id : option Z)
    (coordinator : option Coord)
| ResultNotRows (tracing_id : option Z) (coordinator : Coord)
| ResultMetadataLazyDeserializationError.
Arguments RowsResult {Coord}.
Arguments ResultNotRows {Coord}.
Arguments ResultMetadataLazyDeserializationError {Coord}.

(** [CassRowsResult::init_first_row]. *)
Definition init_first_row (self : CassRowsResult) : result DeserializationError CassRowsResult :=
  match rows_iter (raw_rows self) with
  | [] => Ok (mkRowsResult (raw_rows self) (metadata self) None)
  | raw_row_result :: _ =>
      raw_row ← raw_row_result;
      row ← from_raw_row_and_metadata raw_row (metadata self) None;
      Ok (mkRowsResult (raw_rows self) (metadata self) (Some row))
  end.

Section Payload.
Context {Coord : Type}.

(** [CassResult::from_result_payload]. *)
Definition from_result_payload (response : QueryResponse Coord) (paging : PagingStateResponse)
    (try_get_or_make_result_metadata : option (list ColumnSpec -> option CassResultMetadata))
  : result CassErrorResult (CassResult Coord) :=
  match response with
  | RowsResult column_specs raw_rows tracing_id coordinator =>
      let metadata :=
        match try_get_or_make_result_metadata ≫= (fun f => f column_specs) with
        | Some m => m
        | None => from_column_specs column_specs
        end in
      match init_first_row (mkRowsResult raw_rows metadata None) with
      | Ok rows_result => Ok (mkResult tracing_id paging (Rows rows_result) coordinator)
      | Err _ => Err Errors.Deserialization
      end
  | ResultNotRows tracing_id coordinator =>
      Ok (mkResult tracing_id paging NonRows (Some coordinator))
  | ResultMetadataLazyDeserializationError => Err ResultMetadataLazyDeserialization
  end.

Notation result_ptr := (option (CassResult Coord)).

Definition finished (r : PagingStateResponse) : bool :=
  match r with NoMorePages => true | HasMorePages _ => false end.

Definition cass_result_has_more_pages (result : result_ptr) : bool :=
  match result with None => false | Some r => negb (finished (paging_state_response r)) end.

(** Pointers and numbers written through out parameters are returned. *)
Definition cass_result_column_name (result : result_ptr) (index : nat)
  : outcome (CassError * option (char_ptr * nat)) :=
  match result with
  | None => Ret (CASS_ERROR_LIB_BAD_PARAMS, None)
  | Some r =>
      match kind r with
      | NonRows => Ret (CASS_ERROR_LIB_BAD_PARAMS, None)
      | Rows rows =>
          if (length (metadata rows) <=? index)%nat
          then Ret (CASS_ERROR_LIB_INDEX_OUT_OF_BOUNDS, None)
          else match metadata rows !! index with
               | Some spec => Ret (CASS_OK, Some (write_str_to_c (cs_name spec)))
               | None => Panic
               end
      end
  end.

Definition cass_result_column_data_type (result : result_ptr) (index : nat) : option dtree :=
  match result with
  | Some r => match kind r with
              | Rows rows => cs_data_type <$> metadata rows !! index
              | NonRows => None
              end
  | None => None
  end.

(** [cass_data_type_type] on a tree. *)
Definition tree_value_type (t : dtree) : CassValueType :=
  match t with Node i => get_value_type i end.

Definition cass_result_column_type (result : result_ptr) (index : nat) : CassValueType :=
  match cass_result_column_data_type result index with
  | None => CASS_VALUE_TYPE_UNKNOWN
  | Some t => tree_value_type t
  end.

Definition cass_result_row_count (result : result_ptr) : Z :=
  match result with
  | Some r => match kind r with Rows rows => rows_count (raw_rows rows) | NonRows => 0 end
  | None => 0
  end.

Definition cass_result_column_count (result : result_ptr) : nat :=
  match result with
  | Some r => match kind r with Rows rows => length (metadata rows) | NonRows => 0%nat end
  | None => 0%nat
  end.

Definition cass_result_first_row (result : result_ptr) : option CassRow :=
  match result with
  | Some r => match kind r with Rows rows => first_row rows | NonRows => None end
  | None => None
  end.

(** The out parameters: a pointer, null if there is no state, and its size. *)
Definition cass_result_paging_state_token (result : result_ptr)
  : CassError * option (option (list Z) * nat) :=
  match result with
  | None => (CASS_ERROR_LIB_BAD_PARAMS, None)
  | Some r =>
      if negb (cass_result_has_more_pages result) then (CASS_ERROR_LIB_NO_PAGING_STATE, None)
      else match paging_state_response r with
           | HasMorePages (Some state) => (CASS_OK, Some (Some state, length state))
           | HasMorePages None => (CASS_OK, Some (None, 0%nat))
           | NoMorePages => (CASS_OK, Some (None, 0%nat))
           end
  end.

End Payload.

(** ** Columns of a row *)

Definition cass_row_get_column (row : option CassRow) (index : nat) : option CassValue :=
  match row with Some row => columns row !! index | None => None end.

Definition starts_with (c : ascii) (s : string) : bool :=
  match strip_prefix c s with Some _ => true | None => false end.
Definition ends_with (c : ascii) (s : string) : bool :=
  match strip_suffix c s with Some _ => true | None => false end.

(** [Iterator::enumerate().find(..)]. *)
Fixpoint find_index {A} (p : A -> bool) (i : nat) (l : list A) : option nat :=
  match l with
  | [] => None
  | x :: l => if p x then Some i else find_index p (S i) l
  end.

Definition cass_row_get_column_by_name_n (row : option CassRow) (name : char_ptr)
    (name_length : nat) : outcome (option CassValue) :=
  match row with
  | None => Ret None
  | Some row =>
      match to_str name name_length with
      | Err _ => Ret None
      | Ok name_str =>
          let unquoted :=
            if starts_with quote name_str && ends_with quote name_str then
              match strip_prefix quote name_str ≫= strip_suffix quote with
              | Some s => Ret (s, true)
              | None => Panic
              end
            else Ret (name_str, false) in
          '(name_str, is_case_sensitive) ← unquoted;
          Ret match find_index (fun spec => name_matches is_case_sensitive name_str (cs_name spec)) 0
                      (row_metadata row) with
              | Some index => columns row !! index
              | None => None
              end
      end
  end.

Definition cass_row_get_column_by_name (row : option CassRow) (name : char_ptr)
  : outcome (option CassValue) :=
  let '(name, name_len) := as_len_delimited name in cass_row_get_column_by_name_n row name name_len.

(** ** Values *)

Definition cass_value_type (value : option CassValue) : CassValueType :=
  match value with None => CASS_VALUE_TYPE_UNKNOWN | Some v => tree_value_type (cv_type v) end.

Definition cass_value_data_type (value : option CassValue) : option dtree := cv_type <$> value.

Definition cass_value_is_null (value : option CassValue) : bool :=
  match value with
  | None => false
  | Some v => match raw_slice (cv_value v) with None => true | Some _ => false end
  end.

Definition cass_value_is_collection (value : option CassValue) : bool :=
  match value with
  | None => false
  | Some v =>
      match tree_value_type (cv_type v) with
      | CASS_VALUE_TYPE_LIST | CASS_VALUE_TYPE_SET | CASS_VALUE_TYPE_MAP => true
      | _ => false
      end
  end.

Definition cass_value_is_duration (value : option CassValue) : bool :=
  match value with
  | None => false
  | Some v => bool_decide (tree_value_type (cv_type v) = CASS_VALUE_TYPE_DURATION)
  end.

Definition cass_value_item_count (value : option CassValue) : Z :=
  match value with None => 0 | Some v => default 0 (item_count (cv_value v)) end.

Definition cass_value_primary_sub_type (value : option CassValue) : CassValueType :=
  match value with
  | None => CASS_VALUE_TYPE_UNKNOWN
  | Some v =>
      match cv_type v with
      | Node (DList (Some t) _) | Node (DSet (Some t) _) => tree_value_type t
      | Node (DMap (Key key) _) | Node (DMap (KeyAndValue key _) _) => tree_value_type key
      | Node (DVector t _) => tree_value_type t
      | _ => CASS_VALUE_TYPE_UNKNOWN
      end
  end.

Definition cass_value_secondary_sub_type (value : option CassValue) : CassValueType :=
  match value with
  | None => CASS_VALUE_TYPE_UNKNOWN
  | Some v =>
      match cv_type v with
      | Node (DMap (KeyAndValue _ value) _) => tree_value_type value
      | _ => CASS_VALUE_TYPE_UNKNOWN
      end
  end.

Definition cass_value_get_bytes (value : option CassValue) : CassError * option (list Z) :=
  match value with
  | None => (CASS_ERROR_LIB_NULL_VALUE, None)
  | Some v =>
      match get_bytes_non_null v with
      | Ok bytes => (CASS_OK, Some bytes)
      | Err e => (non_null_to_cass_error e, None)
      end
  end.

(** ** Getters of native values *)

(** A deserializer of the driver. *)
Record Reader (T : Type) := mkReader {
  accepts : ColumnType -> bool;
  reads : ColumnType -> list Z -> result DeserializationError T
}.
Arguments mkReader {T}.
Arguments accepts {T}.
Arguments reads {T}.

Definition of_reader {T} (r : Reader T) : Deserializer T :=
  mkDeserializer (accepts r) (fun t bs => Ret (reads r t bs)).

(** Floating-point numbers are their bit patterns, as in [CassCqlValue]. *)
Record NativeReaders := mkReaders {
  rd_f32 : Reader Z; rd_f64 : Reader Z; rd_bool : Reader bool;
  rd_i8 : Reader Z; rd_i16 : Reader Z; rd_i32 : Reader Z; rd_i64 : Reader Z;
  rd_date : Reader Z; rd_counter : Reader Z; rd_time : Reader Z; rd_timestamp : Reader Z;
  rd_uuid : Reader Z; rd_timeuuid : Reader Z; rd_inet : Reader IpAddr;
  rd_decimal : Reader CqlDecimal; rd_str : Reader string; rd_duration : Reader CqlDuration
}.

(** What a getter writes through its out parameters. *)
Inductive output :=
| OInt (v : Z)
| OBool (b : bool)
| OUuid (u : CassUuid)
| OInet (i : CassInet)
| ODecimal (varint : list Z) (varint_size : nat) (scale : Z)
| OString (s : char_ptr) (len : nat)
| ODuration (months days nanos : Z).

Section Getters.
Variable rd : NativeReaders.

Notation getter := (outcome (CassError * option output)).

(** The getters that only convert what they read. *)
Definition get_simple {T} (r : Reader T) (out : T -> output) (value : option CassValue) : getter :=
  match value with
  | None => Ret (CASS_ERROR_LIB_NULL_VALUE, None)
  | Some val =>
      v ← get_non_null (of_reader r) val;
      Ret match v with
          | Ok v => (CASS_OK, Some (out v))
          | Err e => (non_null_to_cass_error e, None)
          end
  end.

Definition cass_value_get_float := get_simple (rd_f32 rd) OInt.
Definition cass_value_get_double := get_simple (rd_f64 rd) OInt.
Definition cass_value_get_bool := get_simple (rd_bool rd) OBool.
Definition cass_value_get_int8 := get_simple (rd_i8 rd) OInt.
Definition cass_value_get_int16 := get_simple (rd_i16 rd) OInt.
Definition cass_value_get_uint32 := get_simple (rd_date rd) OInt.
Definition cass_value_get_int32 := get_simple (rd_i32 rd) OInt.
Definition cass_value_get_inet := get_simple (rd_inet rd) (fun ip => OInet (CassInet_from ip)).
Definition cass_value_get_decimal := get_simple (rd_decimal rd)
  (fun d => ODecimal (int_val d) (length (int_val d)) (scale d)).
Definition cass_value_get_duration := get_simple (rd_duration rd)
  (fun d => ODuration (months d) (days d) (nanoseconds d)).

(** The getters that look at the type first: a failing type check is then a panic. *)
Definition get_checked {T} (r : Reader T) (out : T -> output) (val : CassValue) : getter :=
  v ← get_non_null (of_reader r) val;
  match v with
  | Ok v => Ret (CASS_OK, Some (out v))
  | Err Typecheck => Panic
  | Err e => Ret (non_null_to_cass_error e, None)
  end.

Definition cass_value_get_int64 (value : option CassValue) : getter :=
  match value with
  | None => Ret (CASS_ERROR_LIB_NULL_VALUE, None)
  | Some val =>
      match typ (cv_value val) with
      | CNative NBigInt => get_checked (rd_i64 rd) OInt val
      | CNative NCounter => get_checked (rd_counter rd) OInt val
      | CNative NTime => get_checked (rd_time rd) OInt val
      | CNative NTimestamp => get_checked (rd_timestamp rd) OInt val
      | _ => Ret (CASS_ERROR_LIB_INVALID_VALUE_TYPE, None)
      end
  end.

Definition cass_value_get_uuid (value : option CassValue) : getter :=
  match value with
  | None => Ret (CASS_ERROR_LIB_NULL_VALUE, None)
  | Some val =>
      match typ (cv_value val) with
      | CNative NUuid => get_checked (rd_uuid rd) (fun u => OUuid (CassUuid_from u)) val
      | CNative NTimeuuid => get_checked (rd_timeuuid rd) (fun u => OUuid (CassUuid_from u)) val
      | _ => Ret (CASS_ERROR_LIB_INVALID_VALUE_TYPE, None)
      end
  end.

Definition cass_value_get_string (value : option CassValue) : getter :=
  match value with
  | None => Ret (CASS_ERROR_LIB_NULL_VALUE, None)
  | Some val =>
      match typ (cv_value val) with
      | CNative NAscii | CNative NText =>
          get_checked (rd_str rd) (fun s => let '(p, n) := write_str_to_c s in OString p n) val
      | _ => Ret (CASS_ERROR_LIB_INVALID_VALUE_TYPE, None)
      end
  end.

End Getters.

(** ** Documented behaviour of the readers

    Each of them accepts exactly the CQL types the driver documents for it. *)

Definition native_of (t : ColumnType) : option NativeType :=
  match t with CNative n => Some n | _ => None end.

Definition only {T} (ns : list NativeType) (r : Reader T) : Prop :=
  forall t, accepts r t = match native_of t with Some n => bool_decide (n ∈ ns) | None => false end.

Record readers_ok (rd : NativeReaders) : Prop := {
  ok_f32 : only [NFloat] (rd_f32 rd); ok_f64 : only [NDouble] (rd_f64 rd);
  ok_bool : only [NBoolean] (rd_bool rd); ok_i8 : only [NTinyInt] (rd_i8 rd);
  ok_i16 : only [NSmallInt] (rd_i16 rd); ok_i32 : only [NInt] (rd_i32 rd);
  ok_i64 : only [NBigInt] (rd_i64 rd); ok_date : only [NDate] (rd_date rd);
  ok_counter : only [NCounter] (rd_counter rd); ok_time : only [NTime] (rd_time rd);
  ok_timestamp : only [NTimestamp] (rd_timestamp rd); ok_uuid : only [NUuid] (rd_uuid rd);
  ok_timeuuid : only [NTimeuuid] (rd_timeuuid rd); ok_inet : only [NInet] (rd_inet rd);
  ok_decimal : only [NDecimal] (rd_decimal rd); ok_str : only [NAscii; NText] (rd_str rd);
  ok_duration : only [NDuration] (rd_duration rd)
}.

(** ** The contract of the getters *)

Inductive getter_kind :=
| GFloat | GDouble | GBool | GInt8 | GInt16 | GUint32 | GInt32 | GInt64 | GUuid | GInet
| GDecimal | GString | GDuration.

Definition run_getter (rd : NativeReaders) (k : getter_kind)
  : option CassValue -> outcome (CassError * option output) :=
  match k with
  | GFloat => cass_value_get_float rd | GDouble => cass_value_get_double rd
  | GBool => cass_value_get_bool rd | GInt8 => cass_value_get_int8 rd
  | GInt16 => cass_value_get_int16 rd | GUint32 => cass_value_get_uint32 rd
  | GInt32 => cass_value_get_int32 rd | GInt64 => cass_value_get_int64 rd
  | GUuid => cass_value_get_uuid rd | GInet => cass_value_get_inet rd
  | GDecimal => cass_value_get_decimal rd | GString => cass_value_get_string rd
  | GDuration => cass_value_get_duration rd
  end.

(** The CQL types a getter reads, and how. *)
Definition contract (rd : NativeReaders) (k : getter_kind) (n : NativeType)
  : option (list Z -> result DeserializationError output) :=
  let via {T} (r : Reader T) (out : T -> output) :=
    Some (fun bs => v ← reads r (CNative n) bs; Ok (out v)) in
  match k, n with
  | GFloat, NFloat => via (rd_f32 rd) OInt
  | GDouble, NDouble => via (rd_f64 rd) OInt
  | GBool, NBoolean => via (rd_bool rd) OBool
  | GInt8, NTinyInt => via (rd_i8 rd) OInt
  | GInt16, NSmallInt => via (rd_i16 rd) OInt
  | GUint32, NDate => via (rd_date rd) OInt
  | GInt32, NInt => via (rd_i32 rd) OInt
  | GInt64, NBigInt => via (rd_i64 rd) OInt
  | GInt64, NCounter => via (rd_counter rd) OInt
  | GInt64, NTime => via (rd_time rd) OInt
  | GInt64, NTimestamp => via (rd_timestamp rd) OInt
  | GUuid, NUuid => via (rd_uuid rd) (fun u => OUuid (CassUuid_from u))
  | GUuid, NTimeuuid => via (rd_timeuuid rd) (fun u => OUuid (CassUuid_from u))
  | GInet, NInet => via (rd_inet rd) (fun ip => OInet (CassInet_from ip))
  | GDecimal, NDecimal =>
      via (rd_decimal rd) (fun d => ODecimal (int_val d) (length (int_val d)) (scale d))
  | GString, (NAscii | NText) => via (rd_str rd) (fun s => OString (Some s) (String.length s))
  | GDuration, NDuration => via (rd_duration rd) (fun d => ODuration (months d) (days d) (nanoseconds d))
  | _, _ => None
  end.

(** A getter that looks at the type first reports a wrong type even of a null. *)
Definition type_first (k : getter_kind) : bool :=
  match k with GInt64 | GUuid | GString => true | _ => false end.

Definition getter_spec (rd : NativeReaders) (k : getter_kind) (value : option CassValue)
  : CassError * option output :=
  match value with
  | None => (CASS_ERROR_LIB_NULL_VALUE, None)
  | Some v =>
      match native_of (typ (cv_value v)) ≫= contract rd k, raw_slice (cv_value v) with
      | Some read, Some bs =>
          match read bs with
          | Ok o => (CASS_OK, Some o)
          | Err _ => (CASS_ERROR_LIB_INVALID_DATA, None)
          end
      | Some _, None => (CASS_ERROR_LIB_NULL_VALUE, None)
      | None, None =>
          if type_first k then (CASS_ERROR_LIB_INVALID_VALUE_TYPE, None)
          else (CASS_ERROR_LIB_NULL_VALUE, None)
      | None, Some _ => (CASS_ERROR_LIB_INVALID_VALUE_TYPE, None)
      end
  end.

(** ** Values and their metadata *)

(** A value's data type is the one built from its column type. *)
Definition value_ok (v : CassValue) : Prop := cv_type v = get_column_type (typ (cv_value v)).

(** What the driver documents of a row: one column per specification, in order. *)
Definition follows (raw_row : CassRawRow) (specs : list ColumnSpec) (slices : list (option (list Z)))
  : Prop :=
  raw_row = imap (fun i p => Ok (mkRawColumn i p.1 p.2)) (zip specs slices) /\
  length slices = length specs.

(** The value of a column, as the C API shows it: absent values and empty values of
    types that have no empty value are null. *)
Definition shown (t : ColumnType) (slice : option (list Z)) : option (list Z) :=
  match slice with
  | Some [] => if keeps_empty t then Some [] else None
  | _ => slice
  end.

(** ** Lemmas *)

Lemma raw_deserialize_inv t v r : raw_deserialize t v = Ok r -> typ r = t /\ raw_slice r = shown t v.
Proof.
  unfold raw_deserialize. destruct (determine_value_item_count _ _); [|done]. intros [= <-]. simpl.
  split; [done|]. destruct v as [[|b bs]|]; simpl; by destruct (keeps_empty t).
Qed.

Lemma find_index_spec {A} (p : A -> bool) (l : list A) k :
  match find_index p k l with
  | Some i => exists j x, i = (k + j)%nat /\ l !! j = Some x /\ p x = true /\
                (forall j' y, (j' < j)%nat -> l !! j' = Some y -> p y = false)
  | None => forall x, x ∈ l -> p x = false
  end.
Proof.
  revert k. induction l as [|x l IH]; intros k; simpl; [by intros x Hx%elem_of_nil|].
  destruct (p x) eqn:E.
  - exists 0%nat, x. rewrite Nat.add_0_r. split_and!; [done..|]. intros; lia.
  - specialize (IH (S k)). destruct (find_index p (S k) l) as [i|].
    + destruct IH as (j & y & -> & Hj & Hp & Hlt). exists (S j), y. split_and!; [lia|done|done|].
      intros [|j'] z Hj' Hz; simplify_eq/=; [done|]. apply (Hlt j'); [lia|done].
    + intros y [->|Hy]%elem_of_cons; auto.
Qed.

Lemma strip_suffix_cons c d d' s :
  strip_suffix c (String d (String d' s)) = String d <$> strip_suffix c (String d' s).
Proof. reflexivity. Qed.

#[local] Arguments strip_suffix : simpl never.

(** A name that starts and ends with a quote is either quoted or a single quote. *)
Lemma quoted_cases s :
  starts_with quote s && ends_with quote s = true ->
  strip_prefix quote s ≫= strip_suffix quote = None -> s = String quote EmptyString.
Proof.
  unfold starts_with, ends_with, strip_prefix. destruct s as [|c s]; [done|].
  destruct (Ascii.eqb_spec quote c) as [<-|]; [|done]. destruct s as [|d s]; [done|].
  rewrite strip_suffix_cons. cbn [mbind option_bind]. by destruct (strip_suffix quote (String d s)).
Qed.

Lemma unquote_ends s t : strip_prefix quote s ≫= strip_suffix quote = Some t ->
  starts_with quote s && ends_with quote s = true.
Proof.
  unfold starts_with, ends_with, strip_prefix. destruct s as [|c s]; [done|].
  destruct (Ascii.eqb_spec quote c) as [<-|]; [|done]. destruct s as [|d s]; [done|].
  rewrite strip_suffix_cons. cbn [mbind option_bind]. by intros ->.
Qed.

Lemma get_simple_spec {T} (r : Reader T) out n v :
  only [n] r ->
  get_simple r out v = Ret
    match v with
    | None => (CASS_ERROR_LIB_NULL_VALUE, None)
    | Some v =>
        match raw_slice (cv_value v) with
        | None => (CASS_ERROR_LIB_NULL_VALUE, None)
        | Some bs =>
            if bool_decide (native_of (typ (cv_value v)) = Some n) then
              match reads r (typ (cv_value v)) bs with
              | Ok x => (CASS_OK, Some (out x))
              | Err _ => (CASS_ERROR_LIB_INVALID_DATA, None)
              end
            else (CASS_ERROR_LIB_INVALID_VALUE_TYPE, None)
        end
    end.
Proof.
  intros Hr. destruct v as [v|]; [|done]. unfold get_simple, get_non_null. simpl.
  destruct (raw_slice (cv_value v)) as [bs|]; [|done]. rewrite Hr.
  destruct (native_of _) as [m|]; [|done].
  case_bool_decide as Hm; rewrite list_elem_of_singleton in Hm.
  - subst m. rewrite bool_decide_eq_true_2 by done. simpl. by destruct (reads r _ bs).
  - rewrite bool_decide_eq_false_2 by congruence. done.
Qed.

Lemma get_checked_spec {T} (r : Reader T) out ns n v :
  only ns r -> typ (cv_value v) = CNative n -> n ∈ ns ->
  get_checked r out v = Ret
    match raw_slice (cv_value v) with
    | None => (CASS_ERROR_LIB_NULL_VALUE, None)
    | Some bs =>
        match reads r (CNative n) bs with
        | Ok x => (CASS_OK, Some (out x))
        | Err _ => (CASS_ERROR_LIB_INVALID_DATA, None)
        end
    end.
Proof.
  intros Hr Ht Hn. unfold get_checked, get_non_null. simpl.
  destruct (raw_slice (cv_value v)) as [bs|]; [|done]. rewrite Hr, Ht. simpl.
  rewrite bool_decide_eq_true_2 by done. simpl. by destruct (reads r _ bs).
Qed.

(** The columns of a row from position [k] on. *)
Lemma row_loop_spec k specs slices :
  length slices = length specs ->
  match row_loop (imap (fun i p => Ok (mkRawColumn (k + i) p.1 p.2)) (zip specs slices))
          (from_column_specs specs) with
  | Ok vs => length vs = length specs /\
      forall i spec slice, specs !! i = Some spec -> slices !! i = Some slice ->
        exists raw, raw_deserialize spec.2 slice = Ok raw /\
          vs !! i = Some (mkValue raw (get_column_type spec.2))
  | Err e => exists i spec slice err, specs !! i = Some spec /\ slices !! i = Some slice /\
      raw_deserialize spec.2 slice = Err err /\ e = ColumnDeserializationFailed (k + i) spec.1 err /\
      forall j spec slice, (j < i)%nat -> specs !! j = Some spec -> slices !! j = Some slice ->
        exists raw, raw_deserialize spec.2 slice = Ok raw
  end.
Proof.
  revert k slices. induction specs as [|spec specs IH]; intros k [|slice slices] Hl; try done.
  cbn [zip zip_with imap from_column_specs map row_loop fst snd rc_spec rc_slice rc_index cs_data_type mbind result_bind].
  rewrite Nat.add_0_r. destruct (raw_deserialize spec.2 slice) as [raw|err] eqn:E.
  - specialize (IH (S k) slices ltac:(simpl in Hl; lia)).
    rewrite (imap_ext _ (fun i p => Ok (mkRawColumn (S k + i) p.1 p.2))) by
      (intros; unfold compose; by rewrite Nat.add_succ_comm).
    fold (from_column_specs specs). destruct (row_loop _ _) as [vs|e]; simpl.
    + destruct IH as [Hlen IH]. split; [simpl; lia|]. intros [|i] spec' slice' Hs Hsl; simplify_eq/=.
      * by exists raw.
      * by apply IH.
    + destruct IH as (i & sp & sl & err & Hs & Hsl & Herr & -> & Hlt).
      exists (S i), sp, sl, err. split_and!; [done..|by rewrite Nat.add_succ_r|].
      intros [|j] sp' sl' Hj Hs' Hsl'; simplify_eq/=; [by exists raw|]. apply (Hlt j); [lia|done..].
  - exists 0%nat, spec, slice, err. rewrite Nat.add_0_r. split_and!; [done..|]. intros; lia.
Qed.

(** ** Properties *)

(** C30: the getters of native values are total and exact.  On every value, whatever
    its type and bytes, each getter returns without panicking: NULL_VALUE for a null
    pointer or null value, INVALID_VALUE_TYPE for a column type it does not read,
    INVALID_DATA for bytes the driver cannot deserialize, and otherwise the value.
    The branches that panic when a type check fails unexpectedly are unreachable. *)
Theorem value_getters_total (rd : NativeReaders) (k : getter_kind) (value : option CassValue) :
  readers_ok rd -> run_getter rd k value = Ret (getter_spec rd k value).
Proof.
  intros []. unfold getter_spec.
  destruct k; unfold run_getter, cass_value_get_float, cass_value_get_double, cass_value_get_bool,
    cass_value_get_int8, cass_value_get_int16, cass_value_get_uint32, cass_value_get_int32,
    cass_value_get_inet, cass_value_get_decimal, cass_value_get_duration;
    try (erewrite get_simple_spec by done; destruct value as [[[t s c] dt]|]; [|done]; simpl;
      destruct t as [n| | | | | | |], s as [bs|]; try done; destruct n; try done; simpl;
      by destruct (reads _ _ bs));
    destruct value as [[[t s c] dt]|]; try done; simpl; destruct t as [n| | | | | | |];
    try (by destruct s); destruct n; simpl; try (by destruct s);
    (erewrite get_checked_spec; [|done|done|set_solver]); simpl; destruct s as [bs|]; try done;
    by destruct (reads _ _ bs).
Qed.

Definition sample_reader {T} (ns : list NativeType) (f : list Z -> result DeserializationError T)
  : Reader T :=
  mkReader (fun t => match native_of t with Some n => bool_decide (n ∈ ns) | None => false end)
    (fun _ bs => f bs).

Definition be_reader (ns : list NativeType) (n : nat) : Reader Z :=
  sample_reader ns (fun bs => if (length bs =? n)%nat then Ok (be_value bs) else Err DriverError).

Definition sample_readers : NativeReaders :=
  mkReaders (be_reader [NFloat] 4) (be_reader [NDouble] 8)
    (sample_reader [NBoolean] (fun bs => Ok (negb (be_value bs =? 0))))
    (be_reader [NTinyInt] 1) (be_reader [NSmallInt] 2) (be_reader [NInt] 4) (be_reader [NBigInt] 8)
    (be_reader [NDate] 4) (be_reader [NCounter] 8) (be_reader [NTime] 8) (be_reader [NTimestamp] 8)
    (be_reader [NUuid] 16) (be_reader [NTimeuuid] 16) (sample_reader [NInet] (fun _ => Err DriverError))
    (sample_reader [NDecimal] (fun bs => Ok (mkCqlDecimal (drop 4 bs) (be_value (take 4 bs)))))
    (sample_reader [NAscii; NText] (fun _ => Err DriverError))
    (sample_reader [NDuration] (fun _ => Err DriverError)).

Lemma value_getters_total_witness :
  let v := mkValue (mkRawValue (CNative NInt) (Some [0; 0; 1; 2]) None) (get_column_type (CNative NInt)) in
  run_getter sample_readers GInt32 (Some v) = Ret (CASS_OK, Some (OInt 258)) /\
  run_getter sample_readers GInt64 (Some v) = Ret (CASS_ERROR_LIB_INVALID_VALUE_TYPE, None).
Proof.
  assert (Hok : readers_ok sample_readers) by (split; intros ?; reflexivity).
  split; rewrite value_getters_total by exact Hok; reflexivity.
Defined.

(** Looking up a column by name.  The name panics exactly when it is a single
    double quote; otherwise the call gives the value of the first column whose name
    matches, exactly if the name is in double quotes and without case otherwise, and
    null if no column matches. *)
Theorem row_column_by_name (row : CassRow) (name : char_ptr) (n : nat) (s : string) :
  to_str name n = Ok s ->
  (cass_row_get_column_by_name_n (Some row) name n = Panic <-> s = String quote EmptyString) /\
  (s <> String quote EmptyString ->
   let matches spec := name_matches (unquote s).2 (unquote s).1 (cs_name spec) in
   exists r, cass_row_get_column_by_name_n (Some row) name n = Ret r /\
     (forall i spec, row_metadata row !! i = Some spec -> matches spec = true ->
        (forall j spec', (j < i)%nat -> row_metadata row !! j = Some spec' -> matches spec' = false) ->
        r = columns row !! i) /\
     ((forall spec, spec ∈ row_metadata row -> matches spec = false) -> r = None)).
Proof.
  intros Hs. unfold cass_row_get_column_by_name_n. rewrite Hs.
  assert (Hcase : s = String quote EmptyString \/
    (s <> String quote EmptyString /\
     (if starts_with quote s && ends_with quote s then
        match strip_prefix quote s ≫= strip_suffix quote with Some t => Ret (t, true) | None => Panic end
      else Ret (s, false)) = Ret (unquote s))).
  { destruct (decide (s = String quote EmptyString)) as [|Hne]; [by left|right]. split; [done|].
    unfold unquote. destruct (strip_prefix quote s ≫= strip_suffix quote) as [t|] eqn:E.
    - by rewrite (unquote_ends s t).
    - destruct (starts_with quote s && ends_with quote s) eqn:Eq; [|done]. by destruct (quoted_cases s). }
  destruct Hcase as [->|[Hne ->]]; [by split; [split|]|]. destruct (unquote s) as [t cs]. simpl.
  split; [split; done|]. intros _. eexists; split; [done|].
  pose proof (find_index_spec (fun spec => name_matches cs t (cs_name spec)) (row_metadata row) 0) as Hf.
  destruct (find_index _ 0 _) as [i|]; split.
  - intros j spec Hj Hm Hlt. destruct Hf as (i' & spec' & -> & Hi & Hp & Hlt'). simpl.
    destruct (Nat.lt_trichotomy i' j) as [Hlt1|[->|Hlt1]]; [|done|].
    + specialize (Hlt i' spec' Hlt1 Hi). simpl in Hlt. congruence.
    + specialize (Hlt' j spec Hlt1 Hj). simpl in Hlt'. congruence.
  - intros Hno. destruct Hf as (i' & spec' & -> & Hi & Hp & _).
    rewrite Hno in Hp by by eapply list_elem_of_lookup_2. done.
  - intros j spec Hj Hm _. rewrite Hf in Hm by by eapply list_elem_of_lookup_2. done.
  - done.
Qed.

Lemma row_column_by_name_witness :
  let row := mkRow [mkValue (mkRawValue (CNative NInt) None None) (get_column_type (CNative NInt))]
    [mkColumnSpec "Id" (get_column_type (CNative NInt))] in
  cass_row_get_column_by_name_n (Some row) (Some "iD"%string) 2 = Ret (columns row !! 0%nat).
Proof.
  intros row.
  destruct (row_column_by_name row (Some "iD"%string) 2 "iD"%string eq_refl) as [_ H].
  destruct H as (r & Hr & Hi & _); [discriminate|]. rewrite Hr. f_equal.
  apply (Hi 0%nat _ eq_refl eq_refl). intros j spec Hj. inversion Hj.
Defined.

(** A row has the values of its frame.  For a raw row with one column per
    specification, building the row either gives, for each column, a value of the
    column's type whose bytes are the ones in the frame (with absent and unsupported
    empty values as null), or fails with an error that names the first column whose
    collection length cannot be read; the reused vector of an old row leaves no
    trace. *)
Theorem row_columns_typed (specs : list ColumnSpec) (slices : list (option (list Z)))
    (raw_row : CassRawRow) (old_row : option CassRow) :
  follows raw_row specs slices ->
  match from_raw_row_and_metadata raw_row (from_column_specs specs) old_row with
  | Ok row => length (columns row) = length specs /\
      forall i spec slice, specs !! i = Some spec -> slices !! i = Some slice ->
        exists v, cass_row_get_column (Some row) i = Some v /\ value_ok v /\
          typ (cv_value v) = spec.2 /\ raw_slice (cv_value v) = shown spec.2 slice
  | Err e => exists i spec slice err, specs !! i = Some spec /\ slices !! i = Some slice /\
      raw_deserialize spec.2 slice = Err err /\ e = ColumnDeserializationFailed i spec.1 err /\
      forall j spec slice, (j < i)%nat -> specs !! j = Some spec -> slices !! j = Some slice ->
        exists raw, raw_deserialize spec.2 slice = Ok raw
  end.
Proof.
  intros [-> Hl]. unfold from_raw_row_and_metadata.
  pose proof (row_loop_spec 0 specs slices Hl) as Hrow. simpl in Hrow.
  destruct (row_loop _ _) as [vs|e]; simpl; [|done]. destruct Hrow as [Hlen Hrow].
  assert ((match old_row with Some row => take 0 (columns row) | None => [] end) = []) as ->
    by by destruct old_row.
  split; [done|]. intros i spec slice Hs Hsl. destruct (Hrow i spec slice Hs Hsl) as (raw & Hraw & Hi).
  apply raw_deserialize_inv in Hraw as [Ht Hr]. eexists; split; [exact Hi|].
  unfold value_ok. simpl. by rewrite Ht.
Qed.

Lemma row_columns_typed_witness :
  exists row, from_raw_row_and_metadata
      [Ok (mkRawColumn 0 ("a"%string, CNative NInt) (Some []));
       Ok (mkRawColumn 1 ("b"%string, CNative NText) (Some []))]
      (from_column_specs [("a"%string, CNative NInt); ("b"%string, CNative NText)]) None = Ok row /\
    (cass_value_is_null (cass_row_get_column (Some row) 0), cass_value_is_null (cass_row_get_column (Some row) 1))
    = (true, false).
Proof.
  pose proof (row_columns_typed [("a"%string, CNative NInt); ("b"%string, CNative NText)]
    [Some []; Some []] _ None (conj eq_refl eq_refl)) as H.
  destruct (from_raw_row_and_metadata _ _ _) as [row|e] eqn:E.
  - exists row. split; [reflexivity|]. destruct H as [_ H].
    destruct (H 0%nat _ _ eq_refl eq_refl) as (v & Hv & _ & _ & Hs).
    destruct (H 1%nat _ _ eq_refl eq_refl) as (v' & Hv' & _ & _ & Hs').
    rewrite Hv, Hv'. simpl. rewrite Hs, Hs'. reflexivity.
  - vm_compute in E. discriminate.
Defined.

(** The paging token is the paging state: a token taken from a result and set
    on a statement has the effect of setting the result's paging state, unless the
    state is empty. *)
Theorem paging_token_roundtrip {Coord R Handle P S : Type} `{PreparedStore R Handle P S}
    (r : CassResult Coord) (state : list Z) :
  paging_state_response r = HasMorePages (Some state) -> state <> [] ->
  exists token n, cass_result_paging_state_token (Some r) = (CASS_OK, Some (token, n)) /\
    forall (self : CassStatement R Handle P) (s : S),
      set_paging_state_token token n self s = set_paging_state (Some (paging_state_response r)) self s.
Proof.
  intros Hr Hne. exists (Some state), (length state). unfold cass_result_paging_state_token. simpl.
  rewrite Hr. simpl. split; [done|]. intros self s. unfold set_paging_state_token.
  destruct (Nat.eqb_spec (length state) 0) as [E|E].
  - by apply nil_length_inv in E.
  - by rewrite firstn_all.
Qed.

Lemma paging_token_roundtrip_witness :
  let r : CassResult nat := mkResult None (HasMorePages (Some [7])) NonRows None in
  exists token n, cass_result_paging_state_token (Some r) = (CASS_OK, Some (token, n)).
Proof.
  intros r. destruct (paging_token_roundtrip (P := CassPrepared dtree nat) r [7] eq_refl) as (t & n & Ht & _);
    [discriminate|]. by exists t, n.
Defined.
