(* ===== verification/Metadata.v ===== *)
(** * Schema metadata (metadata.rs, [cass_session_get_schema_meta] of session.rs)

    A [HashMap] is a finite map; the order in which it is iterated is unspecified
    and is a parameter ([HashOrder]).  The tables, views and types of the cluster
    are data of the Rust driver.  A view refers to its base table weakly, by the
    name under which the keyspace owns the table. *)

From Stdlib Require Import ZArith Lia String Ascii.
From stdpp Require Import base list gmap strings sorting.
From S2P Require Import Prelude ArgConv Types DataType.

Open Scope Z_scope.

(** ** Hash maps and sorted strings *)

Class HashOrder := hash_iter : forall {V : Type}, gmap string V -> list (string * V).

Class HashOrderOk `{HashOrder} : Prop :=
  hash_iter_perm : forall {V : Type} (m : gmap string V), hash_iter m ≡ₚ map_to_list m.

(** [Ord for String]: bytes, lexicographically. *)
Fixpoint string_leb (s t : string) : bool :=
  match s, t with
  | EmptyString, _ => true
  | String _ _, EmptyString => false
  | String c s, String d t =>
      match N.compare (N_of_ascii c) (N_of_ascii d) with
      | Lt => true
      | Eq => string_leb s t
      | Gt => false
      end
  end.

Definition string_le (s t : string) : Prop := string_leb s t = true.

#[global] Instance string_le_dec s t : Decision (string_le s t).
Proof. unfold string_le. apply _. Defined.

Definition sort_unstable (l : list string) : list string := merge_sort string_le l.

(** ** Metadata of the Rust driver *)

Inductive ColumnKind := KRegular | KStatic | KClustering | KPartitionKey | KOther.

Record Column := mkColumn { col_typ : ColumnType; col_kind : ColumnKind }.

Record Table := mkTable {
  tab_columns : gmap string Column;
  tab_partition_key : list string;
  tab_clustering_key : list string
}.

Record MaterializedView := mkView { mv_table : Table; mv_base_table_name : string }.

(** The definition of a user type: its fields, keyspace and name. *)
Record UdtDefinition := mkUdtDefinition {
  def_fields : list (string * ColumnType);
  def_keyspace : string;
  def_name : string
}.

Record Keyspace := mkKeyspace {
  ks_user_defined_types : gmap string UdtDefinition;
  ks_tables : gmap string Table;
  ks_views : gmap string MaterializedView
}.

(** ** Metadata of the C API *)

Inductive CassColumnType :=
| CASS_COLUMN_TYPE_REGULAR
| CASS_COLUMN_TYPE_PARTITION_KEY
| CASS_COLUMN_TYPE_CLUSTERING_KEY
| CASS_COLUMN_TYPE_STATIC.

#[global] Instance CassColumnType_eq_dec : EqDecision CassColumnType.
Proof. solve_decision. Defined.

Record CassColumnMeta := mkColumnMeta {
  cm_name : string;
  column_type : dtree;
  column_kind : CassColumnType
}.

(** [V] is the type of its views: a table that a view holds has none. *)
Record CassTableMeta (V : Type) := mkTableMeta {
  tm_name : string;
  columns_metadata : gmap string CassColumnMeta;
  partition_keys : list string;
  clustering_keys : list string;
  non_key_sorted_columns : list string;
  tm_views : gmap string V
}.
Arguments mkTableMeta {V}.
Arguments tm_name {V}.
Arguments columns_metadata {V}.
Arguments partition_keys {V}.
Arguments clustering_keys {V}.
Arguments non_key_sorted_columns {V}.
Arguments tm_views {V}.

#[export] Instance CassTableMeta_eta V : Eta (CassTableMeta V) := fun r =>
  mkTableMeta (tm_name r) (columns_metadata r) (partition_keys r) (clustering_keys r)
    (non_key_sorted_columns r) (tm_views r).

Record CassMaterializedViewMeta := mkViewMeta {
  vm_name : string;
  view_metadata : CassTableMeta Empty_set;
  base_table : string
}.

Notation CassTable := (CassTableMeta CassMaterializedViewMeta).

Record CassKeyspaceMeta := mkKeyspaceMeta {
  km_name : string;
  user_defined_type_data_type : gmap string dtree;
  km_tables : gmap string CassTable;
  km_views : gmap string CassMaterializedViewMeta
}.

Definition CassSchemaMeta : Type := gmap string CassKeyspaceMeta.

(** ** Construction *)

(** [panic!("Unsupported column kind")] for the kinds of a later driver. *)
Definition cass_column_kind (k : ColumnKind) : outcome CassColumnType :=
  match k with
  | KRegular => Ret CASS_COLUMN_TYPE_REGULAR
  | KStatic => Ret CASS_COLUMN_TYPE_STATIC
  | KClustering => Ret CASS_COLUMN_TYPE_CLUSTERING_KEY
  | KPartitionKey => Ret CASS_COLUMN_TYPE_PARTITION_KEY
  | KOther => Panic
  end.

Fixpoint columns_loop (l : list (string * Column)) (columns_metadata : gmap string CassColumnMeta)
  : outcome (gmap string CassColumnMeta) :=
  match l with
  | [] => Ret columns_metadata
  | (column_name, column) :: l =>
      kind ← cass_column_kind (col_kind column);
      columns_loop l
        (<[column_name := mkColumnMeta column_name (get_column_type (col_typ column)) kind]>
           columns_metadata)
  end.

Definition is_key (column : CassColumnMeta) : bool :=
  match column_kind column with
  | CASS_COLUMN_TYPE_PARTITION_KEY | CASS_COLUMN_TYPE_CLUSTERING_KEY => true
  | _ => false
  end.

Section Construction.
Context `{HashOrder}.

Definition create_table_metadata {V} (table_name : string) (table_metadata : Table)
  : outcome (CassTableMeta V) :=
  columns_metadata ← columns_loop (hash_iter (tab_columns table_metadata)) ∅;
  let non_key_columns :=
    map fst (List.filter (fun p => negb (is_key p.2)) (hash_iter columns_metadata)) in
  Ret (mkTableMeta table_name columns_metadata (tab_partition_key table_metadata)
    (tab_clustering_key table_metadata) (sort_unstable non_key_columns) ∅).

(** The loop over all views of the keyspace, for one table; the views of the table
    and those of the keyspace are both inserted into. *)
Fixpoint views_loop (table_name : string) (l : list (string * MaterializedView))
    (table_views views : gmap string CassMaterializedViewMeta)
  : outcome (gmap string CassMaterializedViewMeta * gmap string CassMaterializedViewMeta) :=
  match l with
  | [] => Ret (table_views, views)
  | (view_name, view) :: l =>
      view_table ← create_table_metadata view_name (mv_table view);
      let view_meta := mkViewMeta view_name view_table table_name in
      views_loop table_name l (<[view_name := view_meta]> table_views) (<[view_name := view_meta]> views)
  end.

Fixpoint tables_loop (keyspace : Keyspace) (l : list (string * Table))
    (tables : gmap string CassTable) (views : gmap string CassMaterializedViewMeta)
  : outcome (gmap string CassTable * gmap string CassMaterializedViewMeta) :=
  match l with
  | [] => Ret (tables, views)
  | (table_name, table_metadata) :: l =>
      table ← (create_table_metadata table_name table_metadata : outcome CassTable);
      '(table_views, views) ← views_loop table_name (hash_iter (ks_views keyspace)) ∅ views;
      tables_loop keyspace l (<[table_name := table <| tm_views := table_views |>]> tables) views
  end.

Definition keyspace_meta (keyspace_name : string) (keyspace : Keyspace) : outcome CassKeyspaceMeta :=
  let user_types := fmap (fun udt =>
    get_column_type (CUdt (def_fields udt) (def_keyspace udt) (def_name udt) false))
    (ks_user_defined_types keyspace) in
  '(tables, views) ← tables_loop keyspace (hash_iter (ks_tables keyspace)) ∅ ∅;
  Ret (mkKeyspaceMeta keyspace_name user_types tables views).

Fixpoint keyspaces_loop (l : list (string * Keyspace)) (keyspaces : CassSchemaMeta)
  : outcome CassSchemaMeta :=
  match l with
  | [] => Ret keyspaces
  | (keyspace_name, keyspace) :: l =>
      meta ← keyspace_meta keyspace_name keyspace;
      keyspaces_loop l (<[keyspace_name := meta]> keyspaces)
  end.

(** [cass_session_get_schema_meta] on a connected session; [cluster_state] is what
    [keyspaces_iter] yields. *)
Definition get_schema_meta (cluster_state : list (string * Keyspace)) : outcome CassSchemaMeta :=
  keyspaces_loop cluster_state ∅.

(** [cass_session_get_schema_meta]: null for a null session, while it is connecting or
    disconnecting ([try_read] is not [granted]), and when it is not connected; otherwise
    [connected] is the state of the cluster. *)
Definition cass_session_get_schema_meta (session_valid granted : bool)
    (connected : option (list (string * Keyspace))) : outcome (option CassSchemaMeta) :=
  if negb session_valid then Ret None
  else if negb granted then Ret None
  else match connected with
  | None => Ret None
  | Some cluster_state => schema ← get_schema_meta cluster_state; Ret (Some schema)
  end.

End Construction.

(** ** Getters *)

Definition by_name {V} (m : option (gmap string V)) (name : char_ptr) (len : nat) : option V :=
  match m, to_str name len with Some m, Ok s => m !! s | _, _ => None end.

Definition cass_schema_meta_keyspace_by_name_n (schema : option CassSchemaMeta) := by_name schema.
Definition cass_keyspace_meta_user_type_by_name_n (ks : option CassKeyspaceMeta) :=
  by_name (user_defined_type_data_type <$> ks).
Definition cass_keyspace_meta_table_by_name_n (ks : option CassKeyspaceMeta) :=
  by_name (km_tables <$> ks).
Definition cass_keyspace_meta_materialized_view_by_name_n (ks : option CassKeyspaceMeta) :=
  by_name (km_views <$> ks).
Definition cass_table_meta_column_by_name_n (table : option CassTable) :=
  by_name (columns_metadata <$> table).
Definition cass_table_meta_materialized_view_by_name_n (table : option CassTable) :=
  by_name (tm_views <$> table).
Definition cass_materialized_view_meta_column_by_name_n (view : option CassMaterializedViewMeta) :=
  by_name ((fun v => columns_metadata (view_metadata v)) <$> view).

(** The NUL-terminated variants. *)
Definition cass_schema_meta_keyspace_by_name (schema : option CassSchemaMeta) (name : char_ptr) :=
  let '(p, n) := as_len_delimited name in cass_schema_meta_keyspace_by_name_n schema p n.
Definition cass_keyspace_meta_user_type_by_name (ks : option CassKeyspaceMeta) (name : char_ptr) :=
  let '(p, n) := as_len_delimited name in cass_keyspace_meta_user_type_by_name_n ks p n.
Definition cass_keyspace_meta_table_by_name (ks : option CassKeyspaceMeta) (name : char_ptr) :=
  let '(p, n) := as_len_delimited name in cass_keyspace_meta_table_by_name_n ks p n.
Definition cass_keyspace_meta_materialized_view_by_name (ks : option CassKeyspaceMeta)
    (name : char_ptr) :=
  let '(p, n) := as_len_delimited name in cass_keyspace_meta_materialized_view_by_name_n ks p n.
Definition cass_table_meta_column_by_name (table : option CassTable) (name : char_ptr) :=
  let '(p, n) := as_len_delimited name in cass_table_meta_column_by_name_n table p n.
Definition cass_table_meta_materialized_view_by_name (table : option CassTable) (name : char_ptr) :=
  let '(p, n) := as_len_delimited name in cass_table_meta_materialized_view_by_name_n table p n.
Definition cass_materialized_view_meta_column_by_name (view : option CassMaterializedViewMeta)
    (name : char_ptr) :=
  let '(p, n) := as_len_delimited name in cass_materialized_view_meta_column_by_name_n view p n.

(** What is written through the out parameters, if anything. *)
Definition cass_keyspace_meta_name (ks : option CassKeyspaceMeta) : option (char_ptr * nat) :=
  (fun k => write_str_to_c (km_name k)) <$> ks.
Definition cass_table_meta_name (table : option CassTable) : option (char_ptr * nat) :=
  (fun t => write_str_to_c (tm_name t)) <$> table.
Definition cass_column_meta_name (column : option CassColumnMeta) : option (char_ptr * nat) :=
  (fun c => write_str_to_c (cm_name c)) <$> column.
Definition cass_materialized_view_meta_name (view : option CassMaterializedViewMeta)
  : option (char_ptr * nat) := (fun v => write_str_to_c (vm_name v)) <$> view.

Definition cass_table_meta_column_count (table : option CassTable) : nat :=
  match table with Some t => size (columns_metadata t) | None => 0%nat end.

(** The [unwrap] of a column that is not in the map. *)
Definition known_column {V} (t : CassTableMeta V) (name : string) : outcome (option CassColumnMeta) :=
  match columns_metadata t !! name with Some c => Ret (Some c) | None => Panic end.

Definition cass_table_meta_column (table : option CassTable) (index : nat)
  : outcome (option CassColumnMeta) :=
  match table with
  | None => Ret None
  | Some t =>
      match partition_keys t !! index with
      | Some pk_name => known_column t pk_name
      | None =>
          let index := (index - length (partition_keys t))%nat in
          match clustering_keys t !! index with
          | Some ck_name => known_column t ck_name
          | None =>
              let index := (index - length (clustering_keys t))%nat in
              match non_key_sorted_columns t !! index with
              | Some column_name => known_column t column_name
              | None => Ret None
              end
          end
      end
  end.

Definition key_column {V} (t : CassTableMeta V) (keys : list string) (index : nat) : option CassColumnMeta :=
  match keys !! index with Some name => columns_metadata t !! name | None => None end.

Definition cass_table_meta_partition_key (table : option CassTable) (index : nat) :=
  match table with Some t => key_column t (partition_keys t) index | None => None end.
Definition cass_table_meta_clustering_key (table : option CassTable) (index : nat) :=
  match table with Some t => key_column t (clustering_keys t) index | None => None end.
Definition cass_table_meta_partition_key_count (table : option CassTable) : nat :=
  match table with Some t => length (partition_keys t) | None => 0%nat end.
Definition cass_table_meta_clustering_key_count (table : option CassTable) : nat :=
  match table with Some t => length (clustering_keys t) | None => 0%nat end.

Definition cass_column_meta_data_type (column : option CassColumnMeta) : option dtree :=
  column_type <$> column.
Definition cass_column_meta_type (column : option CassColumnMeta) : CassColumnType :=
  match column with Some c => column_kind c | None => CASS_COLUMN_TYPE_REGULAR end.

Definition cass_table_meta_materialized_view_count (table : option CassTable) : nat :=
  match table with Some t => size (tm_views t) | None => 0%nat end.
Definition cass_table_meta_materialized_view `{HashOrder} (table : option CassTable) (index : nat)
  : option CassMaterializedViewMeta :=
  match table with Some t => snd <$> hash_iter (tm_views t) !! index | None => None end.

(** The weak reference is upgraded while the keyspace owns the table. *)
Definition cass_materialized_view_meta_base_table (ks : CassKeyspaceMeta)
    (view : option CassMaterializedViewMeta) : option CassTable :=
  match view with Some v => km_tables ks !! base_table v | None => None end.

Definition cass_materialized_view_meta_column_count (view : option CassMaterializedViewMeta)
  : outcome nat :=
  match view with Some v => Ret (size (columns_metadata (view_metadata v))) | None => Panic end.
Definition cass_materialized_view_meta_column `{HashOrder} (view : option CassMaterializedViewMeta)
    (index : nat) : option CassColumnMeta :=
  match view with
  | Some v => snd <$> hash_iter (columns_metadata (view_metadata v)) !! index
  | None => None
  end.
Definition cass_materialized_view_meta_partition_key_count (view : option CassMaterializedViewMeta) : nat :=
  match view with Some v => length (partition_keys (view_metadata v)) | None => 0%nat end.
Definition cass_materialized_view_meta_partition_key (view : option CassMaterializedViewMeta)
    (index : nat) : option CassColumnMeta :=
  match view with
  | Some v => key_column (view_metadata v) (partition_keys (view_metadata v)) index
  | None => None
  end.
Definition cass_materialized_view_meta_clustering_key_count (view : option CassMaterializedViewMeta) : nat :=
  match view with Some v => length (clustering_keys (view_metadata v)) | None => 0%nat end.
Definition cass_materialized_view_meta_clustering_key (view : option CassMaterializedViewMeta)
    (index : nat) : option CassColumnMeta :=
  match view with
  | Some v => key_column (view_metadata v) (clustering_keys (view_metadata v)) index
  | None => None
  end.

(** ** What the driver guarantees of a table

    The key columns are listed without repetition, each is a column of the table of
    that kind, every column of a key kind is listed, and the kinds are known. *)
Record table_ok (t : Table) : Prop := {
  pk_nodup : NoDup (tab_partition_key t);
  ck_nodup : NoDup (tab_clustering_key t);
  pk_kind : forall n, n ∈ tab_partition_key t <->
    (exists c, tab_columns t !! n = Some c /\ col_kind c = KPartitionKey);
  ck_kind : forall n, n ∈ tab_clustering_key t <->
    (exists c, tab_columns t !! n = Some c /\ col_kind c = KClustering);
  kinds_known : forall n c, tab_columns t !! n = Some c -> col_kind c <> KOther
}.

(** ** Lemmas *)

Lemma string_le_refl s : string_le s s.
Proof. unfold string_le. induction s as [|c s IH]; simpl; [done|]. by rewrite N.compare_refl. Qed.

#[global] Instance string_le_total : Total string_le.
Proof.
  intros s. unfold string_le. induction s as [|c s IH]; intros [|d t]; simpl; auto.
  rewrite (N.compare_antisym (N_of_ascii c)).
  destruct (N.compare_spec (N_of_ascii c) (N_of_ascii d)); simpl; auto.
Qed.

#[global] Instance string_le_trans : Transitive string_le.
Proof.
  intros s. unfold string_le. induction s as [|c s IH]; intros [|d t] [|e u]; simpl; try done.
  destruct (N.compare_spec (N_of_ascii c) (N_of_ascii d)) as [E1|E1|E1]; try done;
  destruct (N.compare_spec (N_of_ascii d) (N_of_ascii e)) as [E2|E2|E2]; try done;
  destruct (N.compare_spec (N_of_ascii c) (N_of_ascii e)) as [E3|E3|E3]; try done; try lia.
  apply IH.
Qed.

#[global] Instance ColumnKind_eq_dec : EqDecision ColumnKind.
Proof. solve_decision. Defined.

(** The columns a table is given: the kinds of columns that the API knows. *)
Definition known_kinds : list (ColumnKind * CassColumnType) :=
  [ (KPartitionKey, CASS_COLUMN_TYPE_PARTITION_KEY); (KClustering, CASS_COLUMN_TYPE_CLUSTERING_KEY);
    (KStatic, CASS_COLUMN_TYPE_STATIC); (KRegular, CASS_COLUMN_TYPE_REGULAR) ].

Definition column_meta (n : string) (c : Column) : option CassColumnMeta :=
  (fun k => mkColumnMeta n (get_column_type (col_typ c)) k.2.2)
    <$> list_find (fun k => k.1 = col_kind c) known_kinds.

(** The data type of the API that describes a column type of the server. *)
Inductive describes : ColumnType -> dtree -> Prop :=
| describes_native n v : NativeType_try_from v = Some n -> describes (CNative n) (Node (DValue v))
| describes_unknown n :
    n = CNative NOther \/ n = COther -> describes n (Node (DValue CASS_VALUE_TYPE_UNKNOWN))
| describes_list t d frozen : describes t d -> describes (CList t frozen) (Node (DList (Some d) frozen))
| describes_set t d frozen : describes t d -> describes (CSet t frozen) (Node (DSet (Some d) frozen))
| describes_map k v dk dv frozen : describes k dk -> describes v dv ->
    describes (CMap k v frozen) (Node (DMap (KeyAndValue dk dv) frozen))
| describes_tuple ts ds : Forall2 describes ts ds -> describes (CTuple ts) (Node (DTuple ds))
| describes_vector t d dims : describes t d -> describes (CVector t dims) (Node (DVector d dims))
| describes_udt fields fields' keyspace name frozen :
    Forall2 (fun f f' => f.1 = f'.1 /\ describes f.2 f'.2) fields fields' ->
    describes (CUdt fields keyspace name frozen) (Node (DUdt (mkUdt fields' keyspace name frozen))).

Lemma get_column_type_describes t : describes t (get_column_type t).
Proof.
  induction t as [n|t fr IH|k v fr IHk IHv|t fr IH|fs ks nm fr IH|l IH|t d IH|]
    using ColumnType_induction; simpl; try (by constructor).
  - destruct n; first [by apply describes_native | by apply describes_unknown; left].
  - apply describes_udt. induction IH; constructor; done.
  - apply describes_tuple. induction IH; constructor; done.
  - apply describes_unknown. by right.
Qed.

Lemma columns_loop_spec l m :
  NoDup l.*1 -> (forall n c, (n, c) ∈ l -> col_kind c <> KOther) ->
  (forall n c, (n, c) ∈ l -> m !! n = None) ->
  exists m', columns_loop l m = Ret m' /\
    forall n, m' !! n = match m !! n with
                        | Some x => Some x
                        | None => (list_to_map l : gmap string Column) !! n ≫= column_meta n
                        end.
Proof.
  revert m. induction l as [|[n c] l IH]; intros m Hnd Hk Hm; simpl.
  - exists m. split; [done|]. intros n. rewrite lookup_empty. by destruct (m !! n).
  - rewrite fmap_cons in Hnd. apply NoDup_cons in Hnd as [Hn Hnd].
    assert (Hc : col_kind c <> KOther) by (apply (Hk n), elem_of_cons; auto).
    destruct (cass_column_kind (col_kind c)) as [k| |] eqn:Ek; [|by destruct (col_kind c)..]. simpl.
    assert (Emeta : column_meta n c = Some (mkColumnMeta n (get_column_type (col_typ c)) k))
      by (unfold column_meta; by destruct (col_kind c); simplify_eq/=).
    destruct (IH (<[n:=mkColumnMeta n (get_column_type (col_typ c)) k]> m)) as (m' & -> & Hm').
    + done.
    + intros n' c' Hin. apply (Hk n'), elem_of_cons; auto.
    + intros n' c' Hin. rewrite lookup_insert_ne; [apply (Hm n' c'), elem_of_cons; auto|].
      intros <-. apply Hn. exact (list_elem_of_fmap_2 fst _ _ Hin).
    + exists m'. split; [done|]. intros n'. rewrite Hm'. destruct (decide (n = n')) as [<-|Hne].
      * rewrite !lookup_insert_eq. rewrite (Hm n c) by (apply elem_of_cons; auto). simpl. by rewrite Emeta.
      * by rewrite !lookup_insert_ne by done.
Qed.

Section Tables.
Context `{HashOrder, !HashOrderOk}.

Lemma hash_iter_to_map {V} (m : gmap string V) : list_to_map (hash_iter m) = m.
Proof.
  rewrite <- (list_to_map_to_list m) at 2. apply list_to_map_proper; [|apply hash_iter_perm].
  rewrite (hash_iter_perm m). apply NoDup_fst_map_to_list.
Qed.

Lemma hash_iter_nodup {V} (m : gmap string V) : NoDup (hash_iter m).*1.
Proof. rewrite (hash_iter_perm m). apply NoDup_fst_map_to_list. Qed.

Lemma elem_of_hash_iter {V} (m : gmap string V) n x : (n, x) ∈ hash_iter m <-> m !! n = Some x.
Proof. rewrite (hash_iter_perm m). apply elem_of_map_to_list. Qed.

Lemma create_table_columns (t : Table) : table_ok t ->
  exists m, columns_loop (hash_iter (tab_columns t)) ∅ = Ret m /\
    forall n, m !! n = tab_columns t !! n ≫= column_meta n.
Proof.
  intros Ht. destruct (columns_loop_spec (hash_iter (tab_columns t)) ∅) as (m & Hm & Hl).
  - apply hash_iter_nodup.
  - intros n c Hin%elem_of_hash_iter. by apply (kinds_known t Ht n).
  - intros n c _. apply lookup_empty.
  - exists m. split; [done|]. intros n. rewrite Hl, lookup_empty, hash_iter_to_map. done.
Qed.


Definition non_key_names (m : gmap string CassColumnMeta) : list string :=
  map fst (List.filter (fun p => negb (is_key p.2)) (hash_iter m)).

Lemma elem_of_non_key (m : gmap string CassColumnMeta) n :
  n ∈ non_key_names m <-> exists c, m !! n = Some c /\ is_key c = false.
Proof.
  unfold non_key_names. rewrite list_elem_of_In, in_map_iff. split.
  - intros ([n' c] & <- & Hin). apply filter_In in Hin as [Hin Hk]. exists c.
    rewrite <- elem_of_hash_iter, list_elem_of_In. split; [done|]. by apply negb_true_iff in Hk.
  - intros (c & Hm & Hk). exists (n, c). split; [done|]. apply filter_In. simpl. rewrite Hk.
    split; [|done]. by rewrite <- list_elem_of_In, elem_of_hash_iter.
Qed.

Lemma NoDup_filter_fst {B} (p : string * B -> bool) (l : list (string * B)) :
  NoDup l.*1 -> NoDup (map fst (List.filter p l)).
Proof.
  induction l as [|[n c] l IH]; simpl; [done|]. intros [Hn Hl]%NoDup_cons.
  destruct (p (n, c)); [|by apply IH]. simpl. apply NoDup_cons. split; [|by apply IH].
  intros Hin. apply Hn. rewrite list_elem_of_In, in_map_iff in Hin. destruct Hin as (x & <- & Hx).
  apply filter_In in Hx as [Hx _]. apply list_elem_of_fmap_2. by apply list_elem_of_In.
Qed.

Lemma NoDup_non_key m : NoDup (non_key_names m).
Proof. apply NoDup_filter_fst, hash_iter_nodup. Qed.

(** The order of the columns of a table. *)
Definition column_names {V} (m : CassTableMeta V) : list string :=
  partition_keys m ++ clustering_keys m ++ non_key_sorted_columns m.

Lemma create_table_spec {V} (name : string) (t : Table) : table_ok t ->
  exists m : CassTableMeta V, create_table_metadata name t = Ret m /\ tm_name m = name /\
    tm_views m = ∅ /\ partition_keys m = tab_partition_key t /\ clustering_keys m = tab_clustering_key t /\
    non_key_sorted_columns m ≡ₚ non_key_names (columns_metadata m) /\
    Sorted string_le (non_key_sorted_columns m) /\
    (forall n, columns_metadata m !! n = tab_columns t !! n ≫= column_meta n).
Proof.
  intros Ht. destruct (create_table_columns t Ht) as (cm & Hcm & Hl).
  unfold create_table_metadata. rewrite Hcm. simpl. eexists. split_and!; [done..| | |done]; simpl.
  - apply merge_sort_Permutation.
  - apply Sorted_merge_sort. apply _.
Qed.

Lemma column_meta_kind n c x : column_meta n c = Some x ->
  (is_key x = false <-> col_kind c <> KPartitionKey /\ col_kind c <> KClustering).
Proof.
  unfold column_meta, is_key. destruct (col_kind c); simpl; intros; simplify_eq/=;
    (split; [done|]); intros [? ?]; congruence.
Qed.

Lemma column_names_spec {V} name t (m : CassTableMeta V) : table_ok t ->
  create_table_metadata name t = Ret m ->
  NoDup (column_names m) /\ (forall n, n ∈ column_names m <-> is_Some (columns_metadata m !! n)).
Proof.
  intros Ht Hm. destruct (create_table_spec (V := V) name t Ht)
    as (m' & Hm' & _ & _ & Hpk & Hck & Hnk & _ & Hl). rewrite Hm in Hm'. injection Hm' as <-.
  unfold column_names.
  assert (Hcol : forall n, is_Some (columns_metadata m !! n) <-> is_Some (tab_columns t !! n)).
  { intros n. rewrite Hl. destruct (tab_columns t !! n) as [c|] eqn:E; simpl; [|done].
    pose proof (kinds_known t Ht n c E). unfold column_meta.
    destruct (col_kind c); simpl; split; try done; by eexists. }
  assert (Hn : forall n, n ∈ non_key_sorted_columns m <->
    exists c, tab_columns t !! n = Some c /\ col_kind c <> KPartitionKey /\ col_kind c <> KClustering).
  { intros n. rewrite Hnk, elem_of_non_key. split.
    - intros (x & Hx & Hk). rewrite Hl in Hx. apply bind_Some in Hx as (c & Hc & Hx).
      exists c. split; [done|]. by apply (column_meta_kind n c x).
    - intros (c & Hc & Hk). destruct (proj2 (Hcol n) ltac:(by eexists)) as [x Hx]. exists x.
      split; [done|]. rewrite Hl, Hc in Hx. by apply (column_meta_kind n c x). }
  split.
  - rewrite !NoDup_app, Hpk, Hck. split_and!; [apply pk_nodup, Ht| |apply ck_nodup, Ht| |].
    + intros n (c & Hc & Hk)%(pk_kind t Ht) [(c' & Hc' & Hk')%(ck_kind t Ht)|(c' & Hc' & ? & ?)%Hn]%elem_of_app; congruence.
    + intros n (c & Hc & Hk)%(ck_kind t Ht) (c' & Hc' & ? & ?)%Hn; congruence.
    + rewrite Hnk. apply NoDup_non_key.
  - intros n. rewrite !elem_of_app, Hcol, Hpk, Hck, Hn, (pk_kind t Ht), (ck_kind t Ht). split.
    + intros [(c & Hc & _)|[(c & Hc & _)|(c & Hc & _)]]; by eexists.
    + intros [c Hc]. destruct (col_kind c) eqn:E; [right; right|right; right|right; left|left|];
        try (exists c; rewrite E; by split_and!). by destruct (kinds_known t Ht n c Hc).
Qed.

Lemma known_column_Some {V} (m : CassTableMeta V) n :
  is_Some (columns_metadata m !! n) -> known_column m n = Ret (columns_metadata m !! n).
Proof. intros [c Hc]. unfold known_column. by rewrite Hc. Qed.

(** The three lists are searched one after the other. *)
Lemma table_column_names (m : CassTable) i :
  (forall n, n ∈ column_names m -> is_Some (columns_metadata m !! n)) ->
  cass_table_meta_column (Some m) i = Ret (column_names m !! i ≫= (columns_metadata m !!.)).
Proof.
  intros Hn. unfold cass_table_meta_column, column_names.
  destruct (partition_keys m !! i) as [n|] eqn:E1.
  { rewrite lookup_app_l by (by eapply lookup_lt_Some). rewrite E1. apply known_column_Some, Hn.
    apply elem_of_app. left. by eapply list_elem_of_lookup_2. }
  rewrite lookup_app_r by (by apply lookup_ge_None_1).
  destruct (clustering_keys m !! (i - length (partition_keys m))%nat) as [n|] eqn:E2.
  { rewrite lookup_app_l by (by eapply lookup_lt_Some). rewrite E2. apply known_column_Some, Hn.
    apply elem_of_app. right. apply elem_of_app. left. by eapply list_elem_of_lookup_2. }
  rewrite lookup_app_r by (by apply lookup_ge_None_1).
  destruct (non_key_sorted_columns m !! _) as [n|] eqn:E3; [|done].
  apply known_column_Some, Hn. apply elem_of_app. right. apply elem_of_app. right.
  by eapply list_elem_of_lookup_2.
Qed.

End Tables.

(** ** The schema of a cluster *)

Record keyspace_ok (ks : Keyspace) : Prop := {
  tables_ok : forall n t, ks_tables ks !! n = Some t -> table_ok t;
  views_ok : forall n v, ks_views ks !! n = Some v -> table_ok (mv_table v)
}.

Section Schema.
Context `{HashOrder, !HashOrderOk}.

(** The metadata of a view attached to a table, and of a table with its views. *)
Definition view_meta_of (table_name n : string) (v : MaterializedView) : option CassMaterializedViewMeta :=
  match create_table_metadata n (mv_table v) with
  | Ret t => Some (mkViewMeta n t table_name)
  | _ => None
  end.

Lemma view_meta_of_Some table_name n v : table_ok (mv_table v) ->
  exists t, create_table_metadata n (mv_table v) = Ret t /\
    view_meta_of table_name n v = Some (mkViewMeta n t table_name).
Proof.
  intros Hv. destruct (create_table_spec (V := Empty_set) n (mv_table v) Hv) as (t & Ht & _).
  exists t. unfold view_meta_of. by rewrite Ht.
Qed.

(** The entries a loop has put into a map. *)
Definition inserted {A B} (f : string -> A -> option B) (l : list (string * A)) (m m' : gmap string B) : Prop :=
  forall n, m' !! n = match (list_to_map l : gmap string A) !! n with
                      | Some a => f n a
                      | None => m !! n
                      end.

Lemma inserted_nil {A B} (f : string -> A -> option B) m : inserted f [] m m.
Proof. intros n. done. Qed.

Lemma inserted_cons {A B} (f : string -> A -> option B) n a b l m m' :
  n ∉ l.*1 -> f n a = Some b -> inserted f l (<[n := b]> m) m' -> inserted f ((n, a) :: l) m m'.
Proof.
  intros Hn Hf Hl n'. rewrite Hl. simpl. destruct (decide (n = n')) as [<-|Hne].
  - rewrite not_elem_of_list_to_map_1 by done. by rewrite !lookup_insert_eq.
  - by rewrite !lookup_insert_ne by done.
Qed.

Lemma views_loop_spec table_name l tv v :
  NoDup l.*1 -> Forall (fun p => table_ok (mv_table p.2)) l ->
  exists tv' v', views_loop table_name l tv v = Ret (tv', v') /\
    inserted (view_meta_of table_name) l tv tv' /\ inserted (view_meta_of table_name) l v v'.
Proof.
  revert tv v. induction l as [|[n view] l IH]; intros tv v; simpl.
  { intros _ _. exists tv, v. split; [done|]. split; apply inserted_nil. }
  intros [Hn Hnd]%NoDup_cons [Hv Hl]%Forall_cons. simpl in Hv.
  destruct (view_meta_of_Some table_name n view Hv) as (t & -> & Hf). simpl.
  destruct (IH (<[n:=mkViewMeta n t table_name]> tv) (<[n:=mkViewMeta n t table_name]> v) Hnd Hl)
    as (tv' & v' & -> & Htv & Hv').
  exists tv', v'. split; [done|]. split; by eapply inserted_cons.
Qed.

(** A table as the loop inserts it: all views of the keyspace are attached. *)
Definition is_table_meta (ks : Keyspace) (n : string) (t : Table) (m : CassTable) : Prop :=
  (exists m0 : CassTable, create_table_metadata n t = Ret m0 /\ m = m0 <| tm_views := tm_views m |>) /\
  inserted (view_meta_of n) (hash_iter (ks_views ks)) ∅ (tm_views m).

Lemma tables_loop_spec ks l tables views :
  keyspace_ok ks -> NoDup l.*1 -> Forall (fun p => table_ok p.2) l ->
  exists tables' views', tables_loop ks l tables views = Ret (tables', views') /\
    (forall n, match (list_to_map l : gmap string Table) !! n with
               | Some t => exists m, tables' !! n = Some m /\ is_table_meta ks n t m
               | None => tables' !! n = tables !! n
               end) /\
    match last l.*1 with
    | None => views' = views
    | Some last_table => exists v0, inserted (view_meta_of last_table) (hash_iter (ks_views ks)) v0 views' /\
        (forall n, ks_views ks !! n = None -> v0 !! n = views !! n)
    end.
Proof.
  intros Hks. revert tables views. induction l as [|[n t] l IH]; intros tables views Hnd Hok.
  { exists tables, views. split_and!; [done| |done]. intros n. done. }
  rewrite fmap_cons in Hnd. apply NoDup_cons in Hnd as [Hn Hnd]. apply Forall_cons in Hok as [Ht Hok].
  simpl in Ht. destruct (create_table_spec (V := CassMaterializedViewMeta) n t Ht) as (m0 & Hm0 & _).
  destruct (views_loop_spec n (hash_iter (ks_views ks)) ∅ views (hash_iter_nodup _)) as (tv & v & Hvl & Htv & Hv).
  { apply Forall_forall. intros [vn view] Hin%elem_of_hash_iter. by apply (views_ok ks Hks vn). }
  destruct (IH (<[n := m0 <| tm_views := tv |>]> tables) v Hnd Hok) as (tables' & views' & Htl & Htabs & Hviews).
  exists tables', views'. split; [simpl; rewrite Hm0; simpl; by rewrite Hvl|]. split.
  - intros n'. specialize (Htabs n'). simpl. destruct (decide (n = n')) as [<-|Hne].
    + rewrite lookup_insert_eq. rewrite not_elem_of_list_to_map_1 in Htabs by done.
      rewrite lookup_insert_eq in Htabs. eexists. split; [exact Htabs|].
      split; [|exact Htv]. by exists m0.
    + by rewrite !lookup_insert_ne in * by done.
  - rewrite fmap_cons. assert (Hkeep : forall n', ks_views ks !! n' = None -> v !! n' = views !! n').
    { intros n' Hn'. rewrite Hv, hash_iter_to_map, Hn'. done. }
    destruct l as [|p l].
    + simpl in *. subst views'. by exists views.
    + rewrite fmap_cons in *. rewrite last_cons_cons. destruct (last (p.1 :: l.*1)) as [lt|] eqn:El.
      * destruct Hviews as (v0 & Hi & Hv0). exists v0. split; [done|]. intros n' Hn'.
        by rewrite Hv0, Hkeep.
      * by apply last_None in El.
Qed.

Lemma keyspaces_loop_spec l schema :
  NoDup l.*1 -> Forall (fun p => exists k, keyspace_meta p.1 p.2 = Ret k) l ->
  exists schema', keyspaces_loop l schema = Ret schema' /\
    inserted (fun n ks => match keyspace_meta n ks with Ret k => Some k | _ => None end) l schema schema'.
Proof.
  revert schema. induction l as [|[n ks] l IH]; intros schema; simpl.
  { intros _ _. exists schema. split; [done|apply inserted_nil]. }
  intros [Hn Hnd]%NoDup_cons [[k Hk] Hl]%Forall_cons. simpl in Hk. rewrite Hk. simpl.
  destruct (IH (<[n:=k]> schema) Hnd Hl) as (s' & -> & Hs). exists s'. split; [done|].
  eapply inserted_cons; [done| |done]. by rewrite Hk.
Qed.

(** What [cass_session_get_schema_meta] builds of a keyspace. *)
Lemma keyspace_meta_spec name ks : keyspace_ok ks ->
  exists k, keyspace_meta name ks = Ret k /\ km_name k = name /\
    (forall n, user_defined_type_data_type k !! n =
       (fun d => get_column_type (CUdt (def_fields d) (def_keyspace d) (def_name d) false))
         <$> ks_user_defined_types ks !! n) /\
    (forall n, match ks_tables ks !! n with
               | Some t => exists m, km_tables k !! n = Some m /\ is_table_meta ks n t m
               | None => km_tables k !! n = None
               end) /\
    (forall n v, km_views k !! n = Some v -> is_Some (km_tables k !! base_table v)).
Proof.
  intros Hks. unfold keyspace_meta.
  destruct (tables_loop_spec ks (hash_iter (ks_tables ks)) ∅ ∅ Hks (hash_iter_nodup _))
    as (tables & views & -> & Htabs & Hviews).
  { apply Forall_forall. intros [n t] Hin%elem_of_hash_iter. by apply (tables_ok ks Hks n). }
  rewrite hash_iter_to_map in Htabs. eexists. split; [done|]. simpl. split_and!; [done| |done|].
  { intros n. apply lookup_fmap. }
  intros n v Hv. destruct (last (hash_iter (ks_tables ks)).*1) as [lt|] eqn:El; [|by subst views].
  destruct Hviews as (v0 & Hi & Hv0). rewrite Hi, hash_iter_to_map in Hv.
  destruct (ks_views ks !! n) as [view|] eqn:Evw; [|by rewrite Hv0, lookup_empty in Hv].
  destruct (view_meta_of_Some lt n view (views_ok ks Hks n view Evw)) as (t & _ & Hf).
  rewrite Hf in Hv. injection Hv as <-. simpl.
  assert (Hin : lt ∈ (hash_iter (ks_tables ks)).*1) by by apply last_Some_elem_of.
  apply list_elem_of_fmap in Hin as ([n' t'] & -> & Hin%elem_of_hash_iter). specialize (Htabs n').
  rewrite Hin in Htabs. destruct Htabs as (m & Hm & _). by exists m.
Qed.

End Schema.

(** ** Properties *)

(** C26: the columns of a table are numbered completely and in order.  For a table as
    the driver describes it, whatever the iteration order of the hash maps, the
    indices below the column count enumerate each column exactly once: the partition
    key by position, then the clustering key by position, then the other columns
    sorted by name; from the column count on the index gives null, and no lookup
    fails on the way. *)
Theorem table_columns_in_order `{HashOrder, !HashOrderOk} (name : string) (t : Table) :
  table_ok t ->
  exists (m : CassTable) (names rest : list string),
    create_table_metadata name t = Ret m /\
    names = tab_partition_key t ++ tab_clustering_key t ++ rest /\ Sorted string_le rest /\
    NoDup names /\ length names = cass_table_meta_column_count (Some m) /\
    (forall n, n ∈ names <-> is_Some (tab_columns t !! n)) /\
    (forall i, cass_table_meta_column (Some m) i =
       Ret (n ← names !! i; c ← tab_columns t !! n; column_meta n c)).
Proof.
  intros Ht. destruct (create_table_spec (V := CassMaterializedViewMeta) name t Ht)
    as (m & Hm & _ & _ & Hpk & Hck & _ & Hsort & Hl).
  destruct (column_names_spec name t m Ht Hm) as [Hnd Hin].
  exists m, (column_names m), (non_key_sorted_columns m).
  assert (Hcol : forall n, n ∈ column_names m <-> is_Some (tab_columns t !! n)).
  { intros n. rewrite Hin, Hl. destruct (tab_columns t !! n) as [c|] eqn:E; simpl; [|done].
    pose proof (kinds_known t Ht n c E). unfold column_meta.
    destruct (col_kind c); simpl; split; try done; by eexists. }
  split_and!; [done|unfold column_names; by rewrite Hpk, Hck|done|done| |done|].
  - simpl. rewrite <- length_map_to_list, <- (length_fmap fst). apply Permutation_length, NoDup_Permutation.
    + done.
    + apply NoDup_fst_map_to_list.
    + intros n. rewrite Hin, list_elem_of_fmap. split.
      * intros [c Hc]. exists (n, c). by rewrite elem_of_map_to_list.
      * intros ([n' c] & -> & Hc%elem_of_map_to_list). by exists c.
  - intros i. rewrite table_column_names by (intros n; apply Hin). f_equal.
    destruct (column_names m !! i) as [n|]; [apply Hl|done].
Qed.

#[global] Instance sample_order : HashOrder := fun V m => map_to_list m.
#[global] Instance sample_order_ok : HashOrderOk.
Proof. intros V m. reflexivity. Qed.

(** A table with columns [v], [k], [a] and the primary key [k]. *)
Definition sample_table : Table :=
  mkTable (<["v"%string := mkColumn (CNative NInt) KRegular]>
          (<["k"%string := mkColumn (CNative NText) KPartitionKey]>
          (<["a"%string := mkColumn (CNative NBlob) KStatic]> ∅))) ["k"%string] [].

(** The entries of a map written out. *)
Ltac lookup_cases H :=
  repeat (apply lookup_insert_Some in H as [[<- <-]|[_ H]]; [try done|]); try by rewrite lookup_empty in H.

Lemma sample_table_ok : table_ok sample_table.
Proof.
  split; simpl.
  - apply NoDup_singleton.
  - constructor.
  - intros n. rewrite list_elem_of_singleton. split.
    + intros ->. eexists. split; [reflexivity|done].
    + intros (c & Hc & Hk). unfold tab_columns, sample_table in Hc.
      lookup_cases Hc.
  - intros n. split; [by intros ?%elem_of_nil|]. intros (c & Hc & Hk). unfold tab_columns, sample_table in Hc.
    lookup_cases Hc.
  - intros n c Hc. unfold tab_columns, sample_table in Hc.
    lookup_cases Hc.
Qed.

Lemma table_columns_in_order_witness :
  exists m, create_table_metadata "t" sample_table = Ret m /\
    cm_name <$> (match cass_table_meta_column (Some m) 0 with Ret c => c | _ => None end) = Some "k"%string.
Proof.
  destruct (table_columns_in_order "t" sample_table sample_table_ok)
    as (m & names & rest & Hm & -> & _ & _ & _ & _ & Hc).
  exists m. split; [exact Hm|]. rewrite Hc. reflexivity.
Defined.

(** C25: the schema a connected session shows is the schema of the cluster.  The keyspaces are
    exactly the ones of the cluster, with their user types and tables, and each
    table has exactly its columns, with their kinds and with data types that describe
    the server's types; the base table of
    every view of a keyspace, and of every view attached to a table, is a table of
    that keyspace, so the weak references never dangle. *)
Theorem schema_reflects_cluster `{HashOrder, !HashOrderOk} (cluster_state : list (string * Keyspace)) :
  NoDup cluster_state.*1 -> Forall (fun p => keyspace_ok p.2) cluster_state ->
  exists schema, cass_session_get_schema_meta true true (Some cluster_state) = Ret (Some schema) /\
    (forall n, is_Some (schema !! n) <-> n ∈ cluster_state.*1) /\
    (forall n ks, (n, ks) ∈ cluster_state -> exists k, schema !! n = Some k /\ km_name k = n /\
       (forall u, user_defined_type_data_type k !! u =
          (fun d => get_column_type (CUdt (def_fields d) (def_keyspace d) (def_name d) false))
            <$> ks_user_defined_types ks !! u) /\
       (forall u dt, user_defined_type_data_type k !! u = Some dt ->
          exists d, ks_user_defined_types ks !! u = Some d /\
            describes (CUdt (def_fields d) (def_keyspace d) (def_name d) false) dt) /\
       (forall tn, is_Some (km_tables k !! tn) <-> is_Some (ks_tables ks !! tn)) /\
       (forall tn t m, ks_tables ks !! tn = Some t -> km_tables k !! tn = Some m -> tm_name m = tn /\
          (forall c, columns_metadata m !! c = tab_columns t !! c ≫= column_meta c) /\
          (forall c cm, columns_metadata m !! c = Some cm ->
             exists col, tab_columns t !! c = Some col /\ describes (col_typ col) (column_type cm)) /\
          (forall v vm, tm_views m !! v = Some vm ->
             is_Some (cass_materialized_view_meta_base_table k (Some vm)))) /\
       (forall v vm, km_views k !! v = Some vm ->
          is_Some (cass_materialized_view_meta_base_table k (Some vm)))).
Proof.
  intros Hnd Hok. rewrite Forall_forall in Hok.
  destruct (keyspaces_loop_spec cluster_state ∅ Hnd) as (schema & Hs & Hi).
  { apply Forall_forall. intros [n ks] Hin. destruct (keyspace_meta_spec n ks (Hok _ Hin)) as (k & Hk & _).
    by exists k. }
  assert (Hlook : forall n ks, (n, ks) ∈ cluster_state -> exists k, keyspace_meta n ks = Ret k /\ schema !! n = Some k).
  { intros n ks Hin. destruct (keyspace_meta_spec n ks (Hok _ Hin)) as (k & Hk & _). exists k.
    split; [done|]. rewrite Hi, (elem_of_list_to_map_1 _ n ks) by done. by rewrite Hk. }
  exists schema. split; [cbn; unfold get_schema_meta; by rewrite Hs|]. split.
  { intros n. rewrite list_elem_of_fmap. split.
    - intros [k Hk]. rewrite Hi in Hk. destruct (list_to_map cluster_state !! n) as [ks|] eqn:E; [|done].
      apply elem_of_list_to_map_2 in E. by exists (n, ks).
    - intros ([n' ks] & -> & Hin). destruct (Hlook n' ks Hin) as (k & _ & Hk). by exists k. }
  intros n ks Hin. destruct (Hlook n ks Hin) as (k & Hk & Hsk). exists k. split; [done|].
  destruct (keyspace_meta_spec n ks (Hok _ Hin)) as (k' & Hk' & Hname & Hudt & Htabs & Hviews).
  rewrite Hk in Hk'. injection Hk' as <-. split_and!; [done|done| | | |done].
  - intros u dt Hu. rewrite Hudt in Hu. apply fmap_Some in Hu as (d & Hd & ->). exists d.
    split; [done|]. apply get_column_type_describes.
  - intros tn. specialize (Htabs tn). destruct (ks_tables ks !! tn) as [t|]; [|by rewrite Htabs].
    destruct Htabs as (m & -> & _). split; intros _; by eexists.
  - intros tn t m Ht Hm. specialize (Htabs tn). rewrite Ht in Htabs.
    destruct Htabs as (m' & Hm' & (m0 & Hm0 & Heq) & Htv). rewrite Hm in Hm'. injection Hm' as <-.
    destruct (create_table_spec (V := CassMaterializedViewMeta) tn t (tables_ok ks (Hok _ Hin) tn t Ht))
      as (m1 & Hm1 & Hn1 & _ & _ & _ & _ & _ & Hc1). rewrite Hm0 in Hm1. injection Hm1 as <-.
    rewrite Heq. split; [done|]. split; [done|]. split.
    { intros c cm Hcm. simpl in Hcm. rewrite Hc1 in Hcm. apply bind_Some in Hcm as (col & Hcol & Hcm).
      exists col. split; [done|]. unfold column_meta in Hcm. apply fmap_Some in Hcm as (? & _ & ->).
      apply get_column_type_describes. }
    intros v vm Hv. simpl in Hv.
    rewrite Htv in Hv. destruct (list_to_map _ !! v) as [view|]; [|done].
    unfold view_meta_of in Hv. destruct (create_table_metadata v (mv_table view)); simplify_eq/=. by exists m.
Qed.

(** A view is reported for every table of its keyspace.  Whatever its base table
    is, each table of the keyspace lists it and is itself reported as the base
    table of the view it lists. *)
Theorem view_attached_to_every_table `{HashOrder, !HashOrderOk} (name : string) (ks : Keyspace)
    (tn vn : string) (t : Table) (view : MaterializedView) :
  keyspace_ok ks -> ks_tables ks !! tn = Some t -> ks_views ks !! vn = Some view ->
  exists k m vm, keyspace_meta name ks = Ret k /\ km_tables k !! tn = Some m /\
    tm_views m !! vn = Some vm /\ cass_materialized_view_meta_base_table k (Some vm) = Some m.
Proof.
  intros Hks Ht Hv. destruct (keyspace_meta_spec name ks Hks) as (k & Hk & _ & _ & Htabs & _).
  specialize (Htabs tn). rewrite Ht in Htabs. destruct Htabs as (m & Hm & _ & Hi).
  destruct (view_meta_of_Some tn vn view (views_ok ks Hks vn view Hv)) as (vt & _ & Hf).
  exists k, m, (mkViewMeta vn vt tn). split_and!; [done|done| |done].
  by rewrite Hi, hash_iter_to_map, Hv.
Qed.

(** Two tables and a view of the first one. *)
Definition sample_keyspace : Keyspace :=
  mkKeyspace ∅ (<["a"%string := sample_table]> (<["b"%string := sample_table]> ∅))
    (<["v"%string := mkView sample_table "a"]> ∅).

Lemma sample_keyspace_ok : keyspace_ok sample_keyspace.
Proof.
  split.
  - intros n t Ht. unfold sample_keyspace in Ht. simpl in Ht.
    lookup_cases Ht; apply sample_table_ok.
  - intros n v Hv. unfold sample_keyspace in Hv. simpl in Hv.
    lookup_cases Hv; apply sample_table_ok.
Qed.

Lemma schema_reflects_cluster_witness :
  exists schema, cass_session_get_schema_meta true true (Some [("ks"%string, sample_keyspace)]) = Ret (Some schema) /\
    is_Some (schema !! "ks"%string).
Proof.
  destruct (schema_reflects_cluster [("ks"%string, sample_keyspace)]) as (schema & Hs & Hn & _).
  - apply NoDup_singleton.
  - apply Forall_singleton, sample_keyspace_ok.
  - exists schema. split; [exact Hs|]. apply Hn. by left.
Defined.

Lemma view_attached_to_every_table_witness :
  exists k m vm, keyspace_meta "ks" sample_keyspace = Ret k /\ km_tables k !! "b"%string = Some m /\
    tm_views m !! "v"%string = Some vm /\ cass_materialized_view_meta_base_table k (Some vm) = Some m.
Proof.
  exact (view_attached_to_every_table "ks" sample_keyspace "b" "v" sample_table (mkView sample_table "a")
    sample_keyspace_ok eq_refl eq_refl).
Defined.
