(* ===== verification/Iterators.v ===== *)
(** * Iterators (iterator.rs)

    Iterators over results, rows, collections, maps, tuples, user types and vectors,
    and over schema metadata.  What the iterators of the Rust driver yield on the
    bytes of a value is a parameter ([Driver]); the tuple iterator is this crate's
    own and only uses the driver's [read_cql_bytes]. *)

From Stdlib Require Import ZArith Lia String Ascii.
From stdpp Require Import base list gmap strings.
From S2P Require Import Prelude ArgConv Types DataType Value Serialize Prepared Statement Results Metadata.

Open Scope Z_scope.

(** ** What is used of the Rust driver *)

Notation items A := (list (result DeserializationError A)).

Record Driver := mkDriver {
  (** [ListlikeIterator]: the raw elements of a list or set *)
  d_listlike : Reader (items (option (list Z)));
  (** [MapIterator]: the raw keys and values *)
  d_map : Reader (items (option (list Z) * option (list Z)));
  (** [VectorIterator] *)
  d_vector : Reader (items (option (list Z)));
  (** [UdtIterator]: the fields of the type, each with its raw value if it is there *)
  d_udt : Reader (list ((string * ColumnType)
                        * result DeserializationError (option (option (list Z)))));
  (** [FrameSlice::read_cql_bytes]: the value and the rest of the frame *)
  read_cql_bytes : list Z -> result DeserializationError (option (list Z)) * list Z
}.

(** ** Iterators over values *)

Record CassListlikeIterator := mkListlike {
  ll_iterator : items CassRawValue;
  ll_value_data_type : dtree;
  ll_current_value : option CassValue
}.

Record CassVectorIterator := mkVectorIterator {
  vec_iterator : items CassRawValue;
  vec_element_data_type : dtree;
  vec_current_value : option CassValue
}.

Record CassMapIterator := mkMapIterator {
  map_iterator : items (CassRawValue * CassRawValue);
  map_key_value_types : dtree * dtree;
  map_current_entry : option (CassValue * CassValue)
}.

Inductive CassMapCollectionIteratorState := AtKey | AtValue.

Record CassMapCollectionIterator := mkMapCollection {
  mc_iterator : CassMapIterator;
  mc_state : option CassMapCollectionIteratorState
}.

Inductive CassCollectionIterator :=
| Listlike (i : CassListlikeIterator)
| MapCollection (i : CassMapCollectionIterator).

(** [tuple_iterator::TupleIterator] and [BytesSequenceIterator]. *)
Record TupleIterator := mkTupleIterator {
  all_metadata : list ColumnType;
  remaining_metadata : list ColumnType;
  tup_slice : list Z
}.

Record CassTupleIterator := mkCassTuple {
  tup_iterator : TupleIterator;
  tup_metadata : list dtree;
  tup_current_entry : option (CassValue * nat)
}.

Record CassUdtIterator := mkUdtIterator {
  udt_iterator : list ((string * ColumnType)
                       * result DeserializationError (option (option (list Z))));
  udt_metadata : list (string * dtree);
  udt_current_entry : option (CassValue * nat)
}.

(** The item of the driver's generic iterators at [CassRawValue]. *)
Definition raw_items (t : ColumnType) (l : items (option (list Z))) : items CassRawValue :=
  map (fun r => raw ← r; raw_deserialize t raw) l.

Definition raw_pairs (k v : ColumnType) (l : items (option (list Z) * option (list Z)))
  : items (CassRawValue * CassRawValue) :=
  map (fun r => p ← r; a ← raw_deserialize k p.1; b ← raw_deserialize v p.2; Ok (a, b)) l.

Section Values.
Variable D : Driver.

(** The element type of a list or set, the key and value types of a map and the
    element type of a vector, as the driver takes them from the column type. *)
Definition elem_type (t : ColumnType) : ColumnType :=
  match t with CList e _ | CSet e _ | CVector e _ => e | _ => COther end.
Definition pair_type (t : ColumnType) : ColumnType * ColumnType :=
  match t with CMap k v _ => (k, v) | _ => (COther, COther) end.

Notation created A := (outcome (result NonNullDeserializationError A)).

Definition listlike_new_from_value (value : CassValue) : created CassListlikeIterator :=
  r ← get_non_null (of_reader (d_listlike D)) value;
  match r with
  | Err e => Ret (Err e)
  | Ok l =>
      match cv_type value with
      | Node (DList (Some item_type) _) | Node (DSet (Some item_type) _) =>
          Ret (Ok (mkListlike (raw_items (elem_type (typ (cv_value value))) l) item_type None))
      | _ => Panic
      end
  end.

Definition listlike_next (self : CassListlikeIterator) : bool * CassListlikeIterator :=
  match ll_iterator self with
  | [] => (false, mkListlike [] (ll_value_data_type self) None)
  | Ok value :: l =>
      (true, mkListlike l (ll_value_data_type self) (Some (mkValue value (ll_value_data_type self))))
  | Err _ :: l => (false, mkListlike l (ll_value_data_type self) None)
  end.

Definition vector_new_from_value (value : CassValue) : created CassVectorIterator :=
  r ← get_non_null (of_reader (d_vector D)) value;
  match r with
  | Err e => Ret (Err e)
  | Ok l =>
      match cv_type value with
      | Node (DVector element_type _) =>
          Ret (Ok (mkVectorIterator (raw_items (elem_type (typ (cv_value value))) l) element_type None))
      | _ => Panic
      end
  end.

Definition vector_next (self : CassVectorIterator) : bool * CassVectorIterator :=
  match vec_iterator self with
  | [] => (false, mkVectorIterator [] (vec_element_data_type self) None)
  | Ok value :: l =>
      (true, mkVectorIterator l (vec_element_data_type self)
               (Some (mkValue value (vec_element_data_type self))))
  | Err _ :: l => (false, mkVectorIterator l (vec_element_data_type self) None)
  end.

Definition map_new_from_value (value : CassValue) : created CassMapIterator :=
  r ← get_non_null (of_reader (d_map D)) value;
  match r with
  | Err e => Ret (Err e)
  | Ok l =>
      match cv_type value with
      | Node (DMap (KeyAndValue key_type val_type) _) =>
          let '(k, v) := pair_type (typ (cv_value value)) in
          Ret (Ok (mkMapIterator (raw_pairs k v l) (key_type, val_type) None))
      | _ => Panic
      end
  end.

Definition map_next (self : CassMapIterator) : bool * CassMapIterator :=
  let types := map_key_value_types self in
  match map_iterator self with
  | [] => (false, mkMapIterator [] types None)
  | Ok (key, value) :: l =>
      (true, mkMapIterator l types (Some (mkValue key types.1, mkValue value types.2)))
  | Err _ :: l => (false, mkMapIterator l types None)
  end.

Definition map_collection_new_from_value (value : CassValue) : created CassMapCollectionIterator :=
  r ← map_new_from_value value;
  Ret (i ← r; Ok (mkMapCollection i None)).

Definition map_collection_next (self : CassMapCollectionIterator) : bool * CassMapCollectionIterator :=
  let '(new_state, (next_result, iterator)) :=
    match mc_state self with
    | None => (AtKey, map_next (mc_iterator self))
    | Some AtKey => (AtValue, (true, mc_iterator self))
    | Some AtValue => (AtKey, map_next (mc_iterator self))
    end in
  (next_result, mkMapCollection iterator (if next_result then Some new_state else mc_state self)).

Definition collection_next (self : CassCollectionIterator) : bool * CassCollectionIterator :=
  match self with
  | Listlike i => let '(b, i) := listlike_next i in (b, Listlike i)
  | MapCollection i => let '(b, i) := map_collection_next i in (b, MapCollection i)
  end.

(** [DeserializeValue for TupleIterator]; the slice is not null. *)
Definition tuple_deserializer : Deserializer TupleIterator :=
  mkDeserializer (fun typ => match typ with CTuple _ => true | _ => false end)
    (fun typ slice =>
       match typ with
       | CTuple types => Ret (Ok (mkTupleIterator types types slice))
       | _ => Panic
       end).

(** [Iterator for BytesSequenceIterator]. *)
Definition bytes_sequence_next (slice : list Z)
  : option (result DeserializationError (option (list Z))) * list Z :=
  match slice with
  | [] => (None, [])
  | _ => let '(r, slice) := read_cql_bytes D slice in (Some r, slice)
  end.

(** [Iterator for TupleIterator]. *)
Definition tuple_iterator_next (self : TupleIterator)
  : option (result DeserializationError (ColumnType * option (list Z))) * TupleIterator :=
  let pos := (length (all_metadata self) - length (remaining_metadata self))%nat in
  match remaining_metadata self with
  | [] => (None, self)
  | head :: metadata =>
      let '(item, slice) := bytes_sequence_next (tup_slice self) in
      let raw_res :=
        match item with
        | Some (Ok raw) => Ok (head, raw)
        | Some (Err _) => Err RawCqlBytesReadError
        | None => Err (TupleMissingValue pos)
        end in
      (Some raw_res, mkTupleIterator (all_metadata self) metadata slice)
  end.

Definition tuple_new_from_value (value : CassValue) : created CassTupleIterator :=
  r ← get_non_null tuple_deserializer value;
  match r with
  | Err e => Ret (Err e)
  | Ok i =>
      match cv_type value with
      | Node (DTuple types) => Ret (Ok (mkCassTuple i types None))
      | _ => Panic
      end
  end.

(** The index of the next entry. *)
Definition next_index (current : option (CassValue * nat)) : nat :=
  match current with Some (_, i) => S i | None => 0%nat end.

Definition tuple_next (self : CassTupleIterator) : outcome (bool * CassTupleIterator) :=
  let '(item, iterator) := tuple_iterator_next (tup_iterator self) in
  let stay := mkCassTuple iterator (tup_metadata self) (tup_current_entry self) in
  match item with
  | None => Ret (false, stay)
  | Some (Err _) => Ret (false, stay)
  | Some (Ok (column_type, slice)) =>
      match raw_deserialize column_type slice with
      | Err _ => Ret (false, stay)
      | Ok raw_value =>
          let index := next_index (tup_current_entry self) in
          match tup_metadata self !! index with
          | None => Panic
          | Some value_type =>
              Ret (true, mkCassTuple iterator (tup_metadata self) (Some (mkValue raw_value value_type, index)))
          end
      end
  end.

Definition udt_new_from_value (value : CassValue) : created CassUdtIterator :=
  r ← get_non_null (of_reader (d_udt D)) value;
  match r with
  | Err e => Ret (Err e)
  | Ok l =>
      match cv_type value with
      | Node (DUdt udt) => Ret (Ok (mkUdtIterator l (field_types udt) None))
      | _ => Panic
      end
  end.

Definition udt_next (self : CassUdtIterator) : outcome (bool * CassUdtIterator) :=
  match udt_iterator self with
  | [] => Ret (false, self)
  | ((_, field_type), deser_result) :: l =>
      let stay := mkUdtIterator l (udt_metadata self) (udt_current_entry self) in
      match deser_result with
      | Err _ => Ret (false, stay)
      | Ok field_value =>
          match raw_deserialize field_type (mjoin field_value) with
          | Err _ => Ret (false, stay)
          | Ok raw_value =>
              let index := next_index (udt_current_entry self) in
              match udt_metadata self !! index with
              | None => Panic
              | Some (_, value_type) =>
                  Ret (true, mkUdtIterator l (udt_metadata self) (Some (mkValue raw_value value_type, index)))
              end
          end
      end
  end.

End Values.

(** ** Iterators over results, rows and metadata *)

Record CassRowsResultIterator := mkRowsIterator {
  rows_iterator : list (result DeserializationError CassRawRow);
  rows_metadata : CassResultMetadata;
  current_row : option CassRow
}.

Inductive CassResultIterator := NonRowsIterator | RowsIterator (i : CassRowsResultIterator).

Definition result_next (self : CassResultIterator) : bool * CassResultIterator :=
  match self with
  | NonRowsIterator => (false, self)
  | RowsIterator i =>
      let '(new_row, iterator) :=
        match rows_iterator i with
        | [] => (None, [])
        | raw_row_res :: l =>
            (match (raw_row ← raw_row_res;
                    from_raw_row_and_metadata raw_row (rows_metadata i) (current_row i)) with
             | Ok row => Some row
             | Err _ => None
             end, l)
        end in
      (match new_row with Some _ => true | None => false end,
       RowsIterator (mkRowsIterator iterator (rows_metadata i) new_row))
  end.

(** The iterators that count positions of something that does not change: the columns
    of a row, and the entries of the maps of the schema. *)
Record PositionIterator (A : Type) := mkPosition {
  pos_value : A;
  pos_count : nat;
  position : option nat
}.
Arguments mkPosition {A}.
Arguments pos_value {A}.
Arguments pos_count {A}.
Arguments position {A}.

Definition position_next {A} (self : PositionIterator A) : bool * PositionIterator A :=
  let new_pos := match position self with None => 0%nat | Some prev_pos => S prev_pos end in
  ((new_pos <? pos_count self)%nat, mkPosition (pos_value self) (pos_count self) (Some new_pos)).

Inductive CassIteratorInner :=
| IResult (i : CassResultIterator)
| IRow (i : PositionIterator CassRow)
| ICollection (i : CassCollectionIterator)
| IMap (i : CassMapIterator)
| ITuple (i : CassTupleIterator)
| IUdt (i : CassUdtIterator)
| IVector (i : CassVectorIterator)
| IKeyspacesMeta (i : PositionIterator CassSchemaMeta)
| ITablesMeta (i : PositionIterator CassKeyspaceMeta)
| IUserTypes (i : PositionIterator CassKeyspaceMeta)
| IViewsFromKeyspace (i : PositionIterator CassKeyspaceMeta)
| IViewsFromTable (i : PositionIterator CassTable)
| IColumnsFromTable (i : PositionIterator CassTable)
| IColumnsFromView (i : PositionIterator CassMaterializedViewMeta).

Inductive CassIteratorType :=
| CASS_ITERATOR_TYPE_RESULT | CASS_ITERATOR_TYPE_ROW | CASS_ITERATOR_TYPE_COLLECTION
| CASS_ITERATOR_TYPE_MAP | CASS_ITERATOR_TYPE_TUPLE | CASS_ITERATOR_TYPE_USER_TYPE_FIELD
| CASS_ITERATOR_TYPE_VECTOR | CASS_ITERATOR_TYPE_KEYSPACE_META | CASS_ITERATOR_TYPE_TABLE_META
| CASS_ITERATOR_TYPE_TYPE_META | CASS_ITERATOR_TYPE_MATERIALIZED_VIEW_META
| CASS_ITERATOR_TYPE_COLUMN_META.

Definition cass_iterator_type (iterator : option CassIteratorInner) : CassIteratorType :=
  match iterator with
  | None => CASS_ITERATOR_TYPE_RESULT
  | Some (IResult _) => CASS_ITERATOR_TYPE_RESULT
  | Some (IRow _) => CASS_ITERATOR_TYPE_ROW
  | Some (ICollection _) => CASS_ITERATOR_TYPE_COLLECTION
  | Some (IMap _) => CASS_ITERATOR_TYPE_MAP
  | Some (ITuple _) => CASS_ITERATOR_TYPE_TUPLE
  | Some (IUdt _) => CASS_ITERATOR_TYPE_USER_TYPE_FIELD
  | Some (IVector _) => CASS_ITERATOR_TYPE_VECTOR
  | Some (IKeyspacesMeta _) => CASS_ITERATOR_TYPE_KEYSPACE_META
  | Some (ITablesMeta _) => CASS_ITERATOR_TYPE_TABLE_META
  | Some (IUserTypes _) => CASS_ITERATOR_TYPE_TYPE_META
  | Some (IViewsFromKeyspace _ | IViewsFromTable _) => CASS_ITERATOR_TYPE_MATERIALIZED_VIEW_META
  | Some (IColumnsFromTable _ | IColumnsFromView _) => CASS_ITERATOR_TYPE_COLUMN_META
  end.

Section Api.
Variable D : Driver.
Context `{HashOrder}.

Notation iterator_ptr := (option CassIteratorInner).

(** The iterator is changed in place. *)
Definition inner_next (iter : CassIteratorInner) : outcome (bool * CassIteratorInner) :=
  match iter with
  | IResult i => let '(b, i) := result_next i in Ret (b, IResult i)
  | IRow i => let '(b, i) := position_next i in Ret (b, IRow i)
  | ICollection i => let '(b, i) := collection_next i in Ret (b, ICollection i)
  | ITuple i => '(b, i) ← tuple_next D i; Ret (b, ITuple i)
  | IMap i => let '(b, i) := map_next i in Ret (b, IMap i)
  | IUdt i => '(b, i) ← udt_next i; Ret (b, IUdt i)
  | IVector i => let '(b, i) := vector_next i in Ret (b, IVector i)
  | IKeyspacesMeta i => let '(b, i) := position_next i in Ret (b, IKeyspacesMeta i)
  | ITablesMeta i => let '(b, i) := position_next i in Ret (b, ITablesMeta i)
  | IUserTypes i => let '(b, i) := position_next i in Ret (b, IUserTypes i)
  | IViewsFromKeyspace i => let '(b, i) := position_next i in Ret (b, IViewsFromKeyspace i)
  | IViewsFromTable i => let '(b, i) := position_next i in Ret (b, IViewsFromTable i)
  | IColumnsFromTable i => let '(b, i) := position_next i in Ret (b, IColumnsFromTable i)
  | IColumnsFromView i => let '(b, i) := position_next i in Ret (b, IColumnsFromView i)
  end.

Definition cass_iterator_next (iterator : iterator_ptr) : outcome (bool * iterator_ptr) :=
  match iterator with
  | None => Ret (false, None)
  | Some iter => '(b, iter) ← inner_next iter; Ret (b, Some iter)
  end.

Definition cass_iterator_get_row (iterator : iterator_ptr) : option CassRow :=
  match iterator with Some (IResult (RowsIterator i)) => current_row i | _ => None end.

Definition cass_iterator_get_column (iterator : iterator_ptr) : option CassValue :=
  match iterator with
  | Some (IRow i) => pos ← position i; columns (pos_value i) !! pos
  | _ => None
  end.

Definition cass_iterator_get_value (iterator : iterator_ptr) : option CassValue :=
  match iterator with
  | Some (ICollection (Listlike i)) => ll_current_value i
  | Some (ICollection (MapCollection i)) =>
      state ← mc_state i;
      let current_entry := map_current_entry (mc_iterator i) in
      match state with AtKey => fst <$> current_entry | AtValue => snd <$> current_entry end
  | Some (ITuple i) => fst <$> tup_current_entry i
  | Some (IVector i) => vec_current_value i
  | _ => None
  end.

Definition cass_iterator_get_map_key (iterator : iterator_ptr) : option CassValue :=
  match iterator with Some (IMap i) => fst <$> map_current_entry i | _ => None end.

Definition cass_iterator_get_map_value (iterator : iterator_ptr) : option CassValue :=
  match iterator with Some (IMap i) => snd <$> map_current_entry i | _ => None end.

Definition cass_iterator_get_user_type_field_name (iterator : iterator_ptr)
  : outcome (CassError * option (char_ptr * nat)) :=
  match iterator with
  | Some (IUdt i) =>
      match udt_current_entry i with
      | Some (_, index) =>
          match udt_metadata i !! index with
          | Some (field_name, _) => Ret (CASS_OK, Some (write_str_to_c field_name))
          | None => Panic
          end
      | None => Ret (CASS_ERROR_LIB_BAD_PARAMS, None)
      end
  | _ => Ret (CASS_ERROR_LIB_BAD_PARAMS, None)
  end.

Definition cass_iterator_get_user_type_field_value (iterator : iterator_ptr) : option CassValue :=
  match iterator with Some (IUdt i) => fst <$> udt_current_entry i | _ => None end.

(** [map.iter().nth(position)]. *)
Definition nth_entry {V} (m : gmap string V) (position : option nat) : option V :=
  pos ← position; snd <$> hash_iter m !! pos.

Definition cass_iterator_get_keyspace_meta (iterator : iterator_ptr) : option CassKeyspaceMeta :=
  match iterator with Some (IKeyspacesMeta i) => nth_entry (pos_value i) (position i) | _ => None end.

Definition cass_iterator_get_table_meta (iterator : iterator_ptr) : option CassTable :=
  match iterator with
  | Some (ITablesMeta i) => nth_entry (km_tables (pos_value i)) (position i)
  | _ => None
  end.

Definition cass_iterator_get_user_type (iterator : iterator_ptr) : option dtree :=
  match iterator with
  | Some (IUserTypes i) => nth_entry (user_defined_type_data_type (pos_value i)) (position i)
  | _ => None
  end.

Definition cass_iterator_get_column_meta (iterator : iterator_ptr) : option CassColumnMeta :=
  match iterator with
  | Some (IColumnsFromTable i) => nth_entry (columns_metadata (pos_value i)) (position i)
  | Some (IColumnsFromView i) =>
      nth_entry (columns_metadata (view_metadata (pos_value i))) (position i)
  | _ => None
  end.

Definition cass_iterator_get_materialized_view_meta (iterator : iterator_ptr)
  : option CassMaterializedViewMeta :=
  match iterator with
  | Some (IViewsFromKeyspace i) => nth_entry (km_views (pos_value i)) (position i)
  | Some (IViewsFromTable i) => nth_entry (tm_views (pos_value i)) (position i)
  | _ => None
  end.

(** ** Creating iterators *)

Definition cass_iterator_from_result {Coord} (result : option (CassResult Coord)) : iterator_ptr :=
  match result with
  | None => None
  | Some r =>
      Some (IResult match kind r with
                    | NonRows => NonRowsIterator
                    | Rows rows => RowsIterator (mkRowsIterator (rows_iter (raw_rows rows)) (metadata rows) None)
                    end)
  end.

Definition cass_iterator_from_row (row : option CassRow) : iterator_ptr :=
  match row with Some row => Some (IRow (mkPosition row (length (columns row)) None)) | None => None end.

(** A value whose iterator cannot be created gives null. *)
Definition from_created {A} (wrap : A -> CassIteratorInner)
    (c : outcome (result NonNullDeserializationError A)) : outcome iterator_ptr :=
  r ← c; Ret match r with Ok i => Some (wrap i) | Err _ => None end.

Definition cass_iterator_from_collection (value : option CassValue) : outcome iterator_ptr :=
  match value with
  | None => Ret None
  | Some val =>
      match tree_value_type (cv_type val) with
      | CASS_VALUE_TYPE_SET | CASS_VALUE_TYPE_LIST =>
          from_created (fun i => ICollection (Listlike i)) (listlike_new_from_value D val)
      | CASS_VALUE_TYPE_MAP =>
          from_created (fun i => ICollection (MapCollection i)) (map_collection_new_from_value D val)
      | _ => Ret None
      end
  end.

Definition cass_iterator_from_tuple (value : option CassValue) : outcome iterator_ptr :=
  match value with None => Ret None | Some val => from_created ITuple (tuple_new_from_value val) end.

Definition cass_iterator_from_vector (value : option CassValue) : outcome iterator_ptr :=
  match value with None => Ret None | Some val => from_created IVector (vector_new_from_value D val) end.

Definition cass_iterator_from_map (value : option CassValue) : outcome iterator_ptr :=
  match value with None => Ret None | Some val => from_created IMap (map_new_from_value D val) end.

Definition cass_iterator_fields_from_user_type (value : option CassValue) : outcome iterator_ptr :=
  match value with None => Ret None | Some val => from_created IUdt (udt_new_from_value D val) end.

Definition cass_iterator_keyspaces_from_schema_meta (schema : option CassSchemaMeta) : iterator_ptr :=
  (fun m => IKeyspacesMeta (mkPosition m (size m) None)) <$> schema.
Definition cass_iterator_tables_from_keyspace_meta (ks : option CassKeyspaceMeta) : iterator_ptr :=
  (fun m => ITablesMeta (mkPosition m (size (km_tables m)) None)) <$> ks.
Definition cass_iterator_materialized_views_from_keyspace_meta (ks : option CassKeyspaceMeta) : iterator_ptr :=
  (fun m => IViewsFromKeyspace (mkPosition m (size (km_views m)) None)) <$> ks.
Definition cass_iterator_user_types_from_keyspace_meta (ks : option CassKeyspaceMeta) : iterator_ptr :=
  (fun m => IUserTypes (mkPosition m (size (user_defined_type_data_type m)) None)) <$> ks.
Definition cass_iterator_columns_from_table_meta (table : option CassTable) : iterator_ptr :=
  (fun m => IColumnsFromTable (mkPosition m (size (columns_metadata m)) None)) <$> table.
Definition cass_iterator_materialized_views_from_table_meta (table : option CassTable) : iterator_ptr :=
  (fun m => IViewsFromTable (mkPosition m (size (tm_views m)) None)) <$> table.
Definition cass_iterator_columns_from_materialized_view_meta (view : option CassMaterializedViewMeta)
  : iterator_ptr :=
  (fun m => IColumnsFromView (mkPosition m (size (columns_metadata (view_metadata m))) None)) <$> view.

End Api.

(** ** Documented behaviour of the driver's iterators: types

    Each of them accepts exactly its kind of type, and the iterator over a user type
    yields the fields of the type in order. *)

Record driver_types_ok (D : Driver) : Prop := {
  listlike_type : forall t, accepts (d_listlike D) t = match t with CList _ _ | CSet _ _ => true | _ => false end;
  map_type : forall t, accepts (d_map D) t = match t with CMap _ _ _ => true | _ => false end;
  vector_type : forall t, accepts (d_vector D) t = match t with CVector _ _ => true | _ => false end;
  udt_type : forall t, accepts (d_udt D) t = match t with CUdt _ _ _ _ => true | _ => false end;
  udt_fields : forall fs ks nm fr bs l, reads (d_udt D) (CUdt fs ks nm fr) bs = Ok l -> map fst l = fs
}.

(** ** Well-typed iterators *)

(** A value of column type [t]. *)
Definition typed_as (t : ColumnType) (v : CassValue) : Prop :=
  typ (cv_value v) = t /\ cv_type v = get_column_type t.

Definition items_of (t : ColumnType) (l : items CassRawValue) : Prop :=
  Forall (fun r => match r with Ok raw => typ raw = t | Err _ => True end) l.

Definition opt {A} (P : A -> Prop) (o : option A) : Prop := match o with Some x => P x | None => True end.

Definition map_ok (i : CassMapIterator) : Prop :=
  exists k v, map_key_value_types i = (get_column_type k, get_column_type v) /\
    Forall (fun r => match r with Ok p => typ p.1 = k /\ typ p.2 = v | Err _ => True end) (map_iterator i) /\
    opt (fun p => typed_as k p.1 /\ typed_as v p.2) (map_current_entry i).

(** A tuple or user type iterator: [rest] are the types still to come, and the index
    of the current entry agrees with the position in the metadata. *)
Definition entries_ok (types : list ColumnType) (rest : list ColumnType)
    (current : option (CassValue * nat)) : Prop :=
  rest = drop (next_index current) types /\
  match current with Some (v, i) => exists t, types !! i = Some t /\ typed_as t v | None => True end.

Definition iterator_typed (it : CassIteratorInner) : Prop :=
  match it with
  | ICollection (Listlike i) =>
      exists t, ll_value_data_type i = get_column_type t /\ items_of t (ll_iterator i) /\
        opt (typed_as t) (ll_current_value i)
  | IVector i =>
      exists t, vec_element_data_type i = get_column_type t /\ items_of t (vec_iterator i) /\
        opt (typed_as t) (vec_current_value i)
  | ICollection (MapCollection i) => map_ok (mc_iterator i)
  | IMap i => map_ok i
  | ITuple i =>
      tup_metadata i = map get_column_type (all_metadata (tup_iterator i)) /\
      entries_ok (all_metadata (tup_iterator i)) (remaining_metadata (tup_iterator i)) (tup_current_entry i)
  | IUdt i =>
      exists fs, udt_metadata i = map (fun f => (f.1, get_column_type f.2)) fs /\
        entries_ok (map snd fs) (map (fun e => e.1.2) (udt_iterator i)) (udt_current_entry i)
  | _ => False
  end.

(** The values an iterator hands out. *)
Definition gives (it : CassIteratorInner) (v : CassValue) : Prop :=
  cass_iterator_get_value (Some it) = Some v \/ cass_iterator_get_map_key (Some it) = Some v \/
  cass_iterator_get_map_value (Some it) = Some v \/
  cass_iterator_get_user_type_field_value (Some it) = Some v.

(** The iterators over the parts of a value. *)
Definition made_from (D : Driver) (v : CassValue) (it : CassIteratorInner) : Prop :=
  cass_iterator_from_collection D (Some v) = Ret (Some it) \/ cass_iterator_from_map D (Some v) = Ret (Some it) \/
  cass_iterator_from_tuple (Some v) = Ret (Some it) \/ cass_iterator_from_vector D (Some v) = Ret (Some it) \/
  cass_iterator_fields_from_user_type D (Some v) = Ret (Some it).

(** A call to [cass_iterator_next] that returned true. *)
Definition advances (D : Driver) (it it' : CassIteratorInner) : Prop := inner_next D it = Ret (true, it').

(** ** Lemmas: types *)

Lemma typed_value_ok t v : typed_as t v -> value_ok v.
Proof. intros [Ht Hv]. unfold value_ok. by rewrite Ht. Qed.

Lemma raw_items_of t l : items_of t (raw_items t l).
Proof.
  apply Forall_map, Forall_forall. intros [raw|e] _; simpl; [|done].
  destruct (raw_deserialize t raw) as [r|] eqn:E; [|done]. by apply raw_deserialize_inv in E as [].
Qed.

Lemma raw_pairs_of k v l :
  Forall (fun r => match r with Ok p => typ p.1 = k /\ typ p.2 = v | Err _ => True end) (raw_pairs k v l).
Proof.
  apply Forall_map, Forall_forall. intros [[a b]|e] _; simpl; [|done].
  destruct (raw_deserialize k a) as [x|] eqn:Ea; simpl; [|done].
  destruct (raw_deserialize v b) as [y|] eqn:Eb; simpl; [|done].
  by apply raw_deserialize_inv in Ea as [-> _]; apply raw_deserialize_inv in Eb as [-> _].
Qed.

Lemma get_non_null_reader {T} (r : Reader T) v :
  exists x, get_non_null (of_reader r) v = Ret x /\
    forall l, x = Ok l -> accepts r (typ (cv_value v)) = true /\
      exists bs, raw_slice (cv_value v) = Some bs /\ reads r (typ (cv_value v)) bs = Ok l.
Proof.
  unfold get_non_null, of_reader. simpl. destruct (raw_slice (cv_value v)) as [bs|]; [|by eexists].
  destruct (accepts r (typ (cv_value v))); [|by eexists]. simpl. eexists; split; [done|].
  intros l. destruct (reads r _ bs) as [l'|] eqn:E; intros; simplify_eq. split; [done|]. by exists bs.
Qed.

Lemma entries_next types t rest current raw :
  entries_ok types (t :: rest) current -> typ raw = t ->
  exists dt, map get_column_type types !! next_index current = Some dt /\ dt = get_column_type t /\
    entries_ok types rest (Some (mkValue raw dt, next_index current)).
Proof.
  intros [Hr _] Ht. set (n := next_index current) in *.
  assert (Hn : types !! n = Some t).
  { rewrite <- (Nat.add_0_r n), <- lookup_drop, <- Hr. done. }
  exists (get_column_type t). rewrite list_lookup_fmap, Hn. split_and!; [done..|]. split; simpl.
  - erewrite drop_S in Hr by exact Hn. by injection Hr.
  - exists t. by split.
Qed.

Section Typed.
Variable D : Driver.
Hypothesis HD : driver_types_ok D.

(** A creation that returns, and whose iterator satisfies [P]. *)
Definition makes {A} (P : A -> Prop) (c : outcome (result NonNullDeserializationError A)) : Prop :=
  exists r, c = Ret r /\ forall i, r = Ok i -> P i.

Definition makes_typed (c : outcome (option CassIteratorInner)) : Prop :=
  exists p, c = Ret p /\ forall it, p = Some it -> iterator_typed it.

Lemma makes_from_created {A} (P : A -> Prop) (f : A -> CassIteratorInner) c :
  makes P c -> (forall i, P i -> iterator_typed (f i)) -> makes_typed (from_created f c).
Proof.
  intros (r & -> & Hr) Hf. unfold from_created. simpl. eexists; split; [done|].
  intros it. destruct r as [i|]; intros; simplify_eq. by apply Hf, Hr.
Qed.

(** A driver iterator over a value: if it is created, the type is of its kind. *)
Lemma makes_reader {T A} (r : Reader T) (P : A -> Prop) v (k : T -> outcome (result NonNullDeserializationError A)) :
  (forall l bs, accepts r (typ (cv_value v)) = true -> reads r (typ (cv_value v)) bs = Ok l -> makes P (k l)) ->
  makes P (x ← get_non_null (of_reader r) v; match x with Err e => Ret (Err e) | Ok l => k l end).
Proof.
  intros Hk. destruct (get_non_null_reader r v) as (x & -> & Hx). simpl.
  destruct x as [l|e]; [|by eexists]. destruct (Hx l eq_refl) as (Ha & bs & _ & Hr). by eapply Hk.
Qed.

Lemma listlike_made v : value_ok v ->
  makes (fun i => iterator_typed (ICollection (Listlike i))) (listlike_new_from_value D v).
Proof.
  intros Hv. apply makes_reader. intros l bs Ha _. rewrite (listlike_type D HD) in Ha. rewrite Hv.
  destruct (typ (cv_value v)); try done; simpl; (eexists; split; [done|]); intros; simplify_eq;
    eexists; split_and!; done || apply raw_items_of.
Qed.

Lemma vector_made v : value_ok v -> makes (fun i => iterator_typed (IVector i)) (vector_new_from_value D v).
Proof.
  intros Hv. apply makes_reader. intros l bs Ha _. rewrite (vector_type D HD) in Ha. rewrite Hv.
  destruct (typ (cv_value v)); try done; simpl; (eexists; split; [done|]); intros; simplify_eq;
    eexists; split_and!; done || apply raw_items_of.
Qed.

Lemma map_made v : value_ok v -> makes map_ok (map_new_from_value D v).
Proof.
  intros Hv. apply makes_reader. intros l bs Ha _. rewrite (map_type D HD) in Ha. rewrite Hv.
  destruct (typ (cv_value v)); try done; simpl; (eexists; split; [done|]); intros; simplify_eq;
    eexists _, _; split_and!; done || apply raw_pairs_of.
Qed.

Lemma udt_made v : value_ok v -> makes (fun i => iterator_typed (IUdt i)) (udt_new_from_value D v).
Proof.
  intros Hv. apply makes_reader. intros l bs Ha Hr. rewrite (udt_type D HD) in Ha. rewrite Hv.
  destruct (typ (cv_value v)) as [| | | |fs ks nm fr| | |]; try done. simpl. eexists; split; [done|].
  intros; simplify_eq. exists fs. split; [done|]. apply (udt_fields D HD) in Hr. split; [|done].
  simpl. by rewrite drop_0, <- Hr, map_map.
Qed.

Lemma tuple_made v : value_ok v -> makes (fun i => iterator_typed (ITuple i)) (tuple_new_from_value v).
Proof.
  intros Hv. unfold tuple_new_from_value, get_non_null. destruct (raw_slice (cv_value v)); [|by eexists].
  rewrite Hv. simpl. destruct (typ (cv_value v)); try (by eexists). simpl. eexists; split; [done|].
  intros; by simplify_eq.
Qed.

(** Creating an iterator never panics, and the iterator is well typed. *)
Lemma iterators_made v : value_ok v ->
  makes_typed (cass_iterator_from_collection D (Some v)) /\ makes_typed (cass_iterator_from_map D (Some v)) /\
  makes_typed (cass_iterator_from_tuple (Some v)) /\ makes_typed (cass_iterator_from_vector D (Some v)) /\
  makes_typed (cass_iterator_fields_from_user_type D (Some v)).
Proof.
  intros Hv. split_and!.
  - unfold cass_iterator_from_collection.
    destruct (tree_value_type (cv_type v)); try (by eexists);
      try (eapply makes_from_created; [by apply listlike_made|done]).
    apply makes_from_created with (P := fun i => map_ok (mc_iterator i)); [|done].
    destruct (map_made v Hv) as (r & Hr & Hi). unfold map_collection_new_from_value. rewrite Hr. simpl.
    eexists; split; [done|]. intros i. destruct r as [m|]; intros; simplify_eq/=. by apply Hi.
  - eapply makes_from_created; [by apply map_made|done].
  - eapply makes_from_created; [by apply tuple_made|done].
  - eapply makes_from_created; [by apply vector_made|done].
  - eapply makes_from_created; [by apply udt_made|done].
Qed.

Lemma made_typed v it : value_ok v -> made_from D v it -> iterator_typed it.
Proof.
  intros Hv. destruct (iterators_made v Hv) as (H1 & H2 & H3 & H4 & H5).
  destruct H1 as (p1 & H1 & T1), H2 as (p2 & H2 & T2), H3 as (p3 & H3 & T3), H4 as (p4 & H4 & T4),
    H5 as (p5 & H5 & T5).
  intros [E|[E|[E|[E|E]]]]; rewrite E in *; [apply T1|apply T2|apply T3|apply T4|apply T5]; congruence.
Qed.

(** Advancing a well-typed iterator never panics, and keeps it well typed as long as
    it returns true. *)
Lemma map_next_typed i : map_ok i -> map_ok (map_next i).2.
Proof.
  intros (k & v & Ht & Hl & Hc). exists k, v. unfold map_next. rewrite Ht.
  destruct (map_iterator i) as [|[[a b]|e] l]; simpl; [done| |].
  - apply Forall_cons in Hl as [[Ha Hb] Hl]. simpl in *. done.
  - apply Forall_cons in Hl as [_ Hl]. done.
Qed.

Lemma tuple_next_typed i : iterator_typed (ITuple i) ->
  exists b i', tuple_next D i = Ret (b, i') /\ (b = true -> iterator_typed (ITuple i')).
Proof.
  intros [Hm He]. unfold tuple_next, tuple_iterator_next. destruct i as [[ts rest slice] md cur].
  simpl in *. destruct rest as [|t rest]; [by eexists _, _|].
  destruct (bytes_sequence_next D slice) as [item slice']. simpl.
  destruct item as [[raw|e]|]; [|by eexists _, _..].
  destruct (raw_deserialize t raw) as [r|e] eqn:E; [|by eexists _, _].
  destruct (entries_next ts t rest cur r He) as (dt & Hdt & _ & He'); [by apply raw_deserialize_inv in E as []|].
  rewrite Hm, Hdt. eexists _, _. split; [done|]. by intros _.
Qed.

Lemma udt_next_typed i : iterator_typed (IUdt i) ->
  exists b i', udt_next i = Ret (b, i') /\ (b = true -> iterator_typed (IUdt i')).
Proof.
  intros (fs & Hm & He). unfold udt_next. destruct i as [l md cur]. simpl in *.
  destruct l as [|[[fname t] r] l]; [by eexists _, _|]. simpl in He.
  destruct r as [raw|e]; [|by eexists _, _].
  destruct (raw_deserialize t (mjoin raw)) as [v|e] eqn:E; [|by eexists _, _].
  destruct (entries_next _ t _ cur v He) as (dt & Hdt & -> & He'); [by apply raw_deserialize_inv in E as []|].
  rewrite Hm. rewrite map_map, list_lookup_fmap in Hdt. rewrite list_lookup_fmap.
  destruct (fs !! next_index cur) as [f|] eqn:Ef; simplify_eq/=. eexists _, _. split; [done|]. intros _.
  exists fs. split; [done|]. rewrite <- Hdt in He'. exact He'.
Qed.

Lemma next_typed it : iterator_typed it ->
  exists b it', inner_next D it = Ret (b, it') /\ (b = true -> iterator_typed it').
Proof.
  intros Hit. destruct it as [| |[i|i]|i|i|i|i| | | | | | |]; try done; simpl.
  - destruct Hit as (t & Hdt & Hl & Hc). unfold listlike_next.
    destruct (ll_iterator i) as [|[r|e] l]; eexists _, _; (split; [done|]); try done. intros _.
    apply Forall_cons in Hl as [Hr Hl]. exists t. by rewrite Hdt.
  - destruct (map_collection_next i) as [b i'] eqn:E. eexists _, _. split; [done|]. intros ->. simpl.
    unfold map_collection_next in E. pose proof (map_next_typed _ Hit) as Hn.
    destruct (mc_state i) as [[]|]; [by simplify_eq/=|..];
      destruct (map_next (mc_iterator i)); by simplify_eq/=.
  - pose proof (map_next_typed _ Hit) as Hn. destruct (map_next i) as [b i']. by eexists _, _.
  - destruct (tuple_next_typed i Hit) as (b & i' & -> & Ht). by eexists _, _.
  - destruct (udt_next_typed i Hit) as (b & i' & -> & Ht). by eexists _, _.
  - destruct Hit as (t & Hdt & Hl & Hc). unfold vector_next.
    destruct (vec_iterator i) as [|[r|e] l]; eexists _, _; (split; [done|]); try done. intros _.
    apply Forall_cons in Hl as [Hr Hl]. exists t. by rewrite Hdt.
Qed.

Lemma gives_typed it v : iterator_typed it -> gives it v -> value_ok v.
Proof.
  intros Hit Hg. destruct it as [| |[i|i]|i|i|i|i| | | | | | |]; try done; unfold gives in Hg; simpl in Hg.
  - destruct Hg as [Hg|[|[|]]]; try done. destruct Hit as (t & _ & _ & Hc). rewrite Hg in Hc.
    by eapply typed_value_ok.
  - destruct Hg as [Hg|[|[|]]]; try done. destruct Hit as (k & w & _ & _ & Hc).
    destruct (mc_state i) as [[]|]; [..|done]; simpl in Hg; apply fmap_Some in Hg as (p & Hp & ->);
      rewrite Hp in Hc; destruct Hc; by eapply typed_value_ok.
  - destruct Hit as (k & w & _ & _ & Hc).
    destruct Hg as [|[Hg|[Hg|]]]; try done; apply fmap_Some in Hg as (p & Hp & ->);
      rewrite Hp in Hc; destruct Hc; by eapply typed_value_ok.
  - destruct Hg as [Hg|[|[|]]]; try done. apply fmap_Some in Hg as ([x n] & Hp & ->).
    destruct Hit as [_ [_ Hc]]. rewrite Hp in Hc. destruct Hc as (t & _ & Hc). by eapply typed_value_ok.
  - destruct Hg as [|[|[|Hg]]]; try done. apply fmap_Some in Hg as ([x n] & Hp & ->).
    destruct Hit as (fs & _ & _ & Hc). rewrite Hp in Hc. destruct Hc as (t & _ & Hc). by eapply typed_value_ok.
  - destruct Hg as [Hg|[|[|]]]; try done. destruct Hit as (t & _ & _ & Hc). rewrite Hg in Hc.
    by eapply typed_value_ok.
Qed.

Lemma advances_typed it it' : iterator_typed it -> rtc (advances D) it it' -> iterator_typed it'.
Proof.
  intros Hit Hs. induction Hs as [|a b c Hab _ IH]; [done|]. apply IH.
  destruct (next_typed a Hit) as (r & b' & Hn & Ht). unfold advances in Hab. rewrite Hab in Hn.
  injection Hn as <- <-. by apply Ht.
Qed.

End Typed.

(** ** Documented behaviour of the driver's iterators: the wire format

    [sz] is [NativeType::type_size_for_vector].  On the bytes of the protocol the
    iterators yield the elements in order. *)

Definition variable_elements (sz : NativeType -> option nat) (e : ColumnType) : bool :=
  uses_variable_length_encoding_in_vector sz (get_column_type e).

(** The decoder type of a column type. *)
Fixpoint wtype_of (sz : NativeType -> option nat) (t : ColumnType) : wtype :=
  match t with
  | CNative n => TNative (sz n)
  | CList e _ | CSet e _ => TSeq (wtype_of sz e)
  | CMap k v _ => TMap (wtype_of sz k) (wtype_of sz v)
  | CUdt fs _ _ _ => TTuple (map (fun f => wtype_of sz f.2) fs)
  | CTuple ts => TTuple (map (wtype_of sz) ts)
  | CVector e d => TVec (Z.to_nat d) (variable_elements sz e) (wtype_of sz e)
  | COther => TNative None
  end.

Definition opt_cell (o : option (list Z)) : list Z := match o with Some bs => cell bs | None => null_cell end.

Record driver_reads (sz : NativeType -> option nat) (D : Driver) : Prop := {
  reads_types : driver_types_ok D;
  reads_listlike : forall t l, Forall small l -> Z.of_nat (length l) < 2 ^ 31 ->
    accepts (d_listlike D) t = true ->
    reads (d_listlike D) t (be_bytes 4 (Z.of_nat (length l)) ++ concat (map cell l)) = Ok (map (fun x => Ok (Some x)) l);
  reads_map : forall t l, Forall (fun p => small p.1 /\ small p.2) l -> Z.of_nat (length l) < 2 ^ 31 ->
    accepts (d_map D) t = true ->
    reads (d_map D) t (be_bytes 4 (Z.of_nat (length l)) ++ concat (map (fun p => cell p.1 ++ cell p.2) l))
    = Ok (map (fun p => Ok (Some p.1, Some p.2)) l);
  reads_vector : forall e d l, Forall small l -> length l = Z.to_nat d ->
    (variable_elements sz e = false ->
       exists size, fixed_size (wtype_of sz e) = Some size /\ Forall (fun x => length x = size) l) ->
    reads (d_vector D) (CVector e d) (concat (map (fun x =>
      if variable_elements sz e then unsigned_vint_encode (Z.of_nat (length x)) ++ x else x) l))
    = Ok (map (fun x => Ok (Some x)) l);
  reads_udt : forall fs ks nm fr l, Forall (opt small) l -> length l = length fs ->
    reads (d_udt D) (CUdt fs ks nm fr) (concat (map opt_cell l)) = Ok (zip fs (map (fun o => Ok (Some o)) l));
  reads_cell : forall o rest, opt small o -> read_cql_bytes D (opt_cell o ++ rest) = (Ok o, rest)
}.

(** ** A client that reads a whole value through the C API *)

Inductive seen :=
| SNull
| SNative (bs : list Z)
| SSeq (l : list seen)
| SMap (l : list (seen * seen))
| STuple (l : list seen)
| SVec (l : list seen).

Section Client.
Variable D : Driver.

(** Calls [cass_iterator_next] until it returns false, at most [fuel] times, and gets
    something after each call. *)
Fixpoint drain {A} (get : option CassIteratorInner -> option A) (fuel : nat)
    (it : option CassIteratorInner) : outcome (list A) :=
  match fuel with
  | O => Diverge
  | S fuel =>
      '(b, it) ← cass_iterator_next D it;
      if (b : bool) then
        match get it with
        | Some x => l ← drain get fuel it; Ret (x :: l)
        | None => Panic
        end
      else Ret []
  end.

Definition map_entry (it : option CassIteratorInner) : option (CassValue * CassValue) :=
  k ← cass_iterator_get_map_key it; v ← cass_iterator_get_map_value it; Some (k, v).

Fixpoint all_ret {A} (l : list (outcome A)) : outcome (list A) :=
  match l with [] => Ret [] | x :: l => a ← x; l ← all_ret l; Ret (a :: l) end.

Definition read_pair (p : outcome seen * outcome seen) : outcome (seen * seen) :=
  a ← p.1; b ← p.2; Ret (a, b).

(** One call more than there are items. *)
Definition calls (v : CassValue) : nat := S (Z.to_nat (cass_value_item_count (Some v))).

Fixpoint read_value (t : ColumnType) (v : CassValue) : outcome seen :=
  if cass_value_is_null (Some v) then Ret SNull
  else
    match t with
    | CNative _ | COther => Ret (SNative (default [] (cass_value_get_bytes (Some v)).2))
    | CList e _ | CSet e _ =>
        it ← cass_iterator_from_collection D (Some v);
        l ← drain cass_iterator_get_value (calls v) it;
        SSeq <$> all_ret (map (read_value e) l)
    | CMap kt vt _ =>
        it ← cass_iterator_from_map D (Some v);
        l ← drain map_entry (calls v) it;
        SMap <$> all_ret (map (fun p => read_pair (read_value kt p.1, read_value vt p.2)) l)
    | CTuple ts =>
        it ← cass_iterator_from_tuple (Some v);
        l ← drain cass_iterator_get_value (calls v) it;
        STuple <$> all_ret (zip_with (fun f x => f x) (map read_value ts) l)
    | CUdt fs _ _ _ =>
        it ← cass_iterator_fields_from_user_type D (Some v);
        l ← drain cass_iterator_get_user_type_field_value (calls v) it;
        STuple <$> all_ret (zip_with (fun f x => f x) (map (fun f => read_value f.2) fs) l)
    | CVector e _ =>
        it ← cass_iterator_from_vector D (Some v);
        l ← drain cass_iterator_get_value (calls v) it;
        SVec <$> all_ret (map (read_value e) l)
    end.

End Client.

(** What the C API shows of a value: empty values of types without empty values are
    null. *)
Fixpoint observe (t : ColumnType) (w : wire) : seen :=
  if match encode w with [] => negb (keeps_empty t) | _ => false end then SNull
  else
    match t, w with
    | CList e _, WSeq l | CSet e _, WSeq l => SSeq (map (observe e) l)
    | CMap k v _, WMap l => SMap (map (fun p => (observe k p.1, observe v p.2)) l)
    | CTuple ts, WTuple l =>
        STuple (zip_with (fun f o => match o with Some x => f x | None => SNull end) (map observe ts) l)
    | CUdt fs _ _ _, WTuple l =>
        STuple (zip_with (fun f o => match o with Some x => f x | None => SNull end)
                  (map (fun f => observe f.2) fs) l)
    | CVector e _, WVec _ l => SVec (map (observe e) l)
    | _, _ => SNative (encode w)
    end.

(** ** Lemmas: draining iterators *)

Section Drain.
Variable D : Driver.

Lemma drain_listlike raws dt cur n : (length raws < n)%nat ->
  drain D cass_iterator_get_value n (Some (ICollection (Listlike (mkListlike (map Ok raws) dt cur))))
  = Ret (map (fun r => mkValue r dt) raws).
Proof.
  revert n cur. induction raws as [|r raws IH]; intros [|n] cur Hn; simpl in Hn; try lia; [done|].
  simpl. rewrite IH by lia. done.
Qed.

Lemma drain_vector raws dt cur n : (length raws < n)%nat ->
  drain D cass_iterator_get_value n (Some (IVector (mkVectorIterator (map Ok raws) dt cur)))
  = Ret (map (fun r => mkValue r dt) raws).
Proof.
  revert n cur. induction raws as [|r raws IH]; intros [|n] cur Hn; simpl in Hn; try lia; [done|].
  simpl. rewrite IH by lia. done.
Qed.

Lemma drain_map pairs k v cur n : (length pairs < n)%nat ->
  drain D map_entry n (Some (IMap (mkMapIterator (map Ok pairs) (k, v) cur)))
  = Ret (map (fun p => (mkValue p.1 k, mkValue p.2 v)) pairs).
Proof.
  revert n cur. induction pairs as [|[a b] pairs IH]; intros [|n] cur Hn; simpl in Hn; try lia; [done|].
  simpl. rewrite IH by lia. done.
Qed.

Lemma drop_cons {A} (l l' : list A) n x : drop n l = x :: l' -> l !! n = Some x /\ drop (S n) l = l'.
Proof.
  intros Hd. assert (Hx : l !! n = Some x) by (rewrite <- (Nat.add_0_r n), <- lookup_drop, Hd; done).
  split; [done|]. rewrite (drop_S l x n Hx) in Hd. by injection Hd.
Qed.

(** An iterator whose current entry is the one before [fs] in [all]. *)
Lemma drain_udt (all fs : list (string * ColumnType)) vals raws cur n :
  Forall2 (fun (fo : (string * ColumnType) * option (list Z)) raw => raw_deserialize fo.1.2 fo.2 = Ok raw)
    (zip fs vals) raws -> length vals = length fs -> (length fs < n)%nat -> drop (next_index cur) all = fs ->
  drain D cass_iterator_get_user_type_field_value n
    (Some (IUdt (mkUdtIterator (zip fs (map (fun o => Ok (Some o)) vals))
       (map (fun f => (f.1, get_column_type f.2)) all) cur)))
  = Ret (zip_with (fun raw f => mkValue raw (get_column_type f.2)) raws fs).
Proof.
  revert vals raws cur n. induction fs as [|[fname t] fs IH]; intros [|o vals] raws cur [|n] Hr Hl Hn Hd;
    simpl in Hn, Hl; try lia; simpl in Hr; inversion Hr as [|x raw l raws' Hx Hraws]; subst; [done|].
  simpl in Hx. apply drop_cons in Hd as [Hi Hd].
  cbn [map zip zip_with drain cass_iterator_next inner_next udt_next udt_iterator udt_current_entry
    udt_metadata mbind outcome_bind].
  change (mjoin (Some o)) with o. rewrite Hx, list_lookup_fmap, Hi.
  cbn [fmap option_fmap option_map fst snd mbind outcome_bind cass_iterator_get_user_type_field_value
    udt_current_entry]. rewrite (IH vals raws') by (done || lia). done.
Qed.

Lemma drain_tuple (all ts : list ColumnType) vals raws cur n
    (Hcell : forall o rest, opt small o -> read_cql_bytes D (opt_cell o ++ rest) = (Ok o, rest)) :
  Forall2 (fun (to : ColumnType * option (list Z)) raw => raw_deserialize to.1 to.2 = Ok raw)
    (zip ts vals) raws -> Forall (opt small) vals ->
  length vals = length ts -> (length ts < n)%nat -> drop (next_index cur) all = ts ->
  drain D cass_iterator_get_value n
    (Some (ITuple (mkCassTuple (mkTupleIterator all ts (concat (map opt_cell vals))) (map get_column_type all) cur)))
  = Ret (zip_with (fun raw t => mkValue raw (get_column_type t)) raws ts).
Proof.
  revert vals raws cur n. induction ts as [|t ts IH]; intros [|o vals] raws cur [|n] Hr Hs Hl Hn Hd;
    simpl in Hn, Hl; try lia; simpl in Hr; inversion Hr as [|x raw l raws' Hx Hraws]; subst; [done|].
  simpl in Hx. apply drop_cons in Hd as [Hi Hd]. apply Forall_cons in Hs as [Ho Hs].
  assert (Hseq : bytes_sequence_next D (concat (map opt_cell (o :: vals)))
    = (Some (Ok o), concat (map opt_cell vals))).
  { simpl. unfold bytes_sequence_next. rewrite Hcell by done. by destruct o. }
  cbn [drain cass_iterator_next inner_next]. unfold tuple_next at 1, tuple_iterator_next.
  cbn [tup_iterator remaining_metadata tup_slice all_metadata length]. rewrite Hseq.
  cbn [tup_metadata tup_current_entry]. rewrite Hx, list_lookup_fmap, Hi.
  cbn [fmap option_fmap option_map mbind outcome_bind cass_iterator_get_value tup_current_entry fst].
  rewrite (IH vals raws') by (done || lia). done.
Qed.

End Drain.

(** ** Lemmas: reading a value back *)

Lemma Forall_exists_list {A B} (P : A -> B -> Prop) l : Forall (fun x => exists y, P x y) l -> exists k, Forall2 P l k.
Proof.
  induction 1 as [|x l [y Hy] _ [k Hk]]; [by exists []|]. exists (y :: k). by constructor.
Qed.

Lemma all_ret_map {A B C} (f : A -> outcome B) (g : C -> A) (h : C -> B) l :
  Forall (fun x => f (g x) = Ret (h x)) l -> all_ret (map f (map g l)) = Ret (map h l).
Proof. induction 1 as [|x l Hx _ IH]; simpl; [done|]. rewrite Hx. simpl. rewrite IH. done. Qed.

(** The item count of a collection is the length prefix. *)
Lemma collection_count t n rest : Z.of_nat n < 2 ^ 31 ->
  match t with CList _ _ | CSet _ _ | CMap _ _ _ => True | _ => False end ->
  raw_deserialize t (Some (be_bytes 4 (Z.of_nat n) ++ rest))
  = Ok (mkRawValue t (Some (be_bytes 4 (Z.of_nat n) ++ rest)) (Some (Z.of_nat n))).
Proof.
  intros Hn Ht. unfold raw_deserialize.
  assert (keeps_empty t = true) as -> by by destruct t.
  assert (Hc : determine_value_item_count t (Some (be_bytes 4 (Z.of_nat n) ++ rest)) = Ok (Some (Z.of_nat n))).
  { unfold determine_value_item_count.
    assert (E : (if (length (be_bytes 4 (Z.of_nat n) ++ rest) <? 4)%nat
      then Err (TooFewBytes (length (be_bytes 4 (Z.of_nat n) ++ rest)))
      else let i32_length := wrap_i 32 (be_value (take 4 (be_bytes 4 (Z.of_nat n) ++ rest))) in
        if i32_length <? 0 then Err (NegativeLength i32_length) else Ok (Some i32_length)) = Ok (Some (Z.of_nat n))).
    { rewrite length_app, length_be_bytes. rewrite (proj2 (Nat.ltb_ge _ _)) by lia.
      rewrite take_app_length' by by rewrite length_be_bytes. rewrite size_bytes by lia.
      rewrite wrap_i_id by (unfold in_i; lia). cbv zeta. rewrite (proj2 (Z.ltb_ge _ _)) by lia. done. }
    by destruct t. }
  by rewrite Hc.
Qed.

Section ReadBack.
Variables (sz : NativeType -> option nat) (D : Driver).
Hypothesis HD : driver_reads sz D.

(** Element [w] of type [t] is held as [raw] and read as it should be. *)
Definition read_as (t : ColumnType) (w : wire) (raw : CassRawValue) : Prop :=
  raw_deserialize t (Some (encode w)) = Ok raw /\
  read_value D t (mkValue raw (get_column_type t)) = Ret (observe t w).

Definition field_as (t : ColumnType) (o : option wire) (raw : CassRawValue) : Prop :=
  raw_deserialize t (encode <$> o) = Ok raw /\
  read_value D t (mkValue raw (get_column_type t))
  = Ret (match o with Some w => observe t w | None => SNull end).

Lemma null_field t : exists raw, field_as t None raw.
Proof.
  exists (mkRawValue t None None). unfold field_as, raw_deserialize. simpl.
  destruct (keeps_empty t); by destruct t.
Qed.

Lemma elements_read e l raws : Forall2 (read_as e) l raws ->
  raw_items e (map (fun x => Ok (Some x)) (map encode l)) = map Ok raws /\
  all_ret (map (read_value D e) (map (fun r => mkValue r (get_column_type e)) raws)) = Ret (map (observe e) l).
Proof.
  induction 1 as [|w raw l raws [Hr Hv] _ [IH1 IH2]]; [done|]. simpl. rewrite Hr, Hv, IH1. simpl. by rewrite IH2.
Qed.

Lemma pairs_read k v l raws :
  Forall2 (fun p r => read_as k p.1 r.1 /\ read_as v p.2 r.2) l raws ->
  raw_pairs k v (map (fun p => Ok (Some p.1, Some p.2)) (map (fun p => (encode p.1, encode p.2)) l)) = map Ok raws /\
  all_ret (map (fun p => read_pair (read_value D k p.1, read_value D v p.2))
    (map (fun r => (mkValue r.1 (get_column_type k), mkValue r.2 (get_column_type v))) raws))
  = Ret (map (fun p => (observe k p.1, observe v p.2)) l).
Proof.
  induction 1 as [|[a b] [x y] l raws [[Ha Hva] [Hb Hvb]] _ [IH1 IH2]]; [done|]. cbn [map fst snd] in *.
  cbn [raw_pairs map mbind result_bind fst snd]. rewrite Ha. cbn [mbind result_bind]. rewrite Hb.
  cbn [mbind result_bind]. unfold raw_pairs in IH1. rewrite IH1. split; [done|].
  cbn [all_ret]. rewrite IH2, Hva, Hvb. done.
Qed.

Lemma fields_read ts l raws :
  Forall2 (fun (p : ColumnType * option wire) raw => field_as p.1 p.2 raw) (zip ts l) raws -> length l = length ts ->
  Forall2 (fun (p : ColumnType * option (list Z)) raw => raw_deserialize p.1 p.2 = Ok raw)
    (zip ts (map (fmap encode) l)) raws /\
  all_ret (zip_with (fun f x => f x) (map (read_value D) ts)
    (zip_with (fun raw t => mkValue raw (get_column_type t)) raws ts))
  = Ret (zip_with (fun f o => match o with Some x => f x | None => SNull end) (map observe ts) l).
Proof.
  revert l raws. induction ts as [|t ts IH]; intros [|o l] raws Hf Hl; simpl in Hl; try lia; simpl in Hf;
    inversion Hf as [|p raw k raws' [Hr Hv] Hraws]; subst; [by repeat constructor|].
  destruct (IH l raws' Hraws ltac:(lia)) as [IH1 IH2]. simpl in Hr, Hv. split; [by constructor|].
  simpl. rewrite Hv. simpl. rewrite IH2. done.
Qed.

Lemma fields_exist ts l :
  Forall (fun t => forall w, has_type (wtype_of sz t) w -> all_small w -> exists raw, read_as t w raw) ts ->
  has_types has_type (map (wtype_of sz) ts) l ->
  Forall (fun o => match o with Some w => all_small w | None => True end) l ->
  length l = length ts /\ Forall (opt small) (map (fmap encode) l) /\
  exists raws, Forall2 (fun (p : ColumnType * option wire) raw => field_as p.1 p.2 raw) (zip ts l) raws.
Proof.
  intros Hts. revert l. induction Hts as [|t ts Ht _ IH]; intros [|o l] Hh Hs; try done.
  { split_and!; [done|constructor|]. by exists []. }
  destruct Hh as [Ho Hh]. apply Forall_cons in Hs as [Hso Hs].
  destruct (IH l Hh Hs) as (Hl & Hsm & raws & Hr).
  assert (Hraw : exists raw, field_as t o raw).
  { destruct o as [w|]; [|apply null_field]. exact (Ht w Ho Hso). }
  destruct Hraw as [raw Hraw]. split_and!.
  - simpl. by rewrite Hl.
  - constructor; [|done]. destruct o as [w|]; [|done]. by apply all_small_inv.
  - exists (raw :: raws). by constructor.
Qed.

Lemma encode_tuple l : encode (WTuple l) = concat (map opt_cell (map (fmap encode) l)).
Proof. simpl. rewrite map_map. f_equal. apply map_ext. by intros [w|]. Qed.

Lemma read_native t w : (exists n, wtype_of sz t = TNative n) -> has_type (wtype_of sz t) w ->
  exists raw, read_as t w raw.
Proof.
  intros [n Hn] Hw. rewrite Hn in Hw.
  assert (exists bs, w = WNative bs) as [bs ->] by (destruct n, w; try done; by eexists).
  exists (mkRawValue t (shown t (Some bs)) None). unfold read_as, raw_deserialize, shown. simpl.
  destruct t as [nt| | | | | | |]; simpl in Hn; try done; [destruct nt|]; destruct bs; done.
Qed.

Lemma read_list e fr (t := CList e fr) w :
  (forall w, has_type (wtype_of sz e) w -> all_small w -> exists raw, read_as e w raw) ->
  has_type (TSeq (wtype_of sz e)) w -> all_small w -> forall t', t' = t \/ t' = CSet e fr ->
  exists raw, read_as t' w raw.
Proof.
  intros IH Hw Hs t' Ht'. destruct w as [|l|l|l|b l]; try done. destruct Hs as (_ & Hn & Hl).
  rewrite fold_Forall in Hl. simpl in Hw.
  assert (Hraws : exists raws, Forall2 (read_as e) l raws).
  { apply Forall_exists_list. rewrite Forall_forall in *. intros w Hin. apply IH; auto. }
  destruct Hraws as [raws Hraws]. destruct (elements_read e l raws Hraws) as [E1 E2].
  assert (Hlen : length l = length raws) by by eapply Forall2_length.
  exists (mkRawValue t' (Some (encode (WSeq l))) (Some (Z.of_nat (length l)))). split.
  { apply collection_count; [done|]. by destruct Ht' as [-> | ->]. }
  assert (Hread : reads (d_listlike D) t' (encode (WSeq l)) = Ok (map (fun x => Ok (Some x)) (map encode l))).
  { rewrite <- (reads_listlike sz D HD t' (map encode l)).
    - simpl. rewrite length_map, map_map. done.
    - apply Forall_map. eapply Forall_impl; [exact Hl|]. intros x. apply all_small_inv.
    - by rewrite length_map.
    - rewrite (listlike_type D (reads_types sz D HD)). by destruct Ht' as [-> | ->]. }
  assert (Ha : accepts (d_listlike D) t' = true).
  { rewrite (listlike_type D (reads_types sz D HD)). by destruct Ht' as [-> | ->]. }
  assert (Hnew : listlike_new_from_value D (mkValue (mkRawValue t' (Some (encode (WSeq l))) (Some (Z.of_nat (length l))))
      (get_column_type t')) = Ret (Ok (mkListlike (map Ok raws) (get_column_type e) None))).
  { unfold listlike_new_from_value, get_non_null, of_reader. cbn [cv_value raw_slice typ type_check deserialize cv_type].
    rewrite Ha, Hread. cbn [mbind outcome_bind]. rewrite <- E1. by destruct Ht' as [-> | ->]. }
  destruct Ht' as [-> | ->]; unfold t in *; cbn [read_value observe keeps_empty negb];
    cbn [cass_value_is_null cv_value raw_slice cass_iterator_from_collection cv_type get_column_type tree_value_type
      get_value_type] in *; unfold from_created; rewrite Hnew; cbn [mbind outcome_bind];
    rewrite drain_listlike by (unfold calls; simpl; lia); cbn [mbind outcome_bind]; rewrite E2;
    by destruct (encode (WSeq l)).
Qed.

Lemma read_vector e d w :
  (forall w, has_type (wtype_of sz e) w -> all_small w -> exists raw, read_as e w raw) ->
  has_type (wtype_of sz (CVector e d)) w -> all_small w -> exists raw, read_as (CVector e d) w raw.
Proof.
  intros IH Hw Hs. destruct w as [|l|l|l|b l]; try done. destruct Hs as (_ & Hl).
  rewrite fold_Forall in Hl. destruct Hw as (-> & Hlen & Hw & Hfix).
  assert (Hraws : exists raws, Forall2 (read_as e) l raws).
  { apply Forall_exists_list. rewrite Forall_forall in *. intros w Hin. apply IH; auto. }
  destruct Hraws as [raws Hraws]. destruct (elements_read e l raws Hraws) as [E1 E2].
  assert (Hlen' : length l = length raws) by by eapply Forall2_length.
  set (w := WVec (variable_elements sz e) l).
  assert (Hread : reads (d_vector D) (CVector e d) (encode w) = Ok (map (fun x => Ok (Some x)) (map encode l))).
  { rewrite <- (reads_vector sz D HD e d (map encode l)).
    - unfold w. simpl. rewrite map_map. done.
    - apply Forall_map. eapply Forall_impl; [exact Hl|]. intros x. apply all_small_inv.
    - by rewrite length_map.
    - intros Hv. destruct (fixed_size (wtype_of sz e)) as [size|] eqn:Es; [|by destruct (Hfix Hv)].
      exists size. split; [done|]. apply Forall_map. eapply Forall_impl; [exact Hw|]. intros x Hx.
      by eapply fixed_size_encode. }
  assert (Hcase : (encode w = [] /\ shown (CVector e d) (Some (encode w)) = None) \/
    (shown (CVector e d) (Some (encode w)) = Some (encode w) /\ encode w <> [])).
  { destruct (encode w); [by left|by right]. }
  destruct Hcase as [[He Hsh]|[Hsh He]].
  { exists (mkRawValue (CVector e d) None None). split; [by rewrite He|].
    cbn [read_value cass_value_is_null cv_value raw_slice observe]. by rewrite He. }
  exists (mkRawValue (CVector e d) (Some (encode w)) (Some d)). split.
  { revert He. generalize (encode w). by intros [|b bs]. }
  cbn [read_value cass_value_is_null cv_value raw_slice cass_iterator_from_vector]. unfold from_created.
  unfold vector_new_from_value, get_non_null, of_reader. cbn [cv_value raw_slice typ type_check deserialize cv_type].
  rewrite (vector_type D (reads_types sz D HD)), Hread. cbn [mbind outcome_bind get_column_type elem_type].
  rewrite E1. rewrite drain_vector by (unfold calls; simpl; lia). cbn [mbind outcome_bind]. rewrite E2.
  cbn [observe]. by destruct (encode w).
Qed.

Lemma read_map k v fr w :
  (forall w, has_type (wtype_of sz k) w -> all_small w -> exists raw, read_as k w raw) ->
  (forall w, has_type (wtype_of sz v) w -> all_small w -> exists raw, read_as v w raw) ->
  has_type (wtype_of sz (CMap k v fr)) w -> all_small w -> exists raw, read_as (CMap k v fr) w raw.
Proof.
  intros IHk IHv Hw Hs. destruct w as [|l|l|l|b l]; try done. destruct Hs as (_ & Hn & Hl).
  rewrite fold_Forall in Hl. simpl in Hw.
  assert (Hraws : exists raws, Forall2 (fun p r => read_as k p.1 r.1 /\ read_as v p.2 r.2) l raws).
  { apply Forall_exists_list. rewrite Forall_forall in *. intros [a b] Hin.
    destruct (Hw _ Hin) as [Ha Hb], (Hl _ Hin) as [Hsa Hsb].
    destruct (IHk a Ha Hsa) as [x Hx], (IHv b Hb Hsb) as [y Hy]. by exists (x, y). }
  destruct Hraws as [raws Hraws]. destruct (pairs_read k v l raws Hraws) as [E1 E2].
  assert (Hlen : length l = length raws) by by eapply Forall2_length.
  exists (mkRawValue (CMap k v fr) (Some (encode (WMap l))) (Some (Z.of_nat (length l)))). split.
  { by apply collection_count. }
  assert (Hread : reads (d_map D) (CMap k v fr) (encode (WMap l))
    = Ok (map (fun p => Ok (Some p.1, Some p.2)) (map (fun p => (encode p.1, encode p.2)) l))).
  { rewrite <- (reads_map sz D HD (CMap k v fr) (map (fun p => (encode p.1, encode p.2)) l)).
    - simpl. rewrite length_map, map_map. done.
    - apply Forall_map. eapply Forall_impl; [exact Hl|]. intros [x y] [? ?]. split; by apply all_small_inv.
    - by rewrite length_map.
    - by rewrite (map_type D (reads_types sz D HD)). }
  cbn [read_value cass_value_is_null cv_value raw_slice cass_iterator_from_map]. unfold from_created.
  unfold map_new_from_value, get_non_null, of_reader. cbn [cv_value raw_slice typ type_check deserialize cv_type].
  rewrite (map_type D (reads_types sz D HD)), Hread. cbn [mbind outcome_bind get_column_type pair_type].
  rewrite E1. rewrite drain_map by (unfold calls; simpl; lia). cbn [mbind outcome_bind]. rewrite E2.
  cbn [observe keeps_empty negb]. by destruct (encode (WMap l)).
Qed.

Lemma read_tuple ts w :
  Forall (fun t => forall w, has_type (wtype_of sz t) w -> all_small w -> exists raw, read_as t w raw) ts ->
  has_type (wtype_of sz (CTuple ts)) w -> all_small w -> exists raw, read_as (CTuple ts) w raw.
Proof.
  intros IH Hw Hs. destruct w as [|l|l|l|b l]; try done. destruct Hs as (_ & Hl).
  rewrite fold_Forall in Hl. simpl in Hw.
  destruct (fields_exist ts l IH Hw Hl) as (Hlen & Hsm & raws & Hraws).
  destruct (fields_read ts l raws Hraws Hlen) as [E1 E2].
  destruct ts as [|t ts].
  { destruct l; [|done]. by exists (mkRawValue (CTuple []) None None). }
  assert (He : encode (WTuple l) <> []).
  { rewrite encode_tuple. destruct l as [|[x|] l]; simpl in *; done. }
  exists (mkRawValue (CTuple (t :: ts)) (Some (encode (WTuple l))) (Some (Z.of_nat (length (t :: ts))))). split.
  { revert He. generalize (encode (WTuple l)). by intros [|b bs]. }
  cbn [read_value cass_value_is_null cv_value raw_slice cass_iterator_from_tuple]. unfold from_created.
  unfold tuple_new_from_value, get_non_null, tuple_deserializer.
  cbn [cv_value raw_slice typ type_check deserialize cv_type mbind outcome_bind get_column_type].
  cbn [observe]. rewrite encode_tuple in *.
  rewrite (drain_tuple D (t :: ts) (t :: ts) (map (fmap encode) l) raws).
  - cbn [mbind outcome_bind]. rewrite E2. by destruct (concat _).
  - apply (reads_cell sz D HD).
  - done.
  - done.
  - by rewrite length_map.
  - unfold calls. change (cass_value_item_count _) with (Z.of_nat (length (t :: ts))). lia.
  - done.
Qed.

Lemma read_udt fs ks nm fr w :
  Forall (fun f => forall w, has_type (wtype_of sz f.2) w -> all_small w -> exists raw, read_as f.2 w raw) fs ->
  has_type (wtype_of sz (CUdt fs ks nm fr)) w -> all_small w -> exists raw, read_as (CUdt fs ks nm fr) w raw.
Proof.
  intros IH Hw Hs. destruct w as [|l|l|l|b l]; try done. destruct Hs as (_ & Hl).
  rewrite fold_Forall in Hl. simpl in Hw.
  assert (IH' : Forall (fun t => forall w, has_type (wtype_of sz t) w -> all_small w -> exists raw, read_as t w raw)
    (map snd fs)) by (by apply Forall_map).
  assert (Hw' : has_types has_type (map (wtype_of sz) (map snd fs)) l) by (by rewrite map_map).
  destruct (fields_exist (map snd fs) l IH' Hw' Hl) as (Hlen & Hsm & raws & Hraws).
  destruct (fields_read (map snd fs) l raws Hraws Hlen) as [E1 E2]. rewrite length_map in Hlen.
  exists (mkRawValue (CUdt fs ks nm fr) (Some (encode (WTuple l))) (Some (Z.of_nat (length fs)))). split; [done|].
  cbn [read_value cass_value_is_null cv_value raw_slice cass_iterator_fields_from_user_type]. unfold from_created.
  unfold udt_new_from_value, get_non_null, of_reader. cbn [cv_value raw_slice typ type_check deserialize cv_type].
  rewrite (udt_type D (reads_types sz D HD)). rewrite encode_tuple at 1.
  rewrite (reads_udt sz D HD) by (done || by rewrite length_map).
  cbn [mbind outcome_bind get_column_type field_types].
  rewrite (drain_udt D fs fs (map (fmap encode) l) raws).
  - cbn [mbind outcome_bind]. rewrite !map_map in E2. cbn [observe keeps_empty negb].
    assert (Hz : zip_with (fun raw f => mkValue raw (get_column_type f.2)) raws fs
      = zip_with (fun raw t => mkValue raw (get_column_type t)) raws (map snd fs)).
    { clear. revert fs. induction raws as [|r raws IH]; intros [|f fs]; simpl; [done..|]. by rewrite IH. }
    rewrite Hz, E2. by destruct (encode (WTuple l)).
  - clear -E1. revert l raws E1. induction fs as [|f fs IH]; intros [|o l] raws E1; simpl in *;
      inversion E1; subst; constructor; [done|]. by apply IH.
  - by rewrite length_map.
  - unfold calls. change (cass_value_item_count _) with (Z.of_nat (length fs)). lia.
  - done.
Qed.

Lemma value_read_back t w :
  has_type (wtype_of sz t) w -> all_small w -> exists raw, read_as t w raw.
Proof.
  revert w. induction t as [n|t fr IH|k v fr IHk IHv|t fr IH|fs ks nm fr IH|l IH|t d IH|]
    using ColumnType_induction; intros w Hw Hs.
  - apply read_native; [by eexists|done].
  - eapply read_list; eauto.
  - by eapply read_map.
  - eapply read_list; eauto.
  - by apply read_udt.
  - by apply read_tuple.
  - by apply read_vector.
  - apply read_native; [by eexists|done].
Qed.

End ReadBack.

(** ** Lemmas: results and metadata *)

Lemma from_raw_row_old raw md old :
  from_raw_row_and_metadata raw md old = from_raw_row_and_metadata raw md None.
Proof. by destruct old. Qed.

Definition decoded (md : CassResultMetadata) (r : result DeserializationError CassRawRow)
  : result DeserializationError CassRow := raw ← r; from_raw_row_and_metadata raw md None.

(** Draining a result iterator gives the rows up to the first one that fails. *)
Lemma drain_rows D l md cur n : (length l < n)%nat ->
  exists rows, drain D cass_iterator_get_row n (Some (IResult (RowsIterator (mkRowsIterator l md cur)))) = Ret rows /\
    exists k, Forall2 (fun r row => decoded md r = Ok row) (take k l) rows /\
      (k = length l \/ exists r e, l !! k = Some r /\ decoded md r = Err e).
Proof.
  revert n cur. induction l as [|r l IH]; intros [|n] cur Hn; simpl in Hn; try lia.
  { exists []. split; [done|]. exists 0%nat. split; [constructor|by left]. }
  destruct (decoded md r) as [row|e] eqn:E.
  - assert (Hd : (raw ← r; from_raw_row_and_metadata raw md cur) = Ok row).
    { unfold decoded in E. destruct r as [raw|]; [|done]. simpl in *. by rewrite from_raw_row_old. }
    destruct (IH n (Some row) ltac:(lia)) as (rows & Hr & k & Hk & Hend).
    exists (row :: rows). cbn [drain cass_iterator_next inner_next]. unfold result_next.
    cbn [rows_iterator rows_metadata current_row]. rewrite Hd. cbn [mbind outcome_bind cass_iterator_get_row current_row].
    rewrite Hr. split; [done|]. exists (S k). split; [by constructor|].
    destruct Hend as [->|(r' & e & Hr' & He)]; [by left|right]. by exists r', e.
  - assert (Hd : exists e, (raw ← r; from_raw_row_and_metadata raw md cur) = Err e).
    { unfold decoded in E. destruct r as [raw|]; [|by eexists]. simpl in *. rewrite from_raw_row_old. by eexists. }
    destruct Hd as [e' Hd]. exists []. cbn [drain cass_iterator_next inner_next]. unfold result_next.
    cbn [rows_iterator rows_metadata current_row]. rewrite Hd. split; [done|].
    exists 0%nat. split; [constructor|]. right. by exists r, e.
Qed.

(** An iterator that counts the positions of a list. *)
Lemma drain_position {A B} D (mk : PositionIterator A -> CassIteratorInner)
    (get : option CassIteratorInner -> option B) (a : A) (l : list B) p n :
  (forall i, inner_next D (mk i) = Ret ((position_next i).1, mk (position_next i).2)) ->
  (forall c q, get (Some (mk (mkPosition a c (Some q)))) = l !! q) ->
  let start := match p with None => 0%nat | Some q => S q end in
  (length l < start + n)%nat -> (start <= length l)%nat ->
  drain D get n (Some (mk (mkPosition a (length l) p))) = Ret (drop start l).
Proof.
  intros Hnext Hget. revert p. induction n as [|n IH]; intros p start Hn Hs; [lia|].
  cbn [drain cass_iterator_next]. rewrite Hnext. cbn [position_next position pos_count pos_value fst snd].
  fold start. cbn [mbind outcome_bind]. destruct (Nat.ltb_spec start (length l)) as [Hlt|Hge].
  - rewrite Hget. destruct (lookup_lt_is_Some_2 l start Hlt) as [x Hx]. rewrite Hx.
    rewrite (IH (Some start)) by lia. simpl. by rewrite (drop_S l x start Hx).
  - by rewrite drop_ge.
Qed.

(** ** A driver for the examples *)

Definition as_native (bs : list Z) : option wire := Some (WNative bs).

Definition or_error {A} (o : option A) : result DeserializationError A :=
  match o with Some a => Ok a | None => Err DriverError end.

Definition sample_driver (sz : NativeType -> option nat) : Driver := {|
  d_listlike := mkReader (fun t => match t with CList _ _ | CSet _ _ => true | _ => false end)
    (fun _ bs => or_error ('(n, bs) ← read_count bs; '(l, _) ← read_cells as_native n bs;
                           Some (map (fun w => Ok (Some (encode w))) l)));
  d_map := mkReader (fun t => match t with CMap _ _ _ => true | _ => false end)
    (fun _ bs => or_error ('(n, bs) ← read_count bs;
                           '(l, _) ← read_pairs (fun _ => as_native) (TNative None) (TNative None) n bs;
                           Some (map (fun p => Ok (Some (encode p.1), Some (encode p.2))) l)));
  d_vector := mkReader (fun t => match t with CVector _ _ => true | _ => false end)
    (fun t bs => match t with
                 | CVector e d =>
                     or_error ('(l, _) ← read_elements as_native
                                 (if variable_elements sz e then None else fixed_size (wtype_of sz e)) (Z.to_nat d) bs;
                               Some (map (fun w => Ok (Some (encode w))) l))
                 | _ => Err DriverError
                 end);
  d_udt := mkReader (fun t => match t with CUdt _ _ _ _ => true | _ => false end)
    (fun t bs => match t with
                 | CUdt fs _ _ _ =>
                     or_error ('(l, _) ← read_fields (fun _ => as_native) (map (fun _ => TNative None) fs) bs;
                               Some (zip fs (map (fun o : option wire => Ok (Some (encode <$> o))) l)))
                 | _ => Err DriverError
                 end);
  read_cql_bytes bs := match read_cell bs with Some (c, rest) => (Ok c, rest) | None => (Err DriverError, []) end
|}.

Lemma read_fields_length dec ts bs l rest : read_fields dec ts bs = Some (l, rest) -> length l = length ts.
Proof.
  revert bs l. induction ts as [|t ts IH]; intros bs l; simpl; [by intros [= <- <-]|].
  destruct (read_cell bs) as [[c bs']|]; [|done]. simpl.
  destruct (match c with None => Some None | Some c => Some <$> dec t c end) as [o|]; [|done]. simpl.
  destruct (read_fields dec ts bs') as [[l' r]|] eqn:E; [|done]. intros [= <- <-]. simpl. by erewrite IH.
Qed.

Lemma sample_driver_types sz : driver_types_ok (sample_driver sz).
Proof.
  split; try done. intros fs ks nm fr bs l. simpl.
  destruct (read_fields _ _ bs) as [[l' r]|] eqn:E; simpl; [|done]. intros [= <-].
  apply read_fields_length in E. rewrite length_map in E. rewrite <- (fst_zip fs (map (fun o : option wire => Ok (E := DeserializationError) (Some (encode <$> o))) l')) at 2.
  - done.
  - rewrite length_map. lia.
Qed.

Lemma sample_driver_reads sz : driver_reads sz (sample_driver sz).
Proof.
  split; [apply sample_driver_types|..].
  - intros t l Hl Hn _. cbn [d_listlike d_map sample_driver reads]. rewrite read_count_app by done.
    cbn [mbind option_bind].
    pose proof (read_cells_encode as_native (map WNative l) []) as Hr.
    rewrite length_map, app_nil_r, map_map in Hr. cbn [encode] in Hr.
    change (map (fun x => cell x) l) with (map cell l) in Hr. rewrite Hr.
    + simpl. by rewrite map_map.
    + apply Forall_map. eapply Forall_impl; [exact Hl|]. done.
  - intros t l Hl Hn _. cbn [d_listlike d_map sample_driver reads]. rewrite read_count_app by done.
    cbn [mbind option_bind].
    pose proof (read_pairs_encode (fun _ => as_native) (TNative None) (TNative None)
      (map (fun p => (WNative p.1, WNative p.2)) l) []) as Hr.
    rewrite length_map, app_nil_r, map_map in Hr. cbn [encode fst snd] in Hr. rewrite Hr.
    + simpl. by rewrite map_map.
    + apply Forall_map. eapply Forall_impl; [exact Hl|]. by intros [a b] [? ?].
  - intros e d l Hl Hlen Hfix. simpl. destruct (variable_elements sz e).
    + pose proof (read_elements_variable as_native (map WNative l) []) as Hr.
      rewrite length_map, app_nil_r, map_map, Hlen in Hr. cbn [encode fst snd] in Hr. rewrite Hr.
      * simpl. by rewrite map_map.
      * apply Forall_map. eapply Forall_impl; [exact Hl|]. done.
    + destruct (Hfix eq_refl) as (size & -> & Hsize).
      pose proof (read_elements_fixed as_native size (map WNative l) []) as Hr.
      rewrite length_map, app_nil_r, map_map, Hlen in Hr. cbn [encode fst snd] in Hr. rewrite Hr.
      * simpl. by rewrite map_map.
      * apply Forall_map. eapply Forall_impl; [exact Hsize|]. done.
  - intros fs ks nm fr l Hl Hlen. simpl.
    pose proof (read_fields_encode (fun _ => as_native) (map (fun _ => TNative None) fs) (map (fmap WNative) l) []) as Hr.
    rewrite app_nil_r, map_map in Hr.
    rewrite (map_ext (fun o : option (list Z) => match WNative <$> o with Some x => cell (encode x) | None => null_cell end) opt_cell) in Hr
      by (by intros [x|]).
    rewrite Hr.
    + simpl. rewrite map_map. f_equal. f_equal. apply map_ext. by intros [x|].
    + clear Hr. revert fs Hlen. induction Hl as [|o l Ho Hl IH]; intros [|f fs] Hlen; try done.
      simpl. split; [|apply IH; simpl in Hlen; lia]. by destruct o.
  - intros [bs|] rest Hs; [|done]. cbn [read_cql_bytes sample_driver opt_cell]. by rewrite read_cell_cell.
Qed.

(** ** Properties *)

(** C3: a value sent is the value read.  A value serialized for a column type, put
    into a row and read back through the C API, with the iterators for lists, sets,
    maps, tuples, user types and vectors at any nesting, is shown exactly: the same
    structure, order, nulls and native bytes, where only an empty value of a type
    without empty values shows as null; every loop over an iterator ends after one
    call more than the item count, and no call fails. *)
Theorem bound_value_read_back {R : Type} `{DataTypes R} (W : Writers R) (raw : CassCqlValue R -> list Z)
    (sz : NativeType -> option nat) (D : Driver) (v : CassCqlValue R) (w : wire) (t : ColumnType) :
  writers_ok W raw -> driver_reads sz D ->
  erase raw v = Some w -> has_type (wtype_of sz t) w -> all_small w ->
  exists bytes, do_serialize W true v = Ret (Ok (cell bytes)) /\
    forall name, exists row cv,
      from_raw_row_and_metadata [Ok (mkRawColumn 0 (name, t) (Some bytes))]
        (from_column_specs [(name, t)]) None = Ok row /\
      cass_row_get_column (Some row) 0 = Some cv /\ read_value D t cv = Ret (observe t w).
Proof.
  intros HW HD He Ht Hs. exists (encode w). split.
  { by rewrite (serialize_writes W raw HW v w true). }
  intros name. destruct (value_read_back sz D HD t w Ht Hs) as (rv & Hrv & Hread).
  unfold from_raw_row_and_metadata. cbn [from_column_specs map row_loop mbind result_bind rc_spec rc_slice fst snd].
  rewrite Hrv. eexists _, _. split; [done|]. split; [reflexivity|exact Hread].
Qed.

Definition sample_sizes (n : NativeType) : option nat := match n with NInt => Some 4%nat | _ => None end.

Lemma bound_value_read_back_witness :
  exists bytes, @do_serialize dtree sample_types sample_writers true sample_value = Ret (Ok (cell bytes)) /\
    exists row cv, from_raw_row_and_metadata
        [Ok (mkRawColumn 0 ("c"%string, CMap (CNative NInt) (CVector (CNative NBlob) 2) false) (Some bytes))]
        (from_column_specs [("c"%string, CMap (CNative NInt) (CVector (CNative NBlob) 2) false)]) None = Ok row /\
      cass_row_get_column (Some row) 0 = Some cv /\
      read_value (sample_driver sample_sizes) (CMap (CNative NInt) (CVector (CNative NBlob) 2) false) cv
      = Ret (SMap [(SNative [0; 0; 0; 7], SVec [SNative [1; 2; 3]; SNative []])]).
Proof.
  destruct (@bound_value_read_back dtree sample_types sample_writers sample_raw sample_sizes
    (sample_driver sample_sizes) sample_value
    (WMap [(WNative [0; 0; 0; 7], WVec true [WNative [1; 2; 3]; WNative []])])
    (CMap (CNative NInt) (CVector (CNative NBlob) 2) false)
    sample_writers_ok (sample_driver_reads sample_sizes)) as (bytes & H1 & H2).
  - reflexivity.
  - repeat constructor. discriminate.
  - repeat constructor; reflexivity.
  - exists bytes. split; [exact H1|]. exact (H2 "c"%string).
Defined.

(** C21: the iterators over a value are safe on every frame.  For a value whose data
    type is that of its column, whatever its bytes are, creating any of the iterators
    never panics; an iterator advanced as long as it returns true never panics either,
    and every value it hands out again has the data type of its column, so the same
    holds for the iterators made from it. *)
Theorem value_iterators_safe (D : Driver) (v : CassValue) :
  driver_types_ok D -> value_ok v ->
  (exists r, cass_iterator_from_collection D (Some v) = Ret r) /\
  (exists r, cass_iterator_from_map D (Some v) = Ret r) /\
  (exists r, cass_iterator_from_tuple (Some v) = Ret r) /\
  (exists r, cass_iterator_from_vector D (Some v) = Ret r) /\
  (exists r, cass_iterator_fields_from_user_type D (Some v) = Ret r) /\
  (forall it it', made_from D v it -> rtc (advances D) it it' ->
     (exists r, cass_iterator_next D (Some it') = Ret r) /\ (forall v', gives it' v' -> value_ok v')).
Proof.
  intros HD Hv. destruct (iterators_made D HD v Hv) as ((? & -> & _) & (? & -> & _) & (? & -> & _) & (? & -> & _) & (? & -> & _)).
  split_and!; try (by eexists). intros it it' Hm Hs.
  assert (Hit : iterator_typed it') by (eapply advances_typed; [|exact Hs]; by eapply made_typed).
  split.
  - destruct (next_typed D it' Hit) as (b & it2 & Hn & _). simpl. rewrite Hn. by eexists.
  - intros v' Hg. by eapply gives_typed.
Qed.

Definition broken_tuple_type : ColumnType :=
  CTuple [CList (CNative NInt) false; CTuple [CNative NInt]].

(** A tuple whose first element, a list, is cut off in its length. *)
Definition broken_tuple : CassValue :=
  mkValue (mkRawValue broken_tuple_type (Some (cell [0] ++ cell (cell [0; 0; 0; 7]))) (Some 2))
    (get_column_type broken_tuple_type).

Lemma value_iterators_safe_witness :
  exists r, cass_iterator_from_tuple (Some broken_tuple) = Ret r.
Proof.
  exact (proj1 (proj2 (proj2 (value_iterators_safe (sample_driver sample_sizes) broken_tuple
    (sample_driver_types sample_sizes) eq_refl)))).
Defined.

(** *** Tuples with elements that cannot be decoded *)

Section Undecodable.
Variable D : Driver.

(** The elements of a tuple as the protocol lays them out, one for each component of
    the type: [None] is one that is missing or cannot be decoded. *)
Fixpoint elements (types : list ColumnType) (slice : list Z) : list (option CassRawValue) :=
  match types with
  | [] => []
  | t :: types =>
      match slice with
      | [] => None :: elements types []
      | _ =>
          let '(read, rest) := read_cql_bytes D slice in
          match read with
          | Ok raw => match raw_deserialize t raw with Ok v => Some v | Err _ => None end
          | Err _ => None
          end :: elements types rest
      end
  end.

(** How many of the elements are not decoded. *)
Definition undecoded (es : list (option CassRawValue)) : nat := length (filter (.= None) es).

(** The iterator after [n] calls. *)
Fixpoint after (n : nat) (it : option CassIteratorInner) : outcome (option CassIteratorInner) :=
  match n with
  | O => Ret it
  | S n => '(_, it) ← cass_iterator_next D it; after n it
  end.

Lemma tuple_next_element all t rest slice metas cur dt :
  metas !! next_index cur = Some dt ->
  exists e slice', elements (t :: rest) slice = e :: elements rest slice' /\
    tuple_next D (mkCassTuple (mkTupleIterator all (t :: rest) slice) metas cur)
    = Ret match e with
          | Some raw => (true, mkCassTuple (mkTupleIterator all rest slice') metas
                                 (Some (mkValue raw dt, next_index cur)))
          | None => (false, mkCassTuple (mkTupleIterator all rest slice') metas cur)
          end.
Proof.
  intros Hdt. unfold tuple_next, tuple_iterator_next. simpl. destruct slice as [|b slice].
  { by exists None, []. }
  simpl. destruct (read_cql_bytes D (b :: slice)) as [[raw|e] slice']; simpl;
    [|by exists None, slice'].
  destruct (raw_deserialize t raw) as [v|e]; [|by exists None, slice'].
  exists (Some v), slice'. by rewrite Hdt.
Qed.

(** Where an iterator is after any number of calls: behind as many elements, with the
    index of its next entry behind the decoded ones only. *)
Lemma after_elements n all rest slice metas cur :
  (next_index cur + length rest <= length metas)%nat ->
  exists rest' slice' cur',
    after n (Some (ITuple (mkCassTuple (mkTupleIterator all rest slice) metas cur)))
    = Ret (Some (ITuple (mkCassTuple (mkTupleIterator all rest' slice') metas cur'))) /\
    elements rest' slice' = drop n (elements rest slice) /\
    (next_index cur' + undecoded (take n (elements rest slice))
     = next_index cur + length (take n (elements rest slice)))%nat /\
    (next_index cur' + length rest' <= length metas)%nat.
Proof.
  revert rest slice cur. induction n as [|n IH]; intros rest slice cur Hlen.
  { exists rest, slice, cur. split_and!; [done|by rewrite drop_0|unfold undecoded; simpl; lia|done]. }
  cbn [after cass_iterator_next inner_next]. destruct rest as [|t rest].
  { destruct (IH [] slice cur Hlen) as (rest' & slice' & cur' & Ha & He & Hi & Hl).
    exists rest', slice', cur'. split; [exact Ha|]. simpl in *. rewrite drop_nil in He.
    by rewrite take_nil in Hi. }
  destruct (lookup_lt_is_Some_2 metas (next_index cur)) as [dt Hdt]; [simpl in Hlen; lia|].
  destruct (tuple_next_element all t rest slice metas cur dt Hdt) as (e & slice' & -> & ->).
  simpl in Hlen. destruct e as [raw|]; simpl.
  - destruct (IH rest slice' (Some (mkValue raw dt, next_index cur))) as (rest' & s & cur' & Ha & He & Hi & Hl);
      [simpl; lia|]. exists rest', s, cur'. split_and!; [exact Ha|exact He| |exact Hl].
    unfold undecoded in *. rewrite filter_cons_False by done. simpl in Hi. lia.
  - destruct (IH rest slice' cur) as (rest' & s & cur' & Ha & He & Hi & Hl); [lia|].
    exists rest', s, cur'. split_and!; [exact Ha|exact He| |exact Hl].
    unfold undecoded in *. rewrite filter_cons_True by done. simpl. lia.
Qed.

Lemma tuple_type_mismatch raw dt ts bs :
  typ raw = CTuple ts -> raw_slice raw = Some bs -> (forall ms, dt <> Node (DTuple ms)) ->
  cass_iterator_from_tuple (Some (mkValue raw dt)) = Panic.
Proof.
  destruct raw as [ty sl m]. simpl. intros -> -> Hdt. cbn.
  destruct dt as [[]]; try reflexivity. by edestruct Hdt.
Qed.

End Undecodable.

(** C40: a tuple iterator goes out of step.  Call by call it visits the elements of the
    tuple in order: a call returns true and hands out the element iff it can be decoded.
    But the data type it hands out with element [i] is that of component [i - k], where
    [k] is the number of earlier elements that could not be decoded, so after a first such
    element every later one has the data type of another component.  Where such an element
    is itself a tuple and that data type is not, making an iterator from it panics. *)
Theorem tuple_iterator_out_of_step (D : Driver) (value : CassValue) (types : list ColumnType)
    (metas : list dtree) (bs : list Z) (i : nat) :
  typ (cv_value value) = CTuple types -> raw_slice (cv_value value) = Some bs ->
  cv_type value = Node (DTuple metas) -> length metas = length types ->
  exists it it1 it2 b,
    cass_iterator_from_tuple (Some value) = Ret (Some it) /\
    after D i (Some it) = Ret it1 /\ cass_iterator_next D it1 = Ret (b, it2) /\
    match elements D types bs !! i with
    | Some (Some raw) =>
        b = true /\ exists dt, metas !! (i - undecoded (take i (elements D types bs)))%nat = Some dt /\
          cass_iterator_get_value it2 = Some (mkValue raw dt) /\
          (forall ts bs', typ raw = CTuple ts -> raw_slice raw = Some bs' ->
             (forall ms, dt <> Node (DTuple ms)) ->
             cass_iterator_from_tuple (Some (mkValue raw dt)) = Panic)
    | _ => b = false /\ cass_iterator_get_value it2 = cass_iterator_get_value it1
    end.
Proof.
  intros Ht Hs Hc Hlen. destruct value as [v dt]. simpl in *. subst dt.
  set (st := mkCassTuple (mkTupleIterator types types bs) metas None).
  assert (Hnew : cass_iterator_from_tuple (Some (mkValue v (Node (DTuple metas)))) = Ret (Some (ITuple st))).
  { destruct v as [ty sl m]. simpl in *. by subst ty sl. }
  destruct (after_elements D i types types bs metas None) as (rest & slice & cur & Ha & He & Hi & Hl);
    [simpl; lia|]. fold st in Ha.
  rewrite <- (Nat.add_0_r i), <- lookup_drop, Nat.add_0_r, <- He.
  destruct rest as [|t rest].
  { eexists _, _, _, _. split; [exact Hnew|]. split; [exact Ha|]. by split. }
  destruct (lookup_lt_is_Some_2 metas (next_index cur)) as [dt Hdt]; [simpl in Hl; lia|].
  destruct (tuple_next_element D types t rest slice metas cur dt Hdt) as (e & slice' & Hel & Hn).
  assert (Hidx : (i - undecoded (take i (elements D types bs)))%nat = next_index cur).
  { assert (Hlt : (0 < length (drop i (elements D types bs)))%nat) by (rewrite <- He, Hel; simpl; lia).
    rewrite length_drop in Hlt. simpl in Hi. rewrite length_take in Hi. lia. }
  assert (Hnext : cass_iterator_next D (Some (ITuple (mkCassTuple (mkTupleIterator types (t :: rest) slice) metas cur)))
    = '(b, i) ← tuple_next D (mkCassTuple (mkTupleIterator types (t :: rest) slice) metas cur);
      Ret (b, Some (ITuple i))).
  { cbn [cass_iterator_next inner_next]. by destruct (tuple_next D _) as [[]| |]. }
  rewrite Hn in Hnext. rewrite Hel, Hidx. destruct e as [raw|]; simpl in *.
  - eexists _, _, _, _. split; [exact Hnew|]. split; [exact Ha|]. split; [exact Hnext|].
    split; [done|]. exists dt. split_and!; [done|done|]. intros ts bs'. apply tuple_type_mismatch.
  - eexists _, _, _, _. split; [exact Hnew|]. split; [exact Ha|]. split; [exact Hnext|]. done.
Qed.
Lemma tuple_iterator_out_of_step_witness :
  exists it it1 it2,
    cass_iterator_from_tuple (Some broken_tuple) = Ret (Some it) /\
    after (sample_driver sample_sizes) 1 (Some it) = Ret it1 /\
    cass_iterator_next (sample_driver sample_sizes) it1 = Ret (true, it2) /\
    exists v, cass_iterator_get_value it2 = Some v /\ ~ value_ok v /\
      cass_iterator_from_tuple (Some v) = Panic.
Proof.
  destruct (tuple_iterator_out_of_step (sample_driver sample_sizes) broken_tuple
    [CList (CNative NInt) false; CTuple [CNative NInt]]
    (map get_column_type [CList (CNative NInt) false; CTuple [CNative NInt]])
    (cell [0] ++ cell (cell [0; 0; 0; 7])) 1 eq_refl eq_refl eq_refl eq_refl)
    as (it & it1 & it2 & b & H1 & H2 & H3 & H4).
  vm_compute in H4. destruct H4 as (-> & dt & Hdt & Hv & Hp). injection Hdt as <-.
  exists it, it1, it2. split; [exact H1|]. split; [exact H2|]. split; [exact H3|].
  eexists. split; [exact Hv|]. split; [vm_compute; discriminate|].
  eapply Hp; [reflexivity|reflexivity|discriminate].
Defined.
(** C31: iterating over a result.  The iterator of a result visits its rows in order,
    each once, up to the end or to the first row that cannot be deserialized, and
    then returns false; the first row of the result is the first row visited. *)
Theorem result_rows_visited {Coord : Type} (D : Driver) (specs : list ColumnSpec) (rows : RawRows)
    (tracing_id : option Z) (coordinator : option Coord) (paging : PagingStateResponse)
    (cached : option (list ColumnSpec -> option CassResultMetadata)) (r : CassResult Coord) :
  from_result_payload (RowsResult specs rows tracing_id coordinator) paging cached = Ok r ->
  exists md visited k,
    drain D cass_iterator_get_row (S (length (rows_iter rows))) (cass_iterator_from_result (Some r)) = Ret visited /\
    Forall2 (fun raw row => decoded md raw = Ok row) (take k (rows_iter rows)) visited /\
    (k = length (rows_iter rows) \/ exists raw e, rows_iter rows !! k = Some raw /\ decoded md raw = Err e) /\
    cass_result_first_row (Some r) = head visited.
Proof.
  unfold from_result_payload. set (md := match _ with Some m => m | None => _ end). intros Hr.
  unfold init_first_row in Hr. cbn [raw_rows metadata] in Hr.
  destruct (drain_rows D (rows_iter rows) md None (S (length (rows_iter rows)))) as (visited & Hd & k & Hk & Hend); [lia|].
  exists md, visited, k.
  destruct (rows_iter rows) as [|raw l] eqn:El.
  { injection Hr as <-. rewrite take_nil in Hk. inversion Hk; subst.
    split_and!; [simpl; by rewrite El|by rewrite take_nil|exact Hend|done]. }
  destruct raw as [raw|]; [|done]. simpl in Hr.
  destruct (from_raw_row_and_metadata raw md None) as [row|e] eqn:E; simplify_eq/=.
  rewrite El. split_and!; [exact Hd|exact Hk|exact Hend|].
  destruct k as [|k].
  - destruct Hend as [|(r & e & Hr & He)]; [done|]. simplify_eq/=. unfold decoded in He. simpl in He. congruence.
  - simpl in Hk. inversion Hk as [|? row' ? ? Hrow]; subst. unfold decoded in Hrow. simpl in *. congruence.
Qed.

Lemma result_rows_visited_witness :
  let specs := [("a"%string, CNative NInt)] in
  let rows := mkRawRows 2 [Ok [Ok (mkRawColumn 0 ("a"%string, CNative NInt) (Some [0; 0; 0; 1]))];
                           Ok [Ok (mkRawColumn 0 ("a"%string, CNative NInt) None)]] in
  exists r visited, from_result_payload (RowsResult specs rows None (Some 0%nat)) NoMorePages None = Ok r /\
    drain (sample_driver sample_sizes) cass_iterator_get_row 3 (cass_iterator_from_result (Some r)) = Ret visited /\
    cass_result_first_row (Some r) = head visited.
Proof.
  intros specs rows. eexists.
  destruct (result_rows_visited (sample_driver sample_sizes) specs rows None (Some 0%nat) NoMorePages None _ eq_refl)
    as (md & visited & k & Hd & _ & _ & Hf).
  exists visited. split; [reflexivity|]. split; [exact Hd|exact Hf].
Defined.

(** The iterators over schema metadata visit everything once.  Whatever the order
    of the hash maps, draining the iterator of keyspaces, tables, views, user types or
    columns gives each entry of the map exactly once, with one call to
    [cass_iterator_next] more than there are entries. *)
Theorem metadata_iterators_complete `{HashOrder, !HashOrderOk} (D : Driver) (schema : CassSchemaMeta)
    (ks : CassKeyspaceMeta) (table : CassTable) (view : CassMaterializedViewMeta) :
  let visits {V} (get : option CassIteratorInner -> option V) (it : option CassIteratorInner) (m : gmap string V) :=
    exists l, drain D get (S (size m)) it = Ret l /\ l ≡ₚ (map_to_list m).*2 in
  visits cass_iterator_get_keyspace_meta (cass_iterator_keyspaces_from_schema_meta (Some schema)) schema /\
  visits cass_iterator_get_table_meta (cass_iterator_tables_from_keyspace_meta (Some ks)) (km_tables ks) /\
  visits cass_iterator_get_user_type (cass_iterator_user_types_from_keyspace_meta (Some ks))
    (user_defined_type_data_type ks) /\
  visits cass_iterator_get_materialized_view_meta
    (cass_iterator_materialized_views_from_keyspace_meta (Some ks)) (km_views ks) /\
  visits cass_iterator_get_materialized_view_meta
    (cass_iterator_materialized_views_from_table_meta (Some table)) (tm_views table) /\
  visits cass_iterator_get_column_meta (cass_iterator_columns_from_table_meta (Some table)) (columns_metadata table) /\
  visits cass_iterator_get_column_meta (cass_iterator_columns_from_materialized_view_meta (Some view))
    (columns_metadata (view_metadata view)).
Proof.
  intros visits.
  assert (Hv : forall A V (mk : PositionIterator A -> CassIteratorInner) (get : option CassIteratorInner -> option V)
      (a : A) (m : gmap string V),
    (forall i, inner_next D (mk i) = Ret ((position_next i).1, mk (position_next i).2)) ->
    (forall c q, get (Some (mk (mkPosition a c (Some q)))) = snd <$> hash_iter m !! q) ->
    visits V get (Some (mk (mkPosition a (size m) None))) m).
  { intros A V mk get a m Hn Hg. exists (hash_iter m).*2.
    assert (Hs : size m = length (hash_iter m).*2).
    { by rewrite length_fmap, (Permutation_length (hash_iter_perm m)), length_map_to_list. }
    rewrite Hs. split; [|by rewrite (hash_iter_perm m)].
    rewrite (drain_position D mk get a _ None); [by rewrite drop_0|done| |lia|lia].
    intros c q. by rewrite Hg, list_lookup_fmap. }
  split_and!; (apply Hv; [done|]); intros c q; done.
Qed.

Lemma metadata_iterators_complete_witness :
  let view := mkViewMeta "v" (mkTableMeta "v" ∅ [] [] [] ∅) "t" in
  let table : CassTable := mkTableMeta "t" ∅ [] [] [] {["v"%string := view]} in
  let ks := mkKeyspaceMeta "k" ∅ {["t"%string := table]} {["v"%string := view]} in
  exists l, drain (sample_driver sample_sizes) cass_iterator_get_keyspace_meta 2
              (cass_iterator_keyspaces_from_schema_meta (Some {["k"%string := ks]})) = Ret l /\ l ≡ₚ [ks].
Proof.
  intros view table ks.
  destruct (metadata_iterators_complete (sample_driver sample_sizes) {["k"%string := ks]} ks table view)
    as [(l & Hd & Hl) _].
  exists l. split; [exact Hd|]. rewrite Hl. reflexivity.
Defined.
