(* ===== verification/RetryPolicy.v ===== *)
(** * Retry policies (retry_policy.rs)

    The three leaf policies are the Rust driver's and are a parameter: a machine that
    is started for each request, decides what to do after a failed attempt and can be
    reset.  The logging policy of this library wraps such a machine and reports the
    decisions; [run] drives a machine the way the driver does. *)

From Stdlib Require Import ZArith Lia.
From stdpp Require Import base list.
From S2P Require Import Prelude ConfigValue.

(** [RetryDecision]; the last constructor stands for the variants the catch-all branch
    of the logger matches besides [DontRetry]. *)
Inductive RetryDecision :=
| RetrySameTarget (consistency : option Consistency)
| RetryNextTarget (consistency : option Consistency)
| DontRetry
| IgnoreWriteError
| RetryDecision_unknown.

Section RetryPolicies.
(** The error of [RequestInfo], and the rest of it that is passed on untouched. *)
Context {Error Rest : Type}.

Record RequestInfo := mkInfo { info_error : Error; info_consistency : Consistency; info_rest : Rest }.

(** A line written by the logger. *)
Inductive log_line :=
| LogSameTarget (e : Error) (initial : Consistency) (new : option Consistency)
| LogNextTarget (e : Error) (initial : Consistency) (new : option Consistency)
| LogIgnored (e : Error).

(** [Box<dyn RetrySession>]: its state is hidden. *)
Record RetrySession := mkSession {
  session_state : Type;
  initial_state : session_state;
  decide_should_retry : session_state -> RequestInfo -> RetryDecision * list log_line * session_state;
  reset : session_state -> session_state
}.

(** The line the logger writes for a decision, if any. *)
Definition logged (info : RequestInfo) (decision : RetryDecision) : list log_line :=
  match decision with
  | RetrySameTarget c => [LogSameTarget (info_error info) (info_consistency info) c]
  | RetryNextTarget c => [LogNextTarget (info_error info) (info_consistency info) c]
  | IgnoreWriteError => [LogIgnored (info_error info)]
  | _ => []
  end.

(** [CassLoggingRetrySession]: the child decides first, then the decision is logged. *)
Definition CassLoggingRetrySession (child_session : RetrySession) : RetrySession := {|
  session_state := session_state child_session;
  initial_state := initial_state child_session;
  decide_should_retry s info :=
    let '(decision, log, s') := decide_should_retry child_session s info in
    (decision, log ++ logged info decision, s');
  reset s := reset child_session s
|}.

(** The sessions of the driver's own policies. *)
Record LeafPolicies := mkLeaves {
  default_session : RetrySession;
  fallthrough_session : RetrySession;
  downgrading_session : RetrySession
}.

(** [RetryPolicy::new_session] of [CassRetryPolicy] and [CassLoggingRetryPolicy]. *)
Fixpoint new_session (leaves : LeafPolicies) (policy : CassRetryPolicy) : RetrySession :=
  match policy with
  | RetryDefault => default_session leaves
  | RetryFallthrough => fallthrough_session leaves
  | RetryDowngradingConsistency => downgrading_session leaves
  | RetryLogging child_policy => CassLoggingRetrySession (new_session leaves child_policy)
  end.

Definition cass_retry_policy_default_new : CassRetryPolicy := RetryDefault.
Definition cass_retry_policy_downgrading_consistency_new : CassRetryPolicy :=
  RetryDowngradingConsistency.
Definition cass_retry_policy_fallthrough_new : CassRetryPolicy := RetryFallthrough.

Definition cass_retry_policy_logging_new (child_policy_raw : option CassRetryPolicy)
  : option CassRetryPolicy :=
  match child_policy_raw with None => None | Some child_policy => Some (RetryLogging child_policy) end.

(** ** Driving a session *)

Inductive event := Failed (info : RequestInfo) | ResetSession.

(** The decision taken for each failure, and everything that was logged. *)
Fixpoint run (m : RetrySession) (s : session_state m) (es : list event)
  : list (RequestInfo * RetryDecision) * list log_line :=
  match es with
  | [] => ([], [])
  | Failed info :: es =>
      let '(d, log, s') := decide_should_retry m s info in
      let '(ds, logs) := run m s' es in ((info, d) :: ds, log ++ logs)
  | ResetSession :: es => run m (reset m s) es
  end.

Definition run_policy leaves policy es :=
  let m := new_session leaves policy in run m (initial_state m) es.

(** The policy under the logging wrappers and how many of them there are. *)
Fixpoint innermost (policy : CassRetryPolicy) : CassRetryPolicy :=
  match policy with RetryLogging child => innermost child | p => p end.
Fixpoint wrappers (policy : CassRetryPolicy) : nat :=
  match policy with RetryLogging child => S (wrappers child) | _ => O end.

(** A leaf policy logs nothing itself. *)
Definition quiet (m : RetrySession) : Prop :=
  forall s info, snd (fst (decide_should_retry m s info)) = [].
Definition quiet_leaves (leaves : LeafPolicies) : Prop :=
  quiet (default_session leaves) /\ quiet (fallthrough_session leaves) /\
  quiet (downgrading_session leaves).

(** What [n] wrappers write for one decision. *)
Fixpoint repeat_log (n : nat) (log : list log_line) : list log_line :=
  match n with O => [] | S n => repeat_log n log ++ log end.

Lemma repeat_log_nil n : repeat_log n [] = [].
Proof. induction n as [|n IH]; [done|]. cbn. by rewrite IH. Qed.

Lemma repeat_log_line n x : repeat_log n [x] = replicate n x.
Proof. induction n as [|n IH]; [done|]. cbn [repeat_log]. rewrite IH. symmetry. apply (replicate_S_end n x). Qed.

Lemma decide_leaves leaves policy :
  quiet_leaves leaves ->
  exists f : session_state (new_session leaves policy) -> session_state (new_session leaves (innermost policy)),
    f (initial_state (new_session leaves policy)) = initial_state (new_session leaves (innermost policy)) /\
    (forall s, f (reset (new_session leaves policy) s) = reset (new_session leaves (innermost policy)) (f s)) /\
    (forall s info, exists d s',
       decide_should_retry (new_session leaves policy) s info =
         (d, repeat_log (wrappers policy) (logged info d), s') /\
       decide_should_retry (new_session leaves (innermost policy)) (f s) info = (d, [], f s')).
Proof.
  intros (H1 & H2 & H3).
  assert (Hq : forall m, quiet m -> forall s info, exists d s',
             decide_should_retry m s info = (d, [], s')).
  { intros m Hm s info. specialize (Hm s info).
    destruct (decide_should_retry m s info) as [[d l] s']. cbn in Hm. subst. eauto. }
  induction policy as [| | |child IH]; cbn.
  1-3: exists id; split_and!; try done; intros s info;
       match goal with Hm : quiet ?m |- context [decide_should_retry ?m] =>
         destruct (Hq m Hm s info) as (d & s' & E); exists d, s'; by rewrite E end.
  destruct IH as (f & Hi & Hr & Hd). exists f. split_and!; [done..|]. intros s info.
  destruct (Hd s info) as (d & s' & E1 & E2). exists d, s'. by rewrite E1.
Qed.


End RetryPolicies.

(** A leaf that retries once on the next node: enough to see the wrapper work. *)
Definition retry_once : @RetrySession nat unit := {|
  session_state := bool; initial_state := false;
  decide_should_retry s _ := (if s then DontRetry else RetryNextTarget None, [], true);
  reset _ := false
|}.

