(* ===== verification/Runtime.v ===== *)
(** * Tokio runtimes (runtime.rs, [CassCluster::get_runtime])

    The process-wide cache of runtimes.  The cache holds weak pointers, so a runtime
    lives as long as a session or future holds it; [alive] is the set of runtimes with
    their number of strong references.  Creating a runtime is the operating system's
    doing and may fail, which is an argument of the operations. *)

From Stdlib Require Import ZArith Lia.
From stdpp Require Import base gmap relations.
From S2P Require Import Prelude.

Open Scope Z_scope.

(** How a runtime was built: with the default number of workers, with [n] of them, or
    on the calling thread. *)
Inductive flavour := DefaultThreads | WorkerThreads (n : Z) | CurrentThread.

#[global] Instance flavour_eq_dec : EqDecision flavour.
Proof. solve_decision. Defined.

(** [Weak<Runtime>]; [None] is [Weak::new()]. *)
Definition weak : Type := option positive.

Record runtime := mkRuntime { built : flavour; strong : nat }.

Record Runtimes := mkRuntimes {
  default_slot : option weak;
  n_thread_runtimes : option (gmap Z weak);
  alive : gmap positive runtime;
  next_id : positive
}.

#[export] Instance Runtimes_eta : Eta Runtimes := fun r =>
  mkRuntimes (default_slot r) (n_thread_runtimes r) (alive r) (next_id r).

(** The static [RUNTIMES]. *)
Definition RUNTIMES : Runtimes := mkRuntimes None None ∅ 1%positive.

Definition upgrade (w : weak) (rs : Runtimes) : option (positive * Runtimes) :=
  id ← w; r ← alive rs !! id;
  Some (id, rs <| alive := <[id := mkRuntime (built r) (S (strong r))]> (alive rs) |>).

(** A new runtime with one reference. *)
Definition create_runtime (f : flavour) (rs : Runtimes) : positive * Runtimes :=
  let id := next_id rs in
  (id, rs <| alive := <[id := mkRuntime f 1]> (alive rs) |> <| next_id := Pos.succ id |>).

(** [cached_or_new_runtime]: the runtime, the new content of the slot, the state. *)
Definition cached_or_new_runtime (w : weak) (f : flavour) (created : bool) (rs : Runtimes)
  : result unit positive * weak * Runtimes :=
  match upgrade w rs with
  | Some (id, rs) => (Ok id, w, rs)
  | None =>
      if created then let '(id, rs) := create_runtime f rs in (Ok id, Some id, rs)
      else (Err tt, w, rs)
  end.

Definition default_runtime (created : bool) (rs : Runtimes) : result unit positive * Runtimes :=
  let w := match default_slot rs with Some w => w | None => None end in
  let '(r, w, rs) := cached_or_new_runtime w DefaultThreads created rs in
  (r, rs <| default_slot := Some w |>).

Definition n_thread_flavour (n_threads : Z) : flavour :=
  if n_threads =? 0 then CurrentThread else WorkerThreads n_threads.

Definition n_thread_runtime (n_threads : Z) (created : bool) (rs : Runtimes)
  : result unit positive * Runtimes :=
  let slots := match n_thread_runtimes rs with Some m => m | None => ∅ end in
  let w := match slots !! n_threads with Some w => w | None => None end in
  let '(r, w, rs) := cached_or_new_runtime w (n_thread_flavour n_threads) created rs in
  (r, rs <| n_thread_runtimes := Some (<[n_threads := w]> slots) |>).

(** [CassCluster::get_runtime]. *)
Definition get_runtime (num_threads_io : option Z) (created : bool) (rs : Runtimes)
  : outcome (positive * Runtimes) :=
  let '(r, rs) :=
    match num_threads_io with
    | Some n => n_thread_runtime n created rs
    | None => default_runtime created rs
    end in
  match r with Ok id => Ret (id, rs) | Err _ => Panic end.

(** A strong reference is copied or dropped; the last one shuts the runtime down. *)
Definition clone_runtime (id : positive) (rs : Runtimes) : Runtimes :=
  rs <| alive := alter (fun r => mkRuntime (built r) (S (strong r))) id (alive rs) |>.

Definition drop_runtime (id : positive) (rs : Runtimes) : Runtimes :=
  match alive rs !! id with
  | Some (mkRuntime f (S (S n))) => rs <| alive := <[id := mkRuntime f (S n)]> (alive rs) |>
  | Some _ => rs <| alive := delete id (alive rs) |>
  | None => rs
  end.

(** The flavour a cluster asks for. *)
Definition wanted (num_threads_io : option Z) : flavour :=
  match num_threads_io with
  | None => DefaultThreads
  | Some 0 => CurrentThread
  | Some n => WorkerThreads n
  end.

(** ** Reachable states *)

Inductive runtimes_step : Runtimes -> Runtimes -> Prop :=
| step_get threads created rs id rs' :
    get_runtime threads created rs = Ret (id, rs') -> runtimes_step rs rs'
| step_clone id rs : is_Some (alive rs !! id) -> runtimes_step rs (clone_runtime id rs)
| step_drop id rs : is_Some (alive rs !! id) -> runtimes_step rs (drop_runtime id rs).

Definition reachable (rs : Runtimes) : Prop := rtc runtimes_step RUNTIMES rs.

(** The slot of a flavour. *)
Definition slot_of (threads : option Z) (rs : Runtimes) : weak :=
  match threads with
  | None => match default_slot rs with Some w => w | None => None end
  | Some n => match n_thread_runtimes rs with Some m => match m !! n with Some w => w | None => None end
                                            | None => None end
  end.

(** Every live runtime is the one its slot points to, and nothing in the cache is
    newer than the counter. *)
Record runtimes_ok (rs : Runtimes) : Prop := {
  ok_slot : forall id r, alive rs !! id = Some r ->
    exists threads, built r = wanted threads /\ slot_of threads rs = Some id;
  ok_built : forall threads id r, slot_of threads rs = Some id -> alive rs !! id = Some r ->
    built r = wanted threads;
  ok_fresh : forall threads id, slot_of threads rs = Some id -> (id < next_id rs)%positive;
  ok_strong : forall id r, alive rs !! id = Some r -> (0 < strong r)%nat
}.

Lemma n_thread_wanted n : n_thread_flavour n = wanted (Some n).
Proof. by destruct n. Qed.

Lemma wanted_inj a b : wanted a = wanted b -> a = b.
Proof. destruct a as [[]|], b as [[]|]; cbn; congruence. Qed.

Definition set_slot (threads : option Z) (w : weak) (rs : Runtimes) : Runtimes :=
  match threads with
  | None => rs <| default_slot := Some w |>
  | Some n => rs <| n_thread_runtimes := Some (<[n := w]> (default ∅ (n_thread_runtimes rs))) |>
  end.

Lemma slot_set_same threads w rs : slot_of threads (set_slot threads w rs) = w.
Proof. destruct threads; cbn; [|done]. by rewrite lookup_insert_eq. Qed.

Lemma slot_set_other t t' w rs : t <> t' -> slot_of t (set_slot t' w rs) = slot_of t rs.
Proof.
  destruct t as [n|], t' as [m|]; cbn; intros H; try done.
  rewrite lookup_insert_ne by congruence. destruct (n_thread_runtimes rs); cbn; [done|].
  by rewrite lookup_empty.
Qed.

Lemma alive_set t w rs : alive (set_slot t w rs) = alive rs.
Proof. by destruct t. Qed.

Lemma next_set t w rs : next_id (set_slot t w rs) = next_id rs.
Proof. by destruct t. Qed.

(** The live runtime a slot points to. *)
Definition cached (threads : option Z) (rs : Runtimes) : option (positive * runtime) :=
  id ← slot_of threads rs; r ← alive rs !! id; Some (id, r).

(** The two cases of [get_runtime]. *)
Lemma get_runtime_cases threads created rs :
  get_runtime threads created rs =
  match cached threads rs with
  | Some (id, r) =>
      Ret (id, set_slot threads (Some id)
                 (rs <| alive := <[id := mkRuntime (built r) (S (strong r))]> (alive rs) |>))
  | None =>
      if created then
        Ret (next_id rs, set_slot threads (Some (next_id rs)) (create_runtime (wanted threads) rs).2)
      else Panic
  end.
Proof.
  assert (H : get_runtime threads created rs =
    match cached_or_new_runtime (slot_of threads rs) (wanted threads) created rs with
    | (Ok id, w, rs) => Ret (id, set_slot threads w rs)
    | (Err _, _, _) => Panic
    end).
  { unfold get_runtime, wanted. destruct threads as [n|].
    - unfold n_thread_runtime. rewrite n_thread_wanted.
      replace (match match n_thread_runtimes rs with Some m => m | None => ∅ end !! n with
               | Some w => w | None => None end) with (slot_of (Some n) rs).
      2: { cbn. destruct (n_thread_runtimes rs); [done|]. by rewrite lookup_empty. }
      unfold cached_or_new_runtime, upgrade, create_runtime, set_slot.
      destruct (slot_of (Some n) rs) as [id|]; cbn; [destruct (alive rs !! id); cbn|];
        destruct created; cbn; by destruct (n_thread_runtimes rs).
    - unfold slot_of, default_runtime, cached_or_new_runtime, upgrade, create_runtime.
      destruct (default_slot rs) as [[id|]|]; cbn; [destruct (alive rs !! id); cbn| |];
        by destruct created. }
  rewrite H. unfold cached, cached_or_new_runtime, upgrade.
  destruct (slot_of threads rs) as [id|]; cbn; [destruct (alive rs !! id); cbn; [done|]|];
    by destruct created.
Qed.

Lemma cached_Some threads rs id r :
  cached threads rs = Some (id, r) <-> slot_of threads rs = Some id /\ alive rs !! id = Some r.
Proof.
  unfold cached. destruct (slot_of threads rs) as [id'|]; cbn; [|naive_solver].
  destruct (alive rs !! id') eqn:E; cbn; naive_solver.
Qed.

(** A runtime of the flavour a cluster wants is the cached one. *)
Lemma cached_wanted threads rs id r :
  runtimes_ok rs -> alive rs !! id = Some r -> built r = wanted threads ->
  cached threads rs = Some (id, r).
Proof.
  intros Hok Ha Hb. apply cached_Some. destruct (ok_slot _ Hok _ _ Ha) as (t & Ht & Hs).
  assert (t = threads) as -> by (apply wanted_inj; congruence). done.
Qed.


Lemma create_alive f rs : alive (create_runtime f rs).2 = <[next_id rs := mkRuntime f 1]> (alive rs).
Proof. done. Qed.

Lemma create_slot t f rs : slot_of t (create_runtime f rs).2 = slot_of t rs.
Proof. by destruct t. Qed.

(** Nothing live is as new as the counter. *)
Lemma next_dead rs : runtimes_ok rs -> alive rs !! next_id rs = None.
Proof.
  intros Hok. destruct (alive rs !! next_id rs) eqn:E; [|done].
  destruct (ok_slot _ Hok _ _ E) as (t & _ & Hs). apply (ok_fresh _ Hok) in Hs. lia.
Qed.

(** The invariant sees the slots, the live runtimes and the counter, and of a runtime
    only how it was built and that it is referenced. *)
Lemma ok_ext rs rs' :
  runtimes_ok rs -> next_id rs' = next_id rs -> (forall t, slot_of t rs' = slot_of t rs) ->
  (forall j r, alive rs' !! j = Some r ->
     (0 < strong r)%nat /\ exists r0, alive rs !! j = Some r0 /\ built r = built r0) ->
  runtimes_ok rs'.
Proof.
  intros Hok Hn Hs Ha. split.
  - intros j r H. destruct (Ha _ _ H) as (_ & r0 & H0 & ->). setoid_rewrite Hs.
    by apply (ok_slot _ Hok) in H0.
  - intros t j r H1 H. destruct (Ha _ _ H) as (_ & r0 & H0 & ->). rewrite Hs in H1.
    by eapply (ok_built _ Hok).
  - intros t j. rewrite Hs, Hn. apply (ok_fresh _ Hok).
  - intros j r H. by destruct (Ha _ _ H).
Qed.

Lemma cached_ok threads rs id r n :
  runtimes_ok rs -> cached threads rs = Some (id, r) ->
  runtimes_ok (set_slot threads (Some id)
                 (rs <| alive := <[id := mkRuntime (built r) (S n)]> (alive rs) |>)).
Proof.
  intros Hok [Hs Ha]%cached_Some. apply (ok_ext rs); [done|by destruct threads|..].
  - intros t. destruct (decide (t = threads)) as [->|Hne].
    + by rewrite slot_set_same, Hs.
    + rewrite slot_set_other by done. by destruct t.
  - intros j r'. rewrite alive_set. cbn. rewrite lookup_insert_Some.
    intros [[<- <-]|[_ H]]; cbn; [|split; [by eapply ok_strong|by eauto]].
    split; [lia|by eauto].
Qed.

Lemma create_ok threads rs :
  runtimes_ok rs -> cached threads rs = None ->
  runtimes_ok (set_slot threads (Some (next_id rs)) (create_runtime (wanted threads) rs).2).
Proof.
  intros Hok E. pose proof (next_dead _ Hok) as Hd.
  assert (Hno : forall t j, slot_of t rs = Some j -> next_id rs <> j).
  { intros t j Hj <-. apply (ok_fresh _ Hok) in Hj. lia. }
  split.
  - intros j r. rewrite alive_set, create_alive, lookup_insert_Some. intros [[<- <-]|[Hne H]].
    + exists threads. by rewrite slot_set_same.
    + destruct (ok_slot _ Hok _ _ H) as (t & Ht & Hs). exists t. split; [done|].
      rewrite slot_set_other, create_slot; [done|]. intros ->.
      by rewrite (proj2 (cached_Some threads rs j r)) in E.
  - intros t j r. rewrite alive_set, create_alive, lookup_insert_Some.
    destruct (decide (t = threads)) as [->|Hne].
    + rewrite slot_set_same. intros [= <-] [[_ <-]|[? _]]; done.
    + rewrite slot_set_other, create_slot by done. intros H1 [[<- _]|[_ H]].
      * by apply Hno in H1.
      * by eapply (ok_built _ Hok).
  - intros t j. rewrite next_set. change (next_id (create_runtime (wanted threads) rs).2)
      with (Pos.succ (next_id rs)). destruct (decide (t = threads)) as [->|Hne].
    + rewrite slot_set_same. intros [= <-]. lia.
    + rewrite slot_set_other, create_slot by done. intros H%(ok_fresh _ Hok). lia.
  - intros j r. rewrite alive_set, create_alive, lookup_insert_Some. intros [[_ <-]|[_ H]].
    + cbn. lia.
    + by eapply ok_strong.
Qed.

Lemma runtimes_step_ok rs rs' : runtimes_step rs rs' -> runtimes_ok rs -> runtimes_ok rs'.
Proof.
  intros Hst Hok. destruct Hst as [threads created rs id rs' H|id rs [r Hr]|id rs [[f n] Hr]].
  - rewrite get_runtime_cases in H. destruct (cached threads rs) as [[i r]|] eqn:E.
    + injection H as _ <-. by apply cached_ok.
    + destruct created; [|done]. injection H as _ <-. by apply create_ok.
  - apply (ok_ext rs); [done..|]. intros j r'. cbn. rewrite lookup_alter_Some.
    intros [(<- & r0 & H0 & ->)|[_ H]]; cbn; [split; [lia|by eauto]|].
    split; [by eapply ok_strong|by eauto].
  - apply (ok_ext rs); [done|..]; unfold drop_runtime; rewrite Hr;
      [by destruct n as [|[|n]]|by destruct n as [|[|n]]|].
    intros j r' H. destruct n as [|[|n]]; cbn in H.
    1,2: apply lookup_delete_Some in H as [_ H]; split; [by eapply ok_strong|by eauto].
    apply lookup_insert_Some in H as [[<- <-]|[_ H]]; cbn; [split; [lia|by eauto]|].
    split; [by eapply ok_strong|by eauto].
Qed.

Lemma runtimes_reachable_ok rs : reachable rs -> runtimes_ok rs.
Proof.
  intros H. assert (H0 : runtimes_ok RUNTIMES).
  { split; cbn; intros; try (by destruct threads); by rewrite lookup_empty in *. }
  induction H; [done|]. eauto using runtimes_step_ok.
Qed.

(** ** Theorems *)

(** C33: a cluster gets a live runtime of the flavour it asks for, the same one for as
    long as anybody holds it, and no two live runtimes are of the same flavour; other
    runtimes are left alone, and only when there is none to share can a failure to
    create one be seen. *)
Theorem runtimes_shared (rs : Runtimes) :
  reachable rs ->
  (forall i j r r', alive rs !! i = Some r -> alive rs !! j = Some r' -> built r = built r' -> i = j) /\
  (forall threads created id rs', get_runtime threads created rs = Ret (id, rs') ->
     (exists r, alive rs' !! id = Some r /\ built r = wanted threads) /\
     (forall j r, alive rs !! j = Some r -> built r = wanted threads -> id = j) /\
     (forall j, j <> id -> alive rs' !! j = alive rs !! j)) /\
  (forall threads created, get_runtime threads created rs = Panic <->
     created = false /\ forall j r, alive rs !! j = Some r -> built r <> wanted threads).
Proof.
  intros Hok%runtimes_reachable_ok. split_and!.
  - intros i j r r' Hi Hj E. destruct (ok_slot _ Hok _ _ Hi) as (t & Ht & _).
    apply (cached_wanted t) in Hi; [|done..]. apply (cached_wanted t) in Hj; [|done|congruence].
    congruence.
  - intros threads created id rs'. rewrite get_runtime_cases.
    destruct (cached threads rs) as [[i r]|] eqn:E.
    + intros [= -> <-]. setoid_rewrite alive_set. cbn. pose proof E as [Hs Ha]%cached_Some. split_and!.
      * setoid_rewrite lookup_insert_eq. eexists; split; [done|]. cbn. by eapply (ok_built _ Hok).
      * intros j r' Hj Hb. apply (cached_wanted threads) in Hj; [|done..]. congruence.
      * intros j Hne. by rewrite lookup_insert_ne.
    + destruct created; [|done]. intros H. injection H as <- <-. rewrite alive_set. cbn. split_and!.
      * setoid_rewrite lookup_insert_eq. by eexists.
      * intros j r' Hj Hb. apply (cached_wanted threads) in Hj; [|done..]. congruence.
      * intros j Hne. by rewrite lookup_insert_ne.
  - intros threads created. rewrite get_runtime_cases.
    destruct (cached threads rs) as [[i r]|] eqn:E.
    + split; [done|]. intros [_ H]. apply cached_Some in E as [Hs Ha].
      by destruct (H _ _ Ha); eapply (ok_built _ Hok).
    + destruct created; split; try done; [by intros [? _]|]. intros _. split; [done|].
      intros j r Hj Hb. apply (cached_wanted threads) in Hj; [|done..]. congruence.
Qed.

Definition sample_runtimes : Runtimes :=
  match get_runtime (Some 0) true RUNTIMES with Ret (_, rs) => rs | _ => RUNTIMES end.

Lemma runtimes_shared_witness :
  exists id rs', get_runtime (Some 0) false sample_runtimes = Ret (id, rs') /\
    (exists r, alive rs' !! id = Some r /\ built r = CurrentThread) /\
    get_runtime (Some 4) false sample_runtimes = Panic.
Proof.
  assert (H : reachable sample_runtimes).
  { apply rtc_once. by apply (step_get (Some 0) true _ 1%positive). }
  destruct (runtimes_shared sample_runtimes H) as (_ & H2 & H3).
  eexists 1%positive, _. split; [reflexivity|]. split.
  - by apply (H2 (Some 0) false 1%positive).
  - apply H3. split; [done|]. intros j r Hj.
    change ((<[1%positive := mkRuntime CurrentThread 1]> ∅ : gmap positive runtime) !! j = Some r) in Hj.
    apply lookup_insert_Some in Hj as [[_ <-]|[_ Hj]]; [done|]. by rewrite lookup_empty in Hj.
Defined.
