(* ===== verification/Logging.v ===== *)
(** * Logging (logging.rs)

    Log levels, the filter of the driver's subscriber, the user's callback and the
    message it is handed.  Text is a list of bytes.  Whether another subscriber was
    installed first is up to the application; the tracing crate delivers an event to
    the layer iff the filter admits its level. *)

From Stdlib Require Import ZArith Lia String.
From stdpp Require Import base list strings sets.
From S2P Require Import Prelude Types ArgConv.

Open Scope Z_scope.

(** ** Levels *)

Inductive CassLogLevel :=
| CASS_LOG_DISABLED
| CASS_LOG_CRITICAL
| CASS_LOG_ERROR
| CASS_LOG_WARN
| CASS_LOG_INFO
| CASS_LOG_DEBUG
| CASS_LOG_TRACE
| CassLogLevel_other (n : Z).

Definition CassLogLevel_code (l : CassLogLevel) : Z :=
  match l with
  | CASS_LOG_DISABLED => 0 | CASS_LOG_CRITICAL => 1 | CASS_LOG_ERROR => 2 | CASS_LOG_WARN => 3
  | CASS_LOG_INFO => 4 | CASS_LOG_DEBUG => 5 | CASS_LOG_TRACE => 6 | CassLogLevel_other n => n
  end.

(** [tracing::Level], and how verbose each of them is. *)
Inductive Level := ERROR | WARN | INFO | DEBUG | TRACE.

Definition verbosity (l : Level) : nat :=
  match l with ERROR => 1 | WARN => 2 | INFO => 3 | DEBUG => 4 | TRACE => 5 end.

Inductive LevelFilter := OFF | UpTo (l : Level).

#[global] Instance Level_eq_dec : EqDecision Level.
Proof. solve_decision. Defined.
#[global] Instance LevelFilter_eq_dec : EqDecision LevelFilter.
Proof. solve_decision. Defined.

Definition admits (f : LevelFilter) (l : Level) : bool :=
  match f with OFF => false | UpTo m => (verbosity l <=? verbosity m)%nat end.

Definition CassLogLevel_from (level : Level) : CassLogLevel :=
  match level with
  | TRACE => CASS_LOG_TRACE
  | DEBUG => CASS_LOG_DEBUG
  | INFO => CASS_LOG_INFO
  | WARN => CASS_LOG_WARN
  | ERROR => CASS_LOG_ERROR
  end.

Definition Level_try_from (log_level : CassLogLevel) : result unit Level :=
  match log_level with
  | CASS_LOG_TRACE => Ok TRACE
  | CASS_LOG_DEBUG => Ok DEBUG
  | CASS_LOG_INFO => Ok INFO
  | CASS_LOG_WARN => Ok WARN
  | CASS_LOG_ERROR => Ok ERROR
  | CASS_LOG_CRITICAL => Ok ERROR
  | _ => Err tt
  end.

Definition LevelFilter_try_from (log_level : CassLogLevel) : result unit LevelFilter :=
  match log_level with
  | CASS_LOG_DISABLED => Ok OFF
  | other => l ← Level_try_from other; Ok (UpTo l)
  end.

Definition cass_log_level_string (log_level : CassLogLevel) : string :=
  match log_level with
  | CASS_LOG_TRACE => "TRACE"
  | CASS_LOG_DEBUG => "DEBUG"
  | CASS_LOG_INFO => "INFO"
  | CASS_LOG_WARN => "WARN"
  | CASS_LOG_ERROR => "ERROR"
  | CASS_LOG_CRITICAL => "CRITICAL"
  | CASS_LOG_DISABLED => "DISABLED"
  | CassLogLevel_other _ => EmptyString
  end%string.

Definition DEFAULT_LOG_LEVEL_FILTER : LevelFilter := UpTo WARN.

(** ** Messages *)

Definition CASS_LOG_MAX_MESSAGE_SIZE : nat := 1024.

(** An event: its level, its target, its line if known, and its fields with their
    values formatted for debugging. *)
Record Event := mkEvent {
  ev_level : Level;
  ev_target : list Z;
  ev_line : option Z;
  ev_fields : list (list Z * list Z)
}.

(** [CassLogMessage]; the file is what the pointer points to. *)
Record CassLogMessage := mkMessage {
  time_ms : Z;
  severity : CassLogLevel;
  file : list Z;
  line : Z;
  message : list Z
}.

(** [PrintlnVisitor::record_debug]. *)
Definition record_debug (log_message : list Z) (field : list Z * list Z) : list Z :=
  let text := field.1 ++ [58; 32] ++ field.2 in
  match log_message with
  | [] => log_message ++ text
  | _ => log_message ++ [44; 32] ++ text
  end.

(** [event.record(&mut visitor)] on an empty visitor. *)
Definition record_fields (fields : list (list Z * list Z)) : list Z :=
  foldl record_debug [] fields.

(** The message [CustomLayer::on_event] builds; [now] is the time since the epoch in
    milliseconds, [None] if the clock is before it. *)
Definition log_message (event : Event) (now : option Z) : outcome CassLogMessage :=
  match now with
  | None => Panic
  | Some ms =>
      Ret (mkMessage (wrap_u 64 ms) (CassLogLevel_from (ev_level event)) (ev_target event ++ [0])
             (wrap_i 32 (default 0 (ev_line event)))
             (str_to_arr CASS_LOG_MAX_MESSAGE_SIZE (record_fields (ev_fields event) ++ [0])))
  end.

(** ** The logger *)

Inductive log_callback := stderr_log_callback | noop_log_callback | UserCallback (id : Z).

(** [LOGGER] and [LOG_LEVEL_HANDLE]: [None] before the first access, then the filter
    behind the handle or [None] if another subscriber came first. *)
Record logging := mkLogging {
  cb : option log_callback;
  data : Z;
  handle : option (option LevelFilter)
}.

Definition initial_logging : logging := mkLogging (Some stderr_log_callback) 0 None.

Definition init_logging (other_subscriber : bool) (s : logging) : logging :=
  match handle s with
  | Some _ => s
  | None => mkLogging (cb s) (data s)
              (Some (if other_subscriber then None else Some DEFAULT_LOG_LEVEL_FILTER))
  end.

(** An event raised in the program reaches the callback with a message. *)
Definition raise (event : Event) (now : option Z) (s : logging)
  : outcome (list (log_callback * Z * CassLogMessage)) :=
  match handle s with
  | Some (Some filter) =>
      if admits filter (ev_level event) then
        match log_message event now with
        | Ret m => Ret (match cb s with Some log_cb => [(log_cb, data s, m)] | None => [] end)
        | _ => Panic
        end
      else Ret []
  | _ => Ret []
  end.

(** The filter [cass_log_set_level] selects. *)
Definition level_filter (log_level : CassLogLevel) : LevelFilter :=
  match LevelFilter_try_from log_level with Ok f => f | Err _ => DEFAULT_LOG_LEVEL_FILTER end.

(** The two events [cass_log_set_level] raises itself are given by the caller. *)
Definition cass_log_set_level (other : bool) (disabled_event set_event : LevelFilter -> Event)
    (now : option Z) (log_level : CassLogLevel) (s : logging)
  : outcome (list (log_callback * Z * CassLogMessage) * logging) :=
  let s := init_logging other s in
  let filter := level_filter log_level in
  match handle s with
  | Some (Some _) =>
      match (if decide (filter = OFF) then raise (disabled_event filter) now s else Ret []) with
      | Ret before =>
          let s := mkLogging (cb s) (data s) (Some (Some filter)) in
          match raise (set_event filter) now s with
          | Ret after => Ret (before ++ after, s)
          | _ => Panic
          end
      | _ => Panic
      end
  | _ => Ret ([], s)
  end.

Definition cass_log_set_callback (other : bool) (callback : option log_callback) (d : Z)
    (s : logging) : logging :=
  let s := init_logging other s in
  mkLogging (Some (default noop_log_callback callback)) d (handle s).

Definition cass_log_get_callback_and_data (s : logging) : option log_callback * Z := (cb s, data s).

(** The bytes before the first NUL. *)
Fixpoint until_nul (bs : list Z) : list Z :=
  match bs with [] => [] | b :: bs => if b =? 0 then [] else b :: until_nul bs end.

(** [CStr::from_ptr] of a buffer and [to_str] of it.  Without a NUL the behaviour is
    undefined: the bytes behind the buffer would be read. *)
Inductive cstr := Undefined | CStr (r : result PtrToStrError (list Z)).

Definition cstr_to_str (bs : list Z) : cstr :=
  if bool_decide (0 ∈ bs) then
    CStr (if utf8_valid (until_nul bs) then Ok (until_nul bs) else Err InvalidUtf8)
  else Undefined.

(** What [stderr_log_callback] does with a valid message: print these fields, panic, or
    read behind a buffer. *)
Inductive printed :=
| Printed (time : Z) (severity : string) (file : list Z) (line : Z) (message : list Z)
| PrintPanics
| PrintUndefined.

Definition stderr_log (m : CassLogMessage) : printed :=
  match cstr_to_str (file m) with
  | Undefined => PrintUndefined
  | CStr (Err _) => PrintPanics
  | CStr (Ok f) =>
      match cstr_to_str (message m) with
      | Undefined => PrintUndefined
      | CStr (Err _) => PrintPanics
      | CStr (Ok text) => Printed (time_ms m) (cass_log_level_string (severity m)) f (line m) text
      end
  end.
(** ** Lemmas *)

(** The text up to the first NUL is a prefix cut where a character starts. *)
Lemma until_nul_prefix bs :
  exists n, until_nul bs = take n bs /\ (n <= length bs)%nat /\
    (n = length bs \/ bs !! n = Some 0).
Proof.
  induction bs as [|b bs IH]; cbn; [exists O; auto|].
  destruct (Z.eqb_spec b 0) as [->|Hb].
  - exists O. split; [done|]. split; [lia|by right].
  - destruct IH as (n & -> & Hn & H). exists (S n). split; [done|]. split; [lia|].
    destruct H as [->|H]; [by left|by right].
Qed.

Lemma until_nul_valid bs : utf8_valid bs = true -> utf8_valid (until_nul bs) = true.
Proof.
  intros Hv. destruct (until_nul_prefix bs) as (n & -> & Hn & H).
  apply utf8_take_boundary; [done|]. unfold is_char_boundary. destruct n as [|n]; [done|].
  destruct H as [H|H].
  - rewrite lookup_ge_None_2 by lia. by apply Nat.eqb_eq.
  - by rewrite H.
Qed.

Lemma utf8_app a b : utf8_valid a = true -> utf8_valid b = true -> utf8_valid (a ++ b) = true.
Proof.
  intros Ha Hb. remember (length a) as k eqn:Hk. revert a Ha Hk.
  induction (lt_wf k) as [k _ IH]; intros a Ha ->. destruct a as [|x a]; [done|].
  destruct (utf8_valid_cons x a Ha) as (ext & rest & -> & Hext & Hrest & Hre).
  rewrite <- app_comm_cons, <- app_assoc. apply Hre.
  apply (IH (length rest)); [|done|done]. cbn. rewrite length_app. lia.
Qed.

Lemma until_nul_app bs z : until_nul (bs ++ replicate (S z) 0) = until_nul bs.
Proof.
  induction bs as [|b bs IH]; [done|]. cbn -[replicate]. by rewrite IH.
Qed.

Lemma until_nul_id bs : 0 ∉ bs -> until_nul bs = bs.
Proof.
  induction bs as [|b bs IH]; [done|]. rewrite not_elem_of_cons. intros [Hb H]. cbn.
  destruct (Z.eqb_spec b 0); [congruence|]. by rewrite IH.
Qed.

(** Text made of UTF-8 fields is UTF-8. *)
Lemma record_fields_valid fields :
  Forall (fun f => utf8_valid f.1 = true /\ utf8_valid f.2 = true) fields ->
  utf8_valid (record_fields fields) = true.
Proof.
  unfold record_fields. intros H. assert (Hacc : utf8_valid [] = true) by done.
  revert Hacc. generalize (@nil Z). induction H as [|[n v] fields [Hn Hv] _ IH]; intros acc Hacc; [done|].
  cbn. apply IH. unfold record_debug. cbn -[utf8_valid]. cbn in Hn, Hv.
  assert (Ht : utf8_valid (n ++ 58 :: 32 :: v) = true) by (apply utf8_app; done).
  destruct acc as [|c acc]; [done|]. apply (utf8_app (c :: acc)); [done|]. done.
Qed.

(** A terminated text is what is before its first NUL. *)
Lemma until_nul_terminated bs :
  0 ∈ bs -> exists n, until_nul bs = take n bs /\ bs !! n = Some 0 /\ 0 ∉ until_nul bs.
Proof.
  induction bs as [|b bs IH]; [by intros ?%elem_of_nil|]. cbn.
  destruct (Z.eqb_spec b 0) as [->|Hb]; [intros _; exists O; split_and!; [done..|by intros ?%elem_of_nil]|].
  rewrite elem_of_cons. intros [|H0]; [done|]. destruct (IH H0) as (n & Hu & Hn & Hno). exists (S n).
  split_and!; [cbn; by f_equal|done|]. rewrite elem_of_cons. naive_solver.
Qed.

Lemma cstr_to_str_Ok bs :
  0 ∈ bs -> utf8_valid (until_nul bs) = true -> cstr_to_str bs = CStr (Ok (until_nul bs)).
Proof. intros H0 Hv. unfold cstr_to_str. by rewrite bool_decide_true, Hv. Qed.

Lemma until_nul_prefix_of bs : until_nul bs `prefix_of` bs.
Proof. destruct (until_nul_prefix bs) as (n & -> & _). apply prefix_take. Qed.

(** The string read back from a buffer filled with a text and its terminator. *)
Lemma buffer_text N txt :
  (0 < N)%nat -> utf8_valid txt = true ->
  let arr := str_to_arr N (txt ++ [0]) in
  length arr = N /\ 0 ∈ arr /\ utf8_valid (until_nul arr) = true /\ until_nul arr `prefix_of` txt /\
  (0 ∉ txt -> (length txt < N)%nat -> until_nul arr = txt).
Proof.
  intros HN Hv arr.
  destruct (str_to_arr_spec N (txt ++ [0])) as (n & E & H1 & H2 & H3 & H4 & H5);
    [done|by apply utf8_app|].
  assert (Hu : until_nul arr = until_nul (take n (txt ++ [0]))).
  { unfold arr. rewrite E. destruct (N - n)%nat as [|z] eqn:Ez; [lia|]. apply until_nul_app. }
  rewrite length_app in H1, H5. cbn in H1, H5.
  assert (Hend : (length txt <= n)%nat -> until_nul arr = until_nul txt).
  { intros Hn. rewrite Hu. rewrite take_app_ge by done.
    destruct (n - length txt)%nat; cbn; [by rewrite app_nil_r|].
    rewrite firstn_nil. apply (until_nul_app txt 0). }
  split; [done|]. split.
  { unfold arr. rewrite E. apply elem_of_app. right. apply elem_of_replicate. split; [done|lia]. }
  split; [rewrite Hu; by apply until_nul_valid|]. split.
  - destruct (decide (length txt <= n)%nat) as [Hn|Hn].
    + rewrite Hend by done. apply until_nul_prefix_of.
    + rewrite Hu, take_app_le by lia. etrans; [apply until_nul_prefix_of|apply prefix_take].
  - intros H0 Hl. assert (Hn : (length txt <= n)%nat).
    { destruct (decide (length txt <= n)%nat); [done|]. exfalso.
      specialize (H5 (length txt) ltac:(lia) Hl ltac:(lia)). revert H5. unfold is_char_boundary.
      destruct (length txt) eqn:El; [done|]. by rewrite <- El, list_lookup_middle. }
    rewrite Hend by done. by apply until_nul_id.
Qed.

Lemma raise_total ev ms s : exists out, raise ev (Some ms) s = Ret out.
Proof.
  unfold raise. destruct (handle s) as [[f|]|]; cbn; [|by eexists..].
  destruct (admits _ _); by eexists.
Qed.

(** ** Theorems *)

(** C38: every event with UTF-8 fields yields a message of exactly the buffer's size that
    ends with a NUL inside the buffer, and the bytes before it are a valid string: a
    prefix of the formatted fields, all of them when they contain no NUL and fit.  So the
    default callback prints it, without a panic and without reading behind the buffer. *)
Theorem log_message_readable (event : Event) (ms : Z) :
  utf8_valid (ev_target event) = true ->
  Forall (fun f => utf8_valid f.1 = true /\ utf8_valid f.2 = true) (ev_fields event) ->
  exists m f text, log_message event (Some ms) = Ret m /\
    length (message m) = CASS_LOG_MAX_MESSAGE_SIZE /\
    (exists n, message m !! n = Some 0 /\ text = take n (message m) /\ 0 ∉ text) /\
    utf8_valid text = true /\
    stderr_log m = Printed (wrap_u 64 ms) (cass_log_level_string (severity m)) f (line m) text /\
    f `prefix_of` ev_target event /\ (0 ∉ ev_target event -> f = ev_target event) /\
    text `prefix_of` record_fields (ev_fields event) /\
    (0 ∉ record_fields (ev_fields event) ->
     (length (record_fields (ev_fields event)) < CASS_LOG_MAX_MESSAGE_SIZE)%nat ->
     text = record_fields (ev_fields event)).
Proof.
  intros Ht Hf%record_fields_valid.
  destruct (buffer_text CASS_LOG_MAX_MESSAGE_SIZE (record_fields (ev_fields event)))
    as (Hlen & H0 & Hv & Hp & Hall); [unfold CASS_LOG_MAX_MESSAGE_SIZE; lia|done|].
  eexists _, (until_nul (ev_target event)), _. split; [reflexivity|]. cbn -[str_to_arr].
  destruct (until_nul_terminated _ H0) as (n & Hn & Hz & Hno).
  split; [exact Hlen|]. split; [exists n; split_and!; [exact Hz|exact Hn|exact Hno]|]. split; [exact Hv|].
  split; [|split_and!; [apply until_nul_prefix_of|apply until_nul_id|exact Hp|exact Hall]].
  unfold stderr_log. cbn [file message time_ms severity line].
  assert (Hfile : until_nul (ev_target event ++ [0]) = until_nul (ev_target event)) by apply (until_nul_app _ 0).
  rewrite (cstr_to_str_Ok (ev_target event ++ [0])), Hfile; [|set_solver|rewrite Hfile; by apply until_nul_valid].
  by rewrite cstr_to_str_Ok.
Qed.

Lemma log_message_readable_witness :
  exists m f text,
    log_message (mkEvent WARN [109] (Some 7) [([107], [195; 169])]) (Some 5) = Ret m /\
    stderr_log m = Printed 5 "WARN" f (line m) text /\ f = [109] /\ text = [107; 58; 32; 195; 169].
Proof.
  destruct (log_message_readable (mkEvent WARN [109] (Some 7) [([107], [195; 169])]) 5)
    as (m & f & text & Hm & _ & _ & _ & Hs & _ & Hf & _ & Hall); [reflexivity | by constructor |].
  exists m, f, text. split; [exact Hm|]. injection Hm as <-. split; [exact Hs|]. split.
  - apply Hf. set_solver.
  - apply Hall; [cbn; set_solver|cbn; unfold CASS_LOG_MAX_MESSAGE_SIZE; lia].
Defined.
(** The level a request for [l] selects: there is no level for critical errors only, and
    the default stands in for a number that is no level. *)
Definition effective (l : CassLogLevel) : CassLogLevel :=
  match l with
  | CASS_LOG_CRITICAL => CASS_LOG_ERROR
  | CassLogLevel_other _ => CASS_LOG_WARN
  | l => l
  end.

Lemma level_admits l v :
  admits (level_filter l) v =
  (CassLogLevel_code (CassLogLevel_from v) <=? CassLogLevel_code (effective l)).
Proof. by destruct l, v. Qed.

(** Setting the level takes effect at once and does not touch the callback: an event
    is delivered, once and with the user's data, exactly when its severity is not above
    the level that was set; setting it never fails on a machine whose clock is right. *)
Theorem log_level_takes_effect (other : bool) (e1 e2 : LevelFilter -> Event) (ms : Z)
    (l : CassLogLevel) (s : logging) (f : LevelFilter) (c : log_callback) :
  handle (init_logging other s) = Some (Some f) -> cb s = Some c ->
  exists out s', cass_log_set_level other e1 e2 (Some ms) l s = Ret (out, s') /\
    cass_log_get_callback_and_data s' = (Some c, data s) /\
    (forall ev t, exists m, log_message ev (Some t) = Ret m /\
       raise ev (Some t) s' =
         Ret (if CassLogLevel_code (CassLogLevel_from (ev_level ev)) <=? CassLogLevel_code (effective l)
              then [(c, data s, m)] else [])).
Proof.
  intros Hh Hc. unfold cass_log_set_level. rewrite Hh.
  assert (Hcb : cb (init_logging other s) = Some c /\ data (init_logging other s) = data s).
  { unfold init_logging. destruct (handle s); by rewrite <- Hc. }
  destruct Hcb as [Hcb Hd].
  destruct (raise_total (e1 (level_filter l)) ms (init_logging other s)) as [o1 Ho1].
  destruct (raise_total (e2 (level_filter l)) ms
              (mkLogging (cb (init_logging other s)) (data (init_logging other s)) (Some (Some (level_filter l)))))
    as [o2 Ho2].
  exists ((if decide (level_filter l = OFF) then o1 else []) ++ o2). eexists. split.
  { destruct (decide (level_filter l = OFF)) as [E|E]; [rewrite Ho1|]; by rewrite Ho2. }
  split; [by rewrite Hcb, Hd|]. intros ev t. eexists. split; [reflexivity|].
  unfold raise. cbn [handle cb data]. rewrite Hcb, Hd, (level_admits l).
  by destruct (_ <=? _).
Qed.

Lemma log_level_takes_effect_witness :
  let ev l := mkEvent l [] None [] in
  exists out s', cass_log_set_level false (fun _ => ev DEBUG) (fun _ => ev DEBUG) (Some 0)
                   CASS_LOG_INFO initial_logging = Ret (out, s') /\
    raise (ev DEBUG) (Some 1) s' = Ret [] /\
    (exists m, raise (ev INFO) (Some 1) s' = Ret [(stderr_log_callback, 0, m)]).
Proof.
  intros ev.
  destruct (log_level_takes_effect false (fun _ => ev DEBUG) (fun _ => ev DEBUG) 0 CASS_LOG_INFO
              initial_logging (UpTo WARN) stderr_log_callback) as (out & s' & H1 & _ & H3);
    [reflexivity..|].
  exists out, s'. split; [exact H1|]. split.
  - destruct (H3 (ev DEBUG) 1) as (m & _ & ->). reflexivity.
  - destruct (H3 (ev INFO) 1) as (m & _ & ->). by exists m.
Defined.
