(* ===== verification/Requests.v ===== *)
(** * Requests (session.rs)

    What the futures of [cass_session_execute], [cass_session_execute_batch],
    [cass_session_prepare] and [cass_session_prepare_from_existing] compute once they
    have a connected session.  The session of the Rust driver is a parameter, the record
    [DriverSession] of the operations the futures await.  Statements own their prepared
    statement (Statement.v shows that sharing makes no difference). *)

From Stdlib Require Import ZArith Lia String.
From stdpp Require Import base list gmap strings.
From S2P Require Import Future Prelude ArgConv Types ConfigValue Errors DataType ExecProfile Value.
From S2P Require Import Arc Prepared Statement Batch Results.

Open Scope Z_scope.

(** An execution profile of a session. *)
Notation ExecutionProfileHandle := ExecutionProfile.

(** [CassConnectedSession]; the runtime is its identity in Runtime.v. *)
Record CassConnectedSession (Sess : Type) := mkConnected {
  runtime : positive;
  session : Sess;
  exec_profile_map : gmap string ExecutionProfileHandle
}.
Arguments mkConnected {Sess}.
Arguments runtime {Sess}.
Arguments session {Sess}.
Arguments exec_profile_map {Sess}.

Section Requests.
Context {R Coord Sess : Type}.

Notation Prepared_ := (CassPrepared R ExecutionProfileHandle).
Notation BoundStmt := (BoundStatement R ExecutionProfileHandle Prepared_).
Notation Stmt := (CassStatement R ExecutionProfileHandle Prepared_).
Notation profile_cell := (PerStatementExecProfile ExecutionProfileHandle).
Notation failure := (CassError * string)%type.

(** [CassFutureResult] of a request. *)
Notation request_result :=
  (Prelude.result failure (CassResultValue (CassResult Coord) CassErrorResult Prepared_)).

(** ** The session of the Rust driver *)

Record DriverSession := mkDriverSession {
  query_single_page : Prepared.Statement ExecutionProfileHandle -> SimpleQueryRowSerializer R ->
    PagingState -> Prelude.result ExecutionError (QueryResponse Coord * PagingStateResponse);
  query_unpaged : Prepared.Statement ExecutionProfileHandle -> SimpleQueryRowSerializer R ->
    Prelude.result ExecutionError (QueryResponse Coord);
  execute_single_page : PreparedStatement ExecutionProfileHandle -> list (bound R) ->
    PagingState -> Prelude.result ExecutionError (QueryResponse Coord * PagingStateResponse);
  execute_unpaged : PreparedStatement ExecutionProfileHandle -> list (bound R) ->
    Prelude.result ExecutionError (QueryResponse Coord);
  session_batch : @Batch ExecutionProfileHandle -> list (list (bound R)) ->
    Prelude.result ExecutionError Coord;
  session_prepare : Prepared.Statement ExecutionProfileHandle ->
    Prelude.result PrepareError (PreparedStatement ExecutionProfileHandle)
}.

(** The part of the environment a request sees: the driver, the text of its errors, the
    result metadata cached with a prepared statement ([try_update_and_get_result_metadata]
    of Prepared.v), and the data types and the cache made for a new one. *)
Record Env := mkEnv {
  driver : DriverSession;
  prepare_error_msg : PrepareError -> string;
  cached_metadata : Prepared_ -> list ColumnSpec -> option CassResultMetadata;
  column_data_type : ColumnType -> R;
  new_cache : nat
}.

(** ** Execution profiles *)

Definition resolve_exec_profile (self : CassConnectedSession Sess) (name : string)
  : Prelude.result failure ExecutionProfileHandle :=
  match exec_profile_map self !! name with
  | Some handle => Ok handle
  | None => Err (CASS_ERROR_LIB_EXECUTION_PROFILE_INVALID, (name +:+ " does not exist")%string)
  end.

(** [CassConnectedSession::get_or_resolve_profile_handle]. *)
Definition get_or_resolve_handle (self : CassConnectedSession Sess) (exec_profile : option profile_cell)
  : Prelude.result failure (option ExecutionProfileHandle) :=
  match exec_profile with
  | None => Ok None
  | Some profile =>
      match (get_or_resolve_profile_handle (resolve_exec_profile self) profile).1 with
      | Ok handle => Ok (Some handle)
      | Err e => Err e
      end
  end.

(** [set_execution_profile_handle] on the clone of the statement. *)
Definition with_handle (handle : option ExecutionProfileHandle) (statement : BoundStmt) : BoundStmt :=
  Statement.statement
    (set_driver (fun q => q <| s_execution_profile := handle |>) (statement_new statement) tt).1.

(** ** Executing a statement *)

(** What is asked of the driver, and what comes back with a source of metadata. *)
Definition ask_driver (env : Env) (paging_enabled : bool) (paging_state : PagingState)
    (statement : BoundStmt)
  : Prelude.result ExecutionError
      (QueryResponse Coord * PagingStateResponse * option (list ColumnSpec -> option CassResultMetadata)) :=
  let d := driver env in
  match statement with
  | Simple query =>
      let bound_values := mkRowSerializer (bs_bound_values query) (name_to_bound_index query) in
      '(qr, psr) ←
        (if paging_enabled then query_single_page d (Statement.query query) bound_values paging_state
         else result ← query_unpaged d (Statement.query query) bound_values;
              Ok (result, NoMorePages));
      Ok (qr, psr, None)
  | Prepared prepared =>
      let p := bp_statement prepared in
      '(result, paging) ←
        (if paging_enabled
         then execute_single_page d (prepared_statement p) (bp_bound_values prepared) paging_state
         else result ← execute_unpaged d (prepared_statement p) (bp_bound_values prepared);
              Ok (result, NoMorePages));
      Ok (result, paging, Some (cached_metadata env p))
  end.

(** The future of [cass_session_execute]. *)
Definition execute_future (env : Env) (connected_session : CassConnectedSession Sess)
    (statement : BoundStmt) (paging_state : PagingState) (paging_enabled : bool)
    (exec_profile : option profile_cell) : request_result :=
  match get_or_resolve_handle connected_session exec_profile with
  | Err e => Err e
  | Ok handle =>
      match ask_driver env paging_enabled paging_state (with_handle handle statement) with
      | Ok (result, paging_state_response, get_or_make_result_metadata) =>
          match from_result_payload result paging_state_response get_or_make_result_metadata with
          | Ok result => Ok (QueryResult result)
          | Err e => Ok (QueryError e)
          end
      | Err err => Ok (QueryError (Execution err))
      end
  end.

(** The future of [cass_session_execute_batch]. *)
Definition execute_batch_future (env : Env) (connected_session : CassConnectedSession Sess)
    (state : @CassBatchState R ExecutionProfileHandle) (exec_profile : option profile_cell)
  : request_result :=
  match get_or_resolve_handle connected_session exec_profile with
  | Err e => Err e
  | Ok handle =>
      let b := (batch state) <| batch_settings ::= fun q => q <| s_execution_profile := handle |> |> in
      match session_batch (driver env) b (batch_bound_values state) with
      | Ok coordinator => Ok (QueryResult (mkResult None NoMorePages NonRows (Some coordinator)))
      | Err err => Ok (QueryError (Execution err))
      end
  end.

Definition prepare_query (env : Env) (query : Prepared.Statement ExecutionProfileHandle)
  : request_result :=
  match session_prepare (driver env) query with
  | Ok prepared => Ok (PreparedResult (new_from_prepared_statement (column_data_type env) (new_cache env) prepared))
  | Err err => Err (to_cass_error err, prepare_error_msg env err)
  end.

(** The futures of [cass_session_prepare_n] and [cass_session_prepare_from_existing]. *)
Definition prepare_future (env : Env) (query_str : string) : request_result :=
  prepare_query env (mkStatement query_str settings_default).

Definition prepare_from_existing_future (env : Env) (statement : BoundStmt) : request_result :=
  match statement with
  | Simple q => prepare_query env (Statement.query q)
  | Prepared ps => Ok (PreparedResult (bp_statement ps))
  end.

(** The requests a session serves. *)
Inductive request :=
| Execute (statement : BoundStmt) (paging_state : PagingState) (paging_enabled : bool)
    (exec_profile : option profile_cell)
| ExecuteBatch (state : @CassBatchState R ExecutionProfileHandle) (exec_profile : option profile_cell)
| Prepare (query_str : string)
| PrepareFromExisting (statement : BoundStmt).

Definition serve (env : Env) (connected_session : CassConnectedSession Sess) (r : request)
  : request_result :=
  match r with
  | Execute statement paging_state paging_enabled exec_profile =>
      execute_future env connected_session statement paging_state paging_enabled exec_profile
  | ExecuteBatch state exec_profile => execute_batch_future env connected_session state exec_profile
  | Prepare query_str => prepare_future env query_str
  | PrepareFromExisting statement => prepare_from_existing_future env statement
  end.

(** ** A client that reads all pages

    Execute; while there are more pages, hand the paging state of the result to the
    statement and execute it again. *)

Definition execute_statement (env : Env) (connected_session : CassConnectedSession Sess) (st : Stmt)
  : request_result :=
  execute_future env connected_session (Statement.statement st) (Statement.paging_state st)
    (Statement.paging_enabled st) (Statement.exec_profile st).

Fixpoint fetch_pages (env : Env) (connected_session : CassConnectedSession Sess) (fuel : nat) (st : Stmt)
  : option (list request_result) :=
  match fuel with
  | O => None
  | S fuel =>
      let r := execute_statement env connected_session st in
      match r with
      | Ok (QueryResult res) =>
          if cass_result_has_more_pages (Some res) then
            match set_paging_state (Some (paging_state_response res)) st tt with
            | Ret (CASS_OK, (st, _)) => cons r <$> fetch_pages env connected_session fuel st
            | _ => None
            end
          else Some [r]
      | _ => Some [r]
      end
  end.

(** ** Lemmas *)

(** The settings of a bound statement. *)
Definition bound_settings (b : BoundStmt) : Settings ExecutionProfileHandle :=
  match b with
  | Simple q => st_settings (Statement.query q)
  | Prepared p => ps_settings (prepared_statement (bp_statement p))
  end.

Lemma with_handle_settings handle b :
  bound_settings (with_handle handle b) = (bound_settings b) <| s_execution_profile := handle |>.
Proof. by destruct b. Qed.

Lemma payload_paging qr psr cached (res : CassResult Coord) :
  from_result_payload qr psr cached = Ok res -> paging_state_response res = psr.
Proof.
  unfold from_result_payload. destruct qr; try (by intros [= <-]).
  destruct (init_first_row _); by intros [= <-].
Qed.

(** The pages of a statement, and where the metadata of a page comes from. *)
Definition page_source (env : Env) (b : BoundStmt) (ps : PagingState)
  : Prelude.result ExecutionError (QueryResponse Coord * PagingStateResponse) :=
  match b with
  | Simple q => query_single_page (driver env) (Statement.query q)
                  (mkRowSerializer (bs_bound_values q) (name_to_bound_index q)) ps
  | Prepared p => execute_single_page (driver env) (prepared_statement (bp_statement p))
                    (bp_bound_values p) ps
  end.

Definition page_metadata (env : Env) (b : BoundStmt)
  : option (list ColumnSpec -> option CassResultMetadata) :=
  match b with Simple _ => None | Prepared p => Some (cached_metadata env (bp_statement p)) end.

Lemma ask_paged env ps b :
  ask_driver env true ps b =
  match page_source env b ps with
  | Ok (qr, psr) => Ok (qr, psr, page_metadata env b)
  | Err e => Err e
  end.
Proof. destruct b; cbn; destruct (_ (driver env) _ _ _) as [[]|]; done. Qed.

Lemma ask_unpaged env ps b qr psr cached :
  ask_driver env false ps b = Ok (qr, psr, cached) -> psr = NoMorePages.
Proof.
  destruct b; cbn; [destruct (query_unpaged _ _ _)|destruct (execute_unpaged _ _ _)]; cbn;
    by intros [= ].
Qed.

(** The page at a paging state, as the client gets it. *)
Definition page_at (env : Env) (b : BoundStmt) (ps : PagingState) (psr : PagingStateResponse)
    (res : CassResult Coord) : Prop :=
  exists qr, page_source env b ps = Ok (qr, psr) /\
    from_result_payload qr psr (page_metadata env b) = Ok res.

(** [pages] are the pages a server has for a statement: each is found at its paging
    state and leads to the next, the last to none. *)
Definition server_pages (env : Env) (b : BoundStmt) (pages : list (PagingState * CassResult Coord)) : Prop :=
  forall i ps res, pages !! i = Some (ps, res) ->
    page_at env b ps
      (match pages !! S i with Some (ps', _) => HasMorePages ps' | None => NoMorePages end) res.

Lemma server_pages_tail env b p pages : server_pages env b (p :: pages) -> server_pages env b pages.
Proof. intros H i ps res Hi. apply (H (S i) ps res Hi). Qed.

Lemma execute_page env conn st handle ps psr res :
  get_or_resolve_handle conn (Statement.exec_profile st) = Ok handle ->
  Statement.paging_enabled st = true -> Statement.paging_state st = ps ->
  page_at env (with_handle handle (Statement.statement st)) ps psr res ->
  execute_statement env conn st = Ok (QueryResult res) /\ paging_state_response res = psr.
Proof.
  intros Hh He Hps (qr & Hq & Hr). split; [|by eapply payload_paging].
  unfold execute_statement, execute_future. rewrite Hh, He, Hps, ask_paged, Hq, Hr. done.
Qed.

(** A step of the client after a page. *)
Lemma fetch_pages_next env conn fuel st res :
  execute_statement env conn st = Ok (QueryResult res) ->
  fetch_pages env conn (S fuel) st =
  match paging_state_response res with
  | NoMorePages => Some [Ok (QueryResult res)]
  | HasMorePages ps =>
      cons (Ok (QueryResult res)) <$> fetch_pages env conn fuel (st <| Statement.paging_state := ps |>)
  end.
Proof.
  intros H. cbn [fetch_pages]. rewrite H. unfold cass_result_has_more_pages.
  by destruct (paging_state_response res).
Qed.

(** ** Theorems *)

(** C22: a client that executes a statement and keeps handing the paging state of the
    last result back to it reads all pages of the server: each page once, in order, and
    it stops after the last one. *)
Theorem pages_read_in_order (env : Env) (conn : CassConnectedSession Sess) (st : Stmt)
    (handle : option ExecutionProfileHandle) (p : PagingState * CassResult Coord)
    (pages : list (PagingState * CassResult Coord)) :
  get_or_resolve_handle conn (Statement.exec_profile st) = Ok handle ->
  Statement.paging_enabled st = true -> Statement.paging_state st = p.1 ->
  server_pages env (with_handle handle (Statement.statement st)) (p :: pages) ->
  fetch_pages env conn (length (p :: pages)) st =
    Some (map (fun p => Ok (QueryResult p.2)) (p :: pages)).
Proof.
  revert p st. induction pages as [|[ps' res'] pages IH]; intros [ps res] st Hh He Hps Hs;
    destruct (execute_page env conn st handle ps _ res Hh He Hps (Hs O ps res eq_refl)) as [Hr Hpsr];
    cbn [length] in *; rewrite (fetch_pages_next _ _ _ _ _ Hr), Hpsr; [done|]. cbn [lookup list_lookup].
  rewrite (IH (ps', res') (st <| Statement.paging_state := ps' |>)); try done.
  by eapply server_pages_tail.
Qed.

(** A statement without paging has a single, complete page. *)
Theorem unpaged_reads_once (env : Env) (conn : CassConnectedSession Sess) (st : Stmt) :
  Statement.paging_enabled st = false ->
  fetch_pages env conn 1 st = Some [execute_statement env conn st].
Proof.
  intros He. cbn [fetch_pages].
  destruct (execute_statement env conn st) as [[|res| |]|] eqn:E; try done.
  enough (cass_result_has_more_pages (Some res) = false) as -> by done.
  revert E. unfold execute_statement, execute_future. rewrite He.
  destruct (get_or_resolve_handle _ _) as [h|]; [|done].
  destruct (ask_driver _ _ _ _) as [[[qr psr] cached]|] eqn:Ea; [|done].
  apply ask_unpaged in Ea as ->. destruct (from_result_payload qr NoMorePages cached) as [r|] eqn:Er; [|done].
  intros [= <-]. unfold cass_result_has_more_pages. by rewrite (payload_paging _ _ _ _ Er).
Qed.

(** A result of a request: never empty, and its errors carry an error code. *)
Definition honest (r : request_result) : Prop :=
  match r with
  | Ok Empty => False
  | Ok _ => True
  | Err (e, _) => e <> CASS_OK
  end.

Lemma honest_code (r : request_result) :
  honest r ->
  cass_future_error_code to_cass_error r = CASS_OK <->
  (exists res, r = Ok (QueryResult res)) \/ (exists p, r = Ok (PreparedResult p)).
Proof.
  assert (Hr : forall e : CassErrorResult, to_cass_error e <> CASS_OK).
  { intros e H. apply (failure_code e). by rewrite H. }
  destruct r as [[|res|e|p]|[e m]]; cbn; intros H; try done.
  - split; [left; by eexists|done].
  - split; [intros ?%Hr; done|by intros [[]|[]]].
  - split; [right; by eexists|done].
  - split; [done|by intros [[]|[]]].
Qed.

Lemma handle_honest (conn : CassConnectedSession Sess) c e m :
  get_or_resolve_handle conn c = Err (e, m) -> e <> CASS_OK.
Proof.
  destruct c as [[name|h]|]; cbn; try done. unfold resolve_exec_profile.
  by destruct (exec_profile_map conn !! name); intros [= <- _].
Qed.

Lemma execute_honest env (conn : CassConnectedSession Sess) b ps en c : honest (execute_future env conn b ps en c).
Proof.
  unfold execute_future. destruct (get_or_resolve_handle conn c) as [h|[e m]] eqn:E; [|by eapply handle_honest].
  destruct (ask_driver _ _ _ _) as [[[qr psr] cached]|err]; [|done]. by destruct (from_result_payload _ _ _).
Qed.

Lemma batch_honest env (conn : CassConnectedSession Sess) s c : honest (execute_batch_future env conn s c).
Proof.
  unfold execute_batch_future. destruct (get_or_resolve_handle conn c) as [h|[e m]] eqn:E; [|by eapply handle_honest].
  by destruct (session_batch _ _ _).
Qed.

Lemma query_honest env q : honest (prepare_query env q).
Proof.
  unfold prepare_query. destruct (session_prepare _ _) as [|e]; [done|].
  intros H. apply (failure_code e). by rewrite H.
Qed.

Lemma prepare_honest env q : honest (prepare_future env q).
Proof. apply query_honest. Qed.

Lemma existing_honest env b : honest (prepare_from_existing_future env b).
Proof. destruct b; [apply query_honest|done]. Qed.

(** C32: the code a client reads from the future of a request tells success from failure:
    it is [CASS_OK] exactly when the future holds a result or a prepared statement,
    whatever the driver answered. *)
Theorem request_code_tells_success (env : Env) (conn : CassConnectedSession Sess) (r : request) :
  cass_future_error_code to_cass_error (serve env conn r) = CASS_OK <->
  (exists res, serve env conn r = Ok (QueryResult res)) \/
  (exists p, serve env conn r = Ok (PreparedResult p)).
Proof. apply honest_code. destruct r; cbn; auto using execute_honest, batch_honest, prepare_honest, existing_honest. Qed.

End Requests.

(** A server with a result of two pages. *)
Definition sample_session : @DriverSession dtree nat := {|
  query_single_page _ _ ps :=
    match ps with
    | None => Ok (ResultNotRows None 1%nat, HasMorePages (Some [7]))
    | Some [7] => Ok (ResultNotRows None 2%nat, NoMorePages)
    | Some _ => Err (LastAttemptError (AttemptDbError ProtocolError "bad paging state"))
    end;
  query_unpaged _ _ := Ok (ResultNotRows None 1%nat);
  execute_single_page _ _ _ := Err EmptyPlan;
  execute_unpaged _ _ := Err EmptyPlan;
  session_batch _ _ := Ok 1%nat;
  session_prepare _ := Err PreparedStatementIdsMismatch
|}.

Definition sample_env : @Env dtree nat :=
  mkEnv sample_session (fun _ => EmptyString) (fun _ _ => None) (fun _ => Node (DValue CASS_VALUE_TYPE_INT)) 0.

Definition sample_statement : CassStatement dtree ExecutionProfile (CassPrepared dtree ExecutionProfile) :=
  (statement_new (Simple (mkBoundSimple (mkStatement "SELECT"%string settings_default) [] ∅)))
    <| Statement.paging_enabled := true |>.

Lemma pages_read_in_order_witness :
  fetch_pages sample_env (mkConnected 1%positive tt ∅) 2 sample_statement =
    Some [Ok (QueryResult (mkResult None (HasMorePages (Some [7])) NonRows (Some 1%nat)));
          Ok (QueryResult (mkResult None NoMorePages NonRows (Some 2%nat)))].
Proof.
  apply (pages_read_in_order sample_env (mkConnected 1%positive tt ∅) sample_statement None
    (None, mkResult None (HasMorePages (Some [7])) NonRows (Some 1%nat))
    [(Some [7], mkResult None NoMorePages NonRows (Some 2%nat))]); [reflexivity..|].
  intros [|[|i]] ps res [= <- <-]; eexists; split; reflexivity.
Defined.
