(* ===== verification/Session.v ===== *)
(** * Sessions (session.rs)

    A session is an optional connection behind an asynchronous read-write lock.
    [Connecting] says what a connection is built from.  [Lifecycle] is the session
    shared by any number of client threads and by the tasks of its futures: a request
    holds the read lock until it is answered, connecting holds the write lock while the
    driver builds the connection, closing takes the write lock for a moment.  Sections
    of code without an await that hold the lock are one step. *)

From Stdlib Require Import ZArith Lia String Ascii.
From stdpp Require Import base list gmap strings pretty relations.
From S2P Require Import Future Prelude ArgConv Types IpText ConfigValue Errors Uuid LoadBalancing ConfigSetters DataType ExecProfile.
From S2P Require Import Cluster Value Prepared Statement Batch Results Requests.

Open Scope Z_scope.

(** ** Connecting *)

(** The last character of a string removed ([String::pop]). *)
Fixpoint pop (s : string) : string :=
  match s with
  | EmptyString => EmptyString
  | String _ EmptyString => EmptyString
  | String c s => String c (pop s)
  end.

(** A keyspace in double quotes is case sensitive and loses its quotes.  [Panic] is
    [String::remove(0)] on an empty string. *)
Definition unquote_keyspace (maybe_quoted_keyspace : string) : outcome (string * bool) :=
  if starts_with quote maybe_quoted_keyspace && ends_with quote maybe_quoted_keyspace then
    match maybe_quoted_keyspace with
    | String _ quoted_keyspace => Ret (pop quoted_keyspace, true)
    | EmptyString => Panic
    end
  else Ret (maybe_quoted_keyspace, false).

(** What [connect] takes from the cluster before the future runs. *)
Record ConnectParams := mkConnectParams {
  cp_runtime : positive;
  cp_session_builder : SessionConfig * ExecutionProfile;
  cp_client_id : option Z;
  cp_exec_profile_builder_map : gmap string CassExecProfile;
  cp_host_filter : FilteringInfo;
  cp_keyspace : option string
}.

(** What the driver builds a session from. *)
Record SessionSettings := mkSettings {
  ss_config : SessionConfig;
  ss_default_profile : ExecutionProfile;
  ss_host_filter : FilteringInfo;
  ss_use_keyspace : option (string * bool)
}.

(** [CassConnectedSession::connect] up to the future; the runtime is the one of
    [get_runtime], [rust] are the driver's defaults. *)
Definition connect_params (rust : ExecutionProfile) (shuffle : list string -> list string)
    (runtime : positive) (cluster : CassCluster) (keyspace : option string) : ConnectParams :=
  mkConnectParams runtime (build_session_builder rust shuffle cluster) (Cluster.client_id cluster)
    (execution_profile_map cluster) (build_host_filter cluster) keyspace.

(** The execution profiles of the session. *)
Definition build_exec_profile_map (rust : ExecutionProfile) (p : ConnectParams)
  : gmap string ExecutionProfileHandle :=
  let default_profile := (cp_session_builder p).2 in
  (fun builder => profile_build rust builder default_profile) <$> cp_exec_profile_builder_map p.

Definition session_settings (p : ConnectParams) : outcome SessionSettings :=
  use_keyspace ←
    match cp_keyspace p with
    | Some maybe_quoted_keyspace =>
        ks ← unquote_keyspace maybe_quoted_keyspace; Ret (Some ks)
    | None => Ret None
    end;
  Ret (mkSettings (cp_session_builder p).1 (cp_session_builder p).2 (cp_host_filter p) use_keyspace).

(** ** The session and its tasks *)

Section Lifecycle.
Context {R Coord Sess : Type}.
Variable rust : ExecutionProfile.
Variable new_session_error_msg : NewSessionError -> string.

Notation Conn := (CassConnectedSession Sess).
Notation Request := (@request R).
Notation Environment := (@Env R Coord).
Notation future_result :=
  (Prelude.result (CassError * string)
     (CassResultValue (CassResult Coord) CassErrorResult (CassPrepared R ExecutionProfileHandle))).

(** What a session of the driver answers, at each moment. *)
Variable driver_at : nat -> Sess -> Environment.

(** [CassSessionInner]. *)
Record CassSessionInner := mkInner { connected : option Conn; client_id : Z }.

(** The task of a future: before it has the write lock, building a connection with
    [settings] while it has it, serving a request with a read guard taken while [granted] was the connection,
    finished, cancelled with its runtime, or panicked. *)
Inductive task :=
| ConnectWaiting (p : ConnectParams)
| ConnectBuilding (p : ConnectParams) (settings : SessionSettings)
| CloseWaiting
| Serving (r : Request) (granted : Conn)
| TaskFinished (r : future_result)
| Cancelled
| TaskPanic.

Record world := mkWorld { inner : CassSessionInner; tasks : list task }.

(** [cass_session_new], with a random id. *)
Definition cass_session_new (random_id : Z) : world := mkWorld (mkInner None random_id) [].

(** *** The lock *)

Definition holds_write (t : task) : bool := match t with ConnectBuilding _ _ => true | _ => false end.
Definition holds_read (t : task) : bool := match t with Serving _ _ => true | _ => false end.
Definition waits_write (t : task) : bool :=
  match t with ConnectWaiting _ | CloseWaiting => true | _ => false end.

Definition write_locked (w : world) : bool := existsb holds_write (tasks w).
Definition read_locked (w : world) : bool := existsb holds_read (tasks w).

(** [write().await] returns only when nobody holds the lock. *)
Definition write_free (w : world) : bool := negb (write_locked w) && negb (read_locked w).

(** [try_read] succeeds when there is no writer, fails when one holds the lock, and may
    do either while one waits for it. *)
Definition try_read (w : world) (granted : bool) : Prop :=
  if granted then write_locked w = false
  else write_locked w = true \/ existsb waits_write (tasks w) = true.

(** *** The functions of the API *)

Definition not_connected : future_result :=
  Err (CASS_ERROR_LIB_NO_HOSTS_AVAILABLE, "Session is not connected"%string).

(** A function that returns a future: a ready one, or the index of the new task. *)
Notation future := (future_result + nat)%type.

Definition spawn (t : task) (w : world) : future * world :=
  (inr (length (tasks w)), mkWorld (inner w) (tasks w ++ [t])).

(** [CassConnectedSession::connect]. *)
Definition connect (p : ConnectParams) (w : world) : future * world := spawn (ConnectWaiting p) w.

(** [cass_session_execute], [cass_session_execute_batch], [cass_session_prepare_n] and
    [cass_session_prepare_from_existing] after their checks of the arguments. *)
Definition start_request (granted : bool) (r : Request) (w : world) : future * world :=
  if granted then
    match connected (inner w) with
    | Some connected_session => spawn (Serving r connected_session) w
    | None => (inl not_connected, w)
    end
  else (inl not_connected, w).

(** [close_fut], called by [cass_session_close] and [cass_session_free]. *)
Definition close_fut (granted : bool) (w : world) : future * world :=
  if granted then
    match connected (inner w) with
    | Some _ => spawn CloseWaiting w
    | None => (inl not_connected, w)
    end
  else
    (inl (Err (CASS_ERROR_LIB_NO_HOSTS_AVAILABLE, "Still connecting or already closing"%string)), w).

(** The functions of the C API: the future they return, [None] for a null pointer, and
    the session afterwards.  [granted] is the outcome of [try_read], and [params] what
    [connect] takes from the cluster it is given. *)
Notation session_ptr := (option world).
Notation api_result := (option future * session_ptr)%type.

Definition on_session (session : session_ptr) (f : world -> future * world) : api_result :=
  match session with
  | None => (None, None)
  | Some w => let '(fut, w) := f w in (Some fut, Some w)
  end.

Definition cass_session_connect (params : CassCluster -> option string -> ConnectParams)
    (session : session_ptr) (cluster : option CassCluster) : api_result :=
  match cluster with
  | None => (None, session)
  | Some cluster => on_session session (connect (params cluster None))
  end.

Definition cass_session_connect_keyspace_n (params : CassCluster -> option string -> ConnectParams)
    (session : session_ptr) (cluster : option CassCluster) (keyspace : char_ptr) (keyspace_length : nat)
  : api_result :=
  match cluster with
  | None => (None, session)
  | Some cluster =>
      match to_str keyspace keyspace_length with
      | Ok ks => on_session session (connect (params cluster (Some ks)))
      | Err NullPointer => on_session session (connect (params cluster None))
      | Err InvalidUtf8 => (None, session)
      end
  end.

Definition cass_session_connect_keyspace params session cluster (keyspace : char_ptr) : api_result :=
  let '(keyspace, keyspace_length) := as_len_delimited keyspace in
  cass_session_connect_keyspace_n params session cluster keyspace keyspace_length.

Definition cass_session_execute (granted : bool) (session : session_ptr)
    (statement : option (CassStatement R ExecutionProfileHandle (CassPrepared R ExecutionProfileHandle)))
  : api_result :=
  match statement with
  | None => (None, session)
  | Some st =>
      on_session session (start_request granted
        (Execute (Statement.statement st) (paging_state st) (paging_enabled st) (exec_profile st)))
  end.

(** A batch is its state and its profile. *)
Definition cass_session_execute_batch (granted : bool) (session : session_ptr)
    (batch : option (@CassBatchState R ExecutionProfileHandle *
                     option (PerStatementExecProfile ExecutionProfileHandle))) : api_result :=
  match batch with
  | None => (None, session)
  | Some (state, batch_exec_profile) =>
      on_session session (start_request granted (ExecuteBatch state batch_exec_profile))
  end.

(** A null pointer is an empty query. *)
Definition cass_session_prepare_n (granted : bool) (session : session_ptr) (query : char_ptr)
    (query_length : nat) : api_result :=
  match to_str query query_length with
  | Ok query_str => on_session session (start_request granted (Prepare query_str))
  | Err NullPointer => on_session session (start_request granted (Prepare EmptyString))
  | Err InvalidUtf8 => (None, session)
  end.

Definition cass_session_prepare (granted : bool) (session : session_ptr) (query : char_ptr) : api_result :=
  let '(query, query_length) := as_len_delimited query in
  cass_session_prepare_n granted session query query_length.

Definition cass_session_prepare_from_existing (granted : bool) (session : session_ptr)
    (statement : option (CassStatement R ExecutionProfileHandle (CassPrepared R ExecutionProfileHandle)))
  : api_result :=
  match statement with
  | None => (None, session)
  | Some st => on_session session (start_request granted (PrepareFromExisting (Statement.statement st)))
  end.

Definition cass_session_close (granted : bool) (session : session_ptr) : api_result :=
  on_session session (close_fut granted).

(** The future is the one [cass_session_free] waits for; nothing is waited for at a null
    pointer. *)
Definition cass_session_free (granted : bool) (session : session_ptr) : api_result :=
  on_session session (close_fut granted).

Definition cass_session_get_client_id (granted : bool) (session : session_ptr) : CassUuid :=
  match session with
  | None => CassUuid_from 0   (* the nil UUID *)
  | Some w => if granted then CassUuid_from (client_id (inner w)) else CassUuid_from 0
  end.

(** *** The steps of the tasks *)

Definition set_task (i : nat) (t : task) (c : CassSessionInner) (w : world) : world :=
  mkWorld c (<[i := t]> (tasks w)).

(** [connect_fut] once it has the write lock, up to building the session. *)
Definition connect_locked (i : nat) (p : ConnectParams) (w : world) : world :=
  match connected (inner w) with
  | Some _ =>
      set_task i (TaskFinished (Err (CASS_ERROR_LIB_UNABLE_TO_CONNECT,
                                     "Already connecting, closing, or connected"%string))) (inner w) w
  | None =>
      let inner' :=
        match cp_client_id p with
        | Some cluster_client_id => mkInner (connected (inner w)) cluster_client_id
        | None => inner w
        end in
      match session_settings p with
      | Ret settings => set_task i (ConnectBuilding p settings) inner' w
      | _ => set_task i TaskPanic inner' w
      end
  end.

(** The rest of it, after the driver built the session or failed to. *)
Definition connect_built (i : nat) (p : ConnectParams) (built : Prelude.result NewSessionError Sess)
    (w : world) : world :=
  match built with
  | Err err =>
      set_task i (TaskFinished (Err (to_cass_error err, new_session_error_msg err))) (inner w) w
  | Ok session =>
      set_task i (TaskFinished (Ok Empty))
        (mkInner (Some (mkConnected (cp_runtime p) session (build_exec_profile_map rust p)))
           (client_id (inner w))) w
  end.

(** The future of [close_fut]. *)
Definition close_locked (i : nat) (w : world) : world :=
  match connected (inner w) with
  | None =>
      set_task i (TaskFinished (Err (CASS_ERROR_LIB_UNABLE_TO_CLOSE, "Session is not connected"%string)))
        (inner w) w
  | Some _ => set_task i (TaskFinished (Ok Empty)) (mkInner None (client_id (inner w))) w
  end.

(** The future of a request, which asks the session it finds; preparing a prepared
    statement does not use it. *)
Definition serve_task (i : nat) (answers : Sess -> Environment) (r : Request) (w : world) : world :=
  match r, connected (inner w) with
  | PrepareFromExisting (Prepared ps), _ =>
      set_task i (TaskFinished (Ok (PreparedResult (bp_statement ps)))) (inner w) w
  | _, Some connected_session =>
      set_task i (TaskFinished (serve (answers (session connected_session)) connected_session r)) (inner w) w
  | _, None => set_task i TaskPanic (inner w) w
  end.

Definition is_pending (t : task) : bool :=
  match t with TaskFinished _ | Cancelled | TaskPanic => false | _ => true end.

(** *** Runs

    An event says what a client or the driver sees of a step. *)

Inductive event :=
| EvConnected (c : Conn)
| EvConnectRefused
| EvConnectFailed
| EvClosed
| EvCloseRefused
| EvServed (c : Conn)
| EvRejected.

Definition rejected (f : future) : list event :=
  match f with inl _ => [EvRejected] | inr _ => [] end.

(** What client threads do. *)
Inductive client_step : world -> list event -> world -> Prop :=
| client_connect p w : client_step w [] (connect p w).2
| client_request granted r w :
    try_read w granted ->
    client_step w (rejected (start_request granted r w).1) (start_request granted r w).2
| client_close granted w :
    try_read w granted -> client_step w (rejected (close_fut granted w).1) (close_fut granted w).2.

(** What the tasks do; the driver answers requests and builds sessions as it likes. *)
Inductive task_step : world -> list event -> world -> Prop :=
| task_connect_locked i p w :
    tasks w !! i = Some (ConnectWaiting p) -> write_free w = true ->
    task_step w (match connected (inner w) with Some _ => [EvConnectRefused] | None => [] end)
      (connect_locked i p w)
| task_connect_built i p settings built w :
    tasks w !! i = Some (ConnectBuilding p settings) ->
    task_step w
      [match built with
       | Ok session => EvConnected (mkConnected (cp_runtime p) session (build_exec_profile_map rust p))
       | Err _ => EvConnectFailed
       end] (connect_built i p built w)
| task_close_locked i w :
    tasks w !! i = Some CloseWaiting -> write_free w = true ->
    task_step w [match connected (inner w) with Some _ => EvClosed | None => EvCloseRefused end]
      (close_locked i w)
| task_serve i moment r granted w :
    tasks w !! i = Some (Serving r granted) ->
    task_step w [EvServed granted] (serve_task i (driver_at moment) r w).

(** A task may also be dropped with its runtime, at any of its awaits. *)
Inductive step : world -> list event -> world -> Prop :=
| step_client w evs w' : client_step w evs w' -> step w evs w'
| step_task w evs w' : task_step w evs w' -> step w evs w'
| step_cancel i t w :
    tasks w !! i = Some t -> is_pending t = true -> step w [] (set_task i Cancelled (inner w) w).

Inductive run : world -> list event -> world -> Prop :=
| run_nil w : run w [] w
| run_step w evs w' evs' w'' : run w evs w' -> step w' evs' w'' -> run w (evs ++ evs') w''.

Definition reachable (w : world) : Prop := exists id evs, run (cass_session_new id) evs w.

(** ** The contract of a session

    It is closed, or open with one connection; it is opened only when closed, closed only
    when open, and requests are served by the connection that is open. *)
Inductive lifecycle_step : option Conn -> event -> option Conn -> Prop :=
| lc_connect c : lifecycle_step None (EvConnected c) (Some c)
| lc_connect_failed : lifecycle_step None EvConnectFailed None
| lc_connect_refused c : lifecycle_step (Some c) EvConnectRefused (Some c)
| lc_close c : lifecycle_step (Some c) EvClosed None
| lc_close_refused : lifecycle_step None EvCloseRefused None
| lc_serve c : lifecycle_step (Some c) (EvServed c) (Some c)
| lc_reject s : lifecycle_step s EvRejected s.

Inductive lifecycle : option Conn -> list event -> option Conn -> Prop :=
| lifecycle_nil s : lifecycle s [] s
| lifecycle_cons s e s' es s'' :
    lifecycle_step s e s' -> lifecycle s' es s'' -> lifecycle s (e :: es) s''.

Lemma lifecycle_app s es s' es' s'' :
  lifecycle s es s' -> lifecycle s' es' s'' -> lifecycle s (es ++ es') s''.
Proof. induction 1; cbn; [done|]. intros H'. econstructor; eauto. Qed.

Lemma lifecycle_one s e s' : lifecycle_step s e s' -> lifecycle s [e] s'.
Proof. intros H. econstructor; [exact H|constructor]. Qed.

(** ** The invariant *)

Record session_ok (w : world) : Prop := {
  ok_serving : forall i r g, tasks w !! i = Some (Serving r g) -> connected (inner w) = Some g;
  ok_building : forall i p s, tasks w !! i = Some (ConnectBuilding p s) -> connected (inner w) = None;
  ok_one_builder : forall i p s j p' s', tasks w !! i = Some (ConnectBuilding p s) ->
    tasks w !! j = Some (ConnectBuilding p' s') -> i = j;
  ok_no_panic : forall i, tasks w !! i <> Some TaskPanic
}.

Lemma existsb_lookup (f : task -> bool) l :
  existsb f l = false <-> forall i t, l !! i = Some t -> f t = false.
Proof.
  induction l as [|x l IH]; cbn; [done|]. rewrite orb_false_iff, IH. split.
  - intros [Hx H] [|i] t Ht; cbn in Ht; [by simplify_eq|eauto].
  - intros H. split; [by apply (H O)|]. intros i t Ht. by apply (H (S i)).
Qed.

Lemma write_free_none w :
  write_free w = true ->
  forall i t, tasks w !! i = Some t -> holds_write t = false /\ holds_read t = false.
Proof.
  unfold write_free, write_locked, read_locked. rewrite andb_true_iff, !negb_true_iff, !existsb_lookup.
  intros [H1 H2] i t Ht. eauto.
Qed.

(** A task that holds no lock and has not panicked. *)
Definition idle (t : task) : Prop := holds_write t = false /\ holds_read t = false /\ t <> TaskPanic.

(** Tasks stop holding locks and others start waiting, with the connection unchanged. *)
Lemma ok_idle w w' :
  session_ok w -> connected (inner w') = connected (inner w) ->
  (forall j t, tasks w' !! j = Some t -> idle t \/ tasks w !! j = Some t) -> session_ok w'.
Proof.
  intros Hok Hc Ht. split.
  - intros i r g H. destruct (Ht _ _ H) as [(_ & Hr & _)|H']; [done|]. rewrite Hc. by eapply ok_serving.
  - intros i p s H. destruct (Ht _ _ H) as [(Hw & _)|H']; [done|]. rewrite Hc. by eapply ok_building.
  - intros i p s j p' s' Hi Hj. destruct (Ht _ _ Hi) as [(Hw & _)|Hi']; [done|].
    destruct (Ht _ _ Hj) as [(Hw & _)|Hj']; [done|]. by eapply ok_one_builder.
  - intros i H. destruct (Ht _ _ H) as [(_ & _ & Hp)|H']; [done|]. by apply (ok_no_panic _ Hok i).
Qed.

Lemma set_task_lookup w i t c j t' :
  tasks (set_task i t c w) !! j = Some t' -> (j = i /\ t' = t) \/ (j <> i /\ tasks w !! j = Some t').
Proof. cbn. intros [(-> & -> & _)|[? ?]]%list_lookup_insert_Some; auto. Qed.

Lemma ok_settle w i t c :
  session_ok w -> connected c = connected (inner w) -> idle t -> session_ok (set_task i t c w).
Proof.
  intros Hok Hc Hi. apply (ok_idle w); [done..|]. intros j t' [[_ ->]|[_ H]]%set_task_lookup; auto.
Qed.

Lemma spawn_lookup w t j t' :
  tasks (spawn t w).2 !! j = Some t' -> t' = t \/ tasks w !! j = Some t'.
Proof. cbn. intros [H|[_ H]]%lookup_app_Some; [auto|]. apply list_lookup_singleton_Some in H as [_ <-]. auto. Qed.

Lemma ok_spawn_idle w t : session_ok w -> idle t -> session_ok (spawn t w).2.
Proof.
  intros Hok Hi. apply (ok_idle w); [done..|]. intros j t' [->|H]%spawn_lookup; auto.
Qed.

Lemma ok_spawn_request w r g :
  session_ok w -> connected (inner w) = Some g -> session_ok (spawn (Serving r g) w).2.
Proof.
  intros Hok Hc. split.
  - intros i r' g' [H|H]%spawn_lookup; [by simplify_eq|]. by eapply (ok_serving w).
  - intros i p s [H|H]%spawn_lookup; [done|]. by eapply (ok_building w).
  - intros i p s j p' s' [H|H]%spawn_lookup [H'|H']%spawn_lookup; try done. by eapply (ok_one_builder w).
  - intros i [H|H]%spawn_lookup; [done|]. by apply (ok_no_panic w Hok i).
Qed.

(** Whoever gets the write lock when the session is closed is the only one with a lock. *)
Lemma ok_build w i p s c :
  session_ok w -> write_free w = true -> connected c = None ->
  session_ok (set_task i (ConnectBuilding p s) c w).
Proof.
  intros Hok Hf Hc. pose proof (write_free_none w Hf) as Hn. split.
  - intros j r g [[_ H]|[_ H]]%set_task_lookup; [done|]. by apply Hn in H as [_ H].
  - done.
  - intros j p1 s1 k p2 s2 [[-> _]|[_ H]]%set_task_lookup [[-> _]|[_ H']]%set_task_lookup; try done;
      [by apply Hn in H' as [H' _]|by apply Hn in H as [H _]..].
  - intros j [[_ H]|[_ H]]%set_task_lookup; [done|]. by apply (ok_no_panic w Hok j).
Qed.

(** With no lock held but the one given up, the connection may change. *)
Lemma ok_change w i t c :
  session_ok w -> (forall j t', j <> i -> tasks w !! j = Some t' -> holds_write t' = false /\ holds_read t' = false) ->
  idle t -> session_ok (set_task i t c w).
Proof.
  intros Hok Hn (Hw & Hr & Hp).
  assert (H : forall j t', tasks (set_task i t c w) !! j = Some t' ->
    holds_write t' = false /\ holds_read t' = false).
  { intros j t' [[_ ->]|[Hne H]]%set_task_lookup; eauto. }
  split.
  - intros j r g [_ H']%H. done.
  - intros j p s [H' _]%H. done.
  - intros j p s k p' s' [H' _]%H. done.
  - intros j [[_ ?]|[_ ?]]%set_task_lookup; [congruence|]. by apply (ok_no_panic w Hok j).
Qed.

(** The builder is alone. *)
Lemma builder_alone w i p s :
  session_ok w -> tasks w !! i = Some (ConnectBuilding p s) ->
  forall j t, j <> i -> tasks w !! j = Some t -> holds_write t = false /\ holds_read t = false.
Proof.
  intros Hok Hi j t Hne Hj. pose proof (ok_building _ Hok _ _ _ Hi) as Hc. destruct t; try done.
  - destruct Hne. by eapply ok_one_builder.
  - pose proof (ok_serving _ Hok _ _ _ Hj). congruence.
Qed.

Lemma unquote_total ks : exists r, unquote_keyspace ks = Ret r.
Proof.
  unfold unquote_keyspace. destruct ks as [|c ks]; [by eexists|]. destruct (_ && _); by eexists.
Qed.

Lemma session_settings_total p : exists s, session_settings p = Ret s.
Proof.
  unfold session_settings. destruct (cp_keyspace p) as [ks|]; cbn; [|by eexists].
  destruct (unquote_total ks) as [r ->]. by eexists.
Qed.

Lemma client_step_ok w evs w' : client_step w evs w' -> session_ok w -> session_ok w'.
Proof.
  intros H Hok. destruct H as [p w|[] r w _|[] w _]; cbn.
  - by apply ok_spawn_idle.
  - unfold start_request. destruct (connected (inner w)) eqn:E; [by apply ok_spawn_request|done].
  - done.
  - unfold close_fut. destruct (connected (inner w)); [by apply ok_spawn_idle|done].
  - done.
Qed.

Lemma serve_task_cases i answers r g w :
  connected (inner w) = Some g ->
  exists res, serve_task i answers r w = set_task i (TaskFinished res) (inner w) w /\
    res = serve (answers (session g)) g r.
Proof.
  intros Hc. unfold serve_task. rewrite Hc.
  destruct r as [| | |[q|ps]]; eexists; (split; [reflexivity|done]).
Qed.

Lemma task_step_ok w evs w' : task_step w evs w' -> session_ok w -> session_ok w'.
Proof.
  intros H Hok. destruct H as [i p w Hi Hf|i p s built w Hi|i w Hi Hf|i moment r g w Hi].
  - unfold connect_locked. destruct (connected (inner w)) eqn:E; [by apply ok_settle|].
    destruct (session_settings_total p) as [s ->]. apply ok_build; [done..|]. by destruct (cp_client_id p).
  - pose proof (builder_alone _ _ _ _ Hok Hi). destruct built; cbn; by apply ok_change.
  - unfold close_locked. destruct (connected (inner w)) eqn:E; [|by apply ok_settle].
    apply ok_change; [done| |done]. intros j t _. by apply write_free_none.
  - destruct (serve_task_cases i (driver_at moment) r g w) as (res & -> & _); [by eapply ok_serving|]. by apply ok_settle.
Qed.

Lemma step_ok w evs w' : step w evs w' -> session_ok w -> session_ok w'.
Proof.
  intros [? ? ? H|? ? ? H|i t ? Ht Hp] Hok; eauto using client_step_ok, task_step_ok.
  by apply ok_settle.
Qed.

Lemma new_ok id : session_ok (cass_session_new id).
Proof. by split. Qed.

Lemma run_ok w evs w' : run w evs w' -> session_ok w -> session_ok w'.
Proof. induction 1; eauto using step_ok. Qed.

Lemma reachable_ok w : reachable w -> session_ok w.
Proof. intros (id & evs & H). eapply run_ok; [done|apply new_ok]. Qed.

(** ** Theorems *)

(** A step does to the connection what its events say. *)
Lemma step_lifecycle w evs w' :
  step w evs w' -> session_ok w -> lifecycle (connected (inner w)) evs (connected (inner w')).
Proof.
  intros [w0 evs0 w0' H|w0 evs0 w0' H|i t w0 Ht Hp] Hok; [..|constructor].
  - destruct H as [p v|[] r v _|[] v _]; cbn; [constructor|..]; unfold start_request, close_fut;
      try (apply lifecycle_one; constructor); destruct (connected (inner v)) eqn:E; cbn; rewrite ?E;
      [constructor|apply lifecycle_one; constructor|constructor|apply lifecycle_one; constructor].
  - destruct H as [i p v Hi Hf|i p s built v Hi|i v Hi Hf|i moment r g v Hi].
    + unfold connect_locked. destruct (connected (inner v)) eqn:E; cbn; rewrite ?E.
      * apply lifecycle_one. constructor.
      * destruct (session_settings_total p) as [s ->]. cbn. destruct (cp_client_id p); cbn; rewrite ?E; constructor.
    + rewrite (ok_building _ Hok _ _ _ Hi).
      destruct built; cbn; rewrite ?(ok_building _ Hok _ _ _ Hi); apply lifecycle_one; constructor.
    + unfold close_locked. destruct (connected (inner v)) eqn:E; cbn; rewrite ?E; apply lifecycle_one; constructor.
    + pose proof (ok_serving _ Hok _ _ _ Hi) as Hc.
      destruct (serve_task_cases i (driver_at moment) r g v Hc) as (res & -> & _). cbn. rewrite Hc.
      apply lifecycle_one. constructor.
Qed.

Lemma run_lifecycle w evs w' :
  run w evs w' -> session_ok w -> lifecycle (connected (inner w)) evs (connected (inner w')).
Proof.
  induction 1 as [|w evs w' evs' w'' Hr IH Hs]; intros Hok; [constructor|].
  eapply lifecycle_app; [by apply IH|]. apply step_lifecycle; [done|]. by eapply run_ok.
Qed.

(** C5: whatever client threads call and however the tasks interleave, a session is seen
    as opened only when closed, closed only when open, and serving requests only with the
    connection that is open, the one each request was accepted with. *)
Theorem session_refines_lifecycle (id : Z) (evs : list event) (w : world) :
  run (cass_session_new id) evs w -> lifecycle None evs (connected (inner w)).
Proof. intros H. apply (run_lifecycle _ _ _ H), new_ok. Qed.

(** C11: a request that was accepted keeps its connection until it is answered, also when
    the session is being closed meanwhile: nobody builds or drops a connection while
    requests run, and no task ever finds the session closed under it and panics. *)
Theorem session_requests_safe (w : world) :
  reachable w ->
  (forall i r g, tasks w !! i = Some (Serving r g) ->
     connected (inner w) = Some g /\ write_locked w = false /\
     write_free w = false /\
     (forall answers, tasks (serve_task i answers r w) !! i =
        Some (TaskFinished (serve (answers (session g)) g r)))) /\
  (forall i, tasks w !! i <> Some TaskPanic).
Proof.
  intros Hok%reachable_ok. split; [|apply (ok_no_panic _ Hok)]. intros i r g Hi.
  pose proof (ok_serving _ Hok _ _ _ Hi) as Hc. split_and!; [done|..].
  - unfold write_locked. rewrite existsb_lookup. intros j t Hj. destruct t; try done.
    pose proof (ok_building _ Hok _ _ _ Hj). congruence.
  - destruct (write_free w) eqn:E; [|done].
    by destruct (write_free_none _ E _ _ Hi).
  - intros answers. destruct (serve_task_cases i answers r g w Hc) as (res & -> & ->). cbn.
    apply list_lookup_insert_eq. by eapply lookup_lt_Some.
Qed.

(** The steps a task has to take. *)
Definition task_work (t : task) : nat :=
  match t with
  | ConnectWaiting _ => 2
  | ConnectBuilding _ _ | CloseWaiting | Serving _ _ => 1
  | _ => 0
  end.

Definition work (w : world) : nat := sum_list_with task_work (tasks w).

Lemma work_set w i t t' c :
  tasks w !! i = Some t -> (task_work t' < task_work t)%nat -> (work (set_task i t' c w) < work w)%nat.
Proof.
  intros Hi Ht. unfold work, set_task. cbn. rewrite <- (take_drop_middle _ _ _ Hi) at 2.
  rewrite (insert_take_drop _ _ _ (lookup_lt_Some _ _ _ Hi)), !sum_list_with_app. cbn. lia.
Qed.

(** As long as a task is not done, some task can go on. *)
Lemma pending_can_step (w : world) (built : Prelude.result NewSessionError Sess) i t :
  tasks w !! i = Some t -> is_pending t = true -> exists evs w', task_step w evs w'.
Proof.
  intros Hi Hp. destruct (read_locked w) eqn:Er.
  { unfold read_locked in Er. apply existsb_exists in Er as (x & Hx & Hh).
    apply list_elem_of_In, list_elem_of_lookup in Hx as [j Hj]. destruct x as [| | |r g| | |]; try done.
    by eexists _, _; apply (task_serve j 0%nat r g). }
  destruct (write_locked w) eqn:Ew.
  { unfold write_locked in Ew. apply existsb_exists in Ew as (x & Hx & Hh).
    apply list_elem_of_In, list_elem_of_lookup in Hx as [j Hj]. destruct x as [|p s| | | | |]; try done.
    by eexists _, _; apply (task_connect_built j p s built). }
  assert (Hf : write_free w = true) by (unfold write_free; by rewrite Er, Ew).
  pose proof (write_free_none _ Hf _ _ Hi) as [Hw Hr].
  destruct t as [p| | | | | |]; try done; eexists _, _; by econstructor.
Qed.

Lemma task_step_decreases w evs w' : session_ok w -> task_step w evs w' -> (work w' < work w)%nat.
Proof.
  intros Hok H. destruct H as [i p v Hi Hf|i p s built v Hi|i v Hi Hf|i moment r g v Hi].
  - unfold connect_locked. destruct (connected (inner v)); [eapply work_set; [done|cbn; lia]|].
    destruct (session_settings_total p) as [s ->]. eapply work_set; [done|cbn; lia].
  - destruct built; (eapply work_set; [done|cbn; lia]).
  - unfold close_locked. destruct (connected (inner v)); (eapply work_set; [done|cbn; lia]).
  - destruct (serve_task_cases i (driver_at moment) r g v) as (res & -> & _); [by eapply ok_serving|].
    eapply work_set; [done|cbn; lia].
Qed.

(** C18: a session never deadlocks: as long as some task is not done, some task can go on,
    and every step of a task brings all of them closer to the end, so connecting,
    closing and all requests finish whatever their order. *)
Theorem session_settles (w : world) (built : Prelude.result NewSessionError Sess) :
  reachable w ->
  (forall i t, tasks w !! i = Some t -> is_pending t = true -> exists evs w', task_step w evs w') /\
  (forall evs w', task_step w evs w' -> (work w' < work w)%nat).
Proof.
  intros Hok%reachable_ok. split.
  - intros i t. by apply pending_can_step.
  - intros evs w'. by apply task_step_decreases.
Qed.
(** A session that is busy is the only reason to reject a request on an open one. *)
Theorem request_rejected_reason (granted : bool) (r : Request) (w : world) (res : future_result) :
  try_read w granted -> (start_request granted r w).1 = inl res ->
  res = not_connected /\
  (connected (inner w) = None \/ write_locked w = true \/ existsb waits_write (tasks w) = true).
Proof.
  unfold start_request. intros Ht. destruct granted; [|intros [= <-]; auto].
  destruct (connected (inner w)); cbn; intros [= <-]; auto.
Qed.

(** The calls of a client thread, with the outcome of [try_read]. *)
Inductive api_call :=
| CallConnect (params : CassCluster -> option string -> ConnectParams) (cluster : option CassCluster)
| CallConnectKeyspace (params : CassCluster -> option string -> ConnectParams)
    (cluster : option CassCluster) (keyspace : char_ptr) (keyspace_length : nat)
| CallExecute (statement : option (CassStatement R ExecutionProfileHandle (CassPrepared R ExecutionProfileHandle)))
| CallExecuteBatch (batch : option (@CassBatchState R ExecutionProfileHandle *
                                    option (PerStatementExecProfile ExecutionProfileHandle)))
| CallPrepare (query : char_ptr) (query_length : nat)
| CallPrepareFromExisting
    (statement : option (CassStatement R ExecutionProfileHandle (CassPrepared R ExecutionProfileHandle)))
| CallClose.

Definition api_exec (granted : bool) (c : api_call) (session : session_ptr) : api_result :=
  match c with
  | CallConnect params cluster => cass_session_connect params session cluster
  | CallConnectKeyspace params cluster ks n => cass_session_connect_keyspace_n params session cluster ks n
  | CallExecute statement => cass_session_execute granted session statement
  | CallExecuteBatch batch => cass_session_execute_batch granted session batch
  | CallPrepare query n => cass_session_prepare_n granted session query n
  | CallPrepareFromExisting statement => cass_session_prepare_from_existing granted session statement
  | CallClose => cass_session_close granted session
  end.

(** Every call does a step of the transition system, or returns a null future and
    changes nothing. *)
Theorem api_call_steps (granted : bool) (c : api_call) (w : world) :
  try_read w granted ->
  (api_exec granted c (Some w) = (None, Some w)) \/
  (exists fut w' evs, api_exec granted c (Some w) = (Some fut, Some w') /\ client_step w evs w').
Proof.
  intros Ht.
  assert (Hc : forall p, exists fut w' evs, on_session (Some w) (connect p) = (Some fut, Some w') /\ client_step w evs w').
  { intros p. eexists _, _, _. split; [reflexivity|]. apply client_connect. }
  assert (Hr : forall r, exists fut w' evs,
             on_session (Some w) (start_request granted r) = (Some fut, Some w') /\ client_step w evs w').
  { intros r. pose proof (client_request granted r w Ht) as H. cbn.
    destruct (start_request granted r w) as [f w']. eexists _, _, _. split; [reflexivity|exact H]. }
  destruct c as [params [cl|]|params [cl|] ks n|[st|]|[[s p]|]|q n|[st|]|];
    cbn [api_exec cass_session_connect cass_session_connect_keyspace_n cass_session_execute
         cass_session_execute_batch cass_session_prepare_n cass_session_prepare_from_existing];
    try (left; reflexivity); try (right; solve [apply Hc | apply Hr]).
  - unfold cass_session_connect_keyspace_n. destruct (to_str ks n) as [|[|]]; [right; apply Hc|right; apply Hc|left; reflexivity].
  - unfold cass_session_prepare_n. destruct (to_str q n) as [|[|]]; [right; apply Hr|right; apply Hr|left; reflexivity].
  - right. unfold cass_session_close. cbn. pose proof (client_close granted w Ht) as H.
    destruct (close_fut granted w) as [f w']. eexists _, _, _. split; [reflexivity|exact H].
Qed.

End Lifecycle.

(** ** What a connection is made of *)

Lemma pop_snoc k c : pop (k +:+ String c EmptyString) = k.
Proof.
  induction k as [|d k IH]; [done|]. change (String d k +:+ String c EmptyString) with (String d (k +:+ String c EmptyString)).
  cbn [pop]. rewrite IH. by destruct k.
Qed.

Lemma ends_with_snoc k c : ends_with c (k +:+ String c EmptyString) = true.
Proof.
  enough (H : strip_suffix c (k +:+ String c EmptyString) = Some k) by (unfold ends_with; by rewrite H).
  induction k as [|d k IH].
  { change ((if Ascii.eqb c c then Some EmptyString else None) = Some EmptyString).
    by rewrite Ascii.eqb_refl. }
  change (String d k +:+ String c EmptyString) with (String d (k +:+ String c EmptyString)).
  destruct k as [|d' k].
  - change (EmptyString +:+ String c EmptyString) with (String c EmptyString) in *.
    by rewrite strip_suffix_cons, IH.
  - change (String d' k +:+ String c EmptyString) with (String d' (k +:+ String c EmptyString)) in *.
    by rewrite strip_suffix_cons, IH.
Qed.

Lemma strip_suffix_snoc c s k :
  strip_suffix c s = Some k -> s = (k +:+ String c EmptyString)%string.
Proof.
  revert k. induction s as [|d s IH]; intros k; [done|]. destruct s as [|d' s].
  - simpl. destruct (Ascii.eqb_spec c d) as [<-|]; [|done]. by intros [= <-].
  - rewrite strip_suffix_cons. destruct (strip_suffix c (String d' s)) as [k'|]; [|done].
    intros [= <-]. by rewrite (IH k' eq_refl).
Qed.

(** The text of a port is its decimal notation. *)
Lemma digit_char_pretty d :
  0 <= d < 10 -> ascii_of_N (Z.to_N (digit_char d)) = pretty_N_char (Z.to_N d).
Proof.
  intros Hd. assert (d = 0 \/ d = 1 \/ d = 2 \/ d = 3 \/ d = 4 \/ d = 5 \/ d = 6 \/ d = 7 \/ d = 8 \/ d = 9)
    as H by lia. by repeat (destruct H as [->|H]; [reflexivity|]); subst.
Qed.

Lemma string_of_bytes_snoc l b s :
  (string_of_bytes (l ++ [b]) +:+ s)%string
  = (string_of_bytes l +:+ String (ascii_of_N (Z.to_N b)) s)%string.
Proof.
  unfold string_of_bytes. rewrite map_app. induction (map _ l) as [|a l' IH]; [done|].
  change (String a (string_of_list_ascii (l' ++ [ascii_of_N (Z.to_N b)]) +:+ s)
          = String a (string_of_list_ascii l' +:+ String (ascii_of_N (Z.to_N b)) s)).
  f_equal. exact IH.
Qed.

Lemma pretty_go_digits fuel n s :
  0 < n < 10 ^ Z.of_nat fuel ->
  pretty_N_go (Z.to_N n) s = (string_of_bytes (to_radix 10 fuel n) +:+ s)%string.
Proof.
  revert n s. induction fuel as [|fuel IH]; intros n s Hn; [simpl in Hn; lia|].
  rewrite pretty_N_go_step by lia. cbn [to_radix].
  assert (Hdiv : (Z.to_N n `div` 10)%N = Z.to_N (n / 10)) by by rewrite Z2N.inj_div by lia.
  assert (Hmod : (Z.to_N n `mod` 10)%N = Z.to_N (n mod 10)) by by rewrite Z2N.inj_mod by lia.
  rewrite Hdiv, Hmod, <- digit_char_pretty by (apply Z.mod_pos_bound; lia).
  destruct (Z.ltb_spec n 10) as [Hlt|Hge].
  - rewrite Z.div_small, Z.mod_small by lia. by rewrite pretty_N_go_0.
  - rewrite IH; [by rewrite string_of_bytes_snoc|]. split; [apply Z.div_str_pos; lia|].
    apply Z.div_lt_upper_bound; [lia|]. rewrite Nat2Z.inj_succ, Z.pow_succ_r in Hn by lia. lia.
Qed.

Lemma known_node_pretty port cp :
  0 <= port < 65536 -> known_node port cp = (cp +:+ ":" +:+ pretty port)%string.
Proof.
  intros Hp. unfold known_node. do 2 f_equal. destruct (decide (port = 0)) as [->|Hne]; [done|].
  assert (Hpos : pretty port = pretty_N_go (Z.to_N port) EmptyString).
  { destruct port as [|q|q]; [done| |lia]. reflexivity. }
  rewrite Hpos, (pretty_go_digits 5) by (change (10 ^ Z.of_nat 5) with 100000; lia).
  induction (string_of_bytes _) as [|a t IH]; [done|].
  change (String a t = String a (t +:+ EmptyString)). by f_equal.
Qed.
(** *** What connecting should do *)

(** The default profile: what was set on the cluster, else the driver's defaults, with
    the load balancing that the cluster describes. *)
Definition default_profile (rust : ExecutionProfile) (cluster : CassCluster) : ExecutionProfile :=
  let b := default_execution_profile_builder cluster in
  {| p_request_timeout := default (p_request_timeout rust) (b_request_timeout b);
     p_consistency := default (p_consistency rust) (b_consistency b);
     p_serial_consistency := default (p_serial_consistency rust) (b_serial_consistency b);
     p_load_balancing_policy := described (cluster_load_balancing_config cluster);
     p_retry_policy := default (p_retry_policy rust) (b_retry_policy b);
     p_speculative_execution_policy :=
       default (p_speculative_execution_policy rust) (b_speculative_execution_policy b) |}.

(** A named profile completed by the default profile [d] where it overrides nothing. *)
Definition completed (rust : ExecutionProfile) (profile : CassExecProfile) (d : ExecutionProfile)
  : ExecutionProfile :=
  let b := ExecProfile.inner profile in
  let o := overrides profile in
  {| p_request_timeout :=
       if o_request_timeout o then default (p_request_timeout rust) (b_request_timeout b)
       else p_request_timeout d;
     p_consistency :=
       if o_consistency o then default (p_consistency rust) (b_consistency b) else LocalOne;
     p_serial_consistency :=
       if o_serial_consistency o then default (p_serial_consistency rust) (b_serial_consistency b)
       else p_serial_consistency d;
     p_load_balancing_policy :=
       match load_balancing_kind (load_balancing_config profile) with
       | Some _ => described (load_balancing_config profile)
       | None => p_load_balancing_policy d
       end;
     p_retry_policy :=
       if o_retry_policy o then default (p_retry_policy rust) (b_retry_policy b)
       else p_retry_policy d;
     p_speculative_execution_policy :=
       if o_speculative_execution_policy o
       then default (p_speculative_execution_policy rust) (b_speculative_execution_policy b)
       else p_speculative_execution_policy d |}.

(** The load balancing configurations of a cluster: its own and those of the profiles
    that choose a kind of load balancing. *)
Inductive cluster_config (cluster : CassCluster) : LoadBalancingConfig -> Prop :=
| config_default : cluster_config cluster (cluster_load_balancing_config cluster)
| config_profile name profile kind :
    execution_profile_map cluster !! name = Some profile ->
    load_balancing_kind (load_balancing_config profile) = Some kind ->
    cluster_config cluster (load_balancing_config profile).

(** The keyspace a session uses, and whether its name is case sensitive.  A single
    double quote counts as quoted. *)
Inductive keyspace_used : option string -> option (string * bool) -> Prop :=
| no_keyspace : keyspace_used None None
| quoted_keyspace k :
    keyspace_used (Some (String quote (k +:+ String quote EmptyString))) (Some (k, true))
| lone_quote : keyspace_used (Some (String quote EmptyString)) (Some (EmptyString, true))
| plain_keyspace k :
    k <> String quote EmptyString ->
    (forall k', k <> String quote (k' +:+ String quote EmptyString)) ->
    keyspace_used (Some k) (Some (k, false)).

Lemma unquote_keyspace_used ks :
  exists used, unquote_keyspace ks = Ret used /\ keyspace_used (Some ks) (Some used).
Proof.
  destruct (unquote_total ks) as [[k b] Hu]. exists (k, b). split; [done|]. revert Hu.
  unfold unquote_keyspace. destruct (starts_with quote ks && ends_with quote ks) eqn:Hq.
  - apply andb_true_iff in Hq as [Hs He]. destruct ks as [|c ks]; [done|].
    unfold starts_with, strip_prefix in Hs. destruct (Ascii.eqb_spec quote c) as [<-|]; [|done].
    unfold ends_with in He.
    destruct (strip_suffix quote (String quote ks)) as [k'|] eqn:Hk; [|done].
    apply strip_suffix_snoc in Hk. destruct k' as [|c' k'].
    + injection Hk as ->. intros [= <- <-]. apply lone_quote.
    + injection Hk as Hc ->. rewrite pop_snoc. intros [= <- <-]. apply quoted_keyspace.
  - intros [= <- <-]. apply plain_keyspace; [by intros ->|]. intros k' ->. revert Hq.
    change (String quote (k' +:+ String quote EmptyString)) with
      (String quote k' +:+ String quote EmptyString)%string.
    by rewrite ends_with_snoc.
Qed.

Lemma elem_of_configs cluster c :
  c ∈ cluster_load_balancing_config cluster ::
      omap (fun exec_profile =>
              match load_balancing_kind (load_balancing_config exec_profile) with
              | Some _ => Some (load_balancing_config exec_profile)
              | None => None
              end) (map snd (map_to_list (execution_profile_map cluster)))
  <-> cluster_config cluster c.
Proof.
  rewrite elem_of_cons, list_elem_of_omap. split.
  - intros [->|(profile & Hp & Hk)]; [constructor|].
    apply list_elem_of_fmap in Hp as ([name profile'] & -> & Hp). simpl in *.
    destruct (load_balancing_kind _) as [kind|] eqn:Hkind; [|done]. injection Hk as <-.
    apply elem_of_map_to_list in Hp. by eapply config_profile.
  - intros [|name profile kind Hp Hk]; [by left|]. right. exists profile. rewrite Hk.
    split; [|done]. apply list_elem_of_fmap. exists (name, profile). split; [done|].
    by apply elem_of_map_to_list.
Qed.

Lemma host_filter_configs cluster peer :
  accept (build_host_filter cluster) peer = true <->
  Forall (fun rule => exists c, cluster_config cluster c /\ rule c peer = true) rules.
Proof.
  unfold build_host_filter. rewrite accept_rules, forallb_forall, List.Forall_forall by done.
  setoid_rewrite existsb_exists. setoid_rewrite <- list_elem_of_In.
  by setoid_rewrite elem_of_configs.
Qed.
Lemma profile_build_completed rust profile d :
  profile_build rust profile d = completed rust profile d.
Proof.
  unfold profile_build. destruct (cluster_defaults_inner profile d) as [Hi Hc].
  rewrite Hi, Hc, build_described. destruct profile as [b [[] [] [] [] []] c]; done.
Qed.


(** ** Metrics *)
(** ** Metrics *)

Section Metrics.
Context {F : Type}.   (* double-precision numbers, which are passed through *)

(** [Snapshot] of the driver, in milliseconds, and the [requests] part of [CassMetrics],
    in microseconds. *)
Record Latencies := mkLatencies {
  l_min : Z; l_max : Z; l_mean : Z; l_stddev : Z; l_median : Z; l_percentile_75 : Z;
  l_percentile_95 : Z; l_percentile_98 : Z; l_percentile_99 : Z; l_percentile_99_9 : Z
}.

Inductive MetricsError := MetricsEmpty | MetricsOther.

Record DriverMetrics := mkDriverMetrics {
  get_snapshot : Prelude.result MetricsError Latencies;
  get_mean_rate : F; get_one_minute_rate : F; get_five_minute_rate : F; get_fifteen_minute_rate : F;
  get_total_connections : Z; get_connection_timeouts : Z; get_request_timeouts : Z
}.

Record CassMetrics := mkMetrics {
  requests : Latencies;
  mean_rate : F; one_minute_rate : F; five_minute_rate : F; fifteen_minute_rate : F;
  total_connections : Z; available_connections : Z;
  exceeded_pending_requests_water_mark : Z; exceeded_write_bytes_water_mark : Z;
  connection_timeouts : Z; pending_request_timeouts : Z; request_timeouts : Z
}.

Definition MILLIS_TO_MICROS : Z := 1000.

(** [x * MILLIS_TO_MICROS] on [u64], field by field. *)
Definition scale (checks : bool) (s : Latencies) : outcome Latencies :=
  let mul x := arith_u checks 64 (x * MILLIS_TO_MICROS) in
  min ← mul (l_min s); max ← mul (l_max s); mean ← mul (l_mean s); stddev ← mul (l_stddev s);
  median ← mul (l_median s); p75 ← mul (l_percentile_75 s); p95 ← mul (l_percentile_95 s);
  p98 ← mul (l_percentile_98 s); p99 ← mul (l_percentile_99 s); p999 ← mul (l_percentile_99_9 s);
  Ret (mkLatencies min max mean stddev median p75 p95 p98 p99 p999).

(** What is written through [metrics]; [None] if nothing is.  [connected] is the metrics
    of the connection, if there is one. *)
Definition cass_session_get_metrics (checks session_valid metrics_valid granted : bool)
    (connected : option DriverMetrics) : outcome (option CassMetrics) :=
  if negb session_valid then Ret None
  else if negb metrics_valid then Ret None
  else if negb granted then Ret None
  else match connected with
  | None => Ret None
  | Some rust_metrics =>
      match get_snapshot rust_metrics with
      | Err MetricsOther => Ret None
      | snapshot =>
          let s := match snapshot with Ok s => s | Err _ => mkLatencies 0 0 0 0 0 0 0 0 0 0 end in
          requests ← scale checks s;
          Ret (Some (mkMetrics requests
            (get_mean_rate rust_metrics) (get_one_minute_rate rust_metrics)
            (get_five_minute_rate rust_metrics) (get_fifteen_minute_rate rust_metrics)
            (get_total_connections rust_metrics) 0 0 0
            (get_connection_timeouts rust_metrics) 0 (get_request_timeouts rust_metrics)))
      end
  end.

Definition map_latencies (f : Z -> Z) (s : Latencies) : Latencies :=
  mkLatencies (f (l_min s)) (f (l_max s)) (f (l_mean s)) (f (l_stddev s)) (f (l_median s))
    (f (l_percentile_75 s)) (f (l_percentile_95 s)) (f (l_percentile_98 s)) (f (l_percentile_99 s))
    (f (l_percentile_99_9 s)).

Definition latencies (s : Latencies) : list Z :=
  [l_min s; l_max s; l_mean s; l_stddev s; l_median s; l_percentile_75 s; l_percentile_95 s;
   l_percentile_98 s; l_percentile_99 s; l_percentile_99_9 s].

(** Latencies are reported in microseconds, with and without overflow checks, as long as
    they are below 584 million years. *)
Theorem metrics_in_micros (checks : bool) (m : DriverMetrics) (s : Latencies) :
  get_snapshot m = Ok s -> Forall (fun x => 0 <= x < 2 ^ 64 / 1000) (latencies s) ->
  exists c, cass_session_get_metrics checks true true true (Some m) = Ret (Some c) /\
    requests c = map_latencies (fun x => x * 1000) s.
Proof.
  intros Hs Hall. unfold cass_session_get_metrics. cbn. rewrite Hs. unfold scale, MILLIS_TO_MICROS.
  unfold latencies in Hall. rewrite !Forall_cons in Hall. destruct_and! Hall.
  assert (Hmul : forall x, 0 <= x < 2 ^ 64 / 1000 -> arith_u checks 64 (x * 1000) = Ret (x * 1000)).
  { intros x Hx. unfold arith_u. destruct (_ && _) eqn:E; [done|].
    change (2 ^ 64 / 1000) with 18446744073709551 in Hx. change (2 ^ 64) with 18446744073709551616 in E. lia. }
  rewrite !Hmul by done. by eexists.
Qed.

End Metrics.

(** ** A session in use *)

Section Demo.
Variable rust : ExecutionProfile.

Notation demo_world := (@world dtree nat unit).

Definition demo_params : ConnectParams :=
  connect_params rust (fun l => l) 1%positive (cass_cluster_new rust_session_config) None.

Definition demo_conn : CassConnectedSession unit := mkConnected 1%positive tt (build_exec_profile_map rust demo_params).

Definition demo_request : @request dtree :=
  Execute (Statement.statement sample_statement) None false None.

(** Connect, execute, close while the request runs, answer the request, then close. *)
Definition demo_step (n : nat) (w : demo_world) : demo_world :=
  match n with
  | 0 => (connect demo_params w).2
  | 1 => connect_locked 0 demo_params w
  | 2 => connect_built rust (fun _ => EmptyString) 0 demo_params (Ok tt) w
  | 3 => (start_request true demo_request w).2
  | 4 => (close_fut true w).2
  | 5 => serve_task 1 (fun _ => sample_env) demo_request w
  | _ => close_locked 2 w
  end%nat.

Fixpoint demo (n : nat) : demo_world :=
  match n with O => cass_session_new 9 | S n => demo_step n (demo n) end.

(** The driver always gives the same answers. *)
Definition demo_driver (_ : nat) (_ : unit) : @Env dtree nat := sample_env.

Notation demo_run := (run rust (fun _ => EmptyString) demo_driver).

Lemma demo_runs5 : demo_run (demo 0) [EvConnected demo_conn] (demo 5).
Proof.
  apply (run_step _ _ _ _ [EvConnected demo_conn] (demo 4) []).
  2: { apply step_client. exact (client_close true (demo 4) eq_refl). }
  apply (run_step _ _ _ _ [EvConnected demo_conn] (demo 3) []).
  2: { apply step_client. exact (client_request true demo_request (demo 3) eq_refl). }
  apply (run_step _ _ _ _ [] (demo 2) [EvConnected demo_conn]).
  2: { apply step_task. exact (task_connect_built _ _ _ 0 demo_params _ (Ok tt) (demo 2) eq_refl). }
  apply (run_step _ _ _ _ [] (demo 1) []).
  2: { apply step_task. exact (task_connect_locked _ _ _ 0 demo_params (demo 1) eq_refl eq_refl). }
  apply (run_step _ _ _ _ [] (demo 0) []); [constructor|].
  apply step_client. exact (client_connect demo_params (demo 0)).
Qed.

Lemma demo_runs7 : demo_run (demo 0) [EvConnected demo_conn; EvServed demo_conn; EvClosed] (demo 7).
Proof.
  apply (run_step _ _ _ _ [EvConnected demo_conn; EvServed demo_conn] (demo 6) [EvClosed]).
  2: { apply step_task. exact (task_close_locked _ _ _ 2 (demo 6) eq_refl eq_refl). }
  apply (run_step _ _ _ _ [EvConnected demo_conn] (demo 5) [EvServed demo_conn]); [exact demo_runs5|].
  apply step_task. exact (task_serve _ _ demo_driver 1 0 demo_request demo_conn (demo 5) eq_refl).
Qed.

End Demo.

(** Defaults of the driver for the examples. *)
Definition demo_rust : ExecutionProfile := (build_session_builder
  (mkProfile None LocalOne None (build LoadBalancingConfig_default) RetryDefault None)
  (fun l => l) (cass_cluster_new rust_session_config)).2.

(** A cluster with two contact points. *)
Definition demo_cluster : CassCluster :=
  (cass_cluster_new rust_session_config) <| contact_points := ["10.0.0.1"; "10.0.0.2"]%string |>.


Lemma session_refines_lifecycle_witness :
  lifecycle None [EvConnected (demo_conn demo_rust); EvServed (demo_conn demo_rust); EvClosed] None.
Proof.
  exact (session_refines_lifecycle demo_rust (fun _ => EmptyString) demo_driver 9 _ (demo demo_rust 7) (demo_runs7 demo_rust)).
Defined.

Lemma session_requests_safe_witness :
  connected (inner (demo demo_rust 5)) = Some (demo_conn demo_rust) /\
  write_free (demo demo_rust 5) = false /\
  tasks (serve_task 1 (fun _ => sample_env) demo_request (demo demo_rust 5)) !! 1%nat =
    Some (TaskFinished (Ok (QueryResult (mkResult None NoMorePages NonRows (Some 1%nat))))).
Proof.
  assert (H : reachable demo_rust (fun _ => EmptyString) demo_driver (demo demo_rust 5)).
  { eexists 9, _. exact (demo_runs5 demo_rust). }
  destruct (session_requests_safe demo_rust (fun _ => EmptyString) demo_driver _ H) as [H1 _].
  destruct (H1 1%nat demo_request (demo_conn demo_rust) eq_refl) as (Hc & _ & Hf & Hs).
  split; [exact Hc|]. split; [exact Hf|]. exact (Hs (fun _ => sample_env)).
Defined.

Lemma session_settles_witness :
  exists evs w', task_step demo_rust (fun _ => EmptyString) demo_driver (demo demo_rust 5) evs w' /\
    (work w' < work (demo demo_rust 5))%nat.
Proof.
  assert (H : reachable demo_rust (fun _ => EmptyString) demo_driver (demo demo_rust 5)).
  { eexists 9, _. exact (demo_runs5 demo_rust). }
  destruct (session_settles demo_rust (fun _ => EmptyString) demo_driver _ (Err EmptyKnownNodesList) H) as [H1 H2].
  destruct (H1 1%nat _ eq_refl eq_refl) as (evs & w' & Hs). exists evs, w'. split; [exact Hs|].
  exact (H2 _ _ Hs).
Defined.
