(* ===== verification/Ssl.v ===== *)
(** * TLS settings (ssl.rs)

    The state of an OpenSSL context this library sets.  Certificates and keys, reading
    them from PEM text, whether OpenSSL accepts them, and its verification of a peer are
    parameters; a memory BIO is the text that is still to be read. *)

From Stdlib Require Import ZArith Lia String.
From stdpp Require Import base list strings.
From S2P Require Import Prelude ArgConv Types.

Open Scope Z_scope.

(** ** Verification flags *)

Definition CASS_SSL_VERIFY_NONE : Z := 0x00.
Definition CASS_SSL_VERIFY_PEER_CERT : Z := 0x01.
Definition CASS_SSL_VERIFY_PEER_IDENTITY : Z := 0x02.
Definition CASS_SSL_VERIFY_PEER_IDENTITY_DNS : Z := 0x04.

Definition CASS_SSL_VERIFY_KNOWN_FLAGS : Z :=
  Z.lor (Z.lor CASS_SSL_VERIFY_PEER_CERT CASS_SSL_VERIFY_PEER_IDENTITY)
    CASS_SSL_VERIFY_PEER_IDENTITY_DNS.

Definition X509_V_OK : Z := 0.
Definition X509_V_ERR_HOSTNAME_MISMATCH : Z := 62.
Definition X509_V_ERR_EMAIL_MISMATCH : Z := 63.
Definition X509_V_ERR_IP_ADDRESS_MISMATCH : Z := 64.

(** [VerifyCallback]: the two arguments are [preverify_ok] and the error of the store
    context, the results the returned value and the error of the store context after it. *)
Definition VerifyCallback : Type := Z -> Z -> Z * Z.

Definition verify_peer_cert_callback : VerifyCallback := fun preverify_ok error =>
  if preverify_ok =? 1 then (1, error)
  else if (error =? X509_V_ERR_HOSTNAME_MISMATCH) || (error =? X509_V_ERR_EMAIL_MISMATCH)
          || (error =? X509_V_ERR_IP_ADDRESS_MISMATCH) then (1, X509_V_OK)
  else (0, error).

(** [SslVerifyMode], and the callback installed with it if any. *)
Inductive SslVerifyMode := VERIFY_NONE | VERIFY_PEER.
Definition verification : Type := SslVerifyMode * option VerifyCallback.

(** What [cass_ssl_set_verify_flags] passes to [SSL_CTX_set_verify]. *)
Definition verify_flags (flags : Z) : verification :=
  let flags := if negb (Z.land flags (Z.lnot CASS_SSL_VERIFY_KNOWN_FLAGS) =? 0)
               then CASS_SSL_VERIFY_PEER_IDENTITY else flags in
  let verify_identity :=
    negb (Z.land flags (Z.lor CASS_SSL_VERIFY_PEER_IDENTITY CASS_SSL_VERIFY_PEER_IDENTITY_DNS) =? 0) in
  let verify_peer := negb (Z.land flags CASS_SSL_VERIFY_KNOWN_FLAGS =? CASS_SSL_VERIFY_NONE) in
  match verify_peer, verify_identity with
  | _, true => (VERIFY_PEER, None)
  | true, false => (VERIFY_PEER, Some verify_peer_cert_callback)
  | false, false => (VERIFY_NONE, None)
  end.

(** ** Passwords *)

(** [pem_password_callback] with a buffer of [size] bytes: what is written to the buffer
    and what is returned. *)
Definition pem_password_callback (size : Z) (u : char_ptr) : outcome (string * Z) :=
  match u with
  | None => Ret (EmptyString, 0)
  | Some mem =>
      let len := Z.of_nat (strlen u) in
      if len =? 0 then Ret (EmptyString, 0)
      else if size <? 0 then Panic
      else
        let to_copy := if len <? size then wrap_i 32 len else size in
        Ret (String.substring 0 (Z.to_nat to_copy) mem, wrap_i 32 len)
  end.

(** ** Contexts *)

Section Contexts.
Context {X509 PKey : Type}.

(** [CassSsl]: the trusted store belongs to the context. *)
Record CassSsl := mkSsl {
  certificate : option X509;
  extra_chain : list X509;
  private_key : option PKey;
  trusted_store : list X509;
  verify : verification
}.

#[export] Instance CassSsl_eta : Eta CassSsl := fun r =>
  mkSsl (certificate r) (extra_chain r) (private_key r) (trusted_store r) (verify r).

(** OpenSSL: reading the next certificate and what is left of the text, reading a key with
    the password the callback gives, and whether a certificate, a further certificate of
    its chain, or a key is accepted. *)
Record OpenSSL := mkOpenSSL {
  BIO_new_mem_buf : string -> option string;
  PEM_read_bio_X509 : string -> option (X509 * string);
  PEM_read_bio_PrivateKey : string -> char_ptr -> option PKey;
  certificate_accepted : X509 -> bool;
  chain_accepted : X509 -> bool;
  key_accepted : PKey -> bool
}.

Variable openssl : OpenSSL.

Definition cass_ssl_new_no_lib_init : CassSsl :=
  mkSsl None [] None [] (VERIFY_PEER, Some verify_peer_cert_callback).

Definition SSL_CTX_use_certificate (x : X509) (ctx : CassSsl) : Z * CassSsl :=
  if certificate_accepted openssl x then (1, ctx <| certificate := Some x |>) else (0, ctx).

Definition SSL_CTX_add_extra_chain_cert (ca : X509) (ctx : CassSsl) : Z * CassSsl :=
  if chain_accepted openssl ca then (1, ctx <| extra_chain ::= fun l => l ++ [ca] |>) else (0, ctx).

Definition SSL_CTX_use_PrivateKey (k : PKey) (ctx : CassSsl) : CassSsl :=
  if key_accepted openssl k then ctx <| private_key := Some k |> else ctx.

Definition cass_ssl_set_verify_flags (flags : Z) (ssl : option CassSsl) : option CassSsl :=
  match ssl with None => None | Some ctx => Some (ctx <| verify := verify_flags flags |>) end.

(** The loop that reads further certificates: it always ends with [ret = 0]. *)
Fixpoint read_chain (fuel : nat) (bio : string) (ctx : CassSsl) : outcome CassSsl :=
  match fuel with
  | O => Diverge
  | S fuel =>
      match PEM_read_bio_X509 openssl bio with
      | None => Ret ctx
      | Some (ca, bio) =>
          let '(r, ctx) := SSL_CTX_add_extra_chain_cert ca ctx in
          if r =? 0 then Ret ctx else read_chain fuel bio ctx
      end
  end.

Definition SSL_CTX_use_certificate_chain_bio (ctx : CassSsl) (bio : string) : outcome (Z * CassSsl) :=
  match PEM_read_bio_X509 openssl bio with
  | None => Ret (0, ctx)
  | Some (x, rest) =>
      let '(ret, ctx) := SSL_CTX_use_certificate x ctx in
      if negb (ret =? 1) then
        ctx ← read_chain (S (String.length rest)) rest ctx; Ret (0, ctx)
      else Ret (ret, ctx)
  end.

(** [len().try_into().unwrap()] to the [c_int] of [BIO_new_mem_buf]. *)
Definition new_mem_buf (s : string) : outcome (option string) :=
  match try_i 32 (Z.of_nat (String.length s)) with
  | Some _ => Ret (BIO_new_mem_buf openssl s)
  | None => Panic
  end.

Definition cass_ssl_add_trusted_cert_n (cert : char_ptr) (cert_length : nat) (ssl : option CassSsl)
  : outcome (CassError * option CassSsl) :=
  match ssl with
  | None => Ret (CASS_ERROR_LIB_BAD_PARAMS, None)
  | Some ctx =>
      match to_str cert cert_length with
      | Err _ => Ret (CASS_ERROR_SSL_INVALID_CERT, ssl)
      | Ok cert_str =>
          bio ← new_mem_buf cert_str;
          match bio with
          | None => Ret (CASS_ERROR_SSL_INVALID_CERT, ssl)
          | Some bio =>
              match PEM_read_bio_X509 openssl bio with
              | None => Ret (CASS_ERROR_SSL_INVALID_CERT, ssl)
              | Some (x509, _) =>
                  Ret (CASS_OK, Some (ctx <| trusted_store ::= fun l => l ++ [x509] |>))
              end
          end
      end
  end.

Definition cass_ssl_add_trusted_cert (cert : char_ptr) (ssl : option CassSsl) :=
  let '(cert, cert_length) := as_len_delimited cert in cass_ssl_add_trusted_cert_n cert cert_length ssl.

Definition cass_ssl_set_cert_n (cert : char_ptr) (cert_length : nat) (ssl : option CassSsl)
  : outcome (CassError * option CassSsl) :=
  match ssl with
  | None => Ret (CASS_ERROR_LIB_BAD_PARAMS, None)
  | Some ctx =>
      match to_str cert cert_length with
      | Err _ => Ret (CASS_ERROR_SSL_INVALID_CERT, ssl)
      | Ok cert_str =>
          bio ← new_mem_buf cert_str;
          match bio with
          | None => Ret (CASS_ERROR_SSL_INVALID_CERT, ssl)
          | Some bio =>
              '(rc, ctx) ← SSL_CTX_use_certificate_chain_bio ctx bio;
              if rc =? 0 then Ret (CASS_ERROR_SSL_INVALID_CERT, Some ctx) else Ret (CASS_OK, Some ctx)
          end
      end
  end.

Definition cass_ssl_set_cert (cert : char_ptr) (ssl : option CassSsl) :=
  let '(cert, cert_length) := as_len_delimited cert in cass_ssl_set_cert_n cert cert_length ssl.

(** The length of the password is not used. *)
Definition cass_ssl_set_private_key_n (key : char_ptr) (key_length : nat) (password : char_ptr)
    (password_length : nat) (ssl : option CassSsl) : outcome (CassError * option CassSsl) :=
  match ssl with
  | None => Ret (CASS_ERROR_LIB_BAD_PARAMS, None)
  | Some ctx =>
      match to_str key key_length with
      | Err _ => Ret (CASS_ERROR_SSL_INVALID_PRIVATE_KEY, ssl)
      | Ok key_str =>
          bio ← new_mem_buf key_str;
          match bio with
          | None => Ret (CASS_ERROR_SSL_INVALID_CERT, ssl)
          | Some bio =>
              match PEM_read_bio_PrivateKey openssl bio password with
              | None => Ret (CASS_ERROR_SSL_INVALID_PRIVATE_KEY, ssl)
              | Some pkey => Ret (CASS_OK, Some (SSL_CTX_use_PrivateKey pkey ctx))
              end
          end
      end
  end.

Definition cass_ssl_set_private_key (key password : char_ptr) (ssl : option CassSsl)
  : outcome (CassError * option CassSsl) :=
  match password with
  | None => Ret (CASS_ERROR_SSL_INVALID_PRIVATE_KEY, ssl)
  | Some _ =>
      let '(key, key_length) := as_len_delimited key in
      cass_ssl_set_private_key_n key key_length password 0 ssl
  end.

(** ** Theorems about contexts *)

(** Reading a certificate consumes text. *)
Definition reading_consumes : Prop :=
  forall bio x rest, PEM_read_bio_X509 openssl bio = Some (x, rest) ->
    (String.length rest < String.length bio)%nat.

Lemma read_chain_ends fuel bio ctx :
  reading_consumes -> (String.length bio < fuel)%nat -> exists ctx', read_chain fuel bio ctx = Ret ctx'.
Proof.
  intros Hc. revert bio ctx. induction fuel as [|fuel IH]; intros bio ctx Hf; [lia|]. cbn.
  destruct (PEM_read_bio_X509 openssl bio) as [[ca rest]|] eqn:E; [|by eexists].
  apply Hc in E. destruct (SSL_CTX_add_extra_chain_cert ca ctx) as [r ctx'].
  destruct (r =? 0); [by eexists|]. apply IH. lia.
Qed.

(** C39: loading a client certificate ends for every text and reports [CASS_OK] only if
    OpenSSL took the first certificate.  The further certificates of the chain are not
    loaded in that case, although the header asks for the entire chain: the context keeps
    whatever chain it had. *)
Theorem ssl_chain_not_loaded (cert : string) (ctx : CassSsl) (bio : string) :
  reading_consumes ->
  to_str (Some cert) (String.length cert) = Ok cert -> Z.of_nat (String.length cert) < 2 ^ 31 ->
  BIO_new_mem_buf openssl cert = Some bio ->
  exists code ctx', cass_ssl_set_cert_n (Some cert) (String.length cert) (Some ctx) = Ret (code, Some ctx') /\
    (code = CASS_OK <-> exists x rest, PEM_read_bio_X509 openssl bio = Some (x, rest) /\
                                       certificate_accepted openssl x = true) /\
    (code = CASS_OK -> is_Some (certificate ctx') /\ extra_chain ctx' = extra_chain ctx).
Proof.
  intros Hc Hs Hl Hb. unfold cass_ssl_set_cert_n. rewrite Hs. unfold new_mem_buf, try_i.
  assert (Hr : (- 2 ^ (32 - 1) <=? Z.of_nat (String.length cert)) && (Z.of_nat (String.length cert) <? 2 ^ (32 - 1)) = true)
    by (change (32 - 1) with 31; lia).
  rewrite Hr, Hb. cbn. unfold SSL_CTX_use_certificate_chain_bio.
  destruct (PEM_read_bio_X509 openssl bio) as [[x rest]|] eqn:E; cbn.
  - unfold SSL_CTX_use_certificate. destruct (certificate_accepted openssl x) eqn:Ea; cbn.
    + eexists _, _. split; [reflexivity|]. split; [|by eauto]. split; [|done]. intros _. by exists x, rest.
    + destruct (read_chain_ends (S (String.length rest)) rest ctx Hc) as [ctx' Hctx]; [lia|].
      cbn in Hctx. rewrite Hctx. cbn. eexists _, _. split; [reflexivity|].
      split; [|done]. split; [done|]. intros (x' & rest' & H' & Ha). simplify_eq. congruence.
  - eexists _, _. split; [reflexivity|]. split; [|done]. split; [done|]. by intros (x' & rest' & H' & _).
Qed.

End Contexts.

(** ** Verification of a peer

    OpenSSL checks a peer in steps: the certificates of its chain, its name, its address.
    [handshake] is a parameter: [None] if it is broken off, otherwise what
    [SSL_get_verify_result] returns afterwards. *)

Inductive check := Passed | Failed (error : Z).

(** SSL_CTX_set_verify(3): the callback is called for every step with [preverify_ok] 1 or
    0, sees the error of the step if there is one, may overwrite it, and ends the
    handshake by returning 0. *)
Fixpoint callback_steps (callback : VerifyCallback) (error : Z) (checks : list check) : option Z :=
  match checks with
  | [] => Some error
  | c :: checks =>
      let '(goes_on, error) := match c with Passed => callback 1 error | Failed e => callback 0 e end in
      if goes_on =? 0 then None else callback_steps callback error checks
  end.

(** The documented behaviour: a client that verifies nothing continues whatever the result
    is; without a callback the first failed step ends the handshake. *)
Class DocumentedVerification (handshake : verification -> list check -> option Z) := {
  verify_none callback checks : is_Some (handshake (VERIFY_NONE, callback) checks);
  verify_peer_passed checks :
    Forall (fun c => c = Passed) checks -> handshake (VERIFY_PEER, None) checks = Some X509_V_OK;
  verify_peer_failed checks e :
    Failed e ∈ checks -> handshake (VERIFY_PEER, None) checks = None;
  verify_peer_callback callback checks :
    handshake (VERIFY_PEER, Some callback) checks = callback_steps callback X509_V_OK checks
}.

(** The step passed, or it failed only because the peer is not who it should be: the
    errors 62, 63 and 64 of x509_vfy.h, about its host name, e-mail and IP address. *)
Definition chain_ok (c : check) : bool :=
  match c with Passed => true | Failed e => bool_decide (e ∈ [62; 63; 64]) end.

Definition passed (c : check) : bool := match c with Passed => true | Failed _ => false end.

Lemma forallb_passed checks :
  if forallb passed checks then Forall (fun c => c = Passed) checks else exists e, Failed e ∈ checks.
Proof.
  induction checks as [|[|e] checks IH]; cbn; [constructor| |exists e; by left].
  destruct (forallb passed checks); [by constructor|]. destruct IH as [e He]. exists e. by right.
Qed.

Lemma verify_peer_default `{DocumentedVerification} checks :
  handshake (VERIFY_PEER, None) checks = if forallb passed checks then Some X509_V_OK else None.
Proof.
  pose proof (forallb_passed checks) as Hp. destruct (forallb passed checks); [by apply verify_peer_passed|].
  destruct Hp as [e He]. by apply (verify_peer_failed checks e).
Qed.

Lemma peer_cert_steps checks :
  callback_steps verify_peer_cert_callback X509_V_OK checks =
  if forallb chain_ok checks then Some X509_V_OK else None.
Proof.
  induction checks as [|[|e] checks IH]; [done|exact IH|]. cbn [callback_steps forallb chain_ok].
  unfold verify_peer_cert_callback. cbn [Z.eqb].
  destruct (bool_decide_reflect (e ∈ [62; 63; 64])) as [He|He].
  - rewrite !elem_of_cons, elem_of_nil in He. destruct_or! He; subst e; exact IH.
  - rewrite !elem_of_cons in He. unfold X509_V_ERR_HOSTNAME_MISMATCH, X509_V_ERR_EMAIL_MISMATCH,
      X509_V_ERR_IP_ADDRESS_MISMATCH.
    destruct (Z.eqb_spec e 62), (Z.eqb_spec e 63), (Z.eqb_spec e 64); try done; naive_solver.
Qed.

Lemma known_flags flags : Z.land flags (Z.lnot CASS_SSL_VERIFY_KNOWN_FLAGS) = 0 <-> 0 <= flags < 8.
Proof.
  change CASS_SSL_VERIFY_KNOWN_FLAGS with (Z.ones 3).
  rewrite <- Z.ldiff_land, Z.ldiff_ones_r, Z.shiftl_mul_pow2, Z.shiftr_div_pow2 by lia.
  change (2 ^ 3) with 8. split; intros H.
  - pose proof (Z.div_mod flags 8). pose proof (Z.mod_pos_bound flags 8). lia.
  - rewrite Z.div_small by lia. lia.
Qed.

(** C35: what a peer must show for each value of the verification flags: nothing for
    [NONE]; a valid chain, whoever it belongs to, for [PEER_CERT] alone, which is also
    the default; a valid chain and the right identity for every other value, known or
    not, so no mistake in the flags weakens verification.  A peer that is accepted has
    the verification result [X509_V_OK] afterwards, also when its identity was wrong. *)
Theorem ssl_verify_policy {X509 PKey : Type} `{DocumentedVerification} (flags : Z)
    (checks : list check) (ctx : @CassSsl X509 PKey) :
  (exists ctx', cass_ssl_set_verify_flags flags (Some ctx) = Some ctx' /\
    if flags =? CASS_SSL_VERIFY_NONE then is_Some (handshake (verify ctx') checks)
    else handshake (verify ctx') checks =
      if forallb (if flags =? CASS_SSL_VERIFY_PEER_CERT then chain_ok else passed) checks
      then Some X509_V_OK else None) /\
  handshake (verify (@cass_ssl_new_no_lib_init X509 PKey)) checks =
    if forallb chain_ok checks then Some X509_V_OK else None.
Proof.
  split; [|cbn; rewrite verify_peer_callback; apply peer_cert_steps].
  eexists. split; [reflexivity|]. cbn [verify update].
  unfold verify_flags. destruct (Z.eqb_spec (Z.land flags (Z.lnot CASS_SSL_VERIFY_KNOWN_FLAGS)) 0) as [E|E].
  - apply known_flags in E. assert (Hv : flags = 0 \/ flags = 1 \/ flags = 2 \/ flags = 3 \/
      flags = 4 \/ flags = 5 \/ flags = 6 \/ flags = 7) by lia.
    destruct_or! Hv; subst flags; cbn -[forallb]; try apply verify_peer_default; [apply verify_none|].
    etrans; [apply (verify_peer_callback verify_peer_cert_callback)|apply peer_cert_steps].
  - assert (~ 0 <= flags < 8) as Hn by (by rewrite <- known_flags).
    destruct (Z.eqb_spec flags CASS_SSL_VERIFY_NONE) as [->|_]; [by destruct Hn|].
    destruct (Z.eqb_spec flags CASS_SSL_VERIFY_PEER_CERT) as [->|_]; [by destruct Hn|].
    cbn -[forallb]. apply verify_peer_default.
Qed.

(** A verification that stops at the first failed step. *)
Definition sample_handshake (v : verification) (checks : list check) : option Z :=
  match v with
  | (VERIFY_NONE, _) => Some (match checks with Failed e :: _ => e | _ => X509_V_OK end)
  | (VERIFY_PEER, None) => if forallb passed checks then Some X509_V_OK else None
  | (VERIFY_PEER, Some callback) => callback_steps callback X509_V_OK checks
  end.

#[local] Instance sample_handshake_documented : DocumentedVerification sample_handshake.
Proof.
  split; cbn; [by eexists| | |done].
  - intros checks Hc. assert (Hp : forallb passed checks = true) by (induction Hc as [|? ? ->]; done).
    by rewrite Hp.
  - intros checks e He. pose proof (forallb_passed checks) as Hp. destruct (forallb passed checks); [|done].
    rewrite Forall_forall in Hp. by specialize (Hp _ He).
Qed.

Lemma ssl_verify_policy_witness :
  sample_handshake (verify (@cass_ssl_new_no_lib_init unit unit)) [Passed; Failed 64; Passed] = Some X509_V_OK /\
  sample_handshake (verify (@cass_ssl_new_no_lib_init unit unit)) [Passed; Failed 10; Passed] = None.
Proof.
  split.
  - exact (proj2 (ssl_verify_policy (handshake := sample_handshake) 1 [Passed; Failed 64; Passed]
                    (@cass_ssl_new_no_lib_init unit unit))).
  - exact (proj2 (ssl_verify_policy (handshake := sample_handshake) 1 [Passed; Failed 10; Passed]
                    (@cass_ssl_new_no_lib_init unit unit))).
Defined.

(** A password that does not fit the buffer is cut, but its whole length is returned, more
    than what was written; one that fits is copied and measured exactly. *)
Theorem pem_password_length (size : Z) (mem : string) :
  0 <= size < 2 ^ 31 -> Z.of_nat (nul_index mem) < 2 ^ 31 -> (0 < nul_index mem)%nat ->
  exists written, pem_password_callback size (Some mem) = Ret (written, Z.of_nat (nul_index mem)) /\
    written = String.substring 0 (Z.to_nat (Z.min size (Z.of_nat (nul_index mem)))) mem.
Proof.
  intros Hs Hl Hp. unfold pem_password_callback, strlen.
  destruct (Z.eqb_spec (Z.of_nat (nul_index mem)) 0) as [|_]; [lia|].
  destruct (Z.ltb_spec size 0) as [|_]; [lia|].
  assert (Hw : wrap_i 32 (Z.of_nat (nul_index mem)) = Z.of_nat (nul_index mem)).
  { unfold wrap_i. rewrite Z.mod_small by lia. destruct (Z.ltb_spec (Z.of_nat (nul_index mem)) (2 ^ (32 - 1))); [done|].
    change (32 - 1) with 31 in *. lia. }
  rewrite Hw. eexists. split; [reflexivity|].
  destruct (Z.ltb_spec (Z.of_nat (nul_index mem)) size); [by rewrite Z.min_r by lia|by rewrite Z.min_l by lia].
Qed.

(** PEM text as a list of digits, each of which is a certificate. *)
Definition sample_openssl : @OpenSSL Ascii.ascii unit :=
  mkOpenSSL Some (fun s => match s with String c s => Some (c, s) | EmptyString => None end)
    (fun _ _ => None) (fun _ => true) (fun _ => true) (fun _ => true).

Lemma ssl_chain_not_loaded_witness :
  exists code ctx', cass_ssl_set_cert_n sample_openssl (Some "123"%string) 3 (Some cass_ssl_new_no_lib_init) =
      Ret (code, Some ctx') /\
    code = CASS_OK /\ extra_chain ctx' = [].
Proof.
  destruct (ssl_chain_not_loaded sample_openssl "123" cass_ssl_new_no_lib_init "123") as (code & ctx' & H & Hc & Hx).
  - intros [|c s] x rest; [done|]. cbn. intros [= <- <-]. lia.
  - reflexivity.
  - cbn. lia.
  - reflexivity.
  - assert (Hok : code = CASS_OK) by (apply Hc; by eexists _, _).
    exists code, ctx'. split; [exact H|]. split; [exact Hok|]. by apply Hx.
Defined.
