(* ===== verification/Tls.v ===== *)
(** * Sharing TLS contexts (ssl.rs, cluster.rs)

    A [CassSsl] owns a reference to an OpenSSL context, [cass_cluster_set_ssl] gives the
    cluster another one, and a session connected from the cluster takes its own.  OpenSSL
    counts the references as [Arc] does, and the settings of a context are changed in
    place, so everyone who shares a context sees a change made through the [CassSsl]. *)

From Stdlib Require Import Lia.
From stdpp Require Import base list gmap.
From S2P Require Import Prelude Arc Ssl.

Open Scope nat_scope.

(** Who has a reference to a context: an SSL object, the configuration of a cluster
    ([config.tls_context]), or the configuration of a session. *)
Inductive owner := SslObject (k : nat) | ClusterTls (c : nat) | SessionTls (s : nat).

#[global] Instance owner_eq_dec : EqDecision owner.
Proof. solve_decision. Defined.

#[global] Instance owner_countable : Countable owner.
Proof.
  refine (inj_countable'
    (fun o => match o with SslObject k => inl k | ClusterTls c => inr (inl c) | SessionTls s => inr (inr s) end)
    (fun x => match x with inl k => SslObject k | inr (inl c) => ClusterTls c | inr (inr s) => SessionTls s end) _).
  by intros [].
Defined.

Section Sharing.
Context {X509 PKey : Type}.
Notation settings := (@CassSsl X509 PKey).

Record tls := mkTls { contexts : arc_store settings; owners : gmap owner nat }.

(** The counting OpenSSL documents: a new context has one reference, [SSL_CTX_up_ref] adds
    one, and [SSL_CTX_free] takes one away and frees the context with the last. *)
Definition SSL_CTX_new (v : settings) (h : arc_store settings) : nat * arc_store settings := arc_new v h.
Definition SSL_CTX_up_ref (ctx : nat) (h : arc_store settings) : arc_store settings := arc_clone ctx h.
Definition SSL_CTX_free (ctx : nat) (h : arc_store settings) : arc_store settings := arc_drop ctx h.

(** An owner goes away.  For the configurations of clusters and sessions this is the
    destructor of the [SslContext] of the openssl crate, which calls [SSL_CTX_free]. *)
Definition drop_reference (o : owner) (w : tls) : tls :=
  match owners w !! o with
  | Some ctx => mkTls (SSL_CTX_free ctx (contexts w)) (delete o (owners w))
  | None => w
  end.

(** [Drop for CassSsl], when the last pointer to the object [k] is gone. *)
Definition CassSsl_drop (k : nat) (w : tls) : tls := drop_reference (SslObject k) w.

(** [SSL_CTX_new] in [cass_ssl_new_no_lib_init], for a new object [k]. *)
Definition cass_ssl_new (k : nat) (w : tls) : tls :=
  let '(ctx, h) := SSL_CTX_new (cass_ssl_new_no_lib_init : settings) (contexts w) in
  mkTls h (<[SslObject k := ctx]> (owners w)).

(** A null pointer is ignored. *)
Definition cass_ssl_free (ssl : option nat) (w : tls) : tls :=
  match ssl with Some k => CassSsl_drop k w | None => w end.

(** A function of ssl.rs changes the context of an object in place. *)
Definition change_context (f : settings -> settings) (k : nat) (w : tls) : tls :=
  match owners w !! SslObject k with
  | Some ctx => mkTls (alter (fun c => (c.1, f c.2)) ctx (contexts w)) (owners w)
  | None => w
  end.

(** The new reference is made before the cluster's old one is dropped. *)
Definition cass_cluster_set_ssl (cluster ssl : option nat) (w : tls) : tls :=
  match cluster, ssl with
  | Some c, Some k =>
      match owners w !! SslObject k with
      | Some ctx =>
          let w := mkTls (SSL_CTX_up_ref ctx (contexts w)) (owners w) in
          let w := drop_reference (ClusterTls c) w in
          mkTls (contexts w) (<[ClusterTls c := ctx]> (owners w))
      | None => w
      end
  | _, _ => w
  end.

(** The session's configuration is a clone of the cluster's. *)
Definition connect_tls (c s : nat) (w : tls) : tls :=
  match owners w !! ClusterTls c with
  | Some ctx => mkTls (SSL_CTX_up_ref ctx (contexts w)) (<[SessionTls s := ctx]> (owners w))
  | None => w
  end.

(** What happens to contexts; new objects and sessions are new. *)
Inductive tls_op :=
| SslNew (k : nat)
| SslFree (ssl : option nat)
| SslChange (f : settings -> settings) (k : nat)
| ClusterSetSsl (cluster ssl : option nat)
| ClusterFree (c : nat)
| Connect (c s : nat)
| SessionEnd (s : nat).

Definition tls_exec (o : tls_op) (w : tls) : tls :=
  match o with
  | SslNew k => if decide (owners w !! SslObject k = None) then cass_ssl_new k w else w
  | SslFree ssl => cass_ssl_free ssl w
  | SslChange f k => change_context f k w
  | ClusterSetSsl cluster ssl => cass_cluster_set_ssl cluster ssl w
  | ClusterFree c => drop_reference (ClusterTls c) w
  | Connect c s => if decide (owners w !! SessionTls s = None) then connect_tls c s w else w
  | SessionEnd s => drop_reference (SessionTls s) w
  end.

Definition tls_run (ops : list tls_op) : tls := foldl (fun w o => tls_exec o w) (mkTls ∅ ∅) ops.

(** The settings an owner uses. *)
Definition in_use (w : tls) (o : owner) : option settings := arc_view (owners w) (contexts w) !! o.

Definition tls_ok (w : tls) : Prop := arc_ok (owners w) (contexts w).

(** ** Lemmas *)

Lemma drop_reference_ok o w :
  tls_ok w -> tls_ok (drop_reference o w) /\ owners (drop_reference o w) = delete o (owners w) /\
    forall o', in_use (drop_reference o w) o' = if decide (o' = o) then None else in_use w o'.
Proof.
  intros Hok. unfold drop_reference, SSL_CTX_free, in_use. destruct (owners w !! o) as [ctx|] eqn:Ho.
  - destruct (arc_drop_ok _ _ _ _ Hok Ho) as [Hok' Hv]. split; [exact Hok'|]. split; [done|]. cbn [owners contexts]. intros o'.
    rewrite Hv. destruct (decide (o' = o)) as [->|]; [by rewrite lookup_delete_eq|by rewrite lookup_delete_ne].
  - split; [done|]. split; [by rewrite delete_id|]. intros o'. destruct (decide _) as [->|]; [|done].
    rewrite arc_view_lookup, Ho. done.
Qed.

Lemma change_context_ok f k w :
  tls_ok w -> tls_ok (change_context f k w) /\
    forall o, in_use (change_context f k w) o =
              (if decide (is_Some (owners w !! o) /\ owners w !! o = owners w !! SslObject k) then f else id)
                <$> in_use w o.
Proof.
  intros Hok. unfold change_context, in_use, tls_ok. destruct (owners w !! SslObject k) as [ctx|] eqn:Hk.
  - split.
    + intros l. specialize (Hok l). cbn [owners contexts]. destruct (decide (l = ctx)) as [->|Hne].
      * rewrite lookup_alter_eq. destruct (contexts w !! ctx) as [[n v]|]; exact Hok.
      * rewrite lookup_alter_ne by done. exact Hok.
    + intros o. cbn [owners contexts]. rewrite !arc_view_lookup.
      destruct (owners w !! o) as [l|] eqn:Ho; cbn [mbind option_bind].
      * unfold arc_get. destruct (decide (l = ctx)) as [->|Hne].
        -- rewrite lookup_alter_eq, decide_True by eauto. by destruct (contexts w !! ctx).
        -- rewrite lookup_alter_ne, decide_False by naive_solver. by destruct (contexts w !! l).
      * by destruct (decide _).
  - split; [done|]. intros o. rewrite decide_False by (intros [[? ?] ?]; congruence).
    by destruct (arc_view _ _ !! o).
Qed.

(** Taking a reference and dropping another one commute, unless the dropped one was the last. *)
Lemma arc_drop_clone ctx old n v (h : arc_store settings) :
  h !! ctx = Some (n, v) -> (old = ctx -> 2 <= n) ->
  arc_drop old (arc_clone ctx h) = arc_clone ctx (arc_drop old h).
Proof.
  intros Hctx Hn. unfold arc_drop, arc_clone. destruct (decide (old = ctx)) as [->|Hne].
  - rewrite lookup_alter_eq, Hctx. cbn. destruct n as [|[|n]]; [lia|lia|].
    apply map_eq. intros l. destruct (decide (l = ctx)) as [->|Hl].
    + by rewrite lookup_insert_eq, lookup_alter_eq, lookup_insert_eq.
    + by rewrite lookup_insert_ne, !lookup_alter_ne, lookup_insert_ne by done.
  - rewrite lookup_alter_ne by done. destruct (h !! old) as [[[|[|m]] x]|]; [..|done].
    1,2: by rewrite delete_alter_ne. by rewrite alter_insert_ne.
Qed.

Lemma share_ok o o' ctx w :
  tls_ok w -> owners w !! o = Some ctx -> o' <> o ->
  let w1 := drop_reference o' w in
  let w' := mkTls (arc_clone ctx (contexts w1)) (<[o' := ctx]> (owners w1)) in
  tls_ok w' /\ owners w' !! o' = owners w !! o /\
    forall x, in_use w' x = if decide (x = o') then in_use w o else in_use w x.
Proof.
  intros Hok Ho Hne w1 w'. destruct (drop_reference_ok o' w Hok) as (Hok1&How1&Hv1). fold w1 in Hok1, How1, Hv1.
  assert (Ho1 : owners w1 !! o = Some ctx) by (rewrite How1; by rewrite lookup_delete_ne).
  assert (Hfree : owners w1 !! o' = None) by (rewrite How1; apply lookup_delete_eq).
  destruct (arc_clone_ok _ _ _ _ _ Hok1 Ho1 Hfree) as [Hok' Hv]. split; [exact Hok'|].
  split; [cbn [owners w']; by rewrite lookup_insert_eq|]. intros x. unfold in_use in *. cbn [owners contexts w'].
  rewrite Hv. destruct (arc_ok_get _ _ _ _ Hok1 Ho1) as [v Hg].
  assert (E : arc_view (owners w1) (contexts w1) !! o = Some v).
  { rewrite arc_view_lookup, Ho1. cbn. unfold arc_get. by rewrite Hg. }
  rewrite E. pose proof (Hv1 o) as Eo. rewrite decide_False, E in Eo by done.
  destruct (decide (x = o')) as [->|Hx]; [by rewrite lookup_insert_eq|].
  rewrite lookup_insert_ne, Hv1, decide_False by done. done.
Qed.

Lemma set_ssl_shares c k ctx w :
  tls_ok w -> owners w !! SslObject k = Some ctx ->
  let w1 := drop_reference (ClusterTls c) w in
  cass_cluster_set_ssl (Some c) (Some k) w =
  mkTls (arc_clone ctx (contexts w1)) (<[ClusterTls c := ctx]> (owners w1)).
Proof.
  intros Hok Hk w1. subst w1. unfold cass_cluster_set_ssl, SSL_CTX_up_ref, drop_reference, SSL_CTX_free. rewrite Hk. cbn [owners contexts].
  destruct (owners w !! ClusterTls c) as [old|] eqn:Hc; [|done]. cbn [owners contexts]. f_equal.
  destruct (arc_ok_get _ _ _ _ Hok Hk) as [v Hg]. eapply arc_drop_clone; [exact Hg|]. intros ->.
  pose proof (owners_of_pos _ _ _ Hk). destruct (decide (owners_of ctx (owners w) = 1)) as [E|]; [|lia].
  pose proof (owners_of_one _ _ _ _ E Hk Hc). discriminate.
Qed.

Lemma set_ssl_ok c k w :
  tls_ok w -> is_Some (owners w !! SslObject k) ->
  let w' := cass_cluster_set_ssl (Some c) (Some k) w in
  tls_ok w' /\ owners w' !! ClusterTls c = owners w !! SslObject k /\
    forall o, in_use w' o = if decide (o = ClusterTls c) then in_use w (SslObject k) else in_use w o.
Proof. intros Hok [ctx Hk]. rewrite (set_ssl_shares c k ctx) by done. by apply share_ok. Qed.

Lemma connect_ok c s w :
  tls_ok w -> owners w !! SessionTls s = None ->
  tls_ok (connect_tls c s w) /\
  (forall o, in_use (connect_tls c s w) o = if decide (o = SessionTls s) then in_use w (ClusterTls c) else in_use w o).
Proof.
  intros Hok Hs. unfold connect_tls, SSL_CTX_up_ref. destruct (owners w !! ClusterTls c) as [ctx|] eqn:Hc.
  - destruct (share_ok (ClusterTls c) (SessionTls s) ctx w Hok Hc) as (H1&_&H3); [done|].
    unfold drop_reference, SSL_CTX_free in H1, H3. rewrite Hs in H1, H3. done.
  - split; [done|]. intros o. destruct (decide _) as [->|]; [|done]. unfold in_use.
    by rewrite !arc_view_lookup, Hs, Hc.
Qed.

Lemma tls_exec_ok o w : tls_ok w -> tls_ok (tls_exec o w).
Proof.
  intros Hok. destruct o as [k|[k|]|f k|[c|] [k|]|c|c s|s]; cbn [tls_exec cass_ssl_free CassSsl_drop]; try done.
  - destruct (decide _) as [Hk|]; [|done]. unfold cass_ssl_new.
    pose proof (arc_new_ok _ _ (SslObject k) (cass_ssl_new_no_lib_init : settings) Hok Hk) as H.
    unfold SSL_CTX_new. destruct (arc_new _ _) as [l h]. apply H.
  - by apply drop_reference_ok.
  - by apply change_context_ok.
  - destruct (owners w !! SslObject k) as [ctx|] eqn:E; [by apply set_ssl_ok; eauto|].
    unfold cass_cluster_set_ssl. by rewrite E.
  - by apply drop_reference_ok.
  - destruct (decide _); [by apply connect_ok|done].
  - by apply drop_reference_ok.
Qed.

Lemma tls_run_ok ops : tls_ok (tls_run ops).
Proof.
  unfold tls_run. assert (H : tls_ok (mkTls ∅ ∅)) by exact (arc_ok_empty (K := owner)). revert H.
  generalize (mkTls ∅ ∅). induction ops as [|o ops IH]; intros w Hw; [done|]. cbn. by apply IH, tls_exec_ok.
Qed.

(** ** The theorem *)

(** C28: A TLS context lives exactly as long as someone uses it, in whatever order SSL objects,
    clusters and sessions come and go: every owner has a context with settings, and a
    context is allocated only while it has an owner.  After [cass_cluster_set_ssl] the
    cluster has the context of the SSL object; a later change through the SSL object is
    seen by all who share its context and by nobody else; and freeing the SSL object takes
    nothing away from the clusters and sessions that use its context. *)
Theorem tls_context_shared (ops : list tls_op) :
  let w := tls_run ops in
  (forall o ctx, owners w !! o = Some ctx -> is_Some (in_use w o)) /\
  (forall ctx, is_Some (contexts w !! ctx) -> exists o, owners w !! o = Some ctx) /\
  (forall c k, is_Some (owners w !! SslObject k) ->
     in_use (cass_cluster_set_ssl (Some c) (Some k) w) (ClusterTls c) = in_use w (SslObject k) /\
     forall f, in_use (change_context f k (cass_cluster_set_ssl (Some c) (Some k) w)) (ClusterTls c) =
               f <$> in_use w (SslObject k)) /\
  (forall f k o, ~ (is_Some (owners w !! o) /\ owners w !! o = owners w !! SslObject k) ->
     in_use (change_context f k w) o = in_use w o) /\
  (forall k o, o <> SslObject k -> in_use (cass_ssl_free (Some k) w) o = in_use w o).
Proof.
  intros w. pose proof (tls_run_ok ops : tls_ok w) as Hok. split_and!.
  - intros o ctx Ho. unfold in_use. rewrite arc_view_lookup, Ho. cbn. unfold arc_get.
    destruct (arc_ok_get _ _ _ _ Hok Ho) as [v ->]. by eexists.
  - intros ctx [[n v] Hc]. pose proof (Hok ctx) as H. rewrite Hc in H. destruct H as [Hn H0]. subst n.
    unfold owners_of in H0. destruct (decide (filter (fun kl : owner * nat => kl.2 = ctx) (owners w) = ∅)) as [E|E].
    { by rewrite E, map_size_empty in H0. }
    apply map_choose in E as (o&l&Hl). apply map_lookup_filter_Some in Hl as [Ho Hl]. cbn in Hl. subst. eauto.
  - intros c k Hk. destruct (set_ssl_ok c k w Hok Hk) as (Hok'&How&Hv). split.
    { rewrite Hv. by rewrite decide_True. }
    intros f. destruct (change_context_ok f k _ Hok') as [_ Hch]. rewrite Hch, Hv. rewrite (decide_True (P := ClusterTls c = _)) by done.
    assert (Hk' : owners (cass_cluster_set_ssl (Some c) (Some k) w) !! SslObject k = owners w !! SslObject k).
    { destruct Hk as [ctx Hk]. rewrite (set_ssl_shares c k ctx) by done. cbn [owners].
      destruct (drop_reference_ok (ClusterTls c) w Hok) as (_&->&_).
      by rewrite lookup_insert_ne, lookup_delete_ne. }
    rewrite decide_True; [done|]. rewrite How, Hk'. done.
  - intros f k o Hno. destruct (change_context_ok f k w Hok) as [_ Hch]. rewrite Hch, decide_False by done.
    by destruct (in_use w o).
  - intros k o Hne. destruct (drop_reference_ok (SslObject k) w Hok) as (_&_&Hv). cbn [cass_ssl_free CassSsl_drop].
    by rewrite Hv, decide_False.
Qed.

End Sharing.
