(* ===== verification/EndToEnd.v ===== *)
(** * A session and the futures of its requests

    A client works with a session and with the futures its functions return.  Session
    models the session and the tasks its functions spawn, FutureApi one future and the
    functions called on it; here they run together.  A future is made ready or made for a
    task, and the future of a task is resolved with what the task finished with.

    What a client reads through the functions of a future is then tied to the call that
    returned the future: [expected] says what the driver is asked for each request, and the
    client reads the answer of the session of the driver that was open when the request was
    accepted.  And no call gets stuck. *)

From Stdlib Require Import ZArith Lia String.
From stdpp Require Import base list gmap strings relations.
From S2P Require Import Future Prelude ArgConv Types Errors Prepared Statement Batch Results DataType ExecProfile Cluster Requests Session FutureApi.

Section EndToEnd.
Context {R Coord Sess : Type}.
Variable rust : ExecutionProfile.
Variable new_session_error_msg : NewSessionError -> string.
Variable error_result_msg : CassErrorResult -> string.
Variable multi : bool.
Variable driver_at : nat -> Sess -> @Env R Coord.

Notation Conn := (CassConnectedSession Sess).
Notation world := (@Session.world R Coord Sess).
Notation task := (@Session.task R Coord Sess).
Notation session_call := (@Session.api_call R).
Notation future_result :=
  (Prelude.result (CassError * string)
     (CassResultValue (CassResult Coord) CassErrorResult (CassPrepared R ExecutionProfileHandle))).
Notation CassFuture :=
  (@FutureApi.CassFuture (CassResult Coord) CassErrorResult (CassPrepared R ExecutionProfileHandle) Coord).
Notation future_event :=
  (@FutureApi.event (CassResult Coord) CassErrorResult (CassPrepared R ExecutionProfileHandle) Coord).
Notation promise :=
  (@FutureApi.promise (CassResult Coord) CassErrorResult (CassPrepared R ExecutionProfileHandle) Coord).
Notation future_step :=
  (FutureApi.step (to_cass_error : CassErrorResult -> CassError) error_result_msg res_tracing_id res_coordinator multi).
Notation promise_step :=
  (FutureApi.promise_step (to_cass_error : CassErrorResult -> CassError) error_result_msg res_tracing_id res_coordinator).
Notation value_reply :=
  (FutureApi.value_reply (to_cass_error : CassErrorResult -> CassError) error_result_msg res_tracing_id res_coordinator).

(** What a future was made from: a result, or the task with the given number. *)
Inductive origin := MadeReady (r : future_result) | MadeByTask (k : nat).

(** The session, the tasks as they were spawned, the futures the client was given, and for
    each of them the call that returned it, whether it got the read lock, and the
    connection that was open. *)
Record client := mkClient {
  session : world;
  spawned : list task;
  futures : list (CassFuture * origin);
  requested : list (session_call * bool * option Conn)
}.

Definition new_client (random_id : Z) : client := mkClient (cass_session_new random_id) [] [] [].

Definition make_future (fut : future_result + nat) : CassFuture * origin :=
  match fut with
  | inl r => (make_ready_raw r, MadeReady r)
  | inr k => (make_raw, MadeByTask k)
  end.

Inductive client_event :=
| SessionCalled (c : session_call)
| OnFuture (i : nat) (e : future_event).

(** A future gets a result only when its task has finished, and then that one. *)
Definition resolved_by_task (w : world) (o : origin) (f f' : CassFuture) : Prop :=
  future_value f' = future_value f \/
  exists k r, o = MadeByTask k /\ future_value f' = Some r /\ tasks w !! k = Some (TaskFinished r).

Inductive driver_step : client -> list client_event -> client -> Prop :=
| session_called s granted c fut w :
    try_read (session s) granted -> api_exec granted c (Some (session s)) = (Some fut, Some w) ->
    driver_step s [SessionCalled c]
      (mkClient w (spawned s ++ drop (length (tasks (session s))) (tasks w)) (futures s ++ [make_future fut])
         (requested s ++ [(c, granted, connected (inner (session s)))]))
| session_refused s granted c w :
    try_read (session s) granted -> api_exec granted c (Some (session s)) = (None, Some w) ->
    driver_step s [SessionCalled c] (mkClient w (spawned s) (futures s) (requested s))
| task_runs s evs w :
    task_step rust new_session_error_msg driver_at (session s) evs w ->
    driver_step s [] (mkClient w (spawned s) (futures s) (requested s))
| task_dropped s i t :
    tasks (session s) !! i = Some t -> is_pending t = true ->
    driver_step s []
      (mkClient (set_task i Cancelled (inner (session s)) (session s)) (spawned s) (futures s) (requested s))
| future_runs s i f o l f' :
    futures s !! i = Some (f, o) -> future_step f l f' -> resolved_by_task (session s) o f f' ->
    driver_step s (OnFuture i <$> l)
      (mkClient (session s) (spawned s) (<[i := (f', o)]> (futures s)) (requested s)).

(** The events of future [i]. *)
Definition future_events (i : nat) (evs : list client_event) : list future_event :=
  omap (fun e => match e with OnFuture j e => if decide (j = i) then Some e else None | _ => None end) evs.

(** ** What is asked of the driver *)

Definition is_request (c : session_call) : bool :=
  match c with
  | CallExecute _ | CallExecuteBatch _ | CallPrepare _ _ | CallPrepareFromExisting _ => true
  | _ => false
  end.

(** The execution profile of a request: none, the one it was resolved to before, or the one
    the connection has under its name. *)
Definition with_profile (g : Conn) (profile : option (PerStatementExecProfile ExecutionProfileHandle))
    (k : option ExecutionProfileHandle -> future_result) : future_result :=
  match profile with
  | None => k None
  | Some (Resolved h) => k (Some h)
  | Some (Unresolved name) =>
      match exec_profile_map g !! name with
      | Some h => k (Some h)
      | None => Err (CASS_ERROR_LIB_EXECUTION_PROFILE_INVALID, (name +:+ " does not exist")%string)
      end
  end.

(** A page of a result, the whole result, the outcome of a batch, a prepared statement. *)
Definition of_page (cached : option (list ColumnSpec -> option CassResultMetadata))
    (r : Prelude.result ExecutionError (QueryResponse Coord * PagingStateResponse)) : future_result :=
  match r with
  | Ok (page, next) =>
      match from_result_payload page next cached with
      | Ok res => Ok (QueryResult res)
      | Err e => Ok (QueryError e)
      end
  | Err e => Ok (QueryError (Execution e))
  end.

Definition of_whole cached (r : Prelude.result ExecutionError (QueryResponse Coord)) : future_result :=
  of_page cached match r with Ok whole => Ok (whole, NoMorePages) | Err e => Err e end.

Definition of_batch (r : Prelude.result ExecutionError Coord) : future_result :=
  match r with
  | Ok coordinator => Ok (QueryResult (mkResult None NoMorePages NonRows (Some coordinator)))
  | Err e => Ok (QueryError (Execution e))
  end.

Definition of_prepared (env : @Env R Coord)
    (r : Prelude.result PrepareError (PreparedStatement ExecutionProfileHandle)) : future_result :=
  match r with
  | Ok p => Ok (PreparedResult (mkCassPrepared ((fun spec => column_data_type env spec.2) <$> variable_col_specs p)
                  (new_cache env) (p <| use_cached_result_metadata := true |>)))
  | Err e => Err (to_cass_error e, prepare_error_msg env e)
  end.

(** The answer to a request, on the connection [g] whose session of the driver answers as
    [env] says: a statement is sent with its own text, settings, values and paging state,
    a page of it if paging is on; a batch with its statements and values; a text to
    prepare as it is, and that of an existing statement with its settings. *)
Definition expected (env : @Env R Coord) (g : Conn) (c : session_call) : option future_result :=
  let d := driver env in
  match c with
  | CallExecute (Some (mkCassStatement (Simple (mkBoundSimple (mkStatement text settings) values names))
                         state paged profile)) =>
      Some (with_profile g profile (fun h =>
        let q := mkStatement text (settings <| s_execution_profile := h |>) in
        let row := mkRowSerializer values names in
        if paged then of_page None (query_single_page d q row state) else of_whole None (query_unpaged d q row)))
  | CallExecute (Some (mkCassStatement (Prepared (mkBoundPrepared (mkCassPrepared types cache ps) values))
                         state paged profile)) =>
      Some (with_profile g profile (fun h =>
        let ps := ps <| ps_settings ::= fun q => q <| s_execution_profile := h |> |> in
        let cached := Some (cached_metadata env (mkCassPrepared types cache ps)) in
        if paged then of_page cached (execute_single_page d ps values state)
        else of_whole cached (execute_unpaged d ps values)))
  | CallExecuteBatch (Some (mkBatchState (mkBatch typ statements settings) values, profile)) =>
      Some (with_profile g profile (fun h =>
        of_batch (session_batch d (mkBatch typ statements (settings <| s_execution_profile := h |>)) values)))
  | CallPrepare query n =>
      let text := match query with Some mem => String.substring 0 n mem | None => EmptyString end in
      Some (of_prepared env (session_prepare d (mkStatement text settings_default)))
  | CallPrepareFromExisting (Some st) =>
      Some match Statement.statement st with
           | Simple q => of_prepared env (session_prepare d (Statement.query q))
           | Prepared p => Ok (PreparedResult (bp_statement p))
           end
  | _ => None
  end.

Lemma with_profile_resolved (g : Conn) profile (k : option ExecutionProfileHandle -> future_result) :
  with_profile g profile k = match get_or_resolve_handle g profile with Ok h => k h | Err e => Err e end.
Proof.
  destruct profile as [[name|h]|]; try done. unfold get_or_resolve_handle, resolve_exec_profile. simpl.
  by destruct (exec_profile_map g !! name).
Qed.

Lemma execute_expected env g (st : CassStatement R ExecutionProfileHandle (CassPrepared R ExecutionProfileHandle)) :
  expected env g (CallExecute (Some st)) =
  Some (serve env g (Execute (Statement.statement st) (paging_state st) (paging_enabled st) (exec_profile st))).
Proof.
  destruct st as [[[[text settings] values names]|[[types cache ps] values]] state paged profile]; simpl;
    rewrite with_profile_resolved; unfold execute_future; destruct (get_or_resolve_handle g profile) as [h|]; try done;
    unfold ask_driver, of_whole, of_page, with_handle, update; cbn; destruct paged; cbn.
  - by destruct (query_single_page _ _ _ _) as [[]|].
  - by destruct (query_unpaged _ _ _).
  - by destruct (execute_single_page _ _ _ _) as [[]|].
  - by destruct (execute_unpaged _ _ _).
Qed.
Lemma batch_expected env g (state : @CassBatchState R ExecutionProfileHandle) profile :
  expected env g (CallExecuteBatch (Some (state, profile))) = Some (serve env g (ExecuteBatch state profile)).
Proof.
  destruct state as [[typ statements settings] values]. simpl. rewrite with_profile_resolved.
  unfold execute_batch_future. by destruct (get_or_resolve_handle g profile).
Qed.

Lemma prepare_expected env g query n s :
  to_str query n = Ok s \/ (to_str query n = Err NullPointer /\ s = EmptyString) ->
  expected env g (CallPrepare query n) = Some (serve env g (Prepare s)).
Proof.
  intros Hs. unfold expected, serve, prepare_future, prepare_query, of_prepared. f_equal.
  assert (Ht : match query with Some mem => String.substring 0 n mem | None => EmptyString end = s); [|by rewrite Ht].
  destruct Hs as [Hs|[Hs ->]].
  - by destruct (to_str_Ok _ _ _ Hs) as (mem&->&->&_).
  - destruct query as [mem|]; [|done]. unfold to_str, from_utf8 in Hs. by destruct (utf8_valid _).
Qed.

Lemma prepare_existing_expected env g (st : CassStatement R ExecutionProfileHandle (CassPrepared R ExecutionProfileHandle)) :
  expected env g (CallPrepareFromExisting (Some st)) = Some (serve env g (PrepareFromExisting (Statement.statement st))).
Proof. simpl. by destruct (Statement.statement st). Qed.

(** ** Tasks answer what they were spawned for *)

(** The results a task may finish with. *)
Definition answer_of (t : task) (r : future_result) : Prop :=
  match t with
  | ConnectWaiting _ =>
      r = Ok Empty \/
      r = Err (CASS_ERROR_LIB_UNABLE_TO_CONNECT, "Already connecting, closing, or connected"%string) \/
      exists err : NewSessionError, r = Err (to_cass_error err, new_session_error_msg err)
  | CloseWaiting =>
      r = Ok Empty \/ r = Err (CASS_ERROR_LIB_UNABLE_TO_CLOSE, "Session is not connected"%string)
  | Serving req g => exists moment, r = serve (driver_at moment (Requests.session g)) g req
  | _ => False
  end.

(** What a task that has not finished was spawned as. *)
Definition spawned_as (t : task) : option task :=
  match t with
  | ConnectWaiting p | ConnectBuilding p _ => Some (ConnectWaiting p)
  | CloseWaiting | Serving _ _ => Some t
  | _ => None
  end.

(** Where a task can be that was spawned as [t0]. *)
Definition stage (t0 t : task) : Prop :=
  spawned_as t = Some t0 \/ t = Cancelled \/ exists r, t = TaskFinished r /\ answer_of t0 r.

Lemma stage_pending t0 t : stage t0 t -> is_pending t = true -> spawned_as t = Some t0.
Proof. by intros [H|[->|(r&->&_)]]. Qed.

Lemma stage_finished t0 r : answer_of t0 r -> stage t0 (TaskFinished r).
Proof. intros H. right. right. eauto. Qed.

(** A step moves one task, which is not dropped unless [dropped]. *)
Definition moves_task (dropped : bool) (w w' : world) : Prop :=
  exists i t t', tasks w !! i = Some t /\ is_pending t = true /\ tasks w' = <[i := t']> (tasks w) /\
    (forall t0, stage t0 t -> stage t0 t') /\ (t' = Cancelled -> dropped = true).

Lemma moves_to dropped w i t t' c :
  tasks w !! i = Some t -> is_pending t = true ->
  (forall t0, spawned_as t = Some t0 -> stage t0 t') -> (t' = Cancelled -> dropped = true) ->
  moves_task dropped w (set_task i t' c w).
Proof.
  intros Hi Hp H Hd. exists i, t, t'. split_and!; [done..| |done]. intros t0 Hs. by apply H, stage_pending.
Qed.

Lemma task_step_moves w evs w' :
  task_step rust new_session_error_msg driver_at w evs w' -> session_ok w -> moves_task false w w'.
Proof.
  intros Hs Hok. destruct Hs as [i p w Hi Hf|i p s built w Hi|i w Hi Hf|i moment r g w Hi].
  - unfold connect_locked. destruct (connected (inner w)).
    + eapply moves_to; [done..| |done]. intros t0 [= <-]. apply stage_finished. right. by left.
    + destruct (session_settings_total p) as [st ->]. eapply moves_to; [done..| |done]. by left.
  - unfold connect_built. destruct built as [sess|err]; (eapply moves_to; [done..| |done]); intros t0 [= <-];
      apply stage_finished; [by left|]. right. right. by eexists.
  - unfold close_locked. destruct (connected (inner w)); (eapply moves_to; [done..| |done]); intros t0 [= <-];
      apply stage_finished; [by left|by right].
  - destruct (serve_task_cases i (driver_at moment) r g w) as (res&->&->); [by eapply ok_serving|].
    eapply moves_to; [done..| |done]. intros t0 [= <-]. apply stage_finished. by exists moment.
Qed.

(** Tasks that have finished stay as they are. *)
Lemma moves_finished dropped w w' k r :
  moves_task dropped w w' -> tasks w !! k = Some (TaskFinished r) -> tasks w' !! k = Some (TaskFinished r).
Proof.
  intros (i&t&t'&Hi&Hp&->&_&_) Hk. rewrite list_lookup_insert_ne; [done|]. intros ->. by simplify_eq.
Qed.

Lemma moves_stages dropped w w' l :
  moves_task dropped w w' -> Forall2 stage l (tasks w) -> Forall2 stage l (tasks w').
Proof.
  intros (i&t&t'&Hi&_&->&Hst&_) Hl. destruct (Forall2_lookup_r _ _ _ _ _ Hl Hi) as (t0&Ht0&H).
  rewrite <- (list_insert_id l i t0 Ht0). apply Forall2_insert; [done|by apply Hst].
Qed.

(** What a function of the session does: it returns a ready future, or spawns a task. *)
Definition may_spawn (c : session_call) (granted : bool) (w : world) (t : task) : Prop :=
  match t with
  | ConnectWaiting _ | CloseWaiting => is_request c = false
  | Serving req g => granted = true /\ connected (inner w) = Some g /\
      forall env, expected env g c = Some (serve env g req)
  | _ => False
  end.

Definition spawns (c : session_call) (granted : bool) (w : world) (fut : future_result + nat) (w' : world) : Prop :=
  (exists r, fut = inl r /\ w' = w /\
     (is_request c = true -> r = not_connected /\ (granted = false \/ connected (inner w) = None))) \/
  (exists t, fut = inr (length (tasks w)) /\ w' = mkWorld (inner w) (tasks w ++ [t]) /\ may_spawn c granted w t).

Lemma start_request_spawns c granted req w :
  (forall env g, expected env g c = Some (serve env g req)) ->
  spawns c granted w (start_request granted req w).1 (start_request granted req w).2.
Proof.
  intros He. unfold start_request. destruct granted; [|left; eauto 10].
  destruct (connected (inner w)) eqn:E; [|left; eauto 10]. right. eexists. split_and!; [done..|].
  by split_and!.
Qed.

Lemma close_spawns granted w : spawns CallClose granted w (close_fut granted w).1 (close_fut granted w).2.
Proof.
  unfold close_fut. destruct granted; [|left; by eexists]. destruct (connected (inner w)); [|left; by eexists].
  right. by eexists.
Qed.

Lemma connect_spawns c granted p w :
  is_request c = false -> spawns c granted w (connect p w).1 (connect p w).2.
Proof. intros Hc. right. by eexists. Qed.

Lemma api_exec_spawns granted c w fut w' :
  api_exec granted c (Some w) = (Some fut, Some w') -> spawns c granted w fut w'.
Proof.
  assert (Hon : forall g, (forall v, spawns c granted v (g v).1 (g v).2) ->
    on_session (Some w) g = (Some fut, Some w') -> spawns c granted w fut w').
  { intros g Hg. cbn. specialize (Hg w). destruct (g w) as [f v]. by intros [= <- <-]. }
  destruct c as [params [cl|]|params [cl|] ks n|[st|]|[[s p]|]|q n|[st|]|]; try done; unfold api_exec.
  - apply Hon. intros. by apply connect_spawns.
  - unfold cass_session_connect_keyspace_n.
    destruct (to_str ks n) as [|[]]; try done; apply Hon; intros; by apply connect_spawns.
  - apply Hon. intros v. apply start_request_spawns. intros. apply execute_expected.
  - apply Hon. intros v. apply start_request_spawns. intros. apply batch_expected.
  - unfold cass_session_prepare_n. destruct (to_str q n) as [|[]] eqn:E; try done; apply Hon; intros v;
      apply start_request_spawns; intros; apply prepare_expected; auto.
  - apply Hon. intros v. apply start_request_spawns. intros. apply prepare_existing_expected.
  - apply Hon. intros v. apply close_spawns.
Qed.

Lemma api_exec_null granted (c : session_call) (w w' : world) : api_exec granted c (Some w) = (None, Some w') -> w' = w.
Proof.
  assert (Hon : forall g, on_session (Some w) g = (None, Some w') -> w' = w).
  { intros g. cbn. by destruct (g w). }
  destruct c as [params [cl|]|params [cl|] ks n|[st|]|[[s p]|]|q n|[st|]|]; cbn -[on_session to_str];
    try (by intros [= <-]); try apply Hon.
  - unfold cass_session_connect_keyspace_n. destruct (to_str ks n) as [|[]]; try apply Hon. by intros [= <-].
  - unfold cass_session_prepare_n. destruct (to_str q n) as [|[]]; try apply Hon. by intros [= <-].
Qed.

Lemma spawns_ok c granted w fut w' : spawns c granted w fut w' -> session_ok w -> session_ok w'.
Proof.
  intros [(r&_&->&_)|(t&_&->&Ht)] Hok; [done|]. change (session_ok (spawn t w).2).
  destruct t; try done; [by apply ok_spawn_idle..|]. by apply ok_spawn_request; [|apply Ht].
Qed.

(** ** Futures hold the answers of their tasks *)

Notation simulates :=
  (FutureApi.simulates (to_cass_error : CassErrorResult -> CassError) error_result_msg res_tracing_id res_coordinator).

Definition promised (o : origin) : promise :=
  new_promise match o with MadeReady r => Some r | MadeByTask _ => None end.

(** The value of a promise is the result of its origin. *)
Definition from_origin (w : world) (o : origin) (v : option future_result) : Prop :=
  match o with
  | MadeReady r => v = Some r
  | MadeByTask k => (k < length (tasks w))%nat /\ forall r, v = Some r -> tasks w !! k = Some (TaskFinished r)
  end.

Definition future_ok (w : world) (evs : list future_event) (x : CassFuture * origin) : Prop :=
  exists p, trace promise_step (promised x.2) evs p /\ simulates x.1 p /\ from_origin w x.2 (value p).

(** Where the future of a call comes from. *)
Definition origin_ok (sp : list task) (rq : session_call * bool * option Conn) (o : origin) : Prop :=
  let '(c, granted, conn) := rq in
  is_request c = true ->
  match o with
  | MadeReady r => r = not_connected /\ (granted = false \/ conn = None)
  | MadeByTask k => exists req g, sp !! k = Some (Serving req g) /\ granted = true /\ conn = Some g /\
      forall env, expected env g c = Some (serve env g req)
  end.

Lemma origin_ok_mono sp sp' rq o : origin_ok sp rq o -> origin_ok (sp ++ sp') rq o.
Proof.
  destruct rq as [[c granted] conn]. intros H Hc. specialize (H Hc). destruct o as [r|k]; [done|].
  destruct H as (req&g&Hk&H). exists req, g. split; [by apply lookup_app_l_Some|done].
Qed.

Lemma spawns_origin c granted w fut w' sp :
  length sp = length (tasks w) -> spawns c granted w fut w' ->
  origin_ok (sp ++ drop (length (tasks w)) (tasks w')) (c, granted, connected (inner w)) (make_future fut).2.
Proof.
  intros Hlen [(r&->&->&Hr)|(t&->&->&Ht)] Hc; simpl; [by apply Hr|]. rewrite drop_app_length, <- Hlen.
  destruct t as [p| | |req g| | |]; simpl in Ht; try congruence; try done. destruct Ht as (->&Hg&He).
  exists req, g. split_and!; try done. by apply list_lookup_middle.
Qed.

Record client_ok (evs : list client_event) (s : client) : Prop := {
  client_session : session_ok (session s);
  client_tasks : Forall2 stage (spawned s) (tasks (session s));
  client_futures i x : futures s !! i = Some x -> future_ok (session s) (future_events i evs) x;
  client_events i e : OnFuture i e ∈ evs -> (i < length (futures s))%nat;
  client_requests : Forall2 (origin_ok (spawned s)) (requested s) (futures s).*2
}.

Lemma future_events_app i l k : future_events i (l ++ k) = future_events i l ++ future_events i k.
Proof. apply omap_app. Qed.

Lemma future_events_same i l : future_events i (OnFuture i <$> l) = l.
Proof. induction l as [|e l IH]; [done|]. cbn. rewrite decide_True by done. f_equal. exact IH. Qed.

Lemma future_events_other i j l : j <> i -> future_events j (OnFuture i <$> l) = [].
Proof. intros Hne. induction l as [|e l IH]; [done|]. cbn. by rewrite decide_False. Qed.

Lemma future_events_none i evs : (forall e, ~ OnFuture i e ∈ evs) -> future_events i evs = [].
Proof.
  induction evs as [|e evs IH]; [done|]. intros H. cbn.
  assert (IH' : future_events i evs = []) by (apply IH; intros e' He; apply (H e'); by right).
  destruct e as [c|j e]; [done|]. destruct (decide (j = i)) as [->|]; [|done]. destruct (H e). by left.
Qed.

Lemma simulates_value (f : CassFuture) (p : promise) : simulates f p -> value p = future_value f.
Proof. intros [[Hk _ _ _] _]. unfold future_value. destruct (kind f); [by destruct Hk as (_&?&_)|by destruct Hk]. Qed.

(** The session goes on, and tasks that have finished stay. *)
Lemma future_ok_session w w' evs x :
  (length (tasks w) <= length (tasks w'))%nat ->
  (forall k r, tasks w !! k = Some (TaskFinished r) -> tasks w' !! k = Some (TaskFinished r)) ->
  future_ok w evs x -> future_ok w' evs x.
Proof.
  intros Hlen Hw (p&Hp&Hs&Ho). exists p. split_and!; [done..|]. destruct (x.2); simpl in *; [done|].
  destruct Ho as [Hk Ho]. split; [lia|eauto].
Qed.

Lemma moves_length dropped w w' : moves_task dropped w w' -> length (tasks w') = length (tasks w).
Proof. intros (i&t&t'&_&_&->&_&_). apply length_insert. Qed.

Lemma client_task dropped evs s w' :
  client_ok evs s -> session_ok w' -> moves_task dropped (session s) w' ->
  client_ok (evs ++ []) (mkClient w' (spawned s) (futures s) (requested s)).
Proof.
  intros [Hs Ht Hf He Hq] Hok Hm. rewrite app_nil_r. split; simpl; [done|by eapply moves_stages| |done|done].
  intros i x Hi. apply (future_ok_session (session s)); [rewrite (moves_length _ _ _ Hm); lia| |by apply Hf].
  intros k r. by eapply moves_finished.
Qed.

Lemma may_spawn_stage c granted w t : may_spawn c granted w t -> stage t t.
Proof. intros H. left. by destruct t. Qed.

Lemma make_future_ok c granted w w' fut : spawns c granted w fut w' -> future_ok w' [] (make_future fut).
Proof.
  assert (Hi : forall x : CassFuture, initial x -> simulates x (promise_of x)) by (intros; by apply initial_simulates).
  intros [(r&->&->&_)|(t&->&->&_)]; (eexists; split; [constructor|]).
  - split; [apply Hi; right; by eexists|done].
  - split; [apply Hi; by left|]. split; [|done]. simpl. rewrite length_app. simpl. lia.
Qed.

Lemma client_called evs s c granted fut w' :
  client_ok evs s -> spawns c granted (session s) fut w' ->
  client_ok (evs ++ [SessionCalled c])
    (mkClient w' (spawned s ++ drop (length (tasks (session s))) (tasks w')) (futures s ++ [make_future fut])
       (requested s ++ [(c, granted, connected (inner (session s)))])).
Proof.
  intros [Hs Ht Hf He Hq] Hsp. split; simpl.
  - by eapply spawns_ok.
  - destruct Hsp as [(r&_&->&_)|(t&_&->&Hsp)]; simpl; rewrite ?drop_app_length; [by rewrite drop_all, app_nil_r|].
    apply Forall2_app; [done|]. constructor; [by eapply may_spawn_stage|done].
  - intros i x [Hi|[Hle Hi]]%lookup_app_Some; rewrite future_events_app, app_nil_r.
    + apply (future_ok_session (session s)); [..|by apply Hf]; destruct Hsp as [(r&_&->&_)|(t&_&->&_)]; simpl; try done.
      * rewrite length_app. lia.
      * intros k r Hk. by apply lookup_app_l_Some.
    + apply list_lookup_singleton_Some in Hi as [Hz <-]. rewrite future_events_none; [by eapply make_future_ok|].
      intros e H%He. lia.
  - intros i e [H|H%list_elem_of_singleton]%elem_of_app; [|done]. rewrite length_app. specialize (He _ _ H). lia.
  - rewrite fmap_app. apply Forall2_app.
    + eapply Forall2_impl; [exact Hq|]. intros. by apply origin_ok_mono.
    + constructor; [|done]. apply spawns_origin; [by eapply Forall2_length|done].
Qed.

Lemma client_future evs s i f o l f' :
  client_ok evs s -> futures s !! i = Some (f, o) -> future_step f l f' -> resolved_by_task (session s) o f f' ->
  client_ok (evs ++ (OnFuture i <$> l)) (mkClient (session s) (spawned s) (<[i := (f', o)]> (futures s)) (requested s)).
Proof.
  intros [Hs Ht Hf He Hq] Hi Hstep Hres. split; simpl; [done|done|..].
  - intros j x Hj. rewrite future_events_app. apply list_lookup_insert_Some in Hj as [(<-&<-&_)|[Hne Hj]].
    + rewrite future_events_same. destruct (Hf i _ Hi) as (p&Hp&Hsim&Ho). simpl in *.
      destruct (step_simulated _ _ _ _ multi f p l f' Hsim Hstep) as (p'&Hp'&Hsim').
      exists p'. split_and!; [by eapply trace_app|done|]. simpl.
      rewrite (simulates_value _ _ Hsim'). rewrite (simulates_value _ _ Hsim) in Ho.
      destruct Hres as [->|(k&r&->&->&Hk)]; [done|]. simpl in *. split; [by destruct Ho|]. by intros ? [= <-].
    + rewrite future_events_other, app_nil_r by done. by apply Hf.
  - intros j e [H|H]%elem_of_app; rewrite length_insert; [by eapply He|].
    apply list_elem_of_fmap in H as (e'&[= <- <-]&_). by eapply lookup_lt_Some.
  - rewrite list_fmap_insert, list_insert_id; [done|]. by rewrite list_lookup_fmap, Hi.
Qed.

Lemma client_step_ok' evs s l s' : client_ok evs s -> driver_step s l s' -> client_ok (evs ++ l) s'.
Proof.
  intros Hok Hstep. destruct Hstep as [s g c fut w _ H|s g c w _ H|s e w H|s i t Hi Hp|s i f o l f' Hi Hf Hr].
  - apply client_called; [done|]. by eapply api_exec_spawns.
  - apply api_exec_null in H as ->. destruct Hok as [Hs Ht Hf He Hq]. split; simpl; [done|done|..|done].
    + intros i x Hi. rewrite future_events_app, app_nil_r. by apply Hf.
    + intros i e [H|H%list_elem_of_singleton]%elem_of_app; [by eapply He|done].
  - eapply client_task; [done|by eapply task_step_ok, Hok|]. eapply task_step_moves; [done|apply Hok].
  - apply (client_task true); [done|by apply ok_settle; [apply Hok|..]|].
    eapply moves_to; [done..| |done]. intros t0 _. right. by left.
  - by eapply client_future.
Qed.

Lemma client_trace_ok id evs s : trace driver_step (new_client id) evs s -> client_ok evs s.
Proof.
  assert (H0 : client_ok [] (new_client id)).
  { split; simpl; [apply new_ok|constructor|done|by intros ? ? ?%elem_of_nil|constructor]. }
  assert (Hgen : forall s0 l s1, trace driver_step s0 l s1 -> forall es, client_ok es s0 -> client_ok (es ++ l) s1).
  { intros s0 l s1 H. induction H as [x|x k x' l x'' Hx _ IH]; intros es He; [by rewrite app_nil_r|].
    rewrite app_assoc. apply IH. by eapply client_step_ok'. }
  intros Ht. exact (Hgen _ _ _ Ht [] H0).
Qed.

(** C2: a client reads the answers to its requests.  However calls on the session, tasks and
    any number of calls on futures interleave: whatever the functions of the C API ever
    read from the future of a request, its error code, message, result, prepared statement,
    tracing id and coordinator, they read from one answer.  If the request got the lock of
    an open session, it is the answer that the session of the driver that was open then
    gave to exactly this request: to this statement with its values, settings, profile and
    paging state, this batch, or this text to prepare.  Otherwise it is the error that the
    session is not connected. *)
Theorem requests_answered (id : Z) (evs : list client_event) (s : client) (i : nat) (f : CassFuture)
    (o : origin) (c : session_call) (granted : bool) (conn : option Conn) :
  trace driver_step (new_client id) evs s ->
  futures s !! i = Some (f, o) -> requested s !! i = Some (c, granted, conn) -> is_request c = true ->
  exists answer : option future_result,
    (forall a, answer = Some a ->
       match granted, conn with
       | true, Some g => exists moment, expected (driver_at moment (Requests.session g)) g c = Some a
       | _, _ => a = Err (CASS_ERROR_LIB_NO_HOSTS_AVAILABLE, "Session is not connected"%string)
       end) /\
    (forall j fn r, called_fns (future_events i evs) !! j = Some fn -> reads_value fn = true ->
       Replied j r ∈ future_events i evs -> exists a, answer = Some a /\ value_reply a fn = Some r).
Proof.
  intros Ht Hi Hq Hc. destruct (client_trace_ok _ _ _ Ht) as [_ Htasks Hf _ Hreq].
  destruct (Hf _ _ Hi) as (p&Hp&_&Hv). simpl in *. exists (value p). split; [|intros j fn r; by eapply promise_replies].
  assert (Ho : (futures s).*2 !! i = Some o) by by rewrite list_lookup_fmap, Hi.
  pose proof (Forall2_lookup_lr _ _ _ _ _ _ Hreq Hq Ho Hc) as Horigin. intros a Ha. destruct o as [r|k]; simpl in *.
  - rewrite Hv in Ha. injection Ha as <-. destruct Horigin as [-> [->| ->]]; [done|by destruct granted].
  - destruct Horigin as (req&g&Hk&->&->&He). apply (proj2 Hv) in Ha.
    destruct (Forall2_lookup_lr _ _ _ _ _ _ Htasks Hk Ha) as [H|[H|(r&[= <-]&[moment ->])]]; [done..|].
    exists moment. apply He.
Qed.

Notation advances := (FutureApi.advances (to_cass_error : CassErrorResult -> CassError) error_result_msg
  res_tracing_id res_coordinator).

(** ** The calls of a client return

    The steps that are taken by themselves: of tasks that are not dropped, and of futures
    without deadlines and spurious wake-ups. *)
Inductive proceeds : client -> client -> Prop :=
| task_proceeds s evs w :
    task_step rust new_session_error_msg driver_at (session s) evs w ->
    proceeds s (mkClient w (spawned s) (futures s) (requested s))
| future_proceeds s i f o l f' :
    futures s !! i = Some (f, o) -> advances multi f l f' -> resolved_by_task (session s) o f f' ->
    proceeds s (mkClient (session s) (spawned s) (<[i := (f', o)]> (futures s)) (requested s)).

Lemma proceeds_step s s' : proceeds s s' -> exists l, driver_step s l s'.
Proof.
  intros [s0 evs w H|s0 i f o l f' Hi Hf Hr]; eexists; [by eapply task_runs|].
  eapply future_runs; [done|by apply advances_step|done].
Qed.

Definition client_work (s : client) : nat :=
  work (session s) + sum_list_with (fun x => calls_left x.1) (futures s).

Lemma calls_left_insert (l : list (CassFuture * origin)) i x y :
  l !! i = Some x -> (calls_left y.1 < calls_left x.1)%nat ->
  (sum_list_with (fun x => calls_left x.1) (<[i := y]> l) < sum_list_with (fun x => calls_left x.1) l)%nat.
Proof.
  revert i; induction l as [|a l IH]; intros [|i]; simpl; try done.
  - intros [= ->]. lia.
  - intros Hi Hlt. specialize (IH _ Hi Hlt). lia.
Qed.

Definition no_task_dropped (s : client) : Prop := forall k, tasks (session s) !! k <> Some Cancelled.

Lemma proceeds_decreases evs s s' :
  client_ok evs s -> proceeds s s' ->
  (client_work s' < client_work s)%nat /\ (no_task_dropped s -> no_task_dropped s').
Proof.
  intros Hok Hp. destruct Hp as [s e w H|s i f o l f' Hi Hf Hr]; split.
  - unfold client_work. simpl. pose proof (task_step_decreases _ _ _ _ _ _ (client_session _ _ Hok) H). lia.
  - intros Hd k. simpl. destruct (task_step_moves _ _ _ H (client_session _ _ Hok)) as (j&t&t'&_&_&->&_&Ht').
    intros [(_&->&_)|[_ Hk]]%list_lookup_insert_Some; [by specialize (Ht' eq_refl)|by apply (Hd k)].
  - unfold client_work. simpl. destruct (client_futures _ _ Hok _ _ Hi) as (p&_&Hsim&_).
    pose proof (advances_decrease _ _ _ _ multi f p l f' Hsim Hf).
    pose proof (calls_left_insert (futures s) i (f, o) (f', o) Hi). simpl in *. lia.
  - done.
Qed.

(** Every future can be given the result it waits for. *)
Lemma origin_done s x :
  Forall2 stage (spawned s) (tasks (session s)) ->
  (forall k t, tasks (session s) !! k = Some t -> is_pending t = false /\ t <> Cancelled) ->
  forall v, from_origin (session s) x v ->
  exists r, match x with MadeReady r' => v = Some r | MadeByTask k => tasks (session s) !! k = Some (TaskFinished r) end.
Proof.
  intros Hst Hdone v Ho. destruct x as [r|k]; simpl in *; [by exists r|]. destruct Ho as [Hk _].
  apply lookup_lt_is_Some in Hk as [t Hk]. destruct (Hdone _ _ Hk) as [Hp Hc].
  destruct (Forall2_lookup_r _ _ _ _ _ Hst Hk) as (t0&_&[H|[->|(r&->&_)]]); [by destruct t|done|eauto].
Qed.

(** As long as a call has not returned, something goes on. *)
Lemma proceeds_or_returned evs s (built : Prelude.result NewSessionError Sess) :
  client_ok evs s -> no_task_dropped s -> (forall s', ~ proceeds s s') ->
  forall i f o, futures s !! i = Some (f, o) -> Forall (fun c => c = Returned) (calls f).
Proof.
  intros [Hs Htasks Hf _ _] Hcan Hstuck i f o Hi.
  assert (Hdone : forall k t, tasks (session s) !! k = Some t -> is_pending t = false /\ t <> Cancelled).
  { intros k t Hk. split; [|intros ->; by apply (Hcan k)]. destruct (is_pending t) eqn:Hp; [|done].
    destruct (pending_can_step rust new_session_error_msg driver_at (session s) built k t Hk Hp) as (e&w&Hw).
    by destruct (Hstuck _ (task_proceeds s e w Hw)). }
  destruct (Hf _ _ Hi) as (p&_&Hsim&Ho). simpl in *.
  destruct (origin_done s o Htasks Hdone _ Ho) as [r Hr].
  destruct (goes_on_or_returned _ _ _ _ multi r f p Hsim) as [(l&f'&Hstep&Hv)|]; [exfalso|done].
  eapply Hstuck, future_proceeds; [exact Hi|exact Hstep|]. destruct Hv as [?|[Hn Hv]]; [by left|right].
  rewrite (simulates_value _ _ Hsim) in Ho, Hr. destruct o as [r'|k]; [simpl in *; congruence|]. eauto.
Qed.

(** C17: the driver never leaves a client waiting.  From any state in which no task was
    dropped with its runtime, and whatever the scheduler does, the tasks, the threads and
    the callbacks of a session and its futures come to rest within [client_work] steps if
    there are no new calls; and then every call made on any future has returned, without
    the help of timeouts and spurious wake-ups. *)
Theorem client_never_stuck (id : Z) (evs : list client_event) (s s' : client) (n : nat)
    (built : Prelude.result NewSessionError Sess) :
  trace driver_step (new_client id) evs s -> no_task_dropped s -> nsteps proceeds n s s' ->
  (n <= client_work s)%nat /\
  ((forall s'', ~ proceeds s' s'') ->
   forall i f o, futures s' !! i = Some (f, o) -> Forall (fun c => c = Returned) (calls f)).
Proof.
  intros Ht%client_trace_ok Hd Hn.
  assert (Hgen : exists evs', client_ok evs' s' /\ no_task_dropped s' /\ (n + client_work s' <= client_work s)%nat).
  { clear built. revert evs Ht Hd. induction Hn as [|n x y z Hxy _ IH]; intros evs Hok Hd; [by exists evs|].
    destruct (proceeds_decreases _ _ _ Hok Hxy) as [Hlt Hd']. destruct (proceeds_step _ _ Hxy) as [l Hl].
    destruct (IH _ (client_step_ok' _ _ _ _ Hok Hl) (Hd' Hd)) as (evs'&?&?&?). exists evs'. split_and!; [done..|lia]. }
  destruct Hgen as (evs'&Hok&Hd'&Hm). split; [lia|]. by apply (proceeds_or_returned evs').
Qed.

(** ** A run

    Steps of one future while the session rests. *)
Lemma future_trace (w : world) (o : origin) f l f' :
  trace (fun f l f' => future_step f l f' /\ resolved_by_task w o f f') f l f' ->
  forall i sp fs rq, fs !! i = Some (f, o) ->
  trace driver_step (mkClient w sp fs rq) (OnFuture i <$> l) (mkClient w sp (<[i := (f', o)]> fs) rq).
Proof.
  induction 1 as [f|f l f' ls f'' [Hs Hr] _ IH]; intros i sp fs rq Hi; [rewrite list_insert_id by done; constructor|].
  rewrite fmap_app. eapply trace_cons.
  - by eapply (future_runs (mkClient w sp fs rq)).
  - simpl. rewrite <- (list_insert_insert_eq fs i (f'', o) (f', o)). apply IH.
    apply list_lookup_insert_eq. by eapply lookup_lt_Some.
Qed.

End EndToEnd.

Section Demo.
Notation demo_profile := demo_rust.
Notation demo_future_step :=
  (FutureApi.step (to_cass_error : CassErrorResult -> CassError) (fun _ => EmptyString)
     (@res_tracing_id nat) (@res_coordinator nat) true).
Notation demo_driver_step :=
  (@driver_step dtree nat unit demo_profile (fun _ => EmptyString) (fun _ => EmptyString) true demo_driver).
Notation demo_result :=
  (Prelude.result (CassError * string)
     (CassResultValue (CassResult nat) CassErrorResult (CassPrepared dtree ExecutionProfileHandle))).

(** The error code is read from the future of task 1, which finished with [answer]. *)
Lemma demo_future_run (w : @Session.world dtree nat unit) (answer : demo_result) :
  tasks w !! 1%nat = Some (TaskFinished answer) ->
  exists f l, trace (fun f l f' => demo_future_step f l f' /\ resolved_by_task w (MadeByTask 1) f f') make_raw l f /\
    l = [Called (ErrorCode TheFuture);
         Replied 0 (RCode (Future.cass_future_error_code to_cass_error answer))].
Proof.
  intros Hw. eexists _, _. split.
  - eapply trace_cons; [split; [eapply (FutureApi.step_runs _ _ _ _ _ _ _ _ []); [reflexivity|left; by apply stores_handle|reflexivity]|by left]|].
    eapply trace_cons; [split; [by apply (FutureApi.step_call _ _ _ _ _ _ (ErrorCode TheFuture))|by left]|].
    eapply trace_cons; [split; [apply (FutureApi.step_enter _ _ _ _ _ _ 0 (ErrorCode TheFuture) false); reflexivity|by left]|].
    eapply trace_cons; [split; [eapply (FutureApi.step_runs _ _ _ _ _ _ _ _ []); [reflexivity|left;
      apply (task_resolves _ _ answer); [reflexivity|by left]|reflexivity]|right; by exists 1%nat, answer]|].
    eapply trace_cons; [split; [eapply (FutureApi.step_runs _ _ _ _ _ _ _ _ []); [reflexivity|left;
      eapply (thread_acts _ _ 0%nat); reflexivity|reflexivity]|by left]|].
    eapply trace_cons; [split; [eapply (FutureApi.step_leave _ _ _ _ _ _ _ 0%nat _ 0%nat); reflexivity|by left]|].
    eapply trace_cons; [split; [eapply (FutureApi.step_return _ _ _ _ _ _ 0%nat); reflexivity|by left]|].
    constructor.
  - reflexivity.
Qed.

(** Connect, execute a statement, read its error code. *)
Definition demo_call : @Session.api_call dtree := CallExecute (Some sample_statement).

Definition demo_req : @request dtree :=
  Execute (Statement.statement sample_statement) (Statement.paging_state sample_statement)
    (Statement.paging_enabled sample_statement) (Statement.exec_profile sample_statement).

Definition demo_accepted : @Session.world dtree nat unit := (start_request true demo_req (demo demo_profile 3)).2.

Definition demo_served : @Session.world dtree nat unit := serve_task 1 (fun _ => sample_env) demo_req demo_accepted.

Lemma demo_run : exists evs s f,
  trace demo_driver_step (new_client 9) evs s /\
  futures s !! 1%nat = Some (f, MadeByTask 1) /\
  requested s !! 1%nat = Some (demo_call, true, Some (demo_conn demo_profile)) /\
  called_fns (future_events 1 evs) = [ErrorCode TheFuture] /\
  Replied 0 (RCode CASS_OK) ∈ future_events 1 evs.
Proof.
  destruct (demo_future_run demo_served (serve sample_env (demo_conn demo_profile) demo_req)) as (f&l&Hl&->);
    [reflexivity|].
  eexists _, _, f. split_and!.
  - eapply trace_cons.
    { apply (session_called _ _ _ _ _ (new_client 9) true
        (CallConnect (fun _ _ => demo_params demo_profile) (Some (cass_cluster_new rust_session_config)))
        (inr 0%nat) (demo demo_profile 1)); reflexivity. }
    eapply trace_cons.
    { eapply task_runs. exact (task_connect_locked _ _ _ 0 (demo_params demo_profile) (demo demo_profile 1) eq_refl eq_refl). }
    eapply trace_cons.
    { eapply task_runs. exact (task_connect_built _ _ _ 0 (demo_params demo_profile) _ (Ok tt) (demo demo_profile 2) eq_refl). }
    eapply trace_cons.
    { apply (session_called _ _ _ _ _ (mkClient (demo demo_profile 3) _ _ _) true demo_call (inr 1%nat) demo_accepted);
        reflexivity. }
    eapply trace_cons.
    { eapply task_runs.
      exact (task_serve _ _ demo_driver 1 0 demo_req (demo_conn demo_profile) demo_accepted eq_refl). }
    eapply (future_trace _ _ _ _ _ demo_served (MadeByTask 1) make_raw _ f Hl 1%nat). reflexivity.
  - reflexivity.
  - reflexivity.
  - reflexivity.
  - right. left.
Qed.

Lemma requests_answered_witness :
  exists answer : option demo_result,
    (forall a, answer = Some a -> exists moment,
       expected (demo_driver moment tt) (demo_conn demo_profile) demo_call = Some a) /\
    (exists a, answer = Some a /\ Future.cass_future_error_code to_cass_error a = CASS_OK).
Proof.
  destruct demo_run as (evs&s&f&Ht&Hf&Hk&Hc&Hr).
  destruct (requests_answered _ _ _ _ _ 9 evs s 1 f (MadeByTask 1) demo_call true (Some (demo_conn demo_profile))
    Ht Hf Hk eq_refl) as (answer&Ha&Hread).
  exists answer. split; [exact Ha|].
  destruct (Hread 0%nat (ErrorCode TheFuture) (RCode CASS_OK)) as (a&Hans&Hval);
    [by rewrite Hc|reflexivity|exact Hr|].
  exists a. split; [exact Hans|]. by injection Hval.
Defined.

(** A request on a session that was never connected: the client is about to wait for its
    ready future, and then has done so. *)
Definition rejected_client (wait : FutureApi.call_state) : @client dtree nat unit :=
  mkClient (cass_session_new 9) [] [(mkCassFuture (Immediate not_connected false) None [wait], MadeReady not_connected)]
    [(demo_call, true, None)].

Lemma rejected_run : exists evs, trace demo_driver_step (new_client 9) evs (rejected_client (Entered (Wait TheFuture))).
Proof.
  eexists. eapply trace_cons.
  { apply (session_called _ _ _ _ _ (new_client 9) true demo_call (inl not_connected) (cass_session_new 9)); reflexivity. }
  refine (future_trace demo_profile _ _ _ _ (cass_session_new 9) (MadeReady not_connected) (make_ready_raw not_connected) _
    (mkCassFuture (Immediate not_connected false) None [Entered (Wait TheFuture)]) _ 0%nat []
    [make_future (inl not_connected)] [(demo_call, true, None)] eq_refl).
  apply trace_one. split; [|by left].
  exact (FutureApi.step_call _ _ _ _ _ (make_ready_raw not_connected) (Wait TheFuture) eq_refl).
Qed.

Notation demo_proceeds :=
  (@proceeds dtree nat unit demo_profile (fun _ => EmptyString) (fun _ => EmptyString) true demo_driver).

Lemma rejected_proceeds :
  nsteps demo_proceeds 2 (rejected_client (Entered (Wait TheFuture))) (rejected_client Returned).
Proof.
  apply (nsteps_l _ _ _ (rejected_client (Returning RVoid))); [|eapply nsteps_l; [|apply nsteps_O]].
  - refine (future_proceeds _ _ _ _ _ (rejected_client (Entered (Wait TheFuture))) 0%nat _ _ []
      (mkCassFuture (Immediate not_connected false) None [Returning RVoid]) eq_refl _ (or_introl eq_refl)).
    exact (advance_enter _ _ _ _ true (mkCassFuture (Immediate not_connected false) None [Entered (Wait TheFuture)])
      0 (Wait TheFuture) false eq_refl).
  - refine (future_proceeds _ _ _ _ _ (rejected_client (Returning RVoid)) 0%nat _ _ [Replied 0 RVoid]
      (mkCassFuture (Immediate not_connected false) None [Returned]) eq_refl _ (or_introl eq_refl)).
    exact (advance_return _ _ _ _ true (mkCassFuture (Immediate not_connected false) None [Returning RVoid]) 0 RVoid eq_refl).
Qed.
Lemma client_never_stuck_witness :
  (2 <= client_work (rejected_client (Entered (Wait TheFuture))))%nat /\
  Forall (fun x => Forall (fun c => c = Returned) (calls x.1)) (futures (rejected_client Returned)).
Proof.
  destruct rejected_run as [evs Hrun].
  destruct (client_never_stuck demo_profile _ _ true demo_driver 9 evs (rejected_client (Entered (Wait TheFuture)))
    (rejected_client Returned) 2 (Ok tt) Hrun) as [Hwork Hret]; [by intros []|exact rejected_proceeds|].
  split; [exact Hwork|]. apply Forall_lookup. intros i [f o] Hi. eapply Hret; [|exact Hi].
  intros s' Hs. inversion Hs as [? ? ? Ht|? [|[]] ? ? ? ? Hf Hstep]; simplify_eq/=.
  - inversion Ht as [[]|[]|[]|[]]; simplify_eq/=.
  - inversion Hstep as [? [|[]] ? ? Hz|? ? ? ? Hz|? ? ? ? ? ? ? Hz|? [|[]] ? Hz|? [|[]] ? Hz]; simplify_eq/=.
Defined.

End Demo.
