(* ===== verification/Testing.v ===== *)
(** * Support for the integration tests (testing/integration.rs, src/testing.cpp)

    The tests look into objects of the driver: the settings of a cluster, the host that
    answered a request and the hosts it was tried on.  For the latter a request that asks
    for it gets a listener of its own, which the Rust driver calls as the request goes on,
    and which the future keeps. *)

From Stdlib Require Import ZArith Lia String Ascii.
From stdpp Require Import base list strings sorting.
From S2P Require Import Prelude ArgConv Types Errors ConfigValue Inet IpText Cluster Future FutureApi RetryPolicy.

Open Scope Z_scope.

(** ** The settings of a cluster *)

(** [Duration::as_millis]; [Duration::MAX] has [u64::MAX] seconds. *)
Definition as_millis (d : Duration) : Z :=
  match d with Millis ms => ms | INFINITE => (2 ^ 64 - 1) * 1000 + 999 end.

(** [Panic] is the [unwrap] of a null pointer. *)
Definition testing_cluster_get_connect_timeout (cluster_raw : option CassCluster) : outcome Z :=
  match cluster_raw with
  | None => Panic
  | Some cluster => Ret (as_millis (connect_timeout (session_builder cluster)) mod 2 ^ 16)
  end.

Definition testing_cluster_get_port (cluster_raw : option CassCluster) : outcome Z :=
  match cluster_raw with None => Panic | Some cluster => Ret (port cluster) end.

Definition has_nul (s : string) : bool := existsb (fun c => Ascii.eqb c zero) (list_ascii_of_string s).

(** [CString::new] fails on a NUL byte; what is written is the text, or null, and its length. *)
Definition testing_cluster_get_contact_points (cluster_raw : option CassCluster) : outcome (char_ptr * nat) :=
  match cluster_raw with
  | None => Panic
  | Some cluster =>
      let contact_points_string := String.concat "," (contact_points cluster) in
      if has_nul contact_points_string then Ret (None, O)
      else Ret (Some contact_points_string, String.length contact_points_string)
  end.

(** ** The host that answered *)

(** What is written for the future of a request that has been waited for: the text of the
    address of the coordinator, or null, and its length.  The node of a coordinator is the
    Rust driver's.  [Panic] is a missing coordinator, or a NUL byte in the text. *)
Definition testing_future_get_host {QR QE PR Coord : Type} (coordinator : QR -> option Coord)
    (node_ip : Coord -> IpAddr)
    (future_raw : option (Prelude.result (CassError * string) (CassResultValue QR QE PR)))
  : outcome (option (list Z) * nat) :=
  match future_raw with
  | None => Ret (None, O)
  | Some (Ok (QueryResult result)) =>
      match coordinator result with
      | None => Panic
      | Some coordinator =>
          let ip_addr_str := to_string (node_ip coordinator) in
          if existsb (Z.eqb 0) ip_addr_str then Panic else Ret (Some ip_addr_str, length ip_addr_str)
      end
  | Some _ => Ret (None, O)
  end.

(** The only stub that looks at its arguments. *)
Definition cass_cluster_set_cloud_secure_connection_bundle_n (path : char_ptr) (path_length : nat) : outcome CassError :=
  match to_str path path_length with
  | Err _ => Panic
  | Ok zip_file =>
      Ret (if String.eqb zip_file "invalid_filename" then CASS_ERROR_LIB_BAD_PARAMS else CASS_OK)
  end.

Definition cass_cluster_set_cloud_secure_connection_bundle (path : char_ptr) : outcome CassError :=
  let '(path, path_length) := as_len_delimited path in
  cass_cluster_set_cloud_secure_connection_bundle_n path path_length.

(** ** History listeners *)

Record SocketAddr := mkSocketAddr { ip : IpAddr; sock_port : Z }.

Section Listeners.
Context {RequestError RequestAttemptError : Type}.

(** What the driver tells a listener. *)
Inductive history_call :=
| RequestStart
| RequestSuccess (request_id : nat)
| RequestFailed (request_id : nat) (error : RequestError)
| NewSpeculativeFiber (request_id : nat)
| AttemptStart (request_id : nat) (speculative_id : option nat) (node_addr : SocketAddr)
| AttemptSuccess (attempt_id : nat)
| AttemptFailed (attempt_id : nat) (error : RequestAttemptError) (retry_decision : RetryDecision).

(** The trait [HistoryListener]: the methods that return an id, and all of them as
    changes of the listener. *)
Class HistoryListener (L : Type) := {
  log_request_start : L -> nat * L;
  log_request_success : L -> nat -> L;
  log_request_error : L -> nat -> RequestError -> L;
  log_new_speculative_fiber : L -> nat -> nat * L;
  log_attempt_start : L -> nat -> option nat -> SocketAddr -> nat * L;
  log_attempt_success : L -> nat -> L;
  log_attempt_error : L -> nat -> RequestAttemptError -> RetryDecision -> L
}.

Definition log {L} `{HistoryListener L} (c : history_call) (l : L) : L :=
  match c with
  | RequestStart => (log_request_start l).2
  | RequestSuccess i => log_request_success l i
  | RequestFailed i e => log_request_error l i e
  | NewSpeculativeFiber i => (log_new_speculative_fiber l i).2
  | AttemptStart i s a => (log_attempt_start l i s a).2
  | AttemptSuccess i => log_attempt_success l i
  | AttemptFailed i e d => log_attempt_error l i e d
  end.

(** [SleepingHistoryListener], with the milliseconds its callers have slept. *)
Record SleepingHistoryListener := mkSleeping { sleep_time : Z; slept : Z }.

Definition sleeping_attempt_start (l : SleepingHistoryListener) (_ : nat) (_ : option nat) (_ : SocketAddr)
  : nat * SleepingHistoryListener :=
  (O, mkSleeping (sleep_time l) (slept l + sleep_time l)).

#[export] Instance sleeping_listener : HistoryListener SleepingHistoryListener := {|
  log_request_start l := (O, l);
  log_request_success l _ := l;
  log_request_error l _ _ := l;
  log_new_speculative_fiber l _ := (O, l);
  log_attempt_start := sleeping_attempt_start;
  log_attempt_success l _ := l;
  log_attempt_error l _ _ _ := l
|}.

Record RecordingHistoryListener := mkRecording { attempted : list SocketAddr }.

Definition RecordingHistoryListener_new : RecordingHistoryListener := mkRecording [].

Definition get_attempted_hosts (l : RecordingHistoryListener) : list SocketAddr := attempted l.

Definition recording_attempt_start (l : RecordingHistoryListener) (_ : nat) (_ : option nat) (node_addr : SocketAddr)
  : nat * RecordingHistoryListener :=
  (O, mkRecording (attempted l ++ [node_addr])).

#[export] Instance recording_listener : HistoryListener RecordingHistoryListener := {|
  log_request_start l := (O, l);
  log_request_success l _ := l;
  log_request_error l _ _ := l;
  log_new_speculative_fiber l _ := (O, l);
  log_attempt_start := recording_attempt_start;
  log_attempt_success l _ := l;
  log_attempt_error l _ _ _ := l
|}.

(** The listener of a request of [cass_session_execute]. *)
Definition request_listener (record_hosts : bool) : option RecordingHistoryListener :=
  if record_hosts then Some RecordingHistoryListener_new else None.

(** A future with the listener it keeps, if it has one; a ready future has none. *)
Definition attempted_hosts {QR QE PR : Type} (k : @FutureKind QR QE PR) (listener : option RecordingHistoryListener)
  : list SocketAddr :=
  match k, listener with
  | Resolvable _, Some listener => get_attempted_hosts listener
  | _, _ => []
  end.

(** One line for each host; the bytes of the string without its final NUL. *)
Definition testing_future_get_attempted_hosts {QR QE PR : Type}
    (future_raw : option (@FutureKind QR QE PR * option RecordingHistoryListener)) : outcome (list Z) :=
  match future_raw with
  | None => Panic
  | Some (k, listener) =>
      Ret (foldl (fun acc host => acc ++ to_string (ip host) ++ [10]) [] (attempted_hosts k listener))
  end.

(** ** How the tests read it

    [getline] up to the end of the stream, without the empty lines. *)
Fixpoint getlines (line : list Z) (stream : list Z) : list (list Z) :=
  match stream with
  | [] => if bool_decide (line = []) then [] else [line]
  | c :: stream =>
      if c =? 10 then (if bool_decide (line = []) then [] else [line]) ++ getlines [] stream
      else getlines (line ++ [c]) stream
  end.

(** [std::string] from a C string. *)
Fixpoint c_string (l : list Z) : list Z :=
  match l with [] => [] | c :: l => if c =? 0 then [] else c :: c_string l end.

(** [get_attempted_hosts_from_future] before the lines are sorted. *)
Definition hosts_of_text (text : list Z) : list (list Z) := getlines [] (c_string text).

(** The hosts of the attempts, in the order in which the driver made them. *)
Definition attempts (calls : list history_call) : list SocketAddr :=
  omap (fun c => match c with AttemptStart _ _ a => Some a | _ => None end) calls.

Definition listen {L} `{HistoryListener L} (calls : list history_call) (l : L) : L := foldl (fun l c => log c l) l calls.

(** ** The policy that ignores errors *)

Definition IgnoringRetrySession {Error Rest : Type} : @RetrySession Error Rest := {|
  session_state := unit;
  initial_state := tt;
  decide_should_retry _ _ := (IgnoreWriteError, [], tt);
  reset _ := tt
|}.

(** ** Lemmas *)

Lemma listen_records calls l : attempted (listen calls l) = attempted l ++ attempts calls.
Proof.
  revert l. induction calls as [|c calls IH]; intros l; [by rewrite app_nil_r|].
  change (listen (c :: calls) l) with (listen calls (log c l)). rewrite IH.
  destruct c; cbn; try done. by rewrite <- app_assoc.
Qed.

Lemma listen_sleeps calls l :
  slept (listen calls l) = slept l + sleep_time l * Z.of_nat (length (attempts calls)) /\
  sleep_time (listen calls l) = sleep_time l.
Proof.
  revert l. induction calls as [|c calls IH]; intros l; [cbn; split; [lia|done]|].
  change (listen (c :: calls) l) with (listen calls (log c l)). destruct (IH (log c l)) as [-> ->].
  destruct c; cbn -[Z.of_nat Z.add Z.mul]; split; try done. fold (attempts calls). lia.
Qed.

(** The printed addresses, one on each line. *)
Definition lines (l : list (list Z)) : list Z := concat (map (fun x => x ++ [10]) l).

Lemma foldl_lines hosts acc :
  foldl (fun acc host => acc ++ to_string (ip host) ++ [10]) acc hosts =
  acc ++ lines (map (fun h => to_string (ip h)) hosts).
Proof.
  revert acc. induction hosts as [|h hosts IH]; intros acc; cbn; [by rewrite app_nil_r|].
  rewrite IH. unfold lines. by rewrite <- !app_assoc.
Qed.

Definition printable (b : Z) : Prop := in_rng 46 122 b = true.

Lemma getlines_line x line rest : Forall printable x -> getlines line (x ++ rest) = getlines (line ++ x) rest.
Proof.
  intros Hx. revert line. induction Hx as [|b x Hb _ IH]; intros line; [by rewrite app_nil_r|]. cbn.
  unfold printable, in_rng in Hb. destruct (Z.eqb_spec b 10); [lia|]. rewrite IH. by rewrite <- app_assoc.
Qed.

Lemma getlines_lines l : Forall (fun x => Forall printable x /\ x <> []) l -> getlines [] (lines l) = l.
Proof.
  induction 1 as [|x l [Hx Hne] _ IH]; [done|]. unfold lines. cbn. rewrite <- app_assoc, getlines_line by done.
  cbn. rewrite bool_decide_false by done. cbn. f_equal. exact IH.
Qed.

Lemma c_string_all l : Forall (fun b => b <> 0) l -> c_string l = l.
Proof. induction 1 as [|b l Hb _ IH]; [done|]. cbn. destruct (Z.eqb_spec b 0); [done|]. by rewrite IH. Qed.

Lemma lines_no_nul l : Forall (fun x => Forall printable x) l -> Forall (fun b => b <> 0) (lines l).
Proof.
  induction 1 as [|x l Hx _ IH]; [constructor|]. unfold lines. cbn. rewrite !Forall_app. split_and!; [|by repeat constructor|done].
  eapply Forall_impl; [exact Hx|]. intros b. unfold printable, in_rng. lia.
Qed.

Lemma host_lines hosts :
  Forall (fun h => IpAddr_ok (ip h)) hosts ->
  hosts_of_text (lines (map (fun h => to_string (ip h)) hosts)) = map (fun h => to_string (ip h)) hosts.
Proof.
  intros Hok.
  assert (H : Forall (fun x => Forall printable x /\ x <> []) (map (fun h => to_string (ip h)) hosts)).
  { apply Forall_fmap. eapply Forall_impl; [exact Hok|]. intros h Hh. cbn.
    split; [by apply to_string_bytes|by apply to_string_nonempty]. }
  unfold hosts_of_text. rewrite c_string_all; [by apply getlines_lines|].
  apply lines_no_nul. eapply Forall_impl; [exact H|]. by intros x [? _].
Qed.

(** ** Properties *)

(** The tests see every host a request was tried on: whatever the driver reports to the
    listener of a request that records its hosts, the text the future gives reads back to
    the addresses of the attempts, in their order; a request that does not record them, or
    was refused, gives none. *)
Theorem attempted_hosts_read_back {QR QE PR : Type} (k : @FutureKind QR QE PR) (record_hosts : bool)
    (calls : list history_call) :
  Forall (fun h => IpAddr_ok (ip h)) (attempts calls) ->
  exists text,
    testing_future_get_attempted_hosts (Some (k, listen calls <$> request_listener record_hosts)) = Ret text /\
    hosts_of_text text =
      match k with
      | Resolvable _ => if record_hosts then map (fun h => to_string (ip h)) (attempts calls) else []
      | Immediate _ _ => []
      end.
Proof.
  intros Hok. eexists. split; [reflexivity|]. rewrite foldl_lines. cbn [app].
  destruct k, record_hosts; try done. cbn. unfold get_attempted_hosts. rewrite listen_records. by apply host_lines.
Qed.

End Listeners.

(** The host of a result is written whenever the result knows its coordinator. *)
Theorem answering_host_read_back {QR QE PR Coord : Type} (coordinator : QR -> option Coord)
    (node_ip : Coord -> IpAddr) (result : QR) (c : Coord) :
  coordinator result = Some c -> IpAddr_ok (node_ip c) ->
  exists text,
    testing_future_get_host coordinator node_ip (Some (Ok (@QueryResult QR QE PR result))) = Ret (Some text, length text) /\
    IpAddr_from_str text = Some (node_ip c).
Proof.
  intros Hc Hok. exists (to_string (node_ip c)). split; [|by apply from_str_to_string]. unfold testing_future_get_host.
  rewrite Hc. destruct (existsb _ _) eqn:E; [|done]. exfalso. apply existsb_exists in E as (b&Hb&Hz).
  destruct (to_string_bytes _ Hok) as [_ Hall]. rewrite Forall_forall in Hall.
  specialize (Hall b (proj2 (list_elem_of_In _ _) Hb)). unfold in_rng in Hall. lia.
Qed.

(** A request on two hosts, the second tried twice. *)
Definition sample_hosts : list (@history_call unit unit) :=
  let first := mkSocketAddr (V4 [127; 0; 0; 1]) 9042 in
  let second := mkSocketAddr (V4 [10; 0; 0; 2]) 9042 in
  [RequestStart; AttemptStart 0 None first; AttemptFailed 0 tt (RetryNextTarget None);
   AttemptStart 0 None second; AttemptFailed 0 tt (RetrySameTarget None); AttemptStart 0 None second;
   AttemptSuccess 0; RequestSuccess 0].

Lemma attempted_hosts_read_back_witness :
  exists text,
    testing_future_get_attempted_hosts
      (Some (@Resolvable unit unit unit new_from_future, listen sample_hosts <$> request_listener true)) = Ret text /\
    hosts_of_text text = map as_bytes ["127.0.0.1"%string; "10.0.0.2"%string; "10.0.0.2"%string].
Proof.
  apply (attempted_hosts_read_back (@Resolvable unit unit unit new_from_future) true sample_hosts).
  repeat (apply Forall_cons; split; [split; [reflexivity|repeat (constructor; [unfold is_byte; lia|]); constructor]|]).
  constructor.
Defined.
